(* ===== verification/_CoqProject ===== *)
-Q . S2P
Prelude.v
Errors.v
GoLib.v
Encoding.v
Hash.v
Merkle.v
Codec.v
Entry.v
TxTypes.v
BlockTypes.v
PeerSet.v
Connection.v
Float32.v
ConnDelivery.v
SecretConn.v
Link.v
Stack.v
NetAddress.v
AddrBook.v
AddrBookInv.v
AddrBookFile.v
Consensus.v
NodeInfo.v
BanScore.v
TxSync.v
BlockKeeper.v
Fetcher.v
Resolve.v
Switch.v
Join.v
Pex.v
Common.v
BigText.v
ChainState.v
MapTx.v
Chain.v
Protocol.v
Handshake.v
TxWorker.v
Broadcast.v
Dispatch.v
Upnp.v
Listener.v
Genesis.v
Fuzz.v
Config.v
SyncManager.v
Events.v
EventsJson.v
Crypto.v
Node.v
