(* ===== verification/Prelude.v ===== *)
(** * A verification development for btm-stats

    btm-stats is a light node of the Bytom network, written in Go: it speaks the peer-to-peer
    protocol, keeps an address book of peers, fetches and announces blocks and transactions,
    and stores what it learns.  This library models its code and proves what makes it correct.

    ** The program and its model

    The paths are under src/; a definition has the name of the function it models, with the
    type in front where the name alone is ambiguous ([Switch.Peer_PubKey] is [Peer.PubKey]).
    From the bottom up:

    - Prelude.v, GoLib.v: bytes, machine integers, the result monad and automation; of Go's
      standard library what the code uses (fixed-width and variable integers, hexadecimal, copy).
      Other parts of it stand where they are used: net.IP in NetAddress.v, splitting and
      parsing of text in NodeInfo.v.
    - Errors.v: errors/ (wrapped errors with root, stack, detail and data; the sticky writer).
    - Common.v, BigText.v: common/ (hexadecimal, padding, byte and number conversions, 32-byte
      hashes; numbers from text).
    - Encoding.v: encoding/blockchain, the primitives of the wire format.
    - Hash.v, Merkle.v, Entry.v: protocol/bc (hashes and asset identifiers, Merkle roots and
      transaction statuses, the bytes an entry is hashed by).  SHA3 is a parameter.
    - Codec.v, TxTypes.v, BlockTypes.v: protocol/bc/types, the serialisation of transactions,
      headers and blocks.  [Codec] is the interface the readers promise to each other.
    - MapTx.v: protocol/bc/types/map.go, the entries a transaction is identified by, as objects
      of a store, and a reference translation they are compared with.
    - Consensus.v: consensus/general.go, the constants and the coinbase subsidy.
    - ChainState.v: protocol/state and database/leveldb/utxo_view.go, the block index with its
      main chain and the storing of unspent outputs.
    - Chain.v: protocol/ and database/leveldb/store.go, storing blocks, rebuilding the index,
      the start of the chain and the processing of blocks.
    - NetAddress.v, Resolve.v, NodeInfo.v: p2p/netaddress.go and p2p/node_info.go, addresses,
      their predicates, groups and text, and the compatibility of nodes.
    - Crypto.v: crypto/crypto.go, the hash functions over SHA3.
    - Genesis.v: config/genesis.go, the genesis transaction and block.
    - SecretConn.v: p2p/connection/secret_connection.go, the encrypted connection and its
      handshake.  NaCl and ed25519 are parameters.
    - Connection.v, Float32.v, ConnDelivery.v: p2p/connection/connection.go, the multiplexed
      connection; the two-sided system of two connections under any interleaving.
    - Link.v: the buffers between the two, with bufio written out: the stream of bytes that a
      connection of ConnDelivery.v takes for granted.  Stack.v: both together, with the
      handshake before them, as a refinement of ConnDelivery.v.
    - PeerSet.v: p2p/peer_set.go with the aliasing of Go slices, and its refinement of a map.
    - BanScore.v: p2p/trust/banscore.go and the ban decision of netsync/peer.go.
    - Switch.v: p2p/switch.go and the handshake of p2p/peer.go, over the map that PeerSet.v
      refines: joining, dialing, filtering and banning of peers, also by calls at the same time, and the
      reactors' channels.
    - Join.v: the calls of [AddPeer] of p2p/switch.go for several connections, interleaved.
    - AddrBook.v, AddrBookInv.v, AddrBookFile.v: p2p/pex/addrbook.go, know_address.go, param.go, file.go.
    - Pex.v: p2p/pex/pex_reactor.go and pex_message.go, over the switch and a book.
    - Dispatch.v: the rest of p2p/peer.go and p2p/switch.go, and base_reactor.go: services,
      the life of a peer with its connection, and the way of a message to its reactor.
    - Upnp.v, Listener.v, Fuzz.v: p2p/upnp/upnp.go, p2p/listener.go and p2p/fuzz.go, the mapping
      of ports, the listener with its choice of addresses, and connections that misbehave.
    - TxSync.v, BlockKeeper.v, Fetcher.v: netsync/sync.go, peer.go, block_keeper.go, fetcher.go,
      the exchange of transactions and blocks with peers, over a chain that is a parameter.
    - Protocol.v, Handshake.v: netsync/message.go and protocol_reactor.go, the messages and the
      answers to them, and the handshakes of new peers as one state machine.
    - TxWorker.v, Broadcast.v: the worker of block_keeper.go on received transactions, and the
      broadcast of mined blocks of netsync/peer.go.
    - Config.v: config/config.go, the configuration and its paths.
    - SyncManager.v: netsync/handle.go with the wiring of its reactors, the loop that starts
      synchronisations, and version/.
    - Node.v: node/node.go, the node over its chain and its sync manager.
    - Events.v, EventsJson.v: types/events.go over the vendored event switch, cache and mapper.

    How the parts call each other: Node.v starts Chain.v over a store, with the block of
    Genesis.v, and SyncManager.v, which adds to the switch the reactors of Pex.v and Handshake.v,
    a listener of Listener.v and the node's information.  A connection from the listener or a
    dial goes through SecretConn.v and the exchange of NodeInfo.v into the peer set (Switch.v);
    its messages come through Stack.v to Dispatch.v, which finds the reactor,
    and there to Protocol.v or Pex.v, which act on BlockKeeper.v, TxWorker.v, Fetcher.v or the
    address book.

    ** How the code is rendered

    A Go error is a value of [error], nil the [None] of an option; a run-time panic is the [None]
    of an option; a mutex is left out where each method is one step, and a boolean where the
    code locks it twice.  Pointers that are shared are locations of a heap (the address book,
    the block index), slices that are shared an array and a length (the peer set).  Goroutines
    are modelled by the steps of their loops: theorems quantify over every order of them
    (ConnDelivery.v, TxSync.v, TxWorker.v, Fetcher.v, Switch.v, Join.v, Handshake.v, Listener.v), down to
    the points between which another goroutine can come where that shows: between the check of
    a ban and the entry into the peer set, between the end of [Accept] and the test whether the listener
    runs, between the steps of a handshake and of the worker of transactions.  A call that may never
    return has an answer that may be missing, and an outcome that may be to run for ever.  What Go leaves open is an argument and
    every theorem holds for all of it: clocks, random draws, the order of ranging over a map.
    float32 and float64 are SpecFloat's, with rounding to nearest even.

    Code that is not in the repository is a class or a section variable: the libraries (go-wire,
    go-crypto, NaCl, SHA3, protocol buffers, the database, the priority queue), and the functions
    that the repository calls but does not contain.  What is relied upon is in a class of laws
    of the same name ([Sha3Laws], [WireLaws], [PrqueLaws], ...), and each theorem that uses them
    has a witness in which they hold for concrete functions.

    ** What is proved

    - Wire format: every encoding is read back, with what follows it left over
      ([TxData_roundtrip], [Block_text_roundtrip]); what is read from
      untrusted bytes is well-formed ([TxData_read_wellformed]); a false asset identifier is
      refused ([TxInput_rejects_asset]).
    - Commitments: Merkle roots, entry bodies and asset identifiers determine what they commit
      to, or a collision of SHA3 is exhibited ([TxMerkleRoot_binding], [writeForHash_injective],
      [ComputeAssetID_binding], [TxStatusMerkleRoot_binding]).
    - Transport: messages arrive once, in order and unchanged, from connection to connection
      ([connection_delivery]) and through the encrypted stack below them ([stack_delivery]); the
      handshake authenticates and never repeats a nonce ([handshake]); the bytes under a
      connection are a stream ([link_stream]), which frames alone are not ([ReadFull_loses]).
      A received message reaches the reactor of its channel ([messages_reach_reactors]), and a
      peer's connection, set membership and service end together ([peer_lifecycle]).
    - Peers: the peer set refines a map ([PeerSet_refinement]); bans hold, but for connections that
      are past their check when the ban comes, and persist ([ban_enforced], [ban_persists], [ban_threshold]); the limit on messages ([message_limit]),
      the rounds that ask for addresses ([ensurePeers_asks]),
      the choice of addresses to dial ([ensure_dials_safe]); the address book's invariant
      ([book_invariant]), and that it survives crashes and restarts ([book_recovers]); a peer's key is not checked ([AddPeer_claimed_key]).
      When connections join and fail in any order the set has the peers that joined and were not
      removed ([join_set]), unless one fails before it is entered ([dead_peer_blocks]) or shares
      its key with another ([joined_removed]).
    - Synchronisation: a worker processes only what it asked its peer for, and catches up with
      a peer that answers ([worker_asked], [worker_catches_up]); no mined block is imported twice
      ([fetcher_imports_once]); a new peer gets every pending transaction in order, and the loop
      comes to rest ([txsync_delivers], [txsync_rests]); a peer is banned for transactions exactly
      when its score, to which the block keeper and the fetcher add too, says so ([tx_worker_bans]), a mined block goes to those that do not know it
      ([broadcast_mined_block]), and no two synchronisations run at once ([synchronise_once]).  What a node asks another for reaches it
      ([request_served]); only peers with the same genesis block are registered, and
      what is known of them is what they said ([handshake_genesis]), and as the program is wired no more than one is ([handshake_blocks]).
    - Chain: the main chain shows the ancestors of its tip through every reorganisation
      ([mainChain_shows]), unspent outputs are stored and found ([utxo_store]), and the supply
      is bounded below 2^63 ([supply_bound]).  Blocks are read back from the store
      ([SaveBlock_GetBlock]), a restart rebuilds the tree and shows the stored tip's chain
      ([restart_shows]), and processing blocks never lowers the tip ([tip_moves]).
    - The node: its genesis block pays the whole subsidy and commits to itself ([genesis_block]);
      the first start and every later one go on over the same genesis block ([node_start],
      [node_restart]); the reactors, the listener and what the node tells of itself are wired
      as configured ([node_wiring]), so that nodes of one network accept each other
      ([nodes_compatible]); what is started and what is not when a part fails ([node_starts]).
    - The listener hands over what it accepts, once and in order, but for a connection that a
      stop overtakes, and rests after a stop ([listener_delivers], [listener_rests]); the discovery of a gateway
      never panics whatever the network answers, and ends unless a gateway leaves its one unguarded request
      without an answer ([discover_safe]).
    - The event switch refines a registry of callbacks ([switch_registry]); event data are read
      back from the form they are written in ([event_data_roundtrip]).
    - Entries: the translation of a transaction is the reference one and lists its inputs and what
      it spends, whatever order Go ranges over its maps in ([MapTx_entries]); when it panics
      ([mapTx_panics]).
    - Errors in the code are theorems too: they state what the code does, and their comments
      say how that differs from what it means to do.

    ** Fuel and bounds

    Recursion that is not structural has fuel that is shown to suffice: ten bytes for a variable
    integer of 64 bits; the number of leaves for a Merkle tree; the number of events and one for
    a block request worker, each round of which takes an event; the number of queued blocks
    and one for a round of the fetcher, each step of which takes one; the height of a node and
    one for the main chain; the bytes of a read or a write for the loops over buffers.  Two rounds
    are enough for the search for an own address, or it never ends ([naive_external_address]).
    Integers keep their width where it matters ([u64], [i64], [u16]).

    ** Not modelled

    The flags of the command line, logging, deadlines, tickers as clocks, and the closing of
    files and responses are input and output.  Of bc.pb.go, which is generated, the structures
    are modelled and the methods are not.  The transaction pool, the orphans and the block
    cache have no methods in the repository.  JSON texts are not modelled: the saved address
    book is the structure that is encoded, and event data are encoded by parameters.  What
    [big.Int.SetString] leaves in a number when it fails is a parameter. *)
From Stdlib Require Export ZArith Lia.
From stdpp Require Export base list gmap strings pretty numbers.

#[global] Open Scope Z_scope.

(** ** Notation

    Go's [[]byte] and [string] values are both byte sequences; a byte is an
    integer in [0, 256), a restriction that [bytes_ok] states where a theorem
    needs it. *)
Declare Scope go_scope.
Delimit Scope go_scope with go.
#[global] Open Scope go_scope.

Abbreviation bytes := (list Z).
Abbreviation gostring := (list Z).

Definition zlen {A} (l : list A) : Z := Z.of_nat (length l).
Notation "'#' l" := (zlen l) (at level 9, l at level 8, format "# l") : go_scope.

Definition byte_ok (b : Z) : Prop := 0 <= b < 256.
Definition bytes_ok (l : bytes) : Prop := Forall byte_ok l.

(** The bytes of a source literal. *)
Definition str (s : string) : gostring :=
  map (fun c => Z.of_N (Ascii.N_of_ascii c)) (String.list_ascii_of_string s).

(** Machine integers: [wN x] is the value a conversion to or an operation on the
    N-bit unsigned type keeps, [iN] the signed one. *)
Definition wrap (n x : Z) : Z := x mod 2 ^ n.
Abbreviation u8 := (wrap 8).
Abbreviation u16 := (wrap 16).
Abbreviation u32 := (wrap 32).
Abbreviation u64 := (wrap 64).
Definition swrap (n x : Z) : Z := (x + 2 ^ (n - 1)) mod 2 ^ n - 2 ^ (n - 1).
Abbreviation i32 := (swrap 32).
Abbreviation i64 := (swrap 64).

Definition u64_ok (x : Z) : Prop := 0 <= x < 2 ^ 64.

(** ** Results: a value or an error, as a monad. *)
Inductive res (E A : Type) : Type :=
| Ok (a : A)
| Err (e : E).
Arguments Ok {E A} _.
Arguments Err {E A} _.

#[export] Instance res_ret {E} : MRet (res E) := fun A a => Ok a.
#[export] Instance res_bind {E} : MBind (res E) := fun A B f m =>
  match m with Ok a => f a | Err e => Err e end.
#[export] Instance res_fmap {E} : FMap (res E) := fun A B f m =>
  match m with Ok a => Ok (f a) | Err e => Err e end.

Lemma res_bind_ok {E A B} (m : res E A) (f : A -> res E B) b :
  m ≫= f = Ok b <-> exists a, m = Ok a /\ f a = Ok b.
Proof. destruct m as [a|e]; cbn; split; [eauto | by intros (? & [= ->] & ?) | done | by intros (? & ? & ?)]. Qed.

(** A Go run-time panic is the [None] of an option. *)
Abbreviation go_panic := None (only parsing).

(** ** Automation *)
Create HintDb go discriminated.
Create Rewrite HintDb zlen.

(** Splits conjunctions, existentials and pairs in the context and substitutes. *)
Ltac simp :=
  repeat match goal with
  | H : _ /\ _ |- _ => destruct H
  | H : exists _, _ |- _ => destruct H
  | H : Ok _ = Ok _ |- _ => injection H as H; subst
  | H : Err _ = Err _ |- _ => injection H as H; subst
  | H : Some _ = Some _ |- _ => injection H as H; subst
  | H : Ok _ = Err _ |- _ => discriminate H
  | H : Err _ = Ok _ |- _ => discriminate H
  | H : (_, _) = (_, _) |- _ => injection H as H; subst
  end; simplify_eq/=.

(** Case analysis on the scrutinee of the first match or if of the goal. *)
Ltac case_on :=
  match goal with
  | |- context [ if ?b then _ else _ ] => destruct b eqn:?
  | |- context [ match ?x with _ => _ end ] => destruct x eqn:?
  end.

Tactic Notation "case_in" hyp(H) :=
  match type of H with
  | context [ if ?b then _ else _ ] => destruct b eqn:?
  | context [ match ?x with _ => _ end ] => destruct x eqn:?
  end.

(** Case analysis on the decision in the goal, or in a hypothesis. *)
Tactic Notation "goal_decide" :=
  match goal with |- context [ @decide ?P ?D ] => destruct (@decide P D) end.
Tactic Notation "goal_decide" "in" hyp(H) :=
  match type of H with context [ @decide ?P ?D ] => destruct (@decide P D) end.

(** Turns boolean comparisons of Z in the context into propositions. *)
Ltac zbool :=
  repeat match goal with
  | H : (_ <? _) = true |- _ => apply Z.ltb_lt in H
  | H : (_ <? _) = false |- _ => apply Z.ltb_ge in H
  | H : (_ <=? _) = true |- _ => apply Z.leb_le in H
  | H : (_ <=? _) = false |- _ => apply Z.leb_gt in H
  | H : (_ =? _) = true |- _ => apply Z.eqb_eq in H
  | H : (_ =? _) = false |- _ => apply Z.eqb_neq in H
  | H : (_ >? _) = _ |- _ => rewrite Z.gtb_ltb in H
  | H : (_ >=? _) = _ |- _ => rewrite Z.geb_leb in H
  | H : (_ && _)%bool = true |- _ => apply andb_true_iff in H as [? ?]
  | H : (_ || _)%bool = false |- _ => apply orb_false_iff in H as [? ?]
  | H : negb _ = true |- _ => apply negb_true_iff in H
  | H : negb _ = false |- _ => apply negb_false_iff in H
  end.

(** [zbool], splitting the negated conjunctions and the disjunctions as well. *)
Ltac zcases :=
  zbool;
  repeat (match goal with
  | H : (_ && _)%bool = false |- _ => apply andb_false_iff in H as [?|?]
  | H : (_ || _)%bool = true |- _ => apply orb_true_iff in H as [?|?]
  end; zbool).

Ltac zlia := unfold byte_ok, u64_ok, zlen in *; zbool; lia.

(** ** Machine integers *)
Lemma wrap_small n x : 0 <= x < 2 ^ n -> wrap n x = x.
Proof. intros. unfold wrap. by apply Z.mod_small. Qed.

Lemma wrap_range n x : 0 <= n -> 0 <= wrap n x < 2 ^ n.
Proof. intros. unfold wrap. apply Z.mod_pos_bound. by apply Z.pow_pos_nonneg. Qed.

Lemma swrap_small n x : 0 < n -> - 2 ^ (n - 1) <= x < 2 ^ (n - 1) -> swrap n x = x.
Proof.
  intros Hn Hx. unfold swrap. rewrite Z.mod_small; [lia|].
  replace (2 ^ n) with (2 * 2 ^ (n - 1)); [lia|].
  rewrite <- Z.pow_succ_r by lia. f_equal. lia.
Qed.

Lemma swrap_add_l n x y : swrap n (swrap n x + y) = swrap n (x + y).
Proof.
  unfold swrap. f_equal.
  replace ((x + 2 ^ (n - 1)) mod 2 ^ n - 2 ^ (n - 1) + y + 2 ^ (n - 1))
    with ((x + 2 ^ (n - 1)) mod 2 ^ n + y) by lia.
  rewrite Zplus_mod_idemp_l. f_equal. lia.
Qed.

(** ** Lists measured in Z *)
Lemma zlen_nonneg {A} (l : list A) : 0 <= #l.
Proof. unfold zlen. lia. Qed.
Lemma zlen_nil {A} : #(@nil A) = 0.
Proof. done. Qed.
Lemma zlen_cons {A} (x : A) l : #(x :: l) = #l + 1.
Proof. unfold zlen. cbn. lia. Qed.
Lemma zlen_app {A} (l k : list A) : #(l ++ k) = #l + #k.
Proof. unfold zlen. rewrite length_app. lia. Qed.
Lemma zlen_take {A} (l : list A) n : #(take n l) = Z.min (Z.of_nat n) #l.
Proof. unfold zlen. rewrite length_take. lia. Qed.
Lemma zlen_drop {A} (l : list A) n : #(drop n l) = Z.max 0 (#l - Z.of_nat n).
Proof. unfold zlen. rewrite length_drop. lia. Qed.
Lemma zlen_replicate {A} n (x : A) : #(replicate n x) = Z.of_nat n.
Proof. unfold zlen. by rewrite length_replicate. Qed.
Lemma zlen_0 {A} (l : list A) : #l = 0 <-> l = [].
Proof. unfold zlen. split; [destruct l; [done|cbn; lia] | by intros ->]. Qed.
Lemma cons_eq_inv {A} (x y : A) l k : x :: l = y :: k -> x = y /\ l = k.
Proof. by intros [= -> ->]. Qed.
Lemma mjoin_cons {A} (x : list A) l : mjoin (x :: l) = x ++ mjoin l.
Proof. done. Qed.
Lemma take_zlen {A} (l : list A) : take (Z.to_nat #l) l = l.
Proof. unfold zlen. by rewrite Nat2Z.id, firstn_all. Qed.
Lemma drop_zlen {A} (l : list A) : drop (Z.to_nat #l) l = [].
Proof. unfold zlen. by rewrite Nat2Z.id, drop_all. Qed.
Lemma take_zlen_app {A} (l k : list A) : take (Z.to_nat #l) (l ++ k) = l.
Proof. unfold zlen. by rewrite Nat2Z.id, take_app_length. Qed.
Lemma drop_zlen_app {A} (l k : list A) : drop (Z.to_nat #l) (l ++ k) = k.
Proof. unfold zlen. by rewrite Nat2Z.id, drop_app_length. Qed.
#[export] Hint Rewrite @zlen_nil @zlen_cons @zlen_app @zlen_take @zlen_drop @zlen_replicate : zlen.
#[export] Hint Resolve zlen_nonneg : go.

(** ** Bytes *)
Lemma bytes_ok_nil : bytes_ok [].
Proof. constructor. Qed.
Lemma bytes_ok_cons b l : byte_ok b -> bytes_ok l -> bytes_ok (b :: l).
Proof. by constructor. Qed.
Lemma bytes_ok_app l k : bytes_ok (l ++ k) <-> bytes_ok l /\ bytes_ok k.
Proof. unfold bytes_ok. by rewrite Forall_app. Qed.
Lemma bytes_ok_app_2 l k : bytes_ok l -> bytes_ok k -> bytes_ok (l ++ k).
Proof. by rewrite bytes_ok_app. Qed.
Lemma bytes_ok_take n l : bytes_ok l -> bytes_ok (take n l).
Proof. apply Forall_take. Qed.
Lemma bytes_ok_drop n l : bytes_ok l -> bytes_ok (drop n l).
Proof. apply Forall_drop. Qed.
Lemma bytes_ok_zeros n : bytes_ok (replicate n 0).
Proof. apply Forall_replicate. unfold byte_ok. lia. Qed.
#[export] Hint Resolve bytes_ok_nil bytes_ok_cons bytes_ok_app_2 bytes_ok_take
  bytes_ok_drop bytes_ok_zeros : go.

Definition bytes_okb (l : bytes) : bool := forallb (fun b => (0 <=? b) && (b <? 256)) l.
Lemma bytes_okb_ok l : bytes_okb l = true -> bytes_ok l.
Proof.
  unfold bytes_okb, bytes_ok. rewrite forallb_forall, List.Forall_forall.
  intros H b Hb. apply H in Hb. unfold byte_ok. zbool. lia.
Qed.

Lemma str_ok s : bytes_ok (str s).
Proof.
  unfold str, bytes_ok. apply Forall_map, Forall_true. intros c.
  pose proof (Ascii.N_ascii_bounded c). unfold byte_ok. simpl. lia.
Qed.
#[export] Hint Resolve str_ok : go.

(** A decidable fact about every byte, checked on the 256 of them. *)
Lemma byte_forall (P : Z -> bool) :
  forallb P (seqZ 0 256) = true -> forall b, byte_ok b -> P b = true.
Proof.
  intros H b Hb. rewrite forallb_forall in H. apply H.
  apply list_elem_of_In, elem_of_seqZ. unfold byte_ok in Hb. lia.
Qed.

(** Or-ing a shifted value onto bits below the shift adds it. *)
Lemma lor_shiftl_add a b s : 0 <= s -> 0 <= a < 2 ^ s ->
  Z.lor a (Z.shiftl b s) = a + b * 2 ^ s.
Proof.
  intros Hs Ha. rewrite <- Z.shiftl_mul_pow2 by done.
  rewrite <- Z.add_lor_land. enough (Z.land a (Z.shiftl b s) = 0) by lia.
  apply Z.bits_inj'. intros n Hn. rewrite Z.land_spec, Z.bits_0, Z.shiftl_spec by done.
  destruct (Z.lt_ge_cases n s).
  - rewrite (Z.testbit_neg_r b (n - s)) by lia. apply andb_false_r.
  - destruct (decide (a = 0)) as [->|]; [by rewrite Z.bits_0|].
    rewrite (Z.bits_above_log2 a n); [done|lia|].
    apply Z.log2_lt_pow2; [lia|]. eapply Z.lt_le_trans; [apply Ha|].
    apply Z.pow_le_mono_r; lia.
Qed.
