(* ===== verification/Errors.v ===== *)
(** * The errors package: wrapped errors and the sticky error writer

    Models [errors/errors.go], [errors/stack.go] and [errors/writer.go].  A Go
    [error] is a value of [error]; a nil error is the [None] of [option error].
    [EMsg] is an error made by [errors.New] or [fmt.Errorf] (identified by its
    text) and [EWrap] is a [wrapperError].  The [detail] slices are values here:
    two errors derived from one wrapped error do not share a backing array. *)
From S2P Require Import Prelude.

(** ** Data *)

(** [StackFrame] of stack.go. *)
Record StackFrame := mkFrame { Func : gostring; File : gostring; Line : Z }.

#[export] Instance StackFrame_eq_dec : EqDecision StackFrame.
Proof. solve_decision. Defined.

(** The dynamic values the package's [interface{}] arguments hold. *)
Inductive iface :=
| IString (s : gostring)
| IInt (z : Z)
| IBool (b : bool)
| IBytes (b : bytes)
| INil.

#[export] Instance iface_eq_dec : EqDecision iface.
Proof. solve_decision. Defined.

(** An error value; [EWrap] has the fields of [wrapperError]. *)
Inductive error :=
| EMsg (text : gostring)
| EWrap (msg : gostring) (detail : list gostring)
        (data : option (gmap gostring iface)) (stack : list StackFrame) (root : error).

#[export] Instance error_eq_dec : EqDecision error.
Proof. solve_decision. Defined.

(** The Go run time's call stack, as [runtime.Callers] and [runtime.FuncForPC] report it. *)
Class Runtime := {
  Callers : Z -> list Z;
  FuncForPC_Name : Z -> gostring;
  FuncForPC_FileLine : Z -> Z -> gostring * Z;
}.

(** ** [fmt]: what [Wrap] and [Wrapf] use of [Sprint] and [Sprintf] *)

Definition itoa (z : Z) : gostring := str (pretty z).

Definition joinWith (sep : gostring) (l : list gostring) : gostring :=
  match l with
  | [] => []
  | x :: r => x ++ mjoin (map (fun y => sep ++ y) r)
  end.

(** The [%v] form of a value. *)
Definition formatV (v : iface) : gostring :=
  match v with
  | IString s => s
  | IInt z => itoa z
  | IBool b => if b then str "true" else str "false"
  | IBytes b => str "[" ++ joinWith (str " ") (map itoa b) ++ str "]"
  | INil => str "<nil>"
  end.

Definition isIString (v : iface) : bool :=
  match v with IString _ => true | _ => false end.

(** [fmt.Sprint]: a space between two operands when neither is a string. *)
Fixpoint Sprint (a : list iface) : gostring :=
  match a with
  | [] => []
  | [v] => formatV v
  | v :: (w :: _) as r =>
      formatV v ++ (if isIString v || isIString w then [] else str " ") ++ Sprint r
  end.

(** [fmt.Sprintf] for the verbs %v, %d and %s, whose operands are taken in order. *)
Fixpoint Sprintf (format : gostring) (a : list iface) : gostring :=
  match format with
  | 37 :: 37 :: f => 37 :: Sprintf f a
  | 37 :: _ :: f =>
      match a with
      | v :: a' => formatV v ++ Sprintf f a'
      | [] => str "%!(MISSING)" ++ Sprintf f a
      end
  | c :: f => c :: Sprintf f a
  | [] => []
  end.

(** [strings.Join]. *)
Definition Join (a : list gostring) (sep : gostring) : gostring := joinWith sep a.

(** ** stack.go *)

Definition stackTraceSize : Z := 10.

Definition StackFrame_String (f : StackFrame) : gostring :=
  Sprintf (str "%s:%d - %s") [IString (File f); IInt (Line f); IString (Func f)].

Definition Stack (err : option error) : list StackFrame :=
  match err with
  | Some (EWrap _ _ _ stack _) => stack
  | _ => []
  end.

Definition getStack `{Runtime} (skip size : Z) : list StackFrame :=
  map (fun pc =>
         let '(file, line) := FuncForPC_FileLine pc (pc - 1) in
         mkFrame (FuncForPC_Name pc) file line)
      (take (Z.to_nat size) (Callers (skip + 1))).

(** ** errors.go *)

Definition New (text : gostring) : option error := Some (EMsg text).

(** [wrapperError.Error], and the text of a leaf error. *)
Definition Error (e : error) : gostring :=
  match e with EMsg text => text | EWrap msg _ _ _ _ => msg end.

Definition Root (e : option error) : option error :=
  match e with
  | Some (EWrap _ _ _ _ root) => Some root
  | _ => e
  end.

Definition wrap_ `{Runtime} (err : option error) (msg : gostring) (stackSkip : Z) : option error :=
  match err with
  | None => None
  | Some e =>
      let '(wmsg, detail, data, stack, root) :=
        match e with
        | EWrap m d dt s r => (m, d, dt, s, r)
        | EMsg _ => (Error e, [], None, getStack (stackSkip + 2) stackTraceSize, e)
        end in
      let wmsg := if decide (msg <> []) then msg ++ str ": " ++ wmsg else wmsg in
      Some (EWrap wmsg detail data stack root)
  end.

Definition Wrap `{Runtime} (err : option error) (a : list iface) : option error :=
  match err with
  | None => None
  | Some _ => wrap_ err (Sprint a) 1
  end.

Definition Wrapf `{Runtime} (err : option error) (format : gostring) (a : list iface) : option error :=
  match err with
  | None => None
  | Some _ => wrap_ err (Sprintf format a) 1
  end.

(** [e1.detail = append(e1.detail, text)] on the wrapped error [e1]. *)
Definition addDetail (e1 : option error) (text : gostring) : option error :=
  match e1 with
  | Some (EWrap m d dt s r) => Some (EWrap m (d ++ [text]) dt s r)
  | _ => e1
  end.

Definition WithDetail `{Runtime} (err : option error) (text : gostring) : option error :=
  match err with
  | None => None
  | Some _ =>
      if decide (text = []) then err
      else addDetail (wrap_ err text 1) text
  end.

Definition WithDetailf `{Runtime} (err : option error) (format : gostring) (v : list iface) : option error :=
  match err with
  | None => None
  | Some _ =>
      let text := Sprintf format v in
      addDetail (wrap_ err text 1) text
  end.

Definition Detail (err : option error) : gostring :=
  match err with
  | Some (EWrap _ detail _ _ _) => Join detail (str "; ")
  | _ => Join [] (str "; ")
  end.

Definition withData `{Runtime} (err : option error) (v : gmap gostring iface) : option error :=
  match wrap_ err [] 1 with
  | Some (EWrap m d _ s r) => Some (EWrap m d (Some v) s r)
  | e1 => e1
  end.

Definition Data (err : option error) : option (gmap gostring iface) :=
  match err with
  | Some (EWrap _ _ data _ _) => data
  | _ => None
  end.

(** The loop over [keyval]: a key that is not a string, or a key with no value after
    it, is a run-time panic. *)
Fixpoint putKeyvals (newkv : gmap gostring iface) (keyval : list iface) : option (gmap gostring iface) :=
  match keyval with
  | [] => Some newkv
  | IString k :: v :: r => putKeyvals (<[k := v]> newkv) r
  | _ => go_panic
  end.

Definition WithData `{Runtime} (err : option error) (keyval : list iface) : option (option error) :=
  match err with
  | None => Some None
  | Some _ =>
      newkv ← putKeyvals (default ∅ (Data err)) keyval;
      Some (withData err newkv)
  end.

Definition Sub `{Runtime} (root err : option error) : option error :=
  let root' :=
    match err, root with
    | Some (EWrap _ d dt s _), Some r =>
        Some (EWrap (Error r) d dt s (default r (Root root)))
    | _, _ => root
    end in
  match err with
  | None => None
  | Some e => Wrap root' [IString (Error e)]
  end.

(** ** io.Writer and writer.go *)

(** [io.Writer]: a write returns the number of bytes written and an error. *)
Class Writer (W : Type) := Write : bytes -> W -> Z * option error * W.

(** What io.Writer documents: the bytes written are the first [n] of the buffer, and
    [n < len(p)] comes with an error; [written w] is everything the writer took. *)
Class WriterLaws (W : Type) `{Writer W} := {
  written : W -> bytes;
  write_count p w n err w' : Write p w = (n, err, w') -> 0 <= n <= #p;
  write_content p w n err w' :
    Write p w = (n, err, w') -> written w' = written w ++ take (Z.to_nat n) p;
  write_short p w n w' : Write p w = (n, None, w') -> n = #p;
}.

(** [errors.Writer] over a writer of type [W]. *)
Record EWriter (W : Type) := mkEWriter { ew_w : W; ew_n : Z; ew_err : option error }.
Arguments mkEWriter {W} _ _ _.
Arguments ew_w {W} _.
Arguments ew_n {W} _.
Arguments ew_err {W} _.

Definition NewWriter {W} (w : W) : EWriter W := mkEWriter w 0 None.

Definition EWriter_Write `{Writer W} (buf : bytes) (w : EWriter W) : Z * option error * EWriter W :=
  match ew_err w with
  | Some e => (0, Some e, w)
  | None =>
      let '(n, err, w') := Write buf (ew_w w) in
      (n, err, mkEWriter w' (i64 (ew_n w + n)) err)
  end.

Definition EWriter_Err {W} (w : EWriter W) : option error := ew_err w.
Definition Written {W} (w : EWriter W) : Z := ew_n w.

#[export] Instance EWriter_writer `{Writer W} : Writer (EWriter W) := EWriter_Write.

(** A [bytes.Buffer]: every write succeeds in full. *)
#[export] Instance buffer_writer : Writer bytes := fun p w => (#p, None, w ++ p).

(** ** Lemmas *)

(** The root of a wrapped error is never itself a wrapped error. *)
Definition wf_error (e : error) : Prop :=
  match e with EWrap _ _ _ _ (EWrap _ _ _ _ _) => False | _ => True end.

Definition wf_err (e : option error) : Prop :=
  match e with Some e => wf_error e | None => True end.

(** The strings a chain of wraps has recorded as details. *)
Definition details (e : option error) : list gostring :=
  match e with Some (EWrap _ d _ _ _) => d | _ => [] end.

Section lemmas.
Context `{Runtime}.

Lemma wrap_spec e msg k :
  exists m' d dt s,
    wrap_ (Some e) msg k = Some (EWrap m' d dt s (default e (Root (Some e)))) /\
    d = details (Some e) /\ dt = Data (Some e) /\
    m' = (if decide (msg <> []) then msg ++ str ": " ++ Error e else Error e) /\
    (Stack (Some e) = [] \/ s = Stack (Some e)).
Proof. destruct e as [t|m d dt s r]; cbn; case_decide; repeat eexists; eauto. Qed.

Lemma Root_wrap e msg k : Root (wrap_ (Some e) msg k) = Root (Some e).
Proof. destruct e; cbn; done. Qed.

Lemma wf_wrap e msg k : wf_err e -> wf_err (wrap_ e msg k).
Proof. destruct e as [[|????[]]|]; cbn; done. Qed.

Lemma Root_addDetail e t : Root (addDetail e t) = Root e.
Proof. destruct e as [[]|]; done. Qed.

Lemma wf_addDetail e t : wf_err e -> wf_err (addDetail e t).
Proof. destruct e as [[|????[]]|]; done. Qed.

Lemma details_addDetail_wrap e msg k t :
  details (addDetail (wrap_ (Some e) msg k) t) = details (Some e) ++ [t].
Proof. destruct e; done. Qed.
End lemmas.

#[export] Hint Resolve wf_wrap wf_addDetail : go.

(** One annotation of an error by the package's exported functions. *)
Inductive annot :=
| AWrap (a : list iface)
| AWrapf (format : gostring) (a : list iface)
| ADetail (text : gostring)
| ADetailf (format : gostring) (v : list iface)
| AData (kv : gmap gostring iface).

Definition annotate `{Runtime} (e : option error) (a : annot) : option error :=
  match a with
  | AWrap a => Wrap e a
  | AWrapf f a => Wrapf e f a
  | ADetail t => WithDetail e t
  | ADetailf f v => WithDetailf e f v
  | AData kv => withData e kv
  end.

(** The detail strings an annotation adds. *)
Definition annot_details (a : annot) : list gostring :=
  match a with
  | ADetail t => if decide (t = []) then [] else [t]
  | ADetailf f v => [Sprintf f v]
  | _ => []
  end.

(** The text an annotation puts in front of the message. *)
Definition annot_prefix (a : annot) : gostring :=
  let p s := if decide (s <> []) then s ++ str ": " else [] in
  match a with
  | AWrap a => p (Sprint a)
  | AWrapf f a => p (Sprintf f a)
  | ADetail t => p t
  | ADetailf f v => p (Sprintf f v)
  | AData _ => []
  end.

Section annotate_lemmas.
Context `{Runtime}.

Lemma annotate_step e a :
  exists e', annotate (Some e) a = Some e' /\
    Root (Some e') = Root (Some e) /\
    details (Some e') = details (Some e) ++ annot_details a /\
    Error e' = annot_prefix a ++ Error e.
Proof.
  destruct a; cbn; unfold WithDetail, WithDetailf, Wrap, Wrapf, withData;
    repeat case_decide; subst; destruct e; cbn; repeat case_decide; try congruence;
    eexists; repeat split; cbn; rewrite ?app_nil_r, <- ?app_assoc; done.
Qed.

Lemma annotate_keeps_stack e a m d dt s r :
  e = EWrap m d dt s r -> Stack (annotate (Some e) a) = s.
Proof.
  intros ->. destruct a; cbn; unfold WithDetail; repeat case_decide; done.
Qed.
End annotate_lemmas.

(** [run_writes] is a client's sequence of writes: the results and the final writer. *)
Fixpoint run_writes `{Writer W} (bufs : list bytes) (w : W) : list (Z * option error) * W :=
  match bufs with
  | [] => ([], w)
  | b :: bs =>
      let '(n, err, w1) := Write b w in
      let '(rs, w2) := run_writes bs w1 in
      ((n, err) :: rs, w2)
  end.

Section writer_lemmas.
Context `{WriterLaws W}.

Lemma EWriter_Write_inv p (w w' : EWriter W) n err :
  Write p w = (n, err, w') ->
  (exists e, ew_err w = Some e /\ n = 0 /\ err = Some e /\ w' = w) \/
  (ew_err w = None /\ exists u, Write p (ew_w w) = (n, err, u) /\
     w' = mkEWriter u (i64 (ew_n w + n)) err).
Proof.
  change (Write p w) with (EWriter_Write p w). unfold EWriter_Write.
  destruct (ew_err w) as [e|]; [intros [= <- <- <-]; left; eauto|].
  destruct (Write p (ew_w w)) as [[n0 e0] w0] eqn:E. intros [= <- <- <-]. right. eauto.
Qed.

#[export] Program Instance EWriter_laws : WriterLaws (EWriter W) :=
  {| written w := written (ew_w w) |}.
Next Obligation.
  intros p w n err w' [(e & ? & -> & ?)|(? & u & ? & ?)]%EWriter_Write_inv;
    [unfold zlen; lia | by eapply write_count].
Qed.
Next Obligation.
  intros p w n err w' [(e & ? & -> & ? & ->)|(? & u & ? & ->)]%EWriter_Write_inv;
    [by rewrite take_0, app_nil_r | by eapply write_content].
Qed.
Next Obligation.
  intros p w n w' [(e & ? & -> & ? & ->)|(? & u & ? & ->)]%EWriter_Write_inv;
    [done | by eapply write_short].
Qed.

Lemma run_writes_stuck (w : EWriter W) e bufs :
  ew_err w = Some e ->
  run_writes bufs w = (map (fun _ => (0, Some e)) bufs, w).
Proof.
  intros He. induction bufs as [|b bs IH]; [done|]. cbn.
  change (Write b w) with (EWriter_Write b w). unfold EWriter_Write.
  by rewrite He, IH.
Qed.

(** The outcome of a run of writes through a sticky writer that took the bytes
    [content] and counted [k] before it. *)
Definition sticky_outcome (content : bytes) (k : Z) (bufs : list bytes)
    (rs : list (Z * option error)) (w' : EWriter W) : Prop :=
  (rs = map (fun b => (#b, None)) bufs /\ ew_err w' = None /\
   written (ew_w w') = content ++ mjoin bufs /\ ew_n w' = i64 (k + #(mjoin bufs))) \/
  (exists pre b post n e, bufs = pre ++ b :: post /\
   rs = map (fun b => (#b, None)) pre ++ (n, Some e) :: map (fun _ => (0, Some e)) post /\
   ew_err w' = Some e /\
   written (ew_w w') = content ++ mjoin pre ++ take (Z.to_nat n) b /\
   ew_n w' = i64 (k + #(mjoin pre) + n)).

Lemma run_writes_sticky bufs : forall k (w : EWriter W) rs w',
  ew_err w = None -> ew_n w = i64 k -> run_writes bufs w = (rs, w') ->
  sticky_outcome (written (ew_w w)) k bufs rs w'.
Proof.
  induction bufs as [|b bs IH]; cbn; intros k w rs w' Herr Hn Hr.
  { simplify_eq. left. by rewrite app_nil_r, Z.add_0_r. }
  destruct (Write b w) as [[n err] w1] eqn:Hw.
  destruct (run_writes bs w1) as [rs1 w2] eqn:Hrest. simplify_eq.
  pose proof (write_content _ _ _ _ _ Hw) as Hc.
  apply EWriter_Write_inv in Hw as [(e & ? & _)|(_ & u1 & Hu & ->)]; [congruence|]. cbn in *.
  destruct err as [e|].
  - rewrite (run_writes_stuck _ e) in Hrest by done. simplify_eq. right.
    exists [], b, bs, n, e. by rewrite Hn, swrap_add_l, Z.add_0_r.
  - pose proof (write_short _ _ _ _ Hu) as ->.
    assert (i64 (ew_n w + #b) = i64 (k + #b)) as Hk by by rewrite Hn, swrap_add_l.
    destruct (IH _ (mkEWriter u1 _ None) rs1 _ eq_refl Hk Hrest)
      as [(-> & He & Hw2 & Hn2)|(pre & b' & post & n & e & -> & -> & He & Hw2 & Hn2)];
      cbn in *; [left|right; exists (b :: pre), b', post, n, e];
      rewrite Hw2, Hc, Hn2, take_zlen, ?mjoin_cons, zlen_app, <- !app_assoc, !Z.add_assoc;
      by split_and!.
Qed.
End writer_lemmas.

#[export] Program Instance buffer_laws : WriterLaws bytes := {| written w := w |}.
Next Obligation. intros p w n err w' [= <- <- <-]. pose proof (zlen_nonneg p). lia. Qed.
Next Obligation.
  intros p w n err w' [= <- <- <-]. by rewrite take_zlen.
Qed.
Next Obligation. by intros p w n w' [= <- <-]. Qed.

(** ** Properties *)

(** A chain of annotations never changes what [Root] recovers, keeps every detail in
    order and puts each message in front of the ones before it. *)
Theorem annotate_chain `{Runtime} (e : error) (l : list annot) :
  exists e', foldl annotate (Some e) l = Some e' /\
    Root (Some e') = Root (Some e) /\
    Detail (Some e') = Join (details (Some e) ++ mjoin (map annot_details l)) (str "; ") /\
    Error e' = mjoin (rev (map annot_prefix l)) ++ Error e.
Proof.
  enough (exists e', foldl annotate (Some e) l = Some e' /\
    Root (Some e') = Root (Some e) /\
    details (Some e') = details (Some e) ++ mjoin (map annot_details l) /\
    Error e' = mjoin (rev (map annot_prefix l)) ++ Error e)
    as (e' & ? & ? & Hd & ?).
  { exists e'. rewrite <- Hd. by destruct e'. }
  revert e. induction l as [|a l IH]; intros e; cbn [foldl].
  { exists e. by rewrite app_nil_r. }
  destruct (annotate_step e a) as (e1 & Ha & Hr & Hd & Hm). rewrite Ha.
  destruct (IH e1) as (e2 & H1 & H2 & H3 & H4). exists e2.
  rewrite H1, H2, H3, H4, Hr, Hd, Hm. cbn [map rev].
  rewrite join_app, <- !app_assoc. split_and!; [done..|]. cbn. by rewrite app_nil_r.
Qed.

(** The sticky writer passes each write through until the first error and then repeats
    that error without touching the underlying writer; [Written] counts the bytes the
    underlying writer took (as an int64). *)
Theorem EWriter_sticky `{WriterLaws W} (u : W) (bufs : list bytes) :
  let '(rs, w') := run_writes bufs (NewWriter u) in
  (rs = map (fun b => (#b, None)) bufs /\ EWriter_Err w' = None /\
   written (ew_w w') = written u ++ mjoin bufs /\ Written w' = i64 #(mjoin bufs)) \/
  (exists pre b post n e, bufs = pre ++ b :: post /\
     rs = map (fun b => (#b, None)) pre ++ (n, Some e) :: map (fun _ => (0, Some e)) post /\
     EWriter_Err w' = Some e /\
     written (ew_w w') = written u ++ mjoin pre ++ take (Z.to_nat n) b /\
     Written w' = i64 (#(mjoin pre) + n)).
Proof.
  destruct (run_writes bufs (NewWriter u)) as [rs w'] eqn:Hr.
  exact (run_writes_sticky bufs 0 (NewWriter u) rs w' eq_refl eq_refl Hr).
Qed.
