(* ===== verification/GoLib.v ===== *)
(** * The parts of Go's standard library the modelled code uses

    [encoding/binary] (fixed-width integers in both byte orders and varints),
    [encoding/hex], [io] errors and the built-in [copy]. *)
From S2P Require Import Prelude Errors.

(** ** io *)
Definition EOF : error := EMsg (str "EOF").
Definition ErrUnexpectedEOF : error := EMsg (str "unexpected EOF").

(** [copy(dst, src)]: the destination after the copy; the count is [copy_n]. *)
Definition copy_n (dst src : bytes) : nat := length dst `min` length src.
Definition go_copy (dst src : bytes) : bytes :=
  take (length dst) src ++ drop (length src) dst.

(** ** encoding/binary: fixed-width integers *)
Fixpoint le_put (n : nat) (x : Z) : bytes :=
  match n with
  | O => []
  | S n => x mod 256 :: le_put n (x / 256)
  end.

Fixpoint le_get (l : bytes) : Z :=
  match l with
  | [] => 0
  | b :: l => b + 256 * le_get l
  end.

(** [BigEndian.PutUint64] and its smaller forms write [be_put n x] for n bytes. *)
Definition be_put (n : nat) (x : Z) : bytes := reverse (le_put n x).
Definition be_get (l : bytes) : Z := le_get (reverse l).

Lemma length_le_put n x : length (le_put n x) = n.
Proof. revert x. induction n; intros; cbn; auto. Qed.
Lemma length_be_put n x : length (be_put n x) = n.
Proof. unfold be_put. by rewrite length_reverse, length_le_put. Qed.

Lemma le_put_ok n x : bytes_ok (le_put n x).
Proof.
  revert x. induction n as [|n IH]; intros; cbn; constructor; [|apply IH].
  unfold byte_ok. apply Z.mod_pos_bound. lia.
Qed.
Lemma be_put_ok n x : bytes_ok (be_put n x).
Proof. unfold be_put, bytes_ok. apply Forall_reverse, le_put_ok. Qed.
#[export] Hint Resolve le_put_ok be_put_ok : go.

Lemma pow256_S n : 256 ^ Z.of_nat (S n) = 256 * 256 ^ Z.of_nat n.
Proof. rewrite Nat2Z.inj_succ, Z.pow_succ_r; lia. Qed.

Lemma pow256_pos n : 0 < 256 ^ Z.of_nat n.
Proof. apply Z.pow_pos_nonneg; lia. Qed.

Lemma le_get_put n x : le_get (le_put n x) = x mod 256 ^ Z.of_nat n.
Proof.
  revert x. induction n as [|n IH]; intros x; [cbn; by rewrite Z.mod_1_r|].
  cbn [le_get le_put]. rewrite IH, pow256_S.
  rewrite Z.rem_mul_r; [done|lia|apply pow256_pos].
Qed.

Lemma le_get_range l : bytes_ok l -> 0 <= le_get l < 256 ^ #l.
Proof.
  induction 1 as [|b l Hb Hl IH]; [done|].
  cbn [le_get]. unfold byte_ok in Hb. unfold zlen in *. cbn [length].
  rewrite pow256_S. lia.
Qed.

Lemma le_put_get l : bytes_ok l -> le_put (length l) (le_get l) = l.
Proof.
  induction 1 as [|b l Hb Hl IH]; [done|].
  cbn [length le_put le_get]. unfold byte_ok in Hb.
  rewrite (Z.mul_comm 256), Z.mod_add, Z.div_add, Z.mod_small, Z.div_small, Z.add_0_l by lia.
  by rewrite IH.
Qed.

Lemma be_get_put n x : be_get (be_put n x) = x mod 256 ^ Z.of_nat n.
Proof. unfold be_get, be_put. by rewrite reverse_involutive, le_get_put. Qed.

Lemma be_put_get l : bytes_ok l -> be_put (length l) (be_get l) = l.
Proof.
  intros Hl. unfold be_get, be_put.
  rewrite <- (length_reverse l), le_put_get, reverse_involutive; [done|].
  by apply Forall_reverse.
Qed.

Lemma be_get_range l : bytes_ok l -> 0 <= be_get l < 256 ^ #l.
Proof.
  intros Hl. unfold be_get. replace (#l) with (#(reverse l)).
  - by apply le_get_range, Forall_reverse.
  - unfold zlen. by rewrite length_reverse.
Qed.

Lemma be_get_inj l k : bytes_ok l -> bytes_ok k -> length l = length k ->
  be_get l = be_get k -> l = k.
Proof.
  intros Hl Hk Hlen Heq. rewrite <- (be_put_get l), <- (be_put_get k) by done.
  by rewrite Hlen, Heq.
Qed.

Lemma be_put_inj n x y : 0 <= x < 256 ^ Z.of_nat n -> 0 <= y < 256 ^ Z.of_nat n ->
  be_put n x = be_put n y -> x = y.
Proof.
  intros Hx Hy Heq. apply (f_equal be_get) in Heq.
  by rewrite !be_get_put, !Z.mod_small in Heq.
Qed.

(** ** encoding/binary: varints *)
Definition MaxVarintLen64 : nat := 10.
Definition errOverflow : error := EMsg (str "binary: varint overflows a 64-bit integer").

(** The bytes [binary.PutUvarint] writes; [fuel] bounds the number of bytes, ten for a uint64. *)
Fixpoint uvarint_bytes (fuel : nat) (x : Z) : bytes :=
  match fuel with
  | O => []
  | S fuel =>
      if 128 <=? x
      then Z.lor (u8 x) 128 :: uvarint_bytes fuel (Z.shiftr x 7)
      else [u8 x]
  end.

(** [binary.PutUvarint(buf[:], x)] for a buffer of [size] bytes: the bytes written,
    or a panic when they do not fit. *)
Definition PutUvarint (size : nat) (x : Z) : option bytes :=
  let b := uvarint_bytes MaxVarintLen64 x in
  if decide (length b <= size)%nat then Some b else go_panic.

(** [binary.ReadUvarint] over an [io.ByteReader] of type [R]. *)
Section ReadUvarint.
Context {R : Type} (ReadByte : R -> res error Z * R).

Fixpoint ReadUvarint_loop (fuel : nat) (i x s : Z) (r : R) : res error Z * R :=
  match fuel with
  | O => (Err errOverflow, r)
  | S fuel =>
      match ReadByte r with
      | (Err e, r') => (Err (if decide (0 < i /\ e = EOF) then ErrUnexpectedEOF else e), r')
      | (Ok b, r') =>
          if b <? 128 then
            if (i =? 9) && (1 <? b) then (Err errOverflow, r')
            else (Ok (Z.lor x (u64 (Z.shiftl b s))), r')
          else ReadUvarint_loop fuel (i + 1) (Z.lor x (u64 (Z.shiftl (Z.land b 127) s))) (s + 7) r'
      end
  end.

Definition ReadUvarint (r : R) : res error Z * R := ReadUvarint_loop MaxVarintLen64 0 0 0 r.
End ReadUvarint.

(** ** encoding/hex *)
Definition hexchar (d : Z) : Z := if d <? 10 then 48 + d else 87 + d.

Definition fromHexChar (c : Z) : option Z :=
  if (48 <=? c) && (c <=? 57) then Some (c - 48)
  else if (97 <=? c) && (c <=? 102) then Some (c - 97 + 10)
  else if (65 <=? c) && (c <=? 70) then Some (c - 65 + 10)
  else None.

Definition ErrLength : error := EMsg (str "encoding/hex: odd length hex string").
Definition InvalidByteError : error := EMsg (str "encoding/hex: invalid byte").

(** [hex.EncodeToString] and [hex.Encode]. *)
Fixpoint hex_encode (l : bytes) : gostring :=
  match l with
  | [] => []
  | b :: l => hexchar (b / 16) :: hexchar (b mod 16) :: hex_encode l
  end.

(** [hex.Decode] and [hex.DecodeString]: the bytes decoded before an error, and the error. *)
Fixpoint hex_decode (s : gostring) : bytes * option error :=
  match s with
  | [] => ([], None)
  | [c] => ([], Some (match fromHexChar c with Some _ => ErrLength | None => InvalidByteError end))
  | c :: d :: s =>
      match fromHexChar c, fromHexChar d with
      | Some x, Some y => let '(l, err) := hex_decode s in (16 * x + y :: l, err)
      | _, _ => ([], Some InvalidByteError)
      end
  end.

Lemma fromHexChar_hexchar d : 0 <= d < 16 -> fromHexChar (hexchar d) = Some d.
Proof.
  intros Hd. unfold hexchar, fromHexChar. destruct (Z.ltb_spec d 10); repeat case_on; zbool;
    try (f_equal; lia); lia.
Qed.

Lemma hex_decode_encode l : bytes_ok l -> hex_decode (hex_encode l) = (l, None).
Proof.
  induction 1 as [|b l Hb Hl IH]; [done|]. cbn [hex_encode hex_decode].
  unfold byte_ok in Hb.
  rewrite !fromHexChar_hexchar, IH;
    [|apply Z.mod_pos_bound; lia | split; [apply Z.div_pos | apply Z.div_lt_upper_bound]; lia].
  f_equal. f_equal. pose proof (Z.div_mod b 16). lia.
Qed.

Lemma length_hex_encode l : length (hex_encode l) = (2 * length l)%nat.
Proof. induction l; cbn; lia. Qed.

Lemma zlen_hex_encode l : #(hex_encode l) = 2 * #l.
Proof. unfold zlen. rewrite length_hex_encode. lia. Qed.

Lemma fromHexChar_range c d : fromHexChar c = Some d -> 0 <= d < 16.
Proof. unfold fromHexChar. repeat case_on; intros; simplify_eq; zlia. Qed.

Lemma hex_decode_ok s l err : hex_decode s = (l, err) -> bytes_ok l.
Proof.
  remember (length s) as n eqn:Hn. revert s l err Hn.
  induction n as [n IH] using lt_wf_ind. intros [|c [|d s]] l err Hn Hd; cbn in Hd; simplify_eq;
    [constructor|constructor|].
  destruct (fromHexChar c) as [x|] eqn:Hx, (fromHexChar d) as [y|] eqn:Hy; simplify_eq; try constructor.
  destruct (hex_decode s) as [l0 err0] eqn:E. simplify_eq.
  apply fromHexChar_range in Hx, Hy. constructor.
  - unfold byte_ok. lia.
  - eapply (IH (length s)); [cbn; lia|done|exact E].
Qed.
