(* ===== verification/Encoding.v ===== *)
(** * The wire primitives of encoding/blockchain

    Models [encoding/blockchain/blockchain.go] and [encoding/bufpool/bufpool.go].
    A [Reader] is its unread bytes; a read returns a result and the reader after it,
    whether it failed or not.  A write goes to any [Writer] and returns [None] where
    the Go code would panic, else the count, the error and the writer. *)
From S2P Require Import Prelude Errors GoLib.

(** ** Data *)
Definition ErrRange : error := EMsg (str "value out of range").
Definition MaxInt31 : Z := 2147483647.
Definition MaxInt63 : Z := 9223372036854775807.

Abbreviation Reader := (list Z).

Definition NewReader (b : bytes) : Reader := b.
Definition Reader_Len (r : Reader) : Z := #r.

(** A read: a result or an error, and the bytes left. *)
Definition rd (A : Type) : Type := Reader -> res error A * Reader.

#[export] Instance rd_ret : MRet rd := fun A a r => (Ok a, r).
#[export] Instance rd_bind : MBind rd := fun A B f m r =>
  match m r with
  | (Ok a, r') => f a r'
  | (Err e, r') => (Err e, r')
  end.

(** A read that fails with [e] without consuming anything. *)
Definition rd_fail {A} (e : error) : rd A := fun r => (Err e, r).

(** ** Reading *)
Definition ReadByte : rd Z := fun r =>
  match r with
  | [] => (Err EOF, [])
  | b :: r' => (Ok b, r')
  end.

(** [Reader.Read(p)]: the buffer after the read, the count, the error, the reader. *)
Definition Reader_Read (p : bytes) (r : Reader) : bytes * nat * option error * Reader :=
  let n := copy_n p r in
  let r' := drop n r in
  (go_copy p r, n, if decide (r' = []) then Some EOF else None, r').

(** [io.ReadFull(r, buf)] on a [Reader]: one [Read] either fills the buffer or empties
    the reader.  The buffer is returned on failure too, as the caller sees it. *)
Definition ReadFull (buf : bytes) (r : Reader) : bytes * option error * Reader :=
  let '(buf', n, err, r') := Reader_Read buf r in
  if decide (length buf <= n)%nat then (buf', None, r')
  else (buf', Some (if decide (n = 0%nat) then EOF else ErrUnexpectedEOF), r').

(** [io.ReadFull] where the caller drops the buffer on failure. *)
Definition ReadFull_rd (n : nat) : rd bytes := fun r =>
  match ReadFull (replicate n 0) r with
  | (buf, None, r') => (Ok buf, r')
  | (_, Some e, r') => (Err e, r')
  end.

Definition ReadVarint31 : rd Z := fun r =>
  match ReadUvarint ReadByte r with
  | (Err e, r') => (Err e, r')
  | (Ok val, r') => if MaxInt31 <? val then (Err ErrRange, r') else (Ok (u32 val), r')
  end.

Definition ReadVarint63 : rd Z := fun r =>
  match ReadUvarint ReadByte r with
  | (Err e, r') => (Err e, r')
  | (Ok val, r') => if MaxInt63 <? val then (Err ErrRange, r') else (Ok val, r')
  end.

Definition ReadVarstr31 : rd bytes := fun r =>
  match ReadVarint31 r with
  | (Err e, r') => (Err e, r')
  | (Ok l, r') =>
      if l =? 0 then (Ok [], r')
      else if #r' <? l then (Err ErrUnexpectedEOF, r')
      else (Ok (take (Z.to_nat l) r'), drop (Z.to_nat l) r')
  end.

(** The loop of [ReadVarstrList]: an element that fails is appended too (as nil) before
    the loop stops; the count left over is returned with the results. *)
Fixpoint ReadVarstrList_loop (nelts : nat) (result : list bytes) (r : Reader)
    : list bytes * option error * nat * Reader :=
  match nelts with
  | O => (result, None, O, r)
  | S nelts' =>
      match ReadVarstr31 r with
      | (Ok s, r') => ReadVarstrList_loop nelts' (result ++ [s]) r'
      | (Err e, r') => (result ++ [[]], Some e, nelts', r')
      end
  end.

Definition ReadVarstrList (r : Reader) : list bytes * option error * Reader :=
  match ReadVarint31 r with
  | (Err e, r') => ([], Some e, r')
  | (Ok nelts, r') =>
      if nelts =? 0 then ([], None, r')
      else
        let '(result, err, remaining, r'') := ReadVarstrList_loop (Z.to_nat nelts) [] r' in
        let err := if decide (length result < remaining)%nat then Some ErrUnexpectedEOF else err in
        (result, err, r'')
  end.

(** [ReadVarstrList] where the caller drops the elements read before an error. *)
Definition ReadVarstrList_rd : rd (list bytes) := fun r =>
  match ReadVarstrList r with
  | (l, None, r') => (Ok l, r')
  | (_, Some e, r') => (Err e, r')
  end.

(** [f] consumes the string's bytes; what it leaves is the suffix.  What [f] assigns
    through its closure is its result here. *)
Definition ReadExtensibleString {A} (f : rd A) : rd (A * bytes) := fun r =>
  match ReadVarstr31 r with
  | (Err e, r') => (Err e, r')
  | (Ok s, r') =>
      match f (NewReader s) with
      | (Err e, _) => (Err e, r')
      | (Ok a, suffix) => (Ok (a, suffix), r')
      end
  end.

(** ** Writing *)
Section Writing.
Context `{Writer W}.

Definition WriteVarint31 (w : W) (val : Z) : option (Z * option error * W) :=
  if MaxInt31 <? val then Some (0, Some ErrRange, w)
  else
    buf ← PutUvarint 9 val;
    Some (Write buf w).

Definition WriteVarint63 (w : W) (val : Z) : option (Z * option error * W) :=
  if MaxInt63 <? val then Some (0, Some ErrRange, w)
  else
    buf ← PutUvarint 9 val;
    Some (Write buf w).

Definition WriteVarstr31 (w : W) (s : bytes) : option (Z * option error * W) :=
  '(n, err, w') ← WriteVarint31 w (u64 #s);
  match err with
  | Some _ => Some (n, err, w')
  | None => let '(n2, err2, w'') := Write s w' in Some (n + n2, err2, w'')
  end.

Fixpoint WriteVarstrList_loop (l : list bytes) (n : Z) (w : W) : option (Z * option error * W) :=
  match l with
  | [] => Some (n, None, w)
  | s :: l' =>
      '(n2, err, w') ← WriteVarstr31 w s;
      match err with
      | Some _ => Some (n + n2, err, w')
      | None => WriteVarstrList_loop l' (n + n2) w'
      end
  end.

Definition WriteVarstrList (w : W) (l : list bytes) : option (Z * option error * W) :=
  '(n, err, w') ← WriteVarint31 w (u64 #l);
  match err with
  | Some _ => Some (n, err, w')
  | None => WriteVarstrList_loop l n w'
  end.

(** [f] writes into a pooled buffer, which is empty. *)
Definition WriteExtensibleString (w : W) (suffix : bytes)
    (f : bytes -> option (option error * bytes)) : option (Z * option error * W) :=
  '(err, buf) ← f [];
  match err with
  | Some _ => Some (0, err, w)
  | None =>
      if 0 <? #suffix then
        let '(_, err, buf) := Write suffix buf in
        match err with
        | Some _ => Some (0, err, w)
        | None => WriteVarstr31 w buf
        end
      else WriteVarstr31 w buf
  end.
End Writing.

(** [bufpool.CopyBytes]: a fresh slice with the buffer's bytes. *)
Definition bufpool_CopyBytes (buf : bytes) : bytes :=
  let b := buf in
  let b2 := replicate (length b) 0 in
  go_copy b2 b.

(** ** The format: what the writers produce, as functions of the value *)
Definition enc_varint (x : Z) : bytes := uvarint_bytes MaxVarintLen64 x.
Definition enc_varstr (s : bytes) : bytes := enc_varint #s ++ s.
Definition enc_varstrs (l : list bytes) : bytes := enc_varint #l ++ mjoin (map enc_varstr l).

(** ** Varints *)
Lemma varint_hi_byte x :
  128 <= Z.lor (u8 x) 128 < 256 /\ Z.land (Z.lor (u8 x) 128) 127 = x mod 128.
Proof.
  set (c := u8 x). assert (byte_ok c) as Hc by (unfold c, byte_ok, wrap; apply Z.mod_pos_bound; lia).
  assert (c mod 128 = x mod 128) as <-.
  { unfold c, wrap. change (2 ^ 8) with (128 * 2). rewrite Z.rem_mul_r by lia.
    rewrite Z.mul_comm, Z.mod_add, Z.mod_mod by lia. done. }
  pose proof (byte_forall (fun c => (128 <=? Z.lor c 128) && (Z.lor c 128 <? 256) &&
    (Z.land (Z.lor c 128) 127 =? c mod 128)) eq_refl c Hc) as HP.
  cbv beta in HP. zbool. split; [lia|done].
Qed.

(** Reading back the bytes of [x] from the middle of a varint: [acc] holds the low
    [7 * i] bits read so far. *)
Lemma ReadUvarint_loop_enc fuel : forall i acc x rest,
  (0 < fuel)%nat -> i = 10 - Z.of_nat fuel -> 0 <= i -> 0 <= acc < 2 ^ (7 * i) ->
  0 <= x -> acc + x * 2 ^ (7 * i) < 2 ^ 64 ->
  ReadUvarint_loop ReadByte fuel i acc (7 * i) (uvarint_bytes fuel x ++ rest)
    = (Ok (acc + x * 2 ^ (7 * i)), rest).
Proof.
  induction fuel as [|fuel IH]; intros i acc x rest Hf Hi Hi0 Hacc Hx Hb; [lia|].
  assert (0 < 2 ^ (7 * i)) as Hp by (apply Z.pow_pos_nonneg; lia).
  assert (u64 (Z.shiftl (x mod 128) (7 * i)) = Z.shiftl (x mod 128) (7 * i)) as Hw.
  { apply wrap_small. rewrite Z.shiftl_mul_pow2 by lia.
    pose proof (Z.mod_pos_bound x 128). pose proof (Z.mod_le x 128). nia. }
  cbn [uvarint_bytes]. destruct (Z.leb_spec 128 x) as [Hlt|Hge].
  - destruct (varint_hi_byte x) as [Hhi Hlo].
    cbn [app ReadUvarint_loop ReadByte]. destruct (Z.ltb_spec (Z.lor (u8 x) 128) 128); [lia|].
    rewrite Hlo, Hw, lor_shiftl_add by lia.
    rewrite Z.shiftr_div_pow2 by lia. change (2 ^ 7) with 128.
    assert (2 ^ (7 * (i + 1)) = 128 * 2 ^ (7 * i)) as Hpow.
    { replace (7 * (i + 1)) with (7 + 7 * i) by lia. by rewrite Z.pow_add_r by lia. }
    assert (0 < fuel)%nat.
    { destruct fuel; [|lia]. assert (i = 9) as -> by lia. cbn in *. nia. }
    replace (7 * i + 7) with (7 * (i + 1)) by lia.
    pose proof (Z.mod_pos_bound x 128) as Hr. pose proof (Z.div_pos x 128) as Hq.
    assert (x * 2 ^ (7 * i) = x mod 128 * 2 ^ (7 * i) + x / 128 * (128 * 2 ^ (7 * i))) as Hsplit.
    { rewrite (Z.div_mod x 128) at 1 by lia. ring. }
    assert (x mod 128 * 2 ^ (7 * i) <= 127 * 2 ^ (7 * i)).
    { apply Z.mul_le_mono_nonneg_r; lia. }
    assert (0 <= x mod 128 * 2 ^ (7 * i)) by (apply Z.mul_nonneg_nonneg; lia).
    rewrite IH; [f_equal; f_equal|..]; rewrite ?Hpow; lia.
  - rewrite Z.mod_small in Hw by lia.
    cbn [app ReadUvarint_loop ReadByte].
    rewrite (wrap_small 8) by lia. destruct (Z.ltb_spec x 128); [|lia].
    destruct ((i =? 9) && (1 <? x)) eqn:E.
    + zbool. exfalso. replace i with 9 in * by lia. change (2 ^ (7 * 9)) with (2 ^ 63) in *. lia.
    + by rewrite Hw, lor_shiftl_add by lia.
Qed.

Lemma ReadUvarint_enc x rest : u64_ok x ->
  ReadUvarint ReadByte (enc_varint x ++ rest) = (Ok x, rest).
Proof.
  intros Hx. unfold ReadUvarint, u64_ok in *. change 0 with (7 * 0) at 3.
  unfold enc_varint, MaxVarintLen64. rewrite ReadUvarint_loop_enc; cbn; lia || (f_equal; f_equal; lia).
Qed.

Lemma length_uvarint fuel : forall x k, (0 < k)%nat -> 0 <= x < 2 ^ (7 * Z.of_nat k) ->
  (length (uvarint_bytes fuel x) <= k)%nat.
Proof.
  induction fuel as [|fuel IH]; intros x k Hk Hx; cbn [uvarint_bytes]; [cbn; lia|].
  destruct (Z.leb_spec 128 x); [|cbn; lia]. cbn [length].
  destruct k as [|[|k]]; [lia|change (2 ^ (7 * Z.of_nat 1)) with 128 in Hx; lia|].
  apply le_n_S, IH; [lia|]. rewrite Z.shiftr_div_pow2 by lia.
  split; [apply Z.div_pos; lia|]. apply Z.div_lt_upper_bound; [lia|].
  rewrite <- Z.pow_add_r by lia.
  replace (7 + 7 * Z.of_nat (S k)) with (7 * Z.of_nat (S (S k))) by lia. apply Hx.
Qed.

Lemma enc_varint_nonempty x : (0 < length (enc_varint x))%nat.
Proof. unfold enc_varint, MaxVarintLen64. cbn. case_on; cbn; lia. Qed.

Lemma PutUvarint_ok x : 0 <= x <= MaxInt63 -> PutUvarint 9 x = Some (enc_varint x).
Proof.
  intros Hx. unfold PutUvarint. rewrite decide_True; [done|].
  apply length_uvarint; [lia|]. change (2 ^ (7 * Z.of_nat 9)) with (2 ^ 63).
  unfold MaxInt63 in Hx. lia.
Qed.

Lemma uvarint_bytes_ok fuel x : 0 <= x -> bytes_ok (uvarint_bytes fuel x).
Proof.
  revert x. induction fuel as [|fuel IH]; intros x Hx; cbn; [constructor|].
  destruct (Z.leb_spec 128 x); constructor.
  - pose proof (varint_hi_byte x). unfold byte_ok. lia.
  - apply IH. rewrite Z.shiftr_div_pow2 by lia. apply Z.div_pos; lia.
  - apply (wrap_range 8). lia.
  - constructor.
Qed.

(** ** Reading the format back *)
Lemma ReadVarint63_enc x rest : 0 <= x <= MaxInt63 ->
  ReadVarint63 (enc_varint x ++ rest) = (Ok x, rest).
Proof.
  intros Hx. unfold ReadVarint63, MaxInt63 in *.
  rewrite ReadUvarint_enc by (unfold u64_ok; lia). by case_on; zbool; [lia|].
Qed.

Lemma ReadVarint31_enc x rest : 0 <= x <= MaxInt31 ->
  ReadVarint31 (enc_varint x ++ rest) = (Ok x, rest).
Proof.
  intros Hx. unfold ReadVarint31, MaxInt31 in *.
  rewrite ReadUvarint_enc by (unfold u64_ok; lia). case_on; zbool; [lia|].
  by rewrite wrap_small by lia.
Qed.

Lemma ReadVarstr31_enc s rest : #s <= MaxInt31 ->
  ReadVarstr31 (enc_varstr s ++ rest) = (Ok s, rest).
Proof.
  intros Hs. unfold ReadVarstr31, enc_varstr. rewrite <- app_assoc, ReadVarint31_enc.
  2: { pose proof (zlen_nonneg s). lia. }
  case_on; zbool; [by apply zlen_0 in Heqb as ->|].
  rewrite zlen_app. case_on; zbool; [pose proof (zlen_nonneg rest); lia|].
  by rewrite take_zlen_app, drop_zlen_app.
Qed.

Lemma ReadVarstrList_loop_enc l : forall acc rest,
  Forall (fun s => #s <= MaxInt31) l ->
  ReadVarstrList_loop (length l) acc (mjoin (map enc_varstr l) ++ rest)
    = (acc ++ l, None, 0%nat, rest).
Proof.
  induction l as [|s l IH]; intros acc rest Hl; [cbn; by rewrite app_nil_r|].
  apply Forall_cons_1 in Hl as [Hs Hl]. cbn [length ReadVarstrList_loop map].
  rewrite mjoin_cons, <- app_assoc, ReadVarstr31_enc by done. rewrite IH by done.
  by rewrite <- app_assoc.
Qed.

Lemma ReadVarstrList_enc l rest :
  #l <= MaxInt31 -> Forall (fun s => #s <= MaxInt31) l ->
  ReadVarstrList (enc_varstrs l ++ rest) = (l, None, rest).
Proof.
  intros Hn Hl. unfold ReadVarstrList, enc_varstrs. pose proof (zlen_nonneg l).
  rewrite <- app_assoc, ReadVarint31_enc by lia. case_on; zbool.
  - by apply zlen_0 in Heqb as ->.
  - unfold zlen at 1. rewrite Nat2Z.id, ReadVarstrList_loop_enc by done.
    by rewrite decide_False by lia.
Qed.

Lemma ReadVarstrList_rd_enc l rest :
  #l <= MaxInt31 -> Forall (fun s => #s <= MaxInt31) l ->
  ReadVarstrList_rd (enc_varstrs l ++ rest) = (Ok l, rest).
Proof. intros. unfold ReadVarstrList_rd. by rewrite ReadVarstrList_enc. Qed.

Lemma ReadExtensibleString_enc {A} (f : rd A) s a suffix rest :
  #s <= MaxInt31 -> f s = (Ok a, suffix) ->
  ReadExtensibleString f (enc_varstr s ++ rest) = (Ok (a, suffix), rest).
Proof.
  intros Hs Hf. unfold ReadExtensibleString, NewReader.
  by rewrite ReadVarstr31_enc, Hf.
Qed.

Lemma ReadFull_app n p rest : length p = n ->
  ReadFull (replicate n 0) (p ++ rest) = (p, None, rest).
Proof.
  intros <-. unfold ReadFull, Reader_Read, copy_n, go_copy.
  rewrite length_replicate, length_app, Nat.min_l by lia.
  rewrite decide_True by lia. rewrite take_app_length, drop_app_length.
  by rewrite drop_ge, app_nil_r by (rewrite length_replicate; lia).
Qed.

Lemma ReadFull_rd_app n p rest : length p = n ->
  ReadFull_rd n (p ++ rest) = (Ok p, rest).
Proof. intros. unfold ReadFull_rd. by rewrite ReadFull_app. Qed.

Lemma ReadFull_short n r : (length r < n)%nat ->
  ReadFull (replicate n 0) r =
    (r ++ replicate (n - length r) 0, Some (if decide (length r = 0%nat) then EOF else ErrUnexpectedEOF), []).
Proof.
  intros Hn. unfold ReadFull, Reader_Read, copy_n, go_copy.
  rewrite length_replicate, Nat.min_r by lia.
  rewrite decide_False, drop_all, take_ge, drop_replicate by lia. done.
Qed.

(** ** Writing the format *)

(** [took w o p]: the write [o] on [w] did not panic and handed [p] to the writer, all
    of it unless it reports an error. *)
Definition took `{WriterLaws W} (w : W) (o : option (Z * option error * W)) (p : bytes) : Prop :=
  exists n err w', o = Some (n, err, w') /\ 0 <= n <= #p /\
    written w' = written w ++ take (Z.to_nat n) p /\ (err = None -> n = #p).

Section took_lemmas.
Context `{WriterLaws W}.
Implicit Types w : W.

Lemma took_Write w p : took w (Some (Write p w)) p.
Proof.
  destruct (Write p w) as [[n err] w'] eqn:E. exists n, err, w'.
  split; [done|]. split; [by eapply write_count|]. split; [by eapply write_content|].
  intros ->. by eapply write_short.
Qed.

(** Two writes one after the other, the second only if the first succeeds. *)
Lemma took_seq w o p q (k : Z -> W -> option (Z * option error * W)) :
  took w o p ->
  (forall w', exists o2, took w' o2 q /\ forall n, k n w' = ('(n2, e, w2) ← o2; Some (n + n2, e, w2))) ->
  took w ('(n, err, w') ← o; match err with Some _ => Some (n, err, w') | None => k n w' end) (p ++ q).
Proof.
  intros (n & err & w' & -> & Hn & Hw & Hall) Hk. cbn. destruct err as [e|].
  - exists n, (Some e), w'. rewrite zlen_app. pose proof (zlen_nonneg q).
    split; [done|]. split; [lia|]. split; [|done].
    rewrite Hw, take_app_le; [done|]. unfold zlen in Hn. lia.
  - specialize (Hall eq_refl) as ->.
    destruct (Hk w') as (o2 & (n2 & e2 & w2 & -> & Hn2 & Hw2 & Hall2) & ->). cbn.
    exists (#p + n2), e2, w2. rewrite zlen_app. split; [done|]. split; [lia|].
    split; [|intros; rewrite Hall2 by done; lia].
    rewrite Hw2, Hw, take_zlen, <- app_assoc. f_equal.
    rewrite Z2Nat.inj_add by (pose proof (zlen_nonneg p); lia).
    unfold zlen. rewrite Nat2Z.id. by rewrite take_app_add.
Qed.

Lemma took_Varint31 w x : 0 <= x <= MaxInt31 -> took w (WriteVarint31 w x) (enc_varint x).
Proof.
  intros Hx. unfold WriteVarint31, MaxInt31 in *. case_on; zbool; [lia|].
  rewrite PutUvarint_ok by (unfold MaxInt63; lia). apply took_Write.
Qed.

Lemma took_Varint63 w x : 0 <= x <= MaxInt63 -> took w (WriteVarint63 w x) (enc_varint x).
Proof.
  intros Hx. unfold WriteVarint63, MaxInt63 in *. case_on; zbool; [lia|].
  rewrite PutUvarint_ok by (unfold MaxInt63; lia). apply took_Write.
Qed.

Lemma took_Varstr31 w s : #s <= MaxInt31 -> took w (WriteVarstr31 w s) (enc_varstr s).
Proof.
  intros Hs. unfold WriteVarstr31, enc_varstr. pose proof (zlen_nonneg s).
  rewrite wrap_small by (unfold MaxInt31 in *; lia).
  apply took_seq; [by apply took_Varint31|]. intros w'. eexists.
  split; [apply took_Write|]. intros n. by destruct (Write s w') as [[n2 e2] w2].
Qed.

Lemma WriteVarstrList_loop_shift l : forall n w,
  WriteVarstrList_loop l n w = ('(n2, e, w2) ← WriteVarstrList_loop l 0 w; Some (n + n2, e, w2)).
Proof.
  induction l as [|s l IH]; intros n w; cbn; [by rewrite Z.add_0_r|].
  destruct (WriteVarstr31 w s) as [[[n1 [e|]] w1]|]; cbn; [done| |done].
  rewrite (IH (n + n1)), (IH n1).
  destruct (WriteVarstrList_loop l 0 w1) as [[[??]?]|]; cbn; [|done].
  by rewrite Z.add_assoc.
Qed.

Lemma took_Varstrs_loop l : forall w, Forall (fun s => #s <= MaxInt31) l ->
  took w (WriteVarstrList_loop l 0 w) (mjoin (map enc_varstr l)).
Proof.
  induction l as [|s l IH]; intros w Hl; cbn.
  - exists 0, None, w. cbn. by rewrite app_nil_r.
  - apply Forall_cons_1 in Hl as [Hs Hl].
    apply (took_seq w _ _ _ (WriteVarstrList_loop l)); [by apply took_Varstr31|].
    intros w'. exists (WriteVarstrList_loop l 0 w'). split; [by apply IH|].
    intros n. apply WriteVarstrList_loop_shift.
Qed.

Lemma took_VarstrList w l : #l <= MaxInt31 -> Forall (fun s => #s <= MaxInt31) l ->
  took w (WriteVarstrList w l) (enc_varstrs l).
Proof.
  intros Hn Hl. unfold WriteVarstrList, enc_varstrs. pose proof (zlen_nonneg l).
  rewrite wrap_small by (unfold MaxInt31 in *; lia).
  apply (took_seq w _ _ _ (WriteVarstrList_loop l)); [by apply took_Varint31|].
  intros w'. exists (WriteVarstrList_loop l 0 w'). split; [by apply took_Varstrs_loop|].
  intros n. apply WriteVarstrList_loop_shift.
Qed.
End took_lemmas.

(** ** Readers only move forward *)
Definition consuming {A} (m : rd A) : Prop := forall r, suffix (m r).2 r.

Lemma suffix_drop {A} n (l : list A) : suffix (drop n l) l.
Proof. exists (take n l). by rewrite take_drop. Qed.
Lemma suffix_nil_l {A} (l : list A) : suffix [] l.
Proof. exists l. by rewrite app_nil_r. Qed.
#[export] Hint Resolve suffix_drop suffix_nil_l : go.

Lemma consuming_ret {A} (a : A) : consuming (mret a).
Proof. by intros r. Qed.

Lemma consuming_bind {A B} (m : rd A) (f : A -> rd B) :
  consuming m -> (forall a, consuming (f a)) -> consuming (m ≫= f).
Proof.
  intros Hm Hf r. specialize (Hm r). unfold mbind, rd_bind.
  destruct (m r) as [[a|e] r'] eqn:E; [|done].
  etrans; [apply Hf|done].
Qed.

Lemma consuming_fail {A} e : consuming (@rd_fail A e).
Proof. by intros r. Qed.

Lemma consuming_ReadByte : consuming ReadByte.
Proof. intros [|b r]; cbn; [done|]. by exists [b]. Qed.

Lemma consuming_ReadUvarint : consuming (ReadUvarint ReadByte).
Proof.
  unfold ReadUvarint. generalize MaxVarintLen64 as fuel. generalize 0 at 1 as i.
  generalize 0 at 1 as x. generalize 0 as s.
  intros s x i fuel. revert s x i. induction fuel as [|fuel IH]; intros s x i r; cbn; [done|].
  destruct r as [|b r]; cbn; [done|].
  repeat case_on; cbn; try (by exists [b]).
  etrans; [apply IH|by exists [b]].
Qed.

Lemma consuming_ReadVarint31 : consuming ReadVarint31.
Proof.
  intros r. pose proof (consuming_ReadUvarint r) as H. unfold ReadVarint31.
  destruct (ReadUvarint ReadByte r) as [[v|e] r']; [case_on|]; done.
Qed.

Lemma consuming_ReadVarint63 : consuming ReadVarint63.
Proof.
  intros r. pose proof (consuming_ReadUvarint r) as H. unfold ReadVarint63.
  destruct (ReadUvarint ReadByte r) as [[v|e] r']; [case_on|]; done.
Qed.

Lemma consuming_ReadVarstr31 : consuming ReadVarstr31.
Proof.
  intros r. pose proof (consuming_ReadVarint31 r) as H. unfold ReadVarstr31.
  destruct (ReadVarint31 r) as [[v|e] r']; [repeat case_on|]; cbn in *; try done.
  etrans; [apply suffix_drop|done].
Qed.

Lemma ReadVarstrList_loop_suffix n : forall acc r, suffix (ReadVarstrList_loop n acc r).2 r.
Proof.
  induction n as [|n IH]; intros acc r; cbn; [done|].
  pose proof (consuming_ReadVarstr31 r) as H.
  destruct (ReadVarstr31 r) as [[v|e] r']; cbn in *; [etrans; [apply IH|done]|done].
Qed.

Lemma ReadVarstrList_suffix r : suffix (ReadVarstrList r).2 r.
Proof.
  unfold ReadVarstrList. pose proof (consuming_ReadVarint31 r) as H.
  destruct (ReadVarint31 r) as [[v|e] r']; cbn in *; [|done]. case_on; [done|].
  pose proof (ReadVarstrList_loop_suffix (Z.to_nat v) [] r') as H2.
  destruct (ReadVarstrList_loop _ _ _) as [[[??]?] r'']; cbn in *. by etrans.
Qed.

Lemma consuming_ReadVarstrList_rd : consuming ReadVarstrList_rd.
Proof.
  intros r. pose proof (ReadVarstrList_suffix r) as H. unfold ReadVarstrList_rd.
  by destruct (ReadVarstrList r) as [[l [e|]] r'].
Qed.

Lemma consuming_ReadExtensibleString {A} (f : rd A) : consuming (ReadExtensibleString f).
Proof.
  intros r. pose proof (consuming_ReadVarstr31 r) as H. unfold ReadExtensibleString.
  destruct (ReadVarstr31 r) as [[s|e] r']; cbn in *; [|done].
  by destruct (f (NewReader s)) as [[a|e] ?].
Qed.

Lemma ReadFull_suffix buf r : suffix (ReadFull buf r).2 r.
Proof. unfold ReadFull, Reader_Read. case_decide; cbn; apply suffix_drop. Qed.

Lemma consuming_ReadFull_rd n : consuming (ReadFull_rd n).
Proof.
  intros r. pose proof (ReadFull_suffix (replicate n 0) r) as H. unfold ReadFull_rd.
  by destruct (ReadFull _ r) as [[b [e|]] r'].
Qed.

#[export] Hint Resolve consuming_ret consuming_fail consuming_ReadByte consuming_ReadVarint31
  consuming_ReadVarint63 consuming_ReadVarstr31 consuming_ReadVarstrList_rd
  consuming_ReadExtensibleString consuming_ReadFull_rd : go.

(** The bytes a successful read used up, in front of what it left. *)
Lemma consuming_ok {A} (m : rd A) r a r' : consuming m -> m r = (Ok a, r') ->
  exists p, r = p ++ r' /\ #r = #p + #r'.
Proof.
  intros Hm Hr. destruct (Hm r) as [p Hp]. rewrite Hr in Hp. cbn in Hp.
  exists p. split; [done|]. by rewrite Hp, zlen_app.
Qed.

Lemma ReadVarstrList_loop_inv n : forall acc r res err k r',
  ReadVarstrList_loop n acc r = (res, err, k, r') ->
  (err = None /\ k = 0%nat /\ ReadVarstrList_loop n acc r = (res, None, 0%nat, r')) \/
  (exists good r2 e0, ReadVarstrList_loop (length good) acc r = (acc ++ good, None, 0%nat, r2) /\
     ReadVarstr31 r2 = (Err e0, r') /\ res = acc ++ good ++ [[]] /\ err = Some e0 /\
     (length good + 1 + k = n)%nat).
Proof.
  induction n as [|n IH]; intros acc r res err k r' Hl; cbn [ReadVarstrList_loop] in Hl.
  { simplify_eq. by left. }
  destruct (ReadVarstr31 r) as [[s|e] r1] eqn:E.
  - destruct (IH _ _ _ _ _ _ Hl) as [(-> & -> & Hok)|(good & r2 & e0 & Hg & Hs & -> & -> & Hk)].
    + left. cbn [ReadVarstrList_loop]. by rewrite E.
    + right. exists (s :: good), r2, e0. cbn [length ReadVarstrList_loop]. rewrite E, Hg, Hs.
      rewrite <- !app_assoc. split_and!; [done..|lia].
  - simplify_eq. right. exists [], r, e. cbn. rewrite app_nil_r. split_and!; [done..|lia].
Qed.

(** ** Properties *)

(** A varint63 the writer takes without error occupies at most nine bytes and reads back
    as itself, whatever follows it; writing never panics, and fails with ErrRange exactly
    for the values above MaxInt64, which are written not at all. *)
Theorem Varint63_roundtrip `{WriterLaws W} (w : W) (v : Z) (rest : bytes) : u64_ok v ->
  (MaxInt63 < v /\ WriteVarint63 w v = Some (0, Some ErrRange, w)) \/
  (v <= MaxInt63 /\ exists n err w' p,
     WriteVarint63 w v = Some (n, err, w') /\ #p <= 9 /\
     written w' = written w ++ take (Z.to_nat n) p /\
     (err = None -> written w' = written w ++ p) /\
     ReadVarint63 (p ++ rest) = (Ok v, rest)).
Proof.
  intros Hv. unfold u64_ok in Hv. destruct (Z.le_gt_cases v MaxInt63) as [Hle|Hgt]; [right|left].
  - split; [done|]. destruct (took_Varint63 w v) as (n & err & w' & Hw & Hn & Hc & Hall); [lia|].
    exists n, err, w', (enc_varint v). split; [done|]. split.
    { assert (length (enc_varint v) <= 9)%nat; [|unfold zlen; lia].
      apply length_uvarint; [lia|]. unfold MaxInt63 in Hle. cbn. lia. }
    split; [done|]. split; [|apply ReadVarint63_enc; lia].
    intros He. by rewrite Hc, (Hall He), take_zlen.
  - split; [done|]. unfold WriteVarint63. by case_on; zbool; [|lia].
Qed.

Lemma Varint63_roundtrip_witness :
  (MaxInt63 < 300 /\ WriteVarint63 ([] : bytes) 300 = Some (0, Some ErrRange, [])) \/
  (300 <= MaxInt63 /\ exists n err w' p,
     WriteVarint63 ([] : bytes) 300 = Some (n, err, w') /\ #p <= 9 /\
     w' = [] ++ take (Z.to_nat n) p /\ (err = None -> w' = [] ++ p) /\
     ReadVarint63 (p ++ [1]) = (Ok 300, [1])).
Proof. apply (@Varint63_roundtrip bytes _ buffer_laws [] 300 [1]). vm_compute. by split. Defined.

(** A list of strings written without error reads back as itself. *)
Theorem VarstrList_roundtrip `{WriterLaws W} (w w' : W) (l : list bytes) (n : Z) (rest : bytes) :
  #l <= MaxInt31 -> Forall (fun s => #s <= MaxInt31) l ->
  WriteVarstrList w l = Some (n, None, w') ->
  exists p, written w' = written w ++ p /\ n = #p /\
    ReadVarstrList (p ++ rest) = (l, None, rest).
Proof.
  intros Hn Hl Hw. destruct (took_VarstrList w l Hn Hl) as (n' & err & w2 & Hw2 & _ & Hc & Hall).
  rewrite Hw in Hw2. simplify_eq. exists (enc_varstrs l). rewrite Hc, Hall, take_zlen by done.
  split_and!; [done..|]. by apply ReadVarstrList_enc.
Qed.

Lemma VarstrList_roundtrip_witness :
  exists p, ([7; 2; 2; 5; 5; 0] : bytes) = [7] ++ p /\ 5 = #p /\
    ReadVarstrList (p ++ [9]) = ([[5; 5]; []], None, [9]).
Proof.
  apply (@VarstrList_roundtrip bytes _ buffer_laws [7] [7; 2; 2; 5; 5; 0] [[5; 5]; []] 5 [9]);
    [vm_compute; discriminate | repeat constructor; vm_compute; discriminate | reflexivity].
Defined.

(** An extensible string: what [f] wrote, then the suffix, come back as [g]'s result on
    its own bytes and the suffix it did not consume. *)
Theorem ExtensibleString_roundtrip `{WriterLaws W} {A} (w w' : W)
    (f : bytes -> option (option error * bytes)) (g : rd A) p suffix a n rest :
  f [] = Some (None, p) -> g (p ++ suffix) = (Ok a, suffix) -> #(p ++ suffix) <= MaxInt31 ->
  WriteExtensibleString w suffix f = Some (n, None, w') ->
  exists q, written w' = written w ++ q /\ n = #q /\
    ReadExtensibleString g (q ++ rest) = (Ok (a, suffix), rest).
Proof.
  intros Hf Hg Hlen Hw.
  assert (WriteVarstr31 w (p ++ suffix) = Some (n, None, w')) as Hstr.
  { rewrite <- Hw. unfold WriteExtensibleString. rewrite Hf. cbn. case_on; [done|]. zbool.
    pose proof (zlen_nonneg suffix). assert (suffix = []) as -> by (apply zlen_0; lia).
    by rewrite app_nil_r. }
  destruct (took_Varstr31 w (p ++ suffix) Hlen) as (n' & err & w2 & Hw2 & _ & Hc & Hall).
  rewrite Hstr in Hw2. simplify_eq. exists (enc_varstr (p ++ suffix)).
  rewrite Hc, Hall, take_zlen by done. split_and!; [done..|].
  by apply ReadExtensibleString_enc.
Qed.

Lemma ExtensibleString_roundtrip_witness :
  exists q, ([2; 5; 9] : bytes) = [] ++ q /\ 3 = #q /\
    ReadExtensibleString ReadVarint63 (q ++ [1]) = (Ok (5, [9]), [1]).
Proof.
  apply (@ExtensibleString_roundtrip bytes _ buffer_laws Z [] [2; 5; 9]
           (fun buf => Some (None, buf ++ [5])) ReadVarint63 [5] [9] 5 3 [1]);
    [reflexivity | reflexivity | vm_compute; discriminate | reflexivity].
Defined.

(** How [ReadVarstrList] fails once the count was read: it returns the elements before the
    one that failed and an empty one for it, and its error is that element's unless fewer
    elements were returned than remained to be read, when it is ErrUnexpectedEOF. *)
Theorem ReadVarstrList_error (r r1 r' : Reader) (nelts : Z) result e :
  ReadVarint31 r = (Ok nelts, r1) -> ReadVarstrList r = (result, Some e, r') ->
  exists good r2 e0,
    ReadVarstrList_loop (length good) [] r1 = (good, None, 0%nat, r2) /\
    ReadVarstr31 r2 = (Err e0, r') /\ result = good ++ [[]] /\
    e = (if #good + 1 <? nelts - (#good + 1) then ErrUnexpectedEOF else e0).
Proof.
  intros Hn Hr. unfold ReadVarstrList in Hr. rewrite Hn in Hr.
  destruct (nelts =? 0) eqn:E0; [done|].
  destruct (ReadVarstrList_loop (Z.to_nat nelts) [] r1) as [[[res err] remaining] r3] eqn:Hl.
  injection Hr as <- He <-.
  destruct (ReadVarstrList_loop_inv _ [] _ _ _ _ _ Hl) as [(-> & -> & _)|(good & r2 & e0 & Hg & Hs & -> & -> & Hk)].
  { by rewrite decide_False in He by lia. }
  exists good, r2, e0. split_and!; [done..|]. cbn in *. rewrite length_app in He. cbn in He.
  unfold zlen. repeat case_decide; case_on; zbool; simplify_eq; done || lia.
Qed.

Lemma ReadVarstrList_error_witness :
  exists good r2 e0,
    ReadVarstrList_loop (length good) [] [1; 65; 2; 66] = (good, None, 0%nat, r2) /\
    ReadVarstr31 r2 = (Err e0, [66]) /\ [[65]; []] = good ++ [[]] /\
    ErrUnexpectedEOF = (if #good + 1 <? 2 - (#good + 1) then ErrUnexpectedEOF else e0).
Proof.
  apply (ReadVarstrList_error [2; 1; 65; 2; 66] [1; 65; 2; 66] [66] 2 [[65]; []] ErrUnexpectedEOF);
    reflexivity.
Defined.

(** No read looks at a byte twice or past what it reports: what it leaves is a suffix of
    what it was given, also when it fails. *)
Theorem reads_leave_suffix (r : Reader) (n : nat) :
  suffix (ReadVarint31 r).2 r /\ suffix (ReadVarint63 r).2 r /\ suffix (ReadVarstr31 r).2 r /\
  suffix (ReadVarstrList r).2 r /\ suffix (ReadFull (replicate n 0) r).2 r /\
  (forall A (f : rd A), suffix (ReadExtensibleString f r).2 r).
Proof.
  split_and!; intros; first
    [ apply consuming_ReadVarint31 | apply consuming_ReadVarint63 | apply consuming_ReadVarstr31
    | apply ReadVarstrList_suffix | apply ReadFull_suffix | apply consuming_ReadExtensibleString ].
Qed.
