(* ===== verification/Hash.v ===== *)
(** * Hashes, asset identifiers and asset amounts

    Models [protocol/bc/hash.go], [protocol/bc/asset.go] and
    [crypto/sha3pool/pool.go].  A hash is four uint64 words; [AssetID] is the same
    structure under another name in Go and the same record here.  SHA3-256 is the class
    [Sha3]: the code relies on its output being 32 bytes and nothing else.  The hash
    objects the pool hands out are freshly reset, so that a hash object is the list of
    bytes written into it. *)
From S2P Require Import Prelude Errors GoLib Encoding.

(** ** Data *)
Record Hash := mkHash { V0 : Z; V1 : Z; V2 : Z; V3 : Z }.

#[export] Instance Hash_eq_dec : EqDecision Hash.
Proof. solve_decision. Defined.

#[export] Instance Hash_countable : Countable Hash.
Proof.
  refine (inj_countable' (fun h => (V0 h, V1 h, V2 h, V3 h))
            (fun '(a, b, c, d) => mkHash a b c d) _).
  by intros [].
Defined.

Abbreviation AssetID := Hash.

(** The zero value of the struct. *)
Definition zeroHash : Hash := mkHash 0 0 0 0.

Definition Hash_ok (h : Hash) : Prop :=
  u64_ok (V0 h) /\ u64_ok (V1 h) /\ u64_ok (V2 h) /\ u64_ok (V3 h).

(** ** hash.go *)

(** The slice [b[i:j]] of a byte array. *)
Definition slice (b : bytes) (i j : nat) : bytes := take (j - i) (drop i b).

Definition NewHash (b32 : bytes) : Hash :=
  mkHash (be_get (slice b32 0 8)) (be_get (slice b32 8 16))
         (be_get (slice b32 16 24)) (be_get (slice b32 24 32)).

Definition Byte32 (h : Hash) : bytes :=
  be_put 8 (V0 h) ++ be_put 8 (V1 h) ++ be_put 8 (V2 h) ++ be_put 8 (V3 h).

Definition Hash_MarshalText (h : Hash) : bytes :=
  let b := Byte32 h in
  let v := replicate 64 0 in
  go_copy v (hex_encode b).

(** The error and the hash after the call: on a bad digit the hash is assigned the bytes
    decoded before it, zero-filled. *)
Definition Hash_UnmarshalText (h : Hash) (v : bytes) : option error * Hash :=
  let b := replicate 32 0 in
  if decide (length v <> 64%nat)
  then (Some (EMsg (Sprintf (str "bad length hash string %d") [IInt #v])), h)
  else
    let '(d, err) := hex_decode v in
    (err, NewHash (go_copy b d)).

(** [json.Unmarshal] into a string is the argument [unmarshal]. *)
Definition Hash_UnmarshalJSON (unmarshal : bytes -> res error gostring) (h : Hash) (b : bytes)
    : option error * Hash :=
  if decide (b = str "null") then (None, zeroHash)
  else
    match unmarshal b with
    | Err e => (Some e, h)
    | Ok s => Hash_UnmarshalText h s
    end.

Definition Hash_Bytes (h : Hash) : bytes := Byte32 h.

Definition Hash_WriteTo `{Writer W} (h : Hash) (w : W) : Z * option error * W :=
  Write (Hash_Bytes h) w.

(** The count is the number of bytes read; the hash is assigned on success only. *)
Definition Hash_ReadFrom (h : Hash) (r : Reader) : Z * option error * Hash * Reader :=
  let b32 := replicate 32 0 in
  let '(b, err, r') := ReadFull b32 r in
  let n := #r - #r' in
  match err with
  | Some e => (n, Some e, h, r')
  | None => (n, None, NewHash b, r')
  end.

(** [ReadFrom] where the caller drops the hash on failure. *)
Definition ReadHash : rd Hash := fun r =>
  match Hash_ReadFrom zeroHash r with
  | (_, None, h, r') => (Ok h, r')
  | (_, Some e, _, r') => (Err e, r')
  end.

(** A nil pointer is [None]. *)
Definition Hash_IsZero (h : option Hash) : bool :=
  match h with
  | None => true
  | Some h => bool_decide (h = zeroHash)
  end.

(** ** SHA3-256 and crypto/sha3pool *)
Class Sha3 := Sum256 : bytes -> bytes.

Class Sha3Laws `{Sha3} := {
  Sum256_length b : length (Sum256 b) = 32%nat;
  Sum256_ok b : bytes_ok (Sum256 b);
}.

(** A hash object from the pool and what [Read] of 32 bytes gives back. *)
Definition Get256 : bytes := [].
Definition sha_read `{Sha3} (h : bytes) : bytes := Sum256 h.
Definition sha3pool_Sum256 `{Sha3} (hash data : bytes) : bytes :=
  let h := Get256 in
  let '(_, _, h) := Write data h in
  go_copy hash (sha_read h).

(** [root.ReadFrom(h)] on a hash object: the digest fills all 32 bytes. *)
Definition readDigest `{Sha3} (h : bytes) : Hash := NewHash (sha_read h).

Definition EmptyStringHash `{Sha3} : Hash := NewHash (Sum256 []).

(** ** asset.go *)
Definition NewAssetID (b : bytes) : AssetID := NewHash b.
Definition AssetID_Byte32 (a : AssetID) : bytes := Byte32 a.
Definition AssetID_MarshalText (a : AssetID) : bytes := Hash_MarshalText a.
Definition AssetID_UnmarshalText (a : AssetID) (b : bytes) : option error * AssetID :=
  Hash_UnmarshalText a b.
Definition AssetID_UnmarshalJSON unmarshal (a : AssetID) (b : bytes) : option error * AssetID :=
  Hash_UnmarshalJSON unmarshal a b.
Definition AssetID_Bytes (a : AssetID) : bytes := Hash_Bytes a.
Definition AssetID_WriteTo `{Writer W} (a : AssetID) (w : W) : Z * option error * W :=
  Hash_WriteTo a w.
Definition AssetID_ReadFrom (a : AssetID) (r : Reader) : Z * option error * AssetID * Reader :=
  Hash_ReadFrom a r.
Definition AssetID_IsZero (a : option AssetID) : bool := Hash_IsZero a.

Record AssetAmount := mkAssetAmount { AssetId : option AssetID; Amount : Z }.

#[export] Instance AssetAmount_eq_dec : EqDecision AssetAmount.
Proof. solve_decision. Defined.

(** The amount is assigned (zero) also when reading it fails. *)
Definition AssetAmount_ReadFrom (a : AssetAmount) (r : Reader)
    : option error * AssetAmount * Reader :=
  let '(_, err, assetID, r1) := AssetID_ReadFrom zeroHash r in
  match err with
  | Some e => (Some e, a, r1)
  | None =>
      match ReadVarint63 r1 with
      | (Ok v, r2) => (None, mkAssetAmount (Some assetID) v, r2)
      | (Err e, r2) => (Some e, mkAssetAmount (Some assetID) 0, r2)
      end
  end.

(** Writing an amount whose asset identifier is nil is a nil dereference. *)
Definition AssetAmount_WriteTo `{Writer W} (a : AssetAmount) (w : W)
    : option (Z * option error * W) :=
  match AssetId a with
  | None => go_panic
  | Some id =>
      let '(n, err, w1) := AssetID_WriteTo id w in
      match err with
      | Some _ => Some (n, err, w1)
      | None =>
          '(n2, err, w2) ← WriteVarint63 w1 (Amount a);
          Some (n + n2, err, w2)
      end
  end.

Definition AssetAmount_Equal (a other : option AssetAmount) : bool * option error :=
  match a, other with
  | Some a, Some other =>
      match AssetId a, AssetId other with
      | Some x, Some y => ((Amount a =? Amount other) && bool_decide (x = y), None)
      | _, _ => (false, New (str "empty asset id"))
      end
  | _, _ => (false, New (str "empty asset amount"))
  end.

(** ** Words and bytes *)
Lemma length_Byte32 h : length (Byte32 h) = 32%nat.
Proof. unfold Byte32. by rewrite !length_app, !length_be_put. Qed.
Lemma zlen_Byte32 h : #(Byte32 h) = 32.
Proof. unfold zlen. by rewrite length_Byte32. Qed.
Lemma Byte32_ok h : bytes_ok (Byte32 h).
Proof. unfold Byte32. auto with go. Qed.
#[export] Hint Resolve Byte32_ok : go.
#[export] Hint Rewrite zlen_Byte32 : zlen.

Lemma slice_app_here p q n : length p = n -> slice (p ++ q) 0 n = p.
Proof. intros <-. unfold slice. by rewrite Nat.sub_0_r, drop_0, take_app_length. Qed.

Lemma slice_app_skip p q n i j : length p = n -> slice (p ++ q) (n + i) (n + j) = slice q i j.
Proof.
  intros <-. unfold slice. rewrite drop_app_add. f_equal. lia.
Qed.

Lemma slice_concat b i j k : (i <= j <= k)%nat -> slice b i j ++ slice b j k = slice b i k.
Proof.
  intros. unfold slice. replace (drop j b) with (drop (j - i) (drop i b)).
  - replace (k - i)%nat with ((j - i) + (k - j))%nat by lia. by rewrite take_take_drop.
  - rewrite drop_drop. f_equal. lia.
Qed.

Lemma slice_all b n : length b = n -> slice b 0 n = b.
Proof. intros <-. unfold slice. by rewrite Nat.sub_0_r, drop_0, firstn_all. Qed.

Lemma length_slice b i j : (j <= length b)%nat -> length (slice b i j) = (j - i)%nat.
Proof. intros. unfold slice. rewrite length_take, length_drop. lia. Qed.

Lemma slice_ok b i j : bytes_ok b -> bytes_ok (slice b i j).
Proof. intros. unfold slice. auto with go. Qed.
#[export] Hint Resolve slice_ok : go.

Lemma be_get_put_u64 x : u64_ok x -> be_get (be_put 8 x) = x.
Proof. intros Hx. rewrite be_get_put. by apply Z.mod_small. Qed.

Lemma be_get_u64 b : bytes_ok b -> length b = 8%nat -> u64_ok (be_get b).
Proof. intros Hb Hl. pose proof (be_get_range b Hb) as H. unfold zlen in H. by rewrite Hl in H. Qed.

Lemma be_put_get_8 b : bytes_ok b -> length b = 8%nat -> be_put 8 (be_get b) = b.
Proof. intros Hb Hl. rewrite <- (be_put_get b Hb) at 2. by rewrite Hl. Qed.

Lemma NewHash_Byte32 h : Hash_ok h -> NewHash (Byte32 h) = h.
Proof.
  intros (H0 & H1 & H2 & H3). unfold NewHash, Byte32.
  rewrite (slice_app_here _ _ 8), (slice_app_skip _ _ 8 0 8) by apply length_be_put.
  rewrite (slice_app_skip _ _ 8 8 16), (slice_app_skip _ _ 8 16 24) by apply length_be_put.
  rewrite (slice_app_here _ _ 8), (slice_app_skip _ _ 8 0 8), (slice_app_skip _ _ 8 8 16)
    by apply length_be_put.
  rewrite (slice_app_here _ _ 8), (slice_app_skip _ _ 8 0 8), (slice_all _ 8) by apply length_be_put.
  rewrite !be_get_put_u64 by done. by destruct h.
Qed.

Section of_bytes.
Context (b : bytes) (Hok : bytes_ok b) (Hlen : length b = 32%nat).

Lemma Byte32_NewHash : Byte32 (NewHash b) = b.
Proof using Hok Hlen.
  unfold Byte32, NewHash. cbn [V0 V1 V2 V3].
  rewrite !be_put_get_8 by (first [solve [auto with go] | by rewrite length_slice by lia]).
  rewrite !slice_concat by lia. by apply slice_all.
Qed.

Lemma NewHash_ok : Hash_ok (NewHash b).
Proof using Hok Hlen.
  unfold Hash_ok, NewHash. cbn [V0 V1 V2 V3]. split_and!; apply be_get_u64; first [solve [auto with go] | by rewrite length_slice by lia].
Qed.
End of_bytes.
#[export] Hint Resolve NewHash_ok : go.

Lemma NewHash_inj b c : bytes_ok b -> bytes_ok c -> length b = 32%nat -> length c = 32%nat ->
  NewHash b = NewHash c -> b = c.
Proof. intros Hb Hc Lb Lc E. by rewrite <- (Byte32_NewHash b), <- (Byte32_NewHash c), E. Qed.

Lemma Byte32_inj g h : Hash_ok g -> Hash_ok h -> Byte32 g = Byte32 h -> g = h.
Proof. intros Hg Hh E. by rewrite <- (NewHash_Byte32 g), <- (NewHash_Byte32 h), E. Qed.

Lemma readDigest_ok `{Sha3Laws} p : Hash_ok (readDigest p).
Proof. apply NewHash_ok; [apply Sum256_ok|apply Sum256_length]. Qed.
#[export] Hint Resolve readDigest_ok : go.

Lemma readDigest_inj `{Sha3Laws} p q : readDigest p = readDigest q -> Sum256 p = Sum256 q.
Proof. apply NewHash_inj; auto using Sum256_ok, Sum256_length. Qed.

(** ** Reading back *)
Lemma ReadHash_enc h rest : Hash_ok h -> ReadHash (Byte32 h ++ rest) = (Ok h, rest).
Proof.
  intros Hh. unfold ReadHash, Hash_ReadFrom. rewrite ReadFull_app by apply length_Byte32.
  by rewrite NewHash_Byte32.
Qed.

Lemma Hash_ReadFrom_enc g h rest : Hash_ok h ->
  Hash_ReadFrom g (Byte32 h ++ rest) = (32, None, h, rest).
Proof.
  intros Hh. unfold Hash_ReadFrom. rewrite ReadFull_app by apply length_Byte32.
  rewrite NewHash_Byte32 by done. do 3 f_equal. autorewrite with zlen. lia.
Qed.

Lemma consuming_ReadHash : consuming ReadHash.
Proof.
  intros r. pose proof (ReadFull_suffix (replicate 32 0) r) as H.
  unfold ReadHash, Hash_ReadFrom.
  by destruct (ReadFull _ r) as [[b [e|]] r'].
Qed.
#[export] Hint Resolve consuming_ReadHash : go.

(** [AssetAmount.ReadFrom] where the caller drops the amount on failure. *)
Definition ReadAssetAmount : rd AssetAmount := fun r =>
  match AssetAmount_ReadFrom (mkAssetAmount None 0) r with
  | (None, a, r') => (Ok a, r')
  | (Some e, _, r') => (Err e, r')
  end.

Definition enc_asset_amount (a : AssetAmount) : bytes :=
  Byte32 (default zeroHash (AssetId a)) ++ enc_varint (Amount a).

Definition AssetAmount_ok (a : AssetAmount) : Prop :=
  (exists id, AssetId a = Some id /\ Hash_ok id) /\ 0 <= Amount a <= MaxInt63.

Lemma AssetAmount_ReadFrom_enc a0 a rest : AssetAmount_ok a ->
  AssetAmount_ReadFrom a0 (enc_asset_amount a ++ rest) = (None, a, rest).
Proof.
  intros ((id & Hid & Hok) & Hamt). unfold AssetAmount_ReadFrom, AssetID_ReadFrom, enc_asset_amount.
  rewrite Hid. cbn [default]. rewrite <- app_assoc, Hash_ReadFrom_enc by done.
  rewrite ReadVarint63_enc by done. destruct a; cbn in *. by subst.
Qed.

Lemma ReadAssetAmount_enc a rest : AssetAmount_ok a ->
  ReadAssetAmount (enc_asset_amount a ++ rest) = (Ok a, rest).
Proof. intros. unfold ReadAssetAmount. by rewrite AssetAmount_ReadFrom_enc. Qed.

Lemma consuming_ReadAssetAmount : consuming ReadAssetAmount.
Proof.
  intros r. unfold ReadAssetAmount, AssetAmount_ReadFrom, AssetID_ReadFrom, Hash_ReadFrom.
  pose proof (ReadFull_suffix (replicate 32 0) r) as H.
  destruct (ReadFull _ r) as [[b [e|]] r']; [done|].
  pose proof (consuming_ReadVarint63 r') as H2.
  destruct (ReadVarint63 r') as [[v|e] r'']; cbn in *; by etrans.
Qed.
#[export] Hint Resolve consuming_ReadAssetAmount : go.

Section took_hash.
Context `{WriterLaws W}.

Lemma took_Hash (w : W) h : took w (Some (Hash_WriteTo h w)) (Byte32 h).
Proof. apply took_Write. Qed.

Lemma took_AssetAmount (w : W) a : AssetAmount_ok a ->
  took w (AssetAmount_WriteTo a w) (enc_asset_amount a).
Proof.
  intros ((id & Hid & Hok) & Hamt). unfold AssetAmount_WriteTo, enc_asset_amount. rewrite Hid.
  cbn [default].
  apply (took_seq w (Some (AssetID_WriteTo id w)) (Byte32 id) _
    (fun n w1 => '(n2, err, w2) ← WriteVarint63 w1 (Amount a); Some (n + n2, err, w2)));
    [apply took_Hash|].
  intros w'. eexists. split; [by apply took_Varint63|done].
Qed.
End took_hash.

(** ** Text *)
Definition lower_hex (c : Z) : Z := if (65 <=? c) && (c <=? 70) then c + 32 else c.

Lemma hexchar_fromHexChar c d : fromHexChar c = Some d -> hexchar d = lower_hex c.
Proof.
  unfold fromHexChar, hexchar, lower_hex. repeat case_on; intros; zcases; simplify_eq; lia.
Qed.

Lemma hex_encode_decode s b : hex_decode s = (b, None) -> hex_encode b = map lower_hex s.
Proof.
  remember (length s) as n eqn:Hn. revert s b Hn.
  induction n as [n IH] using lt_wf_ind. intros [|c [|d s]] b Hn Hd; cbn in Hd; simplify_eq; [done|].
  destruct (fromHexChar c) as [x|] eqn:Hx, (fromHexChar d) as [y|] eqn:Hy; simplify_eq.
  destruct (hex_decode s) as [l0 err0] eqn:E. simplify_eq.
  pose proof (fromHexChar_range _ _ Hx). pose proof (fromHexChar_range _ _ Hy).
  cbn [hex_encode map].
  rewrite (Z.mul_comm 16), Z.div_add_l, Z.div_small, Z.add_0_r, Z.add_comm, Z.mod_add, Z.mod_small by lia.
  rewrite (hexchar_fromHexChar c), (hexchar_fromHexChar d) by done. do 2 f_equal.
  eapply (IH (length s)); [cbn; lia|done|done].
Qed.

Lemma length_hex_decode s b : hex_decode s = (b, None) -> length s = (2 * length b)%nat.
Proof.
  intros Hd%hex_encode_decode. apply (f_equal length) in Hd.
  by rewrite length_hex_encode, length_map in Hd.
Qed.

Lemma go_copy_same p q : length p = length q -> go_copy p q = q.
Proof.
  intros Hl. unfold go_copy. rewrite Hl, firstn_all, drop_ge, app_nil_r by lia. done.
Qed.

Lemma Hash_MarshalText_hex h : Hash_MarshalText h = hex_encode (Byte32 h).
Proof.
  unfold Hash_MarshalText. apply go_copy_same.
  by rewrite length_hex_encode, length_Byte32, length_replicate.
Qed.

Lemma UnmarshalText_ok_inv h0 v h : Hash_UnmarshalText h0 v = (None, h) ->
  length v = 64%nat /\ Hash_ok h /\ hex_decode v = (Byte32 h, None).
Proof.
  unfold Hash_UnmarshalText. case_decide as Hl; [done|].
  destruct (hex_decode v) as [d err] eqn:Hd. intros [= -> <-].
  assert (length v = 64%nat) as Hv by lia.
  pose proof (length_hex_decode _ _ Hd) as Hd2. pose proof (hex_decode_ok _ _ _ Hd) as Hok.
  rewrite go_copy_same by (cbn; lia).
  split; [done|]. rewrite Byte32_NewHash by (done || lia). split; [|done].
  apply NewHash_ok; [done|lia].
Qed.

(** ** Properties *)

(** The text form of a hash: marshalling and unmarshalling are inverse, and
    [UnmarshalText] succeeds only on 64 hexadecimal digits, whose lower-case form is the
    canonical text of the hash it assigns; a text of another length leaves the hash alone. *)
Theorem Hash_text_roundtrip (h0 h : Hash) (v : bytes) :
  Hash_ok h ->
  Hash_UnmarshalText h0 (Hash_MarshalText h) = (None, h) /\
  (forall h', Hash_UnmarshalText h0 v = (None, h') -> Hash_MarshalText h' = map lower_hex v /\ Hash_ok h') /\
  (#v <> 64 -> exists e, Hash_UnmarshalText h0 v = (Some e, h0)).
Proof.
  intros Hh. split_and!.
  - rewrite Hash_MarshalText_hex. unfold Hash_UnmarshalText.
    rewrite decide_False by (rewrite length_hex_encode, length_Byte32; lia).
    rewrite hex_decode_encode by apply Byte32_ok.
    rewrite go_copy_same by (by rewrite length_Byte32).
    by rewrite NewHash_Byte32.
  - intros h' (Hl & Hok & Hd)%UnmarshalText_ok_inv. split; [|done].
    by rewrite Hash_MarshalText_hex, (hex_encode_decode _ _ Hd).
  - intros Hl. unfold Hash_UnmarshalText. rewrite decide_True by zlia. eauto.
Qed.

Lemma Hash_text_roundtrip_witness :
  Hash_ok (mkHash 1 2 3 (2 ^ 64 - 1)) /\
  Hash_UnmarshalText zeroHash (Hash_MarshalText (mkHash 1 2 3 (2 ^ 64 - 1)))
    = (None, mkHash 1 2 3 (2 ^ 64 - 1)) /\
  (exists e, Hash_UnmarshalText zeroHash (str "0A") = (Some e, zeroHash)).
Proof.
  assert (Hash_ok (mkHash 1 2 3 (2 ^ 64 - 1))) as Hok by (vm_compute; repeat split; discriminate).
  destruct (Hash_text_roundtrip zeroHash _ (str "0A") Hok) as (H1 & _ & H3).
  split; [exact Hok|]. split; [exact H1|]. apply H3. vm_compute. discriminate.
Defined.

(** An asset amount written without error reads back as itself, whatever it is read into and
    whatever follows; [Equal] holds exactly between it and itself. *)
Theorem AssetAmount_roundtrip `{WriterLaws W} (w w' : W) (a a0 b : AssetAmount) n rest :
  AssetAmount_ok a -> AssetAmount_ok b ->
  AssetAmount_WriteTo a w = Some (n, None, w') ->
  (exists p, written w' = written w ++ p /\ n = #p /\
     AssetAmount_ReadFrom a0 (p ++ rest) = (None, a, rest)) /\
  AssetAmount_Equal (Some a) (Some b) = (bool_decide (a = b), None).
Proof.
  intros Ha Hb Hw. split.
  - destruct (took_AssetAmount w a Ha) as (n' & err & w2 & Hw2 & _ & Hc & Hall).
    rewrite Hw in Hw2. simplify_eq. exists (enc_asset_amount a).
    rewrite Hc, Hall, take_zlen by done. split_and!; [done..|]. by apply AssetAmount_ReadFrom_enc.
  - destruct a as [ia va], b as [ib vb], Ha as [(x & Hx & _) _], Hb as [(y & Hy & _) _].
    cbn in *. subst. cbn. f_equal.
    destruct (Z.eqb_spec va vb), (decide (x = y)); subst; cbn;
      first [by rewrite !bool_decide_true | rewrite ?bool_decide_false by congruence; done].
Qed.

Lemma AssetAmount_roundtrip_witness :
  let a := mkAssetAmount (Some (mkHash 1 2 3 4)) 300 in
  exists p, AssetAmount_WriteTo a ([9] : bytes) = Some (34, None, [9] ++ p) /\
    AssetAmount_ReadFrom (mkAssetAmount None 7) (p ++ [5]) = (None, a, [5]).
Proof.
  intros a.
  assert (AssetAmount_ok a) as Ha.
  { split; [exists (mkHash 1 2 3 4); split; [done|]|]; vm_compute; repeat split; discriminate. }
  destruct (@AssetAmount_roundtrip bytes _ buffer_laws [9] ([9] ++ enc_asset_amount a) a
    (mkAssetAmount None 7) a 34 [5] Ha Ha eq_refl) as [(p & Hw & _ & Hp) _].
  exists p. split; [|exact Hp]. apply app_inv_head in Hw as <-. reflexivity.
Defined.

(** A hash function with the documented laws, for concrete inputs: the first 32 bytes,
    zero-padded.  (Not an instance: it is named where it is used.) *)
Definition pad32 : Sha3 := fun b => take 32 (map u8 b ++ replicate 32 0).

Lemma pad32_laws : @Sha3Laws pad32.
Proof.
  split; intros b; unfold Sum256, pad32.
  - rewrite length_take, length_app, length_replicate. lia.
  - apply bytes_ok_take, bytes_ok_app_2; [|auto with go].
    apply Forall_map, Forall_true. intros x. unfold byte_ok. by apply (wrap_range 8).
Qed.
