(* ===== verification/Merkle.v ===== *)
(** * Merkle roots and transaction statuses

    Models [protocol/bc/merkle.go] and [protocol/bc/tx_status.go].  A [merkleNode] is
    anything with a [WriteTo]; what the tree uses of it is the bytes it writes into a hash
    object, the class [MerkleNode].  The recursion of [merkleRoot] halves its slice; it is
    run with the length of the list as fuel, which [merkleRoot_eq] shows to be enough. *)
From S2P Require Import Prelude Errors GoLib Encoding Hash.

(** ** tx_status.go *)
Record TxVerifyResult := mkTvr { StatusFail : bool }.
Record TransactionStatus := mkTxStatus { ts_Version : Z; VerifyStatus : list TxVerifyResult }.

#[export] Instance TxVerifyResult_eq_dec : EqDecision TxVerifyResult.
Proof. solve_decision. Defined.

Definition transactionStatusVersion : Z := 1.

Definition NewTransactionStatus : TransactionStatus :=
  mkTxStatus transactionStatusVersion [].

(** The pointers in [VerifyStatus] are not shared, so that updating an element in place is
    a list update.  A negative index is a run-time panic. *)
Definition SetStatus (ts : TransactionStatus) (i : Z) (gasOnly : bool)
    : option (option error * TransactionStatus) :=
  if #(VerifyStatus ts) <? i
  then Some (New (str "setStatus should be set one by one"), ts)
  else if i =? #(VerifyStatus ts)
  then Some (None, mkTxStatus (ts_Version ts) (VerifyStatus ts ++ [mkTvr gasOnly]))
  else if i <? 0 then go_panic
  else Some (None, mkTxStatus (ts_Version ts) (<[Z.to_nat i := mkTvr gasOnly]> (VerifyStatus ts))).

Definition GetStatus (ts : TransactionStatus) (i : Z) : option (bool * option error) :=
  if #(VerifyStatus ts) <=? i
  then Some (false, New (str "GetStatus is out of range"))
  else if i <? 0 then go_panic
  else
    tvr ← VerifyStatus ts !! Z.to_nat i;
    Some (StatusFail tvr, None).

(** [json.Marshal] of the struct: the field has the tag [status_fail,omitempty]. *)
Definition tvr_json (tvr : TxVerifyResult) : bytes :=
  if StatusFail tvr then [123; 34] ++ str "status_fail" ++ [34] ++ str ":true}" else str "{}".

Definition Tvr_WriteTo `{Writer W} (tvr : TxVerifyResult) (w : W) : Z * option error * W :=
  Write (tvr_json tvr) w.

(** ** merkle.go *)
Definition leafPrefix : bytes := [0].
Definition interiorPrefix : bytes := [1].

(** The bytes a node's [WriteTo] writes into a hash object. *)
Class MerkleNode (T : Type) := node_WriteTo : T -> bytes -> Z * option error * bytes.

#[export] Instance hash_node : MerkleNode Hash := Hash_WriteTo.
#[export] Instance tvr_node : MerkleNode TxVerifyResult := Tvr_WriteTo.

(** A write into a hash object, whose result is ignored. *)
Definition hw (h p : bytes) : bytes := let '(_, _, h') := Write p h in h'.
Definition node_hw `{MerkleNode T} (h : bytes) (n : T) : bytes :=
  let '(_, _, h') := node_WriteTo n h in h'.

(** [uint(math.Log2(float64(n)))]: the floor of the logarithm.  (The float64 result can
    round up to the next integer only for [n] above 2^47, no length of a slice.) *)
Definition floorLog2 (n : Z) : Z := Z.log2 n.

Definition prevPowerOfTwo (n : Z) : Z :=
  if Z.land n (n - 1) =? 0 then Z.div n 2
  else
    let exponent := floorLog2 n in
    Z.shiftl 1 exponent.

(** What one call hashes for an interior node. *)
Definition interior_preimage (left right : Hash) : bytes :=
  node_hw (node_hw (hw Get256 interiorPrefix) left) right.

Section merkle.
Context `{Sha3} `{MerkleNode T}.

(** What one call hashes for a leaf. *)
Definition leaf_preimage (n : T) : bytes := node_hw (hw Get256 leafPrefix) n.
Fixpoint merkleRoot_fuel (fuel : nat) (nodes : list T) : Hash :=
  match fuel with
  | O => EmptyStringHash
  | S fuel =>
      match nodes with
      | [] => EmptyStringHash
      | [n] => readDigest (leaf_preimage n)
      | _ =>
          let k := Z.to_nat (prevPowerOfTwo #nodes) in
          let left := merkleRoot_fuel fuel (take k nodes) in
          let right := merkleRoot_fuel fuel (drop k nodes) in
          readDigest (interior_preimage left right)
      end
  end.

(** [merkleRoot]; its error result is always nil. *)
Definition merkleRoot (nodes : list T) : Hash := merkleRoot_fuel (length nodes) nodes.
End merkle.

Definition TxStatusMerkleRoot `{Sha3} (tvrs : list TxVerifyResult) : Hash := merkleRoot tvrs.

(** The transactions enter by their identifiers. *)
Definition TxMerkleRoot `{Sha3} {Tx} (ID : Tx -> Hash) (transactions : list Tx) : Hash :=
  merkleRoot (map ID transactions).

(** ** Powers of two *)
Lemma land_pred_pow2 j : 0 <= j -> Z.land (2 ^ j) (2 ^ j - 1) = 0.
Proof.
  intros Hj. replace (2 ^ j - 1) with (Z.ones j) by (rewrite Z.ones_equiv; lia).
  rewrite Z.land_ones by done. by rewrite Z.mod_same by (apply Z.pow_nonzero; lia).
Qed.

Lemma land_pred_0_pow2 n : 0 < n -> Z.land n (n - 1) = 0 -> n = 2 ^ Z.log2 n.
Proof.
  intros Hn Hl. pose proof (Z.log2_spec n Hn) as [Hlo Hhi].
  pose proof (Z.log2_nonneg n). apply Z.le_antisymm; [|done].
  apply Z.nlt_ge. intros Hlt.
  assert (Z.testbit (Z.land n (n - 1)) (Z.log2 n) = true); [|by rewrite Hl, Z.bits_0 in *].
  rewrite Z.land_spec, Z.bit_log2 by done.
  replace (Z.log2 n) with (Z.log2 (n - 1)); [apply Z.bit_log2; lia|].
  symmetry. rewrite (Z.log2_unique (n - 1) (Z.log2 n)); [done|done|]. lia.
Qed.

(** The split point is a power of two, below the length and at least half of it. *)
Lemma prevPowerOfTwo_range n : 2 <= n ->
  prevPowerOfTwo n < n <= 2 * prevPowerOfTwo n /\ exists j, 0 <= j /\ prevPowerOfTwo n = 2 ^ j.
Proof.
  intros Hn. unfold prevPowerOfTwo, floorLog2. case_on; zbool.
  - apply land_pred_0_pow2 in Heqb; [|lia].
    assert (1 <= Z.log2 n) by (apply Z.log2_le_pow2; lia).
    assert (n = 2 * 2 ^ (Z.log2 n - 1)) as E.
    { rewrite <- Z.pow_succ_r by lia. by replace (Z.succ (Z.log2 n - 1)) with (Z.log2 n) by lia. }
    assert (n / 2 = 2 ^ (Z.log2 n - 1)) as ->.
    { rewrite E at 1. rewrite Z.mul_comm. apply Z.div_mul. lia. }
    split; [lia|]. exists (Z.log2 n - 1). split; [lia|done].
  - rewrite Z.shiftl_1_l. pose proof (Z.log2_spec n ltac:(lia)) as [Hlo Hhi].
    rewrite Z.pow_succ_r in Hhi by apply Z.log2_nonneg.
    split; [|exists (Z.log2 n); split; [apply Z.log2_nonneg|done]].
    split; [|lia]. apply Z.le_neq. split; [done|]. intros E. apply Heqb.
    rewrite <- E. apply land_pred_pow2, Z.log2_nonneg.
Qed.

(** ** The recursion *)
Section recursion.
Context `{Sha3} `{MerkleNode T}.
Implicit Types l : list T.

Lemma split_lengths l : 2 <= #l ->
  let k := Z.to_nat (prevPowerOfTwo #l) in
  (0 < length (take k l) < length l)%nat /\ (0 < length (drop k l) < length l)%nat.
Proof.
  intros Hl. destruct (prevPowerOfTwo_range _ Hl) as [Hr _]. cbn.
  rewrite length_take, length_drop. unfold zlen in *. lia.
Qed.

Lemma merkleRoot_fuel_S fuel x y l : merkleRoot_fuel (S fuel) (x :: y :: l) =
  let k := Z.to_nat (prevPowerOfTwo #(x :: y :: l)) in
  readDigest (interior_preimage (merkleRoot_fuel fuel (take k (x :: y :: l)))
                                (merkleRoot_fuel fuel (drop k (x :: y :: l)))).
Proof. done. Qed.

Lemma merkleRoot_fuel_enough fuel : forall l, (length l <= fuel)%nat ->
  merkleRoot_fuel fuel l = merkleRoot_fuel (length l) l.
Proof.
  induction fuel as [fuel IH] using lt_wf_ind. intros l Hl.
  destruct l as [|x [|y l]]; [by destruct fuel|by destruct fuel; [cbn in Hl; lia|]|].
  destruct (split_lengths (x :: y :: l)) as [Ht Hd]; [unfold zlen; cbn; lia|].
  destruct fuel as [|fuel]; [cbn in Hl; lia|].
  assert (forall m, (length m < length (x :: y :: l))%nat ->
    merkleRoot_fuel fuel m = merkleRoot_fuel (S (length l)) m) as Heq.
  { intros m Hm. cbn [length] in *. by rewrite (IH fuel), (IH (S (length l))) by lia. }
  cbn [length]. rewrite !merkleRoot_fuel_S. cbv zeta.
  by rewrite (Heq _ (proj2 Ht)), (Heq _ (proj2 Hd)).
Qed.

(** The recursive equation the Go code has. *)
Lemma merkleRoot_eq l : merkleRoot l =
  match l with
  | [] => EmptyStringHash
  | [n] => readDigest (leaf_preimage n)
  | _ =>
      let k := Z.to_nat (prevPowerOfTwo #l) in
      readDigest (interior_preimage (merkleRoot (take k l)) (merkleRoot (drop k l)))
  end.
Proof.
  destruct l as [|x [|y l]]; [done..|].
  destruct (split_lengths (x :: y :: l)) as [Ht Hd]; [unfold zlen; cbn; lia|].
  unfold merkleRoot at 1. cbn [length]. rewrite merkleRoot_fuel_S. cbv zeta.
  rewrite (merkleRoot_fuel_enough _ (take _ _)), (merkleRoot_fuel_enough _ (drop _ _))
    by (cbn [length] in *; lia). done.
Qed.
End recursion.

(** ** The tree a root commits to

    [tree] is the shape of the recursion; [inputs] are the byte strings hashed on the way to
    the root, the preimages among which two different lists with one root must collide. *)
Inductive tree (T : Type) : Type :=
| Leaf (n : T)
| Node (l r : tree T).
Arguments Leaf {T} _.
Arguments Node {T} _ _.

Fixpoint leaves {T} (t : tree T) : list T :=
  match t with Leaf n => [n] | Node l r => leaves l ++ leaves r end.

(** What the tree needs of a node: writing it appends its bytes. *)
Class MerkleNodeLaws (T : Type) `{MerkleNode T} := {
  node_bytes : T -> bytes;
  node_write n h : node_hw h n = h ++ node_bytes n;
}.

#[export] Program Instance hash_node_laws : MerkleNodeLaws Hash := {| node_bytes := Byte32 |}.
Next Obligation. done. Qed.
#[export] Program Instance tvr_node_laws : MerkleNodeLaws TxVerifyResult := {| node_bytes := tvr_json |}.
Next Obligation. done. Qed.

Section trees.
Context `{Sha3Laws} `{MerkleNodeLaws T}.

Fixpoint tree_root (t : tree T) : Hash :=
  match t with
  | Leaf n => readDigest (leaf_preimage n)
  | Node l r => readDigest (interior_preimage (tree_root l) (tree_root r))
  end.

Definition preimage (t : tree T) : bytes :=
  match t with
  | Leaf n => leaf_preimage n
  | Node l r => interior_preimage (tree_root l) (tree_root r)
  end.

Fixpoint tree_inputs (t : tree T) : list bytes :=
  preimage t :: match t with Leaf _ => [] | Node l r => tree_inputs l ++ tree_inputs r end.

Lemma tree_root_preimage t : tree_root t = readDigest (preimage t).
Proof. by destruct t. Qed.

Lemma leaf_preimage_eq n : leaf_preimage n = 0 :: node_bytes n.
Proof. unfold leaf_preimage. by rewrite node_write. Qed.

Lemma interior_preimage_eq g h : interior_preimage g h = 1 :: Byte32 g ++ Byte32 h.
Proof. done. Qed.

Lemma tree_root_ok t : Hash_ok (tree_root t).
Proof. rewrite tree_root_preimage. apply readDigest_ok. Qed.

(** Two different inputs, one from each list, with one digest. *)
Definition collision (i1 i2 : list bytes) : Prop :=
  exists p q, p ∈ i1 /\ q ∈ i2 /\ p <> q /\ Sum256 p = Sum256 q.

Lemma collision_mono i1 i2 j1 j2 : i1 ⊆ j1 -> i2 ⊆ j2 -> collision i1 i2 -> collision j1 j2.
Proof. intros Hi Hj (p & q & Hp & Hq & Hne).
  exists p, q. split; [by apply Hi|]. split; [by apply Hj|done]. Qed.

Lemma preimage_collision t1 t2 : tree_root t1 = tree_root t2 ->
  preimage t1 = preimage t2 \/ collision (tree_inputs t1) (tree_inputs t2).
Proof.
  intros Heq. destruct (decide (preimage t1 = preimage t2)) as [|Hne]; [by left|right].
  rewrite !tree_root_preimage in Heq. apply readDigest_inj in Heq.
  exists (preimage t1), (preimage t2). split_and!; [by destruct t1; left|by destruct t2; left|done|done].
Qed.

(** A leaf is never an interior node, and the leaves of one tree are the other's, or the
    hash function has collided. *)
Lemma tree_binding t1 : forall t2, tree_root t1 = tree_root t2 ->
  map node_bytes (leaves t1) = map node_bytes (leaves t2) \/
  collision (tree_inputs t1) (tree_inputs t2).
Proof.
  induction t1 as [n|l1 IHl r1 IHr]; intros t2 Heq;
    destruct (preimage_collision _ _ Heq) as [Hp|?]; [|by right| |by right];
    destruct t2 as [m|l2 r2]; cbn [preimage] in Hp;
    rewrite ?leaf_preimage_eq, ?interior_preimage_eq in Hp; try discriminate Hp.
  - left. injection Hp as Hp. cbn. by rewrite Hp.
  - apply (f_equal (drop 1)) in Hp. cbn [drop] in Hp. apply app_inj_1 in Hp as [Hl Hr]; [|by rewrite !length_Byte32].
    apply Byte32_inj in Hl; [|apply tree_root_ok..].
    apply Byte32_inj in Hr; [|apply tree_root_ok..].
    destruct (IHl _ Hl) as [El|Hc]; [|right; revert Hc; apply collision_mono; cbn; set_solver].
    destruct (IHr _ Hr) as [Er|Hc]; [|right; revert Hc; apply collision_mono; cbn; set_solver].
    left. cbn. by rewrite !map_app, El, Er.
Qed.

(** The inputs of the recursion over a list. *)
Fixpoint inputs_fuel (fuel : nat) (nodes : list T) : list bytes :=
  match fuel with
  | O => [[]]
  | S fuel =>
      match nodes with
      | [] => [[]]
      | [n] => [leaf_preimage n]
      | _ =>
          let k := Z.to_nat (prevPowerOfTwo #nodes) in
          interior_preimage (merkleRoot (take k nodes)) (merkleRoot (drop k nodes))
            :: inputs_fuel fuel (take k nodes) ++ inputs_fuel fuel (drop k nodes)
      end
  end.

Definition merkle_inputs (nodes : list T) : list bytes := inputs_fuel (length nodes) nodes.

Lemma merkle_tree fuel : forall l, (0 < length l <= fuel)%nat ->
  exists t, leaves t = l /\ merkleRoot l = tree_root t /\ inputs_fuel fuel l = tree_inputs t.
Proof.
  induction fuel as [|fuel IH]; intros l Hl; [lia|].
  destruct l as [|x [|y l]]; [cbn in Hl; lia|by exists (Leaf x)|].
  destruct (split_lengths (x :: y :: l)) as [Ht Hd]; [unfold zlen; cbn; lia|].
  rewrite merkleRoot_eq. cbn [inputs_fuel]. set (k := Z.to_nat _) in *. cbv zeta in *.
  destruct (IH (take k (x :: y :: l))) as (t1 & L1 & R1 & I1); [lia|].
  destruct (IH (drop k (x :: y :: l))) as (t2 & L2 & R2 & I2); [lia|].
  exists (Node t1 t2). cbn [leaves tree_root tree_inputs preimage].
  by rewrite L1, L2, R1, R2, I1, I2, take_drop.
Qed.

Lemma merkle_empty (l : list T) : merkleRoot l = merkleRoot ([] : list T) ->
  l = [] \/ collision (merkle_inputs l) [[]].
Proof.
  intros Heq. destruct l as [|x l]; [by left|right].
  destruct (merkle_tree (length (x :: l)) (x :: l)) as (t & _ & Hr & Hi); [cbn; lia|].
  unfold merkle_inputs. rewrite Hi. rewrite Hr, tree_root_preimage in Heq.
  apply readDigest_inj in Heq. exists (preimage t), []. split_and!; [by destruct t; left|set_solver| |done].
  destruct t; cbn [preimage]; [by rewrite leaf_preimage_eq|by rewrite interior_preimage_eq].
Qed.

(** Two lists with one root have the same nodes, or the inputs hashed for them contain a
    collision of SHA3-256. *)
Lemma merkle_binding (l1 l2 : list T) : merkleRoot l1 = merkleRoot l2 ->
  map node_bytes l1 = map node_bytes l2 \/ collision (merkle_inputs l1) (merkle_inputs l2).
Proof.
  intros Heq. destruct l1 as [|x l1].
  { symmetry in Heq. apply merkle_empty in Heq as [->|(p & q & ? & ? & ? & ?)]; [by left|right].
    exists q, p. by split_and!. }
  destruct l2 as [|y l2]; [apply merkle_empty in Heq as [Heq|?]; [done|by right]|].
  destruct (merkle_tree (length (x :: l1)) (x :: l1)) as (t1 & L1 & R1 & I1); [cbn; lia|].
  destruct (merkle_tree (length (y :: l2)) (y :: l2)) as (t2 & L2 & R2 & I2); [cbn; lia|].
  unfold merkle_inputs. rewrite I1, I2, <- L1, <- L2. apply tree_binding. by rewrite <- R1, <- R2.
Qed.
End trees.

(** ** Statuses *)
Definition get_spec (ts : TransactionStatus) (i : Z) : option bool :=
  if 0 <=? i then StatusFail <$> VerifyStatus ts !! Z.to_nat i else None.

Lemma GetStatus_spec ts i : 0 <= i ->
  GetStatus ts i = Some (match get_spec ts i with
    | Some b => (b, None)
    | None => (false, New (str "GetStatus is out of range"))
    end).
Proof.
  intros Hi. unfold GetStatus, get_spec. rewrite (proj2 (Z.leb_le 0 i)) by done.
  destruct (Z.leb_spec #(VerifyStatus ts) i).
  - by rewrite lookup_ge_None_2 by zlia.
  - rewrite (proj2 (Z.ltb_ge i 0)) by done.
    destruct (lookup_lt_is_Some_2 (VerifyStatus ts) (Z.to_nat i)) as [x Hx]; [zlia|].
    by rewrite Hx.
Qed.

Lemma tvr_json_inj a b : tvr_json a = tvr_json b -> a = b.
Proof. destruct a as [[]], b as [[]]; cbn; congruence. Qed.

(** ** Properties *)

(** C8: Two blocks with one transactions root list the same transaction identifiers in the same
    order, or two of the byte strings hashed for them are a collision of SHA3-256; in
    particular a leaf is never taken for an interior node, nor one length for another. *)
Theorem TxMerkleRoot_binding `{Sha3Laws} {Tx} (ID : Tx -> Hash) (txs1 txs2 : list Tx) :
  Forall (fun tx => Hash_ok (ID tx)) (txs1 ++ txs2) ->
  TxMerkleRoot ID txs1 = TxMerkleRoot ID txs2 ->
  map ID txs1 = map ID txs2 \/
  collision (merkle_inputs (map ID txs1)) (merkle_inputs (map ID txs2)).
Proof.
  intros [H1 H2]%Forall_app Heq. destruct (merkle_binding _ _ Heq) as [Hb|Hc]; [left|by right].
  clear Heq. revert txs2 H2 Hb. induction H1 as [|x l Hx Hl IH]; intros [|y k] H2 Hb; try done.
  apply Forall_cons_1 in H2 as [Hy Hk]. apply cons_eq_inv in Hb as [Hb Hr].
  cbn [map]. f_equal.
  - by apply Byte32_inj.
  - by apply IH.
Qed.

Lemma TxMerkleRoot_binding_witness :
  let l1 := [mkHash 1 2 3 4] in let l2 := [mkHash 1 2 3 4; mkHash 5 6 7 8] in
  @TxMerkleRoot pad32 _ id l1 <> @TxMerkleRoot pad32 _ id l2 /\
  @TxMerkleRoot pad32 _ id l2 = @TxMerkleRoot pad32 _ id l2 /\ map id l2 = map id l2.
Proof.
  intros l1 l2. split; [vm_compute; discriminate|]. split; [reflexivity|].
  assert (Forall (fun tx => Hash_ok (id tx)) (l2 ++ l2)) as Hok.
  { repeat constructor; vm_compute; repeat split; discriminate. }
  by destruct (@TxMerkleRoot_binding pad32 pad32_laws _ id l2 l2 Hok eq_refl).
Defined.

(** The status root binds the list of statuses the same way. *)
Theorem TxStatusMerkleRoot_binding `{Sha3Laws} (t1 t2 : list TxVerifyResult) :
  TxStatusMerkleRoot t1 = TxStatusMerkleRoot t2 ->
  t1 = t2 \/ collision (merkle_inputs t1) (merkle_inputs t2).
Proof.
  intros [Hb|Hc]%merkle_binding; [left|by right].
  revert t2 Hb. induction t1 as [|x l IH]; intros [|y k] Hb; try done.
  apply cons_eq_inv in Hb as [Hb Hr]. f_equal; [by apply tvr_json_inj|by apply IH].
Qed.

Lemma TxStatusMerkleRoot_binding_witness :
  let t := [mkTvr true; mkTvr false; mkTvr false] in
  @TxStatusMerkleRoot pad32 t = @TxStatusMerkleRoot pad32 t /\
  (t = t \/ @collision pad32 (@merkle_inputs pad32 _ _ t) (@merkle_inputs pad32 _ _ t)).
Proof.
  intros t. split; [reflexivity|]. exact (@TxStatusMerkleRoot_binding pad32 pad32_laws t t eq_refl).
Defined.

(** [prevPowerOfTwo] is what its comment says, a power of two k with k < n <= 2k; hence both
    halves of the recursion are shorter than the list and [merkleRoot] terminates with the
    recursive equation of the source. *)
Theorem merkleRoot_recursion `{Sha3} (l : list Hash) :
  (forall n, 2 <= n -> prevPowerOfTwo n < n <= 2 * prevPowerOfTwo n /\
     exists j, 0 <= j /\ prevPowerOfTwo n = 2 ^ j) /\
  merkleRoot l =
    match l with
    | [] => NewHash (Sum256 [])
    | [h] => NewHash (Sum256 (0 :: Byte32 h))
    | _ =>
        let k := Z.to_nat (prevPowerOfTwo #l) in
        NewHash (Sum256 (1 :: Byte32 (merkleRoot (take k l)) ++ Byte32 (merkleRoot (drop k l))))
    end.
Proof. split; [apply prevPowerOfTwo_range|]. rewrite merkleRoot_eq. by destruct l as [|? []]. Qed.

(** Statuses are set one by one: an index up to the length is set, and exactly it, extending
    the list by at most one; a larger index is refused with the statuses unchanged. *)
Theorem SetStatus_GetStatus (ts : TransactionStatus) (i : Z) (g : bool) : 0 <= i ->
  (#(VerifyStatus ts) < i /\ exists e, SetStatus ts i g = Some (Some e, ts)) \/
  (i <= #(VerifyStatus ts) /\ exists ts',
     SetStatus ts i g = Some (None, ts') /\ ts_Version ts' = ts_Version ts /\
     #(VerifyStatus ts') = Z.max #(VerifyStatus ts) (i + 1) /\
     GetStatus ts' i = Some (g, None) /\
     forall j, 0 <= j -> j <> i -> GetStatus ts' j = GetStatus ts j).
Proof.
  intros Hi. unfold SetStatus. destruct (Z.ltb_spec #(VerifyStatus ts) i) as [Hlt|Hle]; [left; eauto|].
  right. split; [done|]. destruct (Z.eqb_spec i #(VerifyStatus ts)) as [->|Hne].
  - eexists. split; [done|]. cbn [ts_Version VerifyStatus]. split; [done|].
    autorewrite with zlen. split; [lia|].
    assert (forall j, 0 <= j -> get_spec (mkTxStatus (ts_Version ts) (VerifyStatus ts ++ [mkTvr g])) j
      = if decide (j = #(VerifyStatus ts)) then Some g else get_spec ts j) as Hg.
    { intros j Hj. unfold get_spec. rewrite (proj2 (Z.leb_le 0 j)) by done. cbn [VerifyStatus].
      case_decide as Hd.
      - rewrite lookup_app_r by zlia. by replace (Z.to_nat j - _)%nat with 0%nat by zlia.
      - destruct (decide (j < #(VerifyStatus ts))) as [|Hge]; [by rewrite lookup_app_l by zlia|].
        by rewrite !lookup_ge_None_2 by (rewrite ?length_app; cbn; zlia). }
    split; [|intros j Hj Hne]; rewrite !GetStatus_spec by (done || apply zlen_nonneg); rewrite Hg by (done || apply zlen_nonneg).
    + by rewrite decide_True.
    + by rewrite decide_False.
  - rewrite (proj2 (Z.ltb_ge i 0)) by done. eexists. split; [done|].
    cbn [ts_Version VerifyStatus]. split; [done|].
    assert (Z.to_nat i < length (VerifyStatus ts))%nat as Hlt by zlia.
    split; [unfold zlen in *; rewrite length_insert; lia|].
    split; [|intros j Hj Hji]; rewrite !GetStatus_spec by done; unfold get_spec;
      rewrite (proj2 (Z.leb_le 0 _)) by done; cbn [VerifyStatus].
    + by rewrite list_lookup_insert_eq by done.
    + by rewrite list_lookup_insert_ne by lia.
Qed.

Lemma SetStatus_GetStatus_witness :
  (#(VerifyStatus NewTransactionStatus) < 0 /\
     exists e, SetStatus NewTransactionStatus 0 true = Some (Some e, NewTransactionStatus)) \/
  (0 <= #(VerifyStatus NewTransactionStatus) /\ exists ts',
     SetStatus NewTransactionStatus 0 true = Some (None, ts') /\ ts_Version ts' = 1 /\
     #(VerifyStatus ts') = 1 /\ GetStatus ts' 0 = Some (true, None) /\
     forall j, 0 <= j -> j <> 0 -> GetStatus ts' j = GetStatus NewTransactionStatus j).
Proof. apply (SetStatus_GetStatus NewTransactionStatus 0 true). lia. Defined.
