(* ===== verification/Codec.v ===== *)
(** * Codecs: what a reader and its format promise each other

    The class [Codec m enc ok] says that the reader [m] inverts the encoding [enc] on the
    values [ok] describes, and conversely that what it reads from bytes is such a value,
    whose encoding is no longer than the bytes it was read from: the canonical form of a
    serialization never exceeds it.  The structures of the protocol are read by readers
    composed from the instances below. *)
From S2P Require Import Prelude Errors GoLib Encoding Hash.

Class Codec {A} (m : rd A) (enc : A -> bytes) (ok : A -> Prop) := {
  codec_enc a rest : ok a -> m (enc a ++ rest) = (Ok a, rest);
  codec_dec r a r' : bytes_ok r -> m r = (Ok a, r') -> ok a /\ bytes_ok r' /\ #(enc a) + #r' <= #r;
}.

(** ** Inverting a sequence of reads *)
Lemma rd_bind_ok {A B} (m : rd A) (f : A -> rd B) r b r' : (m ≫= f) r = (Ok b, r') <->
  exists a r1, m r = (Ok a, r1) /\ f a r1 = (Ok b, r').
Proof.
  unfold mbind, rd_bind. split.
  - destruct (m r) as [[a|e] r1]; [|done]. intros. by exists a, r1.
  - by intros (a & r1 & -> & ?).
Qed.

Lemma rd_ret_ok {A} (a b : A) r r' : (mret a : rd A) r = (Ok b, r') <-> a = b /\ r = r'.
Proof. unfold mret, rd_ret. split; [by intros [= -> ->] | by intros [-> ->]]. Qed.

Lemma rd_fail_ok {A} e (b : A) r r' : rd_fail e r = (Ok b, r') <-> False.
Proof. unfold rd_fail. naive_solver. Qed.

Lemma bind_step {A B} (m : rd A) (f : A -> rd B) r a r1 : m r = (Ok a, r1) -> (m ≫= f) r = f a r1.
Proof. intros Hm. unfold mbind, rd_bind. by rewrite Hm. Qed.

(** Inverts a hypothesis about a successful read into its successive reads. *)
Ltac rd_inv :=
  repeat match goal with
  | H : (_ ≫= _) _ = (Ok _, _) |- _ => apply rd_bind_ok in H as (? & ? & ? & H)
  | H : (mret _) _ = (Ok _, _) |- _ => apply rd_ret_ok in H as [? ?]; simplify_eq
  | H : rd_fail _ _ = (Ok _, _) |- _ => apply rd_fail_ok in H as []
  | H : (let '(_, _) := ?x in _) _ = (Ok _, _) |- _ => destruct x
  | H : (if decide ?P then _ else _) _ = (Ok _, _) |- _ => destruct (decide P)
  | H : (if ?b then _ else _) _ = (Ok _, _) |- _ => destruct b eqn:?
  | p : (_ * _)%type |- _ => destruct p
  end.

Lemma bytes_ok_suffix r r' : suffix r' r -> bytes_ok r -> bytes_ok r'.
Proof. intros [p ->]. rewrite bytes_ok_app. by intros []. Qed.

(** ** Varints *)
Lemma lor_below a b n : 0 <= n -> 0 <= a < 2 ^ n -> 0 <= b < 2 ^ n -> 0 <= Z.lor a b < 2 ^ n.
Proof.
  intros Hn Ha Hb. split; [apply Z.lor_nonneg; lia|].
  destruct (Z.eq_dec (Z.lor a b) 0) as [E|]; [rewrite E; lia|].
  assert (0 <= Z.lor a b) by (apply Z.lor_nonneg; lia).
  apply Z.log2_lt_pow2; [lia|]. rewrite Z.log2_lor by lia.
  assert (forall x, 0 <= x < 2 ^ n -> x <> 0 -> Z.log2 x < n) as Hlog
    by (intros; apply Z.log2_lt_pow2; lia).
  destruct (Z.eq_dec a 0) as [->|], (Z.eq_dec b 0) as [->|]; [done|..];
    rewrite ?Z.lor_0_l, ?Z.lor_0_r in *; change (Z.log2 0) with 0 in *.
  - pose proof (Hlog b Hb ltac:(done)). pose proof (Z.log2_nonneg b). lia.
  - pose proof (Hlog a Ha ltac:(done)). pose proof (Z.log2_nonneg a). lia.
  - pose proof (Hlog a Ha ltac:(done)). pose proof (Hlog b Hb ltac:(done)). lia.
Qed.

Lemma shifted_below b i s : 0 <= b < 128 -> s = 7 * i -> 0 <= i ->
  0 <= u64 (Z.shiftl b s) < 2 ^ (7 * (i + 1)) /\ 0 <= u64 (Z.shiftl b s) < 2 ^ 64.
Proof.
  intros Hb -> Hi. split; [|by apply (wrap_range 64)]. unfold wrap.
  assert (0 <= Z.shiftl b (7 * i) < 2 ^ (7 * (i + 1))) as Hs.
  { rewrite Z.shiftl_mul_pow2 by lia. replace (7 * (i + 1)) with (7 + 7 * i) by lia.
    rewrite Z.pow_add_r by lia. change (2 ^ 7) with 128. nia. }
  pose proof (Z.mod_pos_bound (Z.shiftl b (7 * i)) (2 ^ 64) ltac:(lia)).
  pose proof (Z.mod_le (Z.shiftl b (7 * i)) (2 ^ 64) ltac:(lia) ltac:(lia)). lia.
Qed.

(** What a loop of [fuel] more bytes returns is below the bound of the bytes consumed. *)
Lemma ReadUvarint_loop_dec fuel : forall i x s r v r',
  bytes_ok r -> s = 7 * i -> 0 <= i -> 0 <= x < 2 ^ (7 * i) -> x < 2 ^ 64 ->
  ReadUvarint_loop ReadByte fuel i x s r = (Ok v, r') ->
  0 <= v < 2 ^ (7 * (i + (#r - #r'))) /\ v < 2 ^ 64 /\ #r' < #r.
Proof.
  induction fuel as [|fuel IH]; intros i x s r v r' Hr Hs Hi Hx Hx64; cbn [ReadUvarint_loop]; [done|].
  destruct r as [|b r]; cbn [ReadByte]; [done|].
  apply Forall_cons_1 in Hr as [Hb Hr]. unfold byte_ok in Hb.
  assert (2 ^ (7 * i) <= 2 ^ (7 * (i + 1))) as Hmono by (apply Z.pow_le_mono_r; lia).
  destruct (Z.ltb_spec b 128).
  - case_on; [done|]. intros [= <- <-]. rewrite zlen_cons.
    destruct (shifted_below b i s ltac:(lia) Hs Hi).
    replace (i + (#r + 1 - #r)) with (i + 1) by lia.
    split; [|split; [|lia]]; apply lor_below; lia.
  - intros Hl. rewrite zlen_cons.
    assert (0 <= Z.land b 127 < 128) as Hland.
    { change 127 with (Z.ones 7). rewrite Z.land_ones by done. by apply (wrap_range 7). }
    destruct (shifted_below (Z.land b 127) i s ltac:(lia) Hs Hi).
    apply IH in Hl as (? & ? & ?); [|done|lia|lia|apply lor_below; lia|apply lor_below; lia].
    replace (i + (#r + 1 - #r')) with (i + 1 + (#r - #r')) by lia. split; [done|lia].
Qed.

Lemma ReadUvarint_dec r v r' : bytes_ok r -> ReadUvarint ReadByte r = (Ok v, r') ->
  u64_ok v /\ #(enc_varint v) + #r' <= #r.
Proof.
  intros Hr Hv. unfold ReadUvarint in Hv.
  apply ReadUvarint_loop_dec in Hv as (Hv & H64 & Hlt); [|done|done|lia|cbn; lia|lia].
  split; [unfold u64_ok; lia|].
  assert (length (enc_varint v) <= Z.to_nat (#r - #r'))%nat; [|unfold zlen in *; lia].
  apply length_uvarint; [lia|]. rewrite Z2Nat.id by lia. by rewrite Z.add_0_l in Hv.
Qed.

#[export] Instance Varint63_codec : Codec ReadVarint63 enc_varint (fun x => 0 <= x <= MaxInt63).
Proof.
  split; [intros; by apply ReadVarint63_enc|]. intros r v r' Hr Hv.
  pose proof (consuming_ReadVarint63 r) as Hs. rewrite Hv in Hs. unfold ReadVarint63 in Hv.
  destruct (ReadUvarint ReadByte r) as [[x|e] r1] eqn:E; [|done].
  case_in Hv; [done|]. injection Hv as <- <-. zbool. apply ReadUvarint_dec in E as [Hu Hl]; [|done].
  unfold u64_ok in Hu. split; [lia|]. split; [by eapply bytes_ok_suffix|done].
Qed.

#[export] Instance Varint31_codec : Codec ReadVarint31 enc_varint (fun x => 0 <= x <= MaxInt31).
Proof.
  split; [intros; by apply ReadVarint31_enc|]. intros r v r' Hr Hv.
  pose proof (consuming_ReadVarint31 r) as Hs. rewrite Hv in Hs. unfold ReadVarint31 in Hv.
  destruct (ReadUvarint ReadByte r) as [[x|e] r1] eqn:E; [|done].
  case_in Hv; [done|]. injection Hv as <- <-. zbool. apply ReadUvarint_dec in E as [Hu Hl]; [|done].
  unfold u64_ok, MaxInt31 in *. rewrite (wrap_small 32) by lia.
  split; [lia|]. split; [by eapply bytes_ok_suffix|done].
Qed.

(** ** Strings and lists of strings *)
#[export] Instance Varstr31_codec :
  Codec ReadVarstr31 enc_varstr (fun s => bytes_ok s /\ #s <= MaxInt31).
Proof.
  split; [intros s rest []; by apply ReadVarstr31_enc|]. intros r s r' Hr Hv. unfold ReadVarstr31 in Hv.
  destruct (ReadVarint31 r) as [[l|e] r1] eqn:E; [|done].
  apply codec_dec in E as (Hl & Hr1 & Hlen); [|done]. unfold enc_varstr.
  destruct (Z.eqb_spec l 0) as [->|].
  { injection Hv as <- <-. rewrite app_nil_r. split_and!; auto with go. unfold MaxInt31, zlen; cbn; lia. }
  destruct (Z.ltb_spec #r1 l); [done|]. injection Hv as <- <-.
  assert (#(take (Z.to_nat l) r1) = l) as Ht by (rewrite zlen_take; lia).
  rewrite zlen_app, Ht, zlen_drop. split_and!; auto with go; lia.
Qed.

Definition varstrs_ok (l : list bytes) : Prop :=
  #l <= MaxInt31 /\ Forall (fun s => bytes_ok s /\ #s <= MaxInt31) l.

Lemma ReadVarstrList_loop_dec n : forall acc r l r', bytes_ok r ->
  ReadVarstrList_loop n acc r = (l, None, 0%nat, r') ->
  exists k, l = acc ++ k /\ length k = n /\ Forall (fun s => bytes_ok s /\ #s <= MaxInt31) k /\
    bytes_ok r' /\ #(mjoin (map enc_varstr k)) + #r' <= #r.
Proof.
  induction n as [|n IH]; intros acc r l r' Hr; cbn [ReadVarstrList_loop].
  { intros [= <- <-]. exists []. rewrite app_nil_r. split_and!; try done. }
  destruct (ReadVarstr31 r) as [[s|e] r1] eqn:E; [|done].
  apply codec_dec in E as (Hs & Hr1 & Hlen); [|done]. intros Hl.
  destruct (IH _ _ _ _ Hr1 Hl) as (k & -> & Hk & Hok & Hr' & Hlen').
  exists (s :: k). rewrite <- app_assoc. cbn [map length]. rewrite mjoin_cons, zlen_app.
  split_and!; [done|lia|by constructor|done|lia].
Qed.

#[export] Instance VarstrList_codec : Codec ReadVarstrList_rd enc_varstrs varstrs_ok.
Proof.
  split.
  { intros l rest [Hn Hl]. apply ReadVarstrList_rd_enc; [done|].
    eapply Forall_impl; [|exact Hl]. by intros s []. }
  intros r l r' Hr Hv. unfold ReadVarstrList_rd, ReadVarstrList in Hv.
  destruct (ReadVarint31 r) as [[n|e] r1] eqn:E; [|done].
  apply codec_dec in E as (Hn & Hr1 & Hlen); [|done]. unfold enc_varstrs, varstrs_ok.
  destruct (Z.eqb_spec n 0) as [->|].
  { injection Hv as <- <-. cbn [map]. rewrite app_nil_r. split_and!; try done. }
  destruct (ReadVarstrList_loop (Z.to_nat n) [] r1) as [[[l0 err] k] r2] eqn:El.
  destruct (ReadVarstrList_loop_inv _ _ _ _ _ _ _ El) as [(-> & -> & El')|(g & r3 & e0 & _ & _ & _ & -> & _)];
    [|by case_decide].
  rewrite decide_False in Hv by lia. injection Hv as <- <-.
  destruct (ReadVarstrList_loop_dec _ _ _ _ _ Hr1 El) as (k & -> & Hk & Hok & Hr' & Hl').
  cbn [app]. assert (#k = n) as -> by zlia. rewrite zlen_app. split_and!; [lia|done|done|lia].
Qed.

(** ** Hashes and amounts *)
Lemma ReadFull_rd_dec n r p r' : bytes_ok r -> ReadFull_rd n r = (Ok p, r') ->
  length p = n /\ r = p ++ r' /\ bytes_ok p /\ bytes_ok r'.
Proof.
  intros Hr Hp. destruct (decide (n <= length r)%nat).
  - rewrite <- (take_drop n r), ReadFull_rd_app in Hp by (rewrite length_take; lia).
    injection Hp as <- <-. rewrite take_drop, length_take. split_and!; auto with go. lia.
  - unfold ReadFull_rd in Hp. by rewrite ReadFull_short in Hp by lia.
Qed.

#[export] Instance Hash_codec : Codec ReadHash Byte32 Hash_ok.
Proof.
  split; [intros; by apply ReadHash_enc|]. intros r h r' Hr Hh.
  assert (exists p, ReadFull_rd 32 r = (Ok p, r') /\ h = NewHash p) as (p & Hp & ->).
  { unfold ReadHash, Hash_ReadFrom, ReadFull_rd in *.
    destruct (ReadFull _ r) as [[p [e|]] r1]; [done|]. injection Hh as <- <-. eauto. }
  destruct (ReadFull_rd_dec _ _ _ _ Hr Hp) as (Hl & -> & Hok & Hr').
  split; [by apply NewHash_ok|]. split; [done|]. rewrite zlen_Byte32, zlen_app. zlia.
Qed.

#[export] Instance AssetAmount_codec : Codec ReadAssetAmount enc_asset_amount AssetAmount_ok.
Proof.
  split; [intros; by apply ReadAssetAmount_enc|]. intros r a r' Hr Ha.
  assert (exists h v r1, ReadHash r = (Ok h, r1) /\ ReadVarint63 r1 = (Ok v, r') /\
    a = mkAssetAmount (Some h) v) as (h & v & r1 & Hh & Hv & ->).
  { unfold ReadAssetAmount, AssetAmount_ReadFrom, AssetID_ReadFrom, ReadHash in *.
    destruct (Hash_ReadFrom zeroHash r) as [[[n [e|]] h] r1]; [done|].
    destruct (ReadVarint63 r1) as [[v|e] r2] eqn:E; [|done]. injection Ha as <- <-. by exists h, v, r1. }
  apply codec_dec in Hh as (Hh & Hr1 & Hl1); [|done]. apply codec_dec in Hv as (Hv & Hr2 & Hl2); [|done].
  unfold AssetAmount_ok, enc_asset_amount. cbn [AssetId Amount default id]. rewrite zlen_app.
  split_and!; eauto; lia.
Qed.

(** ** Extensible strings *)
Lemma ExtensibleString_enc {A} (m : rd A) (enc : A -> bytes) a suffix rest :
  m (enc a ++ suffix) = (Ok a, suffix) -> #(enc a ++ suffix) <= MaxInt31 ->
  ReadExtensibleString m (enc_varstr (enc a ++ suffix) ++ rest) = (Ok (a, suffix), rest).
Proof. intros. by apply ReadExtensibleString_enc. Qed.

(** A varint grows with its value, so that a shorter string has a shorter prefix. *)
Lemma length_uvarint_mono fuel : forall x y, 0 <= x <= y ->
  (length (uvarint_bytes fuel x) <= length (uvarint_bytes fuel y))%nat.
Proof.
  induction fuel as [|fuel IH]; intros x y Hxy; cbn [uvarint_bytes]; [lia|].
  destruct (Z.leb_spec 128 x), (Z.leb_spec 128 y); cbn [length]; try lia.
  apply le_n_S, IH. rewrite !Z.shiftr_div_pow2 by lia.
  split; [apply Z.div_pos; lia|apply Z.div_le_mono; lia].
Qed.

Lemma enc_varstr_mono s k : #s <= #k -> #(enc_varstr s) <= #(enc_varstr k).
Proof.
  intros Hsk. unfold enc_varstr. rewrite !zlen_app.
  pose proof (length_uvarint_mono MaxVarintLen64 #s #k). unfold enc_varint. zlia.
Qed.

Lemma ExtensibleString_dec {A} (m : rd A) (enc : A -> bytes) (ok : A -> Prop) r a suffix r' :
  (forall r a r', bytes_ok r -> m r = (Ok a, r') -> ok a /\ bytes_ok r' /\ #(enc a) + #r' <= #r) ->
  bytes_ok r -> ReadExtensibleString m r = (Ok (a, suffix), r') ->
  ok a /\ bytes_ok suffix /\ bytes_ok r' /\ #(enc a ++ suffix) <= MaxInt31 /\
  #(enc_varstr (enc a ++ suffix)) + #r' <= #r.
Proof.
  intros Hm Hr He. unfold ReadExtensibleString, NewReader in He.
  destruct (ReadVarstr31 r) as [[s|e] r1] eqn:E; [|done].
  apply codec_dec in E as ((Hs & Hl) & Hr1 & Hlen); [|done].
  destruct (m s) as [[x|e] suf] eqn:Em; [|done]. injection He as <- <- <-.
  destruct (Hm _ _ _ Hs Em) as (Hok & Hsuf & Hx).
  assert (#(enc x ++ suf) <= #s) as Hle by (rewrite zlen_app; lia).
  pose proof (enc_varstr_mono _ _ Hle). split_and!; done || lia.
Qed.

(** From here on the encodings of the primitives are known by their codecs only. *)
#[global] Opaque str enc_varint enc_varstr enc_varstrs Byte32 enc_asset_amount.
