(* ===== verification/Entry.v ===== *)
(** * The body an entry is hashed by

    Models [writeForHash] of [protocol/bc/entry.go], which walks a value by its dynamic
    type, and the asset identifier computed from it in [protocol/bc/asset.go].  [hval] is
    the universe of dynamic types the function distinguishes, one constructor per case of
    its type switch and of its switch on the reflected kind. *)
From S2P Require Import Prelude Errors GoLib Encoding Hash.

#[local] Set Warnings "-register-all".

(** ** Data *)
Inductive hval :=
| HByte (v : Z)
| HUint64 (v : Z)
| HBytes (v : bytes)
| HByteSlices (v : list bytes)
| HString (v : gostring)
| HHashPtr (v : option Hash)
| HAssetIDPtr (v : option AssetID)
| HHash (v : Hash)
| HAssetID (v : AssetID)
| HPtr (v : option hval)
| HSlice (v : list hval)
  (** a struct type's name and its fields: name, whether it is exported, value *)
| HStruct (typ : gostring) (fields : list (gostring * bool * hval))
  (** any other type, by its name *)
| HOther (typ : gostring).

Definition byte32zero : bytes := replicate 32 0.
Definition errInvalidValue : error := EMsg (str "invalid value").

Section writing.
Context `{Runtime} `{Writer W}.

Abbreviation wres := (option (option error * W)).

(** The loop over a slice's elements, [f] being the recursive call.  An element of an
    exported slice can always be interfaced, so that the [CanInterface] test passes. *)
Definition write_elems (f : hval -> W -> wres) : Z -> list hval -> W -> wres :=
  fix go i l w :=
    match l with
    | [] => Some (None, w)
    | c :: l =>
        '(err, w) ← f c w;
        match err with
        | Some _ => Some (Wrapf err (str "writing slice element %d for hash") [IInt i], w)
        | None => go (i + 1) l w
        end
    end.

(** The loop over a struct's fields. *)
Definition write_fields (f : hval -> W -> wres) (typ : gostring)
    : Z -> list (gostring * bool * hval) -> W -> wres :=
  fix go i l w :=
    match l with
    | [] => Some (None, w)
    | (name, canInterface, c) :: l =>
        if negb canInterface then Some (Some errInvalidValue, w)
        else
          '(err, w) ← f c w;
          match err with
          | Some _ =>
              Some (Wrapf err (str "writing struct field %d (%s.%s) for hash")
                      [IInt i; IString typ; IString name], w)
          | None => go (i + 1) l w
          end
    end.

Fixpoint writeForHash (c : hval) (w : W) : wres :=
  match c with
  | HByte v =>
      let '(_, err, w) := Write [v] w in
      Some (Wrap err [IString (str "writing byte for hash")], w)
  | HUint64 v =>
      let buf := le_put 8 v in
      let '(_, err, w) := Write buf w in
      Some (Wrapf err (str "writing uint64 (%d) for hash") [IInt v], w)
  | HBytes v =>
      '(_, err, w) ← WriteVarstr31 w v;
      Some (Wrapf err (str "writing []byte (len %d) for hash") [IInt #v], w)
  | HByteSlices v =>
      '(_, err, w) ← WriteVarstrList w v;
      Some (Wrapf err (str "writing [][]byte (len %d) for hash") [IInt #v], w)
  | HString v =>
      '(_, err, w) ← WriteVarstr31 w v;
      Some (Wrapf err (str "writing string (len %d) for hash") [IInt #v], w)
  | HHashPtr None =>
      let '(_, err, w) := Write byte32zero w in
      Some (Wrap err [IString (str "writing nil *Hash for hash")], w)
  | HHashPtr (Some v) =>
      let '(_, err, w) := Write (Hash_Bytes v) w in
      Some (Wrap err [IString (str "writing *Hash for hash")], w)
  | HAssetIDPtr None =>
      let '(_, err, w) := Write byte32zero w in
      Some (Wrap err [IString (str "writing nil *AssetID for hash")], w)
  | HAssetIDPtr (Some v) =>
      let '(_, err, w) := Write (AssetID_Bytes v) w in
      Some (Wrap err [IString (str "writing *AssetID for hash")], w)
  | HHash v =>
      let '(_, err, w) := Hash_WriteTo v w in
      Some (Wrap err [IString (str "writing Hash for hash")], w)
  | HAssetID v =>
      let '(_, err, w) := AssetID_WriteTo v w in
      Some (Wrap err [IString (str "writing AssetID for hash")], w)
  | HPtr None => Some (None, w)
  | HPtr (Some elem) => writeForHash elem w
  | HSlice v =>
      '(_, err, w) ← WriteVarint31 w (u64 #v);
      match err with
      | Some _ => Some (Wrapf err (str "writing slice (len %d) for hash") [IInt #v], w)
      | None => write_elems writeForHash 0 v w
      end
  | HStruct typ fields => write_fields writeForHash typ 0 fields w
  | HOther typ => Some (Wrap (Some (EMsg (str "bad type " ++ typ))) [], w)
  end.
End writing.

(** ** Asset identifiers *)
Record Program := mkProgram { VmVersion : Z; Code : bytes }.
Record AssetDefinition := mkAssetDefinition { ad_IssuanceProgram : option Program; ad_Data : option Hash }.

(** The two structures as dynamic values. *)
Definition Program_hval (p : Program) : hval :=
  HStruct (str "Program")
    [(str "VmVersion", true, HUint64 (VmVersion p)); (str "Code", true, HBytes (Code p))].
Definition AssetDefinition_hval (ad : AssetDefinition) : hval :=
  HStruct (str "AssetDefinition")
    [(str "IssuanceProgram", true, HPtr (Program_hval <$> ad_IssuanceProgram ad));
     (str "Data", true, HHashPtr (ad_Data ad))].

(** The error of [writeForHash] is dropped: what was written before it is hashed. *)
Definition AssetDefinition_ComputeAssetID `{Runtime} `{Sha3} (ad : AssetDefinition) : option AssetID :=
  let h := Get256 in
  '(_, h) ← writeForHash (AssetDefinition_hval ad) h;
  Some (NewAssetID (sha_read h)).

Definition ComputeAssetID `{Runtime} `{Sha3} (prog : bytes) (vmVersion : Z) (data : option Hash)
    : option AssetID :=
  let def := mkAssetDefinition (Some (mkProgram vmVersion prog)) data in
  AssetDefinition_ComputeAssetID def.

(** ** The format *)
Fixpoint enc_hval (c : hval) : bytes :=
  match c with
  | HByte v => [v]
  | HUint64 v => le_put 8 v
  | HBytes v | HString v => enc_varstr v
  | HByteSlices v => enc_varstrs v
  | HHashPtr v | HAssetIDPtr v => Byte32 (default zeroHash v)
  | HHash v | HAssetID v => Byte32 v
  | HPtr v => match v with Some c => enc_hval c | None => [] end
  | HSlice v => enc_varint #v ++ mjoin (map enc_hval v)
  | HStruct _ fields => mjoin (map (fun '(_, _, c) => enc_hval c) fields)
  | HOther _ => []
  end.

(** Induction on a value, with the hypothesis for the elements of its containers. *)
Lemma hval_rec' (P : hval -> Prop) :
  (forall c, match c with HPtr (Some _) | HSlice _ | HStruct _ _ => False | _ => True end -> P c) ->
  (forall c, P c -> P (HPtr (Some c))) ->
  (forall l, Forall P l -> P (HSlice l)) ->
  (forall t l, Forall (fun f => P f.2) l -> P (HStruct t l)) ->
  forall c, P c.
Proof.
  intros Hb Hp Hs Hst. fix IH 1.
  destruct c as [| | | | | | | | |[c|]|l|t l|]; try (by apply Hb).
  - apply Hp, IH.
  - apply Hs. induction l; constructor; [apply IH|done].
  - apply Hst. induction l as [|[[n b] c] l]; constructor; [apply IH|done].
Qed.

(** The types of values the protocol's entries are made of, with no nil pointer to a struct
    (which would be written as nothing) and only exported fields. *)
Inductive htype :=
| TByte | TUint64 | TBytes | TByteSlices | TString | THashPtr | TAssetIDPtr | THash | TAssetID
| TPtr (t : htype)
| TSlice (t : htype)
| TStruct (ts : list htype).

Fixpoint typed (c : hval) (t : htype) : Prop :=
  match c, t with
  | HByte v, TByte => byte_ok v
  | HUint64 v, TUint64 => u64_ok v
  | HBytes v, TBytes | HString v, TString => #v <= MaxInt31
  | HByteSlices v, TByteSlices => #v <= MaxInt31 /\ Forall (fun s => #s <= MaxInt31) v
  | HHashPtr v, THashPtr | HAssetIDPtr v, TAssetIDPtr => Hash_ok (default zeroHash v)
  | HHash v, THash | HAssetID v, TAssetID => Hash_ok v
  | HPtr (Some c), TPtr t => typed c t
  | HSlice l, TSlice t =>
      #l <= MaxInt31 /\ (fix go l := match l with [] => True | c :: l => typed c t /\ go l end) l
  | HStruct _ l, TStruct ts =>
      (fix go l ts := match l, ts with
       | [], [] => True
       | (_, b, c) :: l, t :: ts => b = true /\ typed c t /\ go l ts
       | _, _ => False
       end) l ts
  | _, _ => False
  end.

(** What a value's bytes determine: not the names, and not whether a zero hash was nil. *)
Fixpoint canon (c : hval) : hval :=
  match c with
  | HHashPtr v => HHashPtr (Some (default zeroHash v))
  | HAssetIDPtr v => HAssetIDPtr (Some (default zeroHash v))
  | HPtr (Some c) => HPtr (Some (canon c))
  | HSlice l => HSlice (map canon l)
  | HStruct _ l => HStruct [] (map (fun '(_, b, c) => ([], b, canon c)) l)
  | c => c
  end.

(** ** Writing into a hash object *)
Section buffers.
Context `{Runtime}.
Implicit Types w : bytes.

Lemma buffer_Varint31 w x : 0 <= x <= MaxInt31 ->
  WriteVarint31 w x = Some (#(enc_varint x), None, w ++ enc_varint x).
Proof.
  intros Hx. unfold WriteVarint31. case_on; zbool; [lia|].
  by rewrite PutUvarint_ok by (unfold MaxInt31, MaxInt63 in *; lia).
Qed.

Lemma buffer_Varstr31 w s : #s <= MaxInt31 ->
  WriteVarstr31 w s = Some (#(enc_varstr s), None, w ++ enc_varstr s).
Proof.
  intros Hs. pose proof (zlen_nonneg s). unfold WriteVarstr31, enc_varstr.
  rewrite wrap_small, buffer_Varint31 by (unfold MaxInt31 in *; lia). cbn.
  by rewrite zlen_app, app_assoc.
Qed.

Lemma buffer_VarstrList_loop l : forall n w, Forall (fun s => #s <= MaxInt31) l ->
  WriteVarstrList_loop l n w
    = Some (n + #(mjoin (map enc_varstr l)), None, w ++ mjoin (map enc_varstr l)).
Proof.
  induction l as [|s l IH]; intros n w Hl; cbn [WriteVarstrList_loop].
  { cbn. by rewrite Z.add_0_r, app_nil_r. }
  apply Forall_cons_1 in Hl as [Hs Hl]. rewrite buffer_Varstr31 by done. cbn [mbind option_bind].
  rewrite IH by done. cbn [map]. rewrite mjoin_cons, zlen_app, app_assoc. by rewrite Z.add_assoc.
Qed.

Lemma buffer_VarstrList w l : #l <= MaxInt31 -> Forall (fun s => #s <= MaxInt31) l ->
  WriteVarstrList w l = Some (#(enc_varstrs l), None, w ++ enc_varstrs l).
Proof.
  intros Hn Hl. pose proof (zlen_nonneg l). unfold WriteVarstrList, enc_varstrs.
  rewrite wrap_small, buffer_Varint31 by (unfold MaxInt31 in *; lia). cbn [mbind option_bind].
  by rewrite buffer_VarstrList_loop, zlen_app, app_assoc.
Qed.

(** Writing a typed value into a buffer appends its encoding and cannot fail. *)
Definition writes (c : hval) : Prop :=
  forall t w, typed c t -> writeForHash c w = Some (None, w ++ enc_hval c).

Lemma write_elems_ok l : Forall writes l -> forall t i w,
  Forall (fun c => typed c t) l ->
  write_elems writeForHash i l w = Some (None, w ++ mjoin (map enc_hval l)).
Proof.
  induction 1 as [|c l Hc Hl IH]; intros t i w Ht; cbn [write_elems]; [by rewrite app_nil_r|].
  apply Forall_cons_1 in Ht as [Htc Htl]. rewrite (Hc t) by done. cbn [mbind option_bind].
  fold (@write_elems H bytes). rewrite (IH t) by done. cbn [map]. by rewrite mjoin_cons, app_assoc.
Qed.

Lemma write_fields_ok typ l : Forall (fun f => writes f.2) l -> forall ts i w,
  typed (HStruct typ l) (TStruct ts) ->
  write_fields writeForHash typ i l w
    = Some (None, w ++ mjoin (map (fun '(_, _, c) => enc_hval c) l)).
Proof.
  induction 1 as [|[[n b] c] l Hc Hl IH]; intros ts i w Ht; cbn [write_fields]; [by rewrite app_nil_r|].
  destruct ts as [|t ts]; [done|]. destruct Ht as (-> & Htc & Htl). cbn [negb].
  cbn in Hc. rewrite (Hc t) by done. cbn [mbind option_bind].
  fold (@write_fields H bytes). rewrite (IH ts) by done. cbn [map]. by rewrite mjoin_cons, app_assoc.
Qed.

Lemma typed_slice l t : typed (HSlice l) (TSlice t) <-> #l <= MaxInt31 /\ Forall (fun c => typed c t) l.
Proof.
  cbn. apply and_iff_compat_l. induction l as [|c l IH]; [done|]. rewrite Forall_cons_iff. by apply and_iff_compat_l.
Qed.

Lemma writeForHash_ok c : writes c.
Proof.
  induction c as [c Hbase|c IH|l IH|typ l IH] using hval_rec'; intros t w Ht.
  - destruct c as [| | |v| |[v|]|[v|]| | |[v|]|v| |], t; cbn in Ht; try done;
      cbn [writeForHash enc_hval]; rewrite ?buffer_Varstr31 by done; try done.
    by rewrite buffer_VarstrList by apply Ht.
  - destruct t; try done. cbn [writeForHash]. by apply (IH t).
  - destruct t as [| | | | | | | | | |t|]; try done. apply typed_slice in Ht as [Hn Hl].
    cbn [writeForHash enc_hval]. pose proof (zlen_nonneg l).
    rewrite wrap_small, buffer_Varint31 by (unfold MaxInt31 in *; lia). cbn [mbind option_bind].
    by rewrite (write_elems_ok l IH t), app_assoc.
  - destruct t; try done. cbn [writeForHash enc_hval]. by rewrite (write_fields_ok typ l IH ts).
Qed.
End buffers.

(** ** The encoding determines the value *)
Lemma read_enc_inj {A B} (m : bytes -> B * Reader) (enc : A -> bytes) (v : A -> B) x y r r' :
  (forall rest, m (enc x ++ rest) = (v x, rest)) -> (forall rest, m (enc y ++ rest) = (v y, rest)) ->
  enc x ++ r = enc y ++ r' -> v x = v y /\ r = r'.
Proof. intros Hx Hy Heq. pose proof (Hx r) as E. rewrite Heq, Hy in E. by injection E as -> ->. Qed.

Lemma varint_prefix x y r r' : 0 <= x <= MaxInt31 -> 0 <= y <= MaxInt31 ->
  enc_varint x ++ r = enc_varint y ++ r' -> x = y /\ r = r'.
Proof.
  intros Hx Hy Heq.
  destruct (read_enc_inj ReadVarint31 enc_varint (fun x => Ok x) x y r r') as [E ?];
    [by intros; apply ReadVarint31_enc..|done|]. by injection E as ->.
Qed.

Lemma varstr_prefix s k r r' : #s <= MaxInt31 -> #k <= MaxInt31 ->
  enc_varstr s ++ r = enc_varstr k ++ r' -> s = k /\ r = r'.
Proof.
  intros Hx Hy Heq.
  destruct (read_enc_inj ReadVarstr31 enc_varstr (fun x => Ok x) s k r r') as [E ?];
    [by intros; apply ReadVarstr31_enc..|done|]. by injection E as ->.
Qed.

Lemma varstrs_prefix l k r r' :
  #l <= MaxInt31 /\ Forall (fun s => #s <= MaxInt31) l ->
  #k <= MaxInt31 /\ Forall (fun s => #s <= MaxInt31) k ->
  enc_varstrs l ++ r = enc_varstrs k ++ r' -> l = k /\ r = r'.
Proof.
  intros [] [] Heq.
  destruct (read_enc_inj ReadVarstrList_rd enc_varstrs (fun x => Ok x) l k r r') as [E ?];
    [by intros; apply ReadVarstrList_rd_enc..|done|]. by injection E as ->.
Qed.

Lemma Byte32_prefix g h r r' : Hash_ok g -> Hash_ok h ->
  Byte32 g ++ r = Byte32 h ++ r' -> g = h /\ r = r'.
Proof.
  intros Hx Hy Heq.
  destruct (read_enc_inj ReadHash Byte32 (fun x => Ok x) g h r r') as [E ?];
    [by intros; apply ReadHash_enc..|done|]. by injection E as ->.
Qed.

Lemma le_put_u64_prefix x y r r' : u64_ok x -> u64_ok y ->
  le_put 8 x ++ r = le_put 8 y ++ r' -> x = y /\ r = r'.
Proof.
  intros Hx Hy Heq. apply app_inj_1 in Heq as [E ->]; [|by rewrite !length_le_put].
  split; [|done]. apply (f_equal le_get) in E. rewrite !le_get_put in E.
  by rewrite !Z.mod_small in E by done.
Qed.

(** Values of one type whose encodings agree up to what follows them agree. *)
Definition prefix_free (c : hval) : Prop := forall t c' r r', typed c t -> typed c' t ->
  enc_hval c ++ r = enc_hval c' ++ r' -> canon c = canon c' /\ r = r'.

Lemma elems_prefix_free l : Forall prefix_free l -> forall t l' r r',
  Forall (fun c => typed c t) l -> Forall (fun c => typed c t) l' -> length l = length l' ->
  mjoin (map enc_hval l) ++ r = mjoin (map enc_hval l') ++ r' ->
  map canon l = map canon l' /\ r = r'.
Proof.
  induction 1 as [|c l Hc Hl IH]; intros t [|c' l'] r r' Ht Ht' Hlen Heq; try done.
  apply Forall_cons_1 in Ht as [? ?], Ht' as [? ?]. cbn [map] in Heq.
  rewrite !mjoin_cons, <- !app_assoc in Heq. apply (Hc t) in Heq as [Ec Er]; [|done..].
  apply (IH t) in Er as [El ->]; [|done|done|by injection Hlen]. split; [|done].
  cbn [map]. by rewrite Ec, El.
Qed.

Lemma fields_prefix_free l : Forall (fun f => prefix_free f.2) l -> forall n n' ts l' r r',
  typed (HStruct n l) (TStruct ts) -> typed (HStruct n' l') (TStruct ts) ->
  mjoin (map (fun '(_, _, c) => enc_hval c) l) ++ r
    = mjoin (map (fun '(_, _, c) => enc_hval c) l') ++ r' ->
  canon (HStruct n l) = canon (HStruct n' l') /\ r = r'.
Proof.
  induction 1 as [|[[m b] c] l Hc Hl IH]; intros n n' [|t ts] [|[[m' b'] c'] l'] r r' Ht Ht' Heq; try done.
  destruct Ht as (-> & Htc & Htl), Ht' as (-> & Htc' & Htl'). cbn [map] in Heq.
  rewrite !mjoin_cons, <- !app_assoc in Heq. apply (Hc t) in Heq as [Ec Er]; [|done..].
  apply (IH n n' ts) in Er as [El ->]; [|done..]. split; [|done].
  cbn [canon map snd] in *. injection El as El. by rewrite Ec, El.
Qed.

Lemma hval_prefix_free c : prefix_free c.
Proof.
  induction c as [c Hbase|c IH|l IH|typ l IH] using hval_rec'; intros t c' r r' Ht Ht' Heq.
  - destruct c as [| | | | | | | | |[c|]| | |], t; cbn in Ht; try done;
      destruct c' as [| | | | | | | | |[c'|]| | |]; cbn in Ht'; try done;
      cbn [enc_hval canon] in *.
    + by injection Heq as -> ->.
    + apply le_put_u64_prefix in Heq as [-> ->]; done.
    + apply varstr_prefix in Heq as [-> ->]; done.
    + apply varstrs_prefix in Heq as [-> ->]; done.
    + apply varstr_prefix in Heq as [-> ->]; done.
    + apply Byte32_prefix in Heq as [-> ->]; done.
    + apply Byte32_prefix in Heq as [-> ->]; done.
    + apply Byte32_prefix in Heq as [-> ->]; done.
    + apply Byte32_prefix in Heq as [-> ->]; done.
  - destruct t; try done. destruct c' as [| | | | | | | | |[c'|]| | |]; try done.
    cbn [enc_hval canon] in *. apply (IH t) in Heq as [-> ->]; done.
  - destruct t as [| | | | | | | | | |t|]; try done. destruct c' as [| | | | | | | | |[?|]|l'| |]; try done.
    apply typed_slice in Ht as [Hn Hl], Ht' as [Hn' Hl']. cbn [enc_hval canon] in *.
    rewrite <- !app_assoc in Heq.
    apply varint_prefix in Heq as [En Er]; [|split; [apply zlen_nonneg|done]..].
    apply (elems_prefix_free l IH t) in Er as [-> ->]; [done|done|done|zlia].
  - destruct t; try done. destruct c' as [| | | | | | | | |[?|]| |typ' l'|]; try done.
    cbn [enc_hval] in Heq. eapply fields_prefix_free; eassumption.
Qed.

(** ** Asset identifiers *)
Definition asset_type : htype := TStruct [TPtr (TStruct [TUint64; TBytes]); THashPtr].

(** The string an asset identifier is the digest of. *)
Definition asset_preimage (prog : bytes) (vmVersion : Z) (data : option Hash) : bytes :=
  le_put 8 vmVersion ++ enc_varstr prog ++ Byte32 (default zeroHash data).

Definition asset_args_ok (prog : bytes) (vmVersion : Z) (data : option Hash) : Prop :=
  #prog <= MaxInt31 /\ u64_ok vmVersion /\ Hash_ok (default zeroHash data).

Lemma ComputeAssetID_eq `{Runtime} `{Sha3} prog v data : asset_args_ok prog v data ->
  ComputeAssetID prog v data = Some (NewHash (Sum256 (asset_preimage prog v data))).
Proof.
  intros (Hp & Hv & Hd). unfold ComputeAssetID, AssetDefinition_ComputeAssetID.
  rewrite (writeForHash_ok _ asset_type) by done. cbn [mbind option_bind]. do 3 f_equal.
  unfold Get256, asset_preimage. cbn. by rewrite !app_nil_r, <- app_assoc.
Qed.

(** Computing an identifier never panics, whatever the arguments. *)
Lemma PutUvarint_MaxInt31 x : 0 <= x -> x <= MaxInt31 -> exists b, PutUvarint 9 x = Some b.
Proof. intros. exists (enc_varint x). apply PutUvarint_ok; unfold MaxInt31, MaxInt63 in *; lia. Qed.

Lemma WriteVarstr31_total (w s : bytes) : exists r, WriteVarstr31 w s = Some r.
Proof.
  unfold WriteVarstr31, WriteVarint31. case_on; [cbn; eauto|]. zbool.
  destruct (PutUvarint_MaxInt31 (u64 #s)) as [b ->]; [by apply (wrap_range 64)|lia|]. cbn. eauto.
Qed.

Lemma WriteVarint31_total (w : bytes) x : exists r, 0 <= x -> WriteVarint31 w x = Some r.
Proof.
  unfold WriteVarint31. case_on; [eauto|]. zbool.
  destruct (decide (0 <= x)) as [Hx|]; [|by exists (0, None, w)].
  destruct (PutUvarint_MaxInt31 x Hx Heqb) as [b ->]. cbn [mbind option_bind]. eauto.
Qed.

Lemma WriteVarstrList_loop_total l : forall n (w : bytes), exists r, WriteVarstrList_loop l n w = Some r.
Proof.
  induction l as [|s l IH]; intros n w; cbn [WriteVarstrList_loop]; [eauto|].
  destruct (WriteVarstr31_total w s) as [[[n2 [e|]] w'] ->]; cbn [mbind option_bind]; eauto.
Qed.

Lemma WriteVarstrList_total (w : bytes) l : exists r, WriteVarstrList w l = Some r.
Proof.
  unfold WriteVarstrList. destruct (WriteVarint31_total w (u64 #l)) as [[[n [e|]] w'] E];
    rewrite E by (by apply (wrap_range 64)); cbn [mbind option_bind]; [eauto|].
  apply WriteVarstrList_loop_total.
Qed.

(** [writeForHash] on a hash object never panics. *)
Lemma writeForHash_total `{Runtime} c : forall w : bytes, exists r, writeForHash c w = Some r.
Proof.
  induction c as [c Hbase|c IH|l IH|typ l IH] using hval_rec'; intros w.
  - destruct c as [| |v|v|v|[]|[]| | |[]| | |]; try done; cbn [writeForHash]; eauto.
    + destruct (WriteVarstr31_total w v) as [[[? ?] ?] ->]. cbn [mbind option_bind]. eauto.
    + destruct (WriteVarstrList_total w v) as [[[? ?] ?] ->]. cbn [mbind option_bind]. eauto.
    + destruct (WriteVarstr31_total w v) as [[[? ?] ?] ->]. cbn [mbind option_bind]. eauto.
  - apply IH.
  - cbn [writeForHash]. destruct (WriteVarint31_total w (u64 #l)) as [[[n [e|]] w'] E];
      rewrite E by (by apply (wrap_range 64)); cbn [mbind option_bind]; [eauto|].
    clear E. generalize 0. revert w'. induction IH as [|c l Hc Hl IHl]; intros w' i; cbn [write_elems]; [eauto|].
    destruct (Hc w') as [[[e|] w2] ->]; cbn [mbind option_bind]; [eauto|]. apply IHl.
  - cbn [writeForHash]. generalize 0. revert w.
    induction IH as [|[[n b] c] l Hc Hl IHl]; intros w i; cbn [write_fields]; [eauto|].
    case_on; [eauto|]. destruct (Hc w) as [[[e|] w2] E]; cbn in E; rewrite E;
      cbn [mbind option_bind]; [eauto|]. apply IHl.
Qed.

Lemma ComputeAssetID_total `{Runtime} `{Sha3} prog v data :
  exists id, ComputeAssetID prog v data = Some id.
Proof.
  unfold ComputeAssetID, AssetDefinition_ComputeAssetID.
  match goal with |- context [writeForHash ?c ?w] => destruct (writeForHash_total c w) as [[? ?] ->] end.
  cbn [mbind option_bind]. eauto.
Qed.

Lemma ComputeAssetID_ok `{Runtime} `{Sha3Laws} prog v data id :
  ComputeAssetID prog v data = Some id -> Hash_ok id.
Proof.
  unfold ComputeAssetID, AssetDefinition_ComputeAssetID.
  match goal with |- context [writeForHash ?c ?w] => destruct (writeForHash_total c w) as [[e h] ->] end.
  cbn [mbind option_bind]. intros [= <-]. apply (readDigest_ok h).
Qed.

(** ** Properties *)

(** C18: The hashed body of an entry determines it: two values of one type that are written the
    same, followed by anything, are the same up to nil standing for a zero hash; and writing
    such a value into a hash object appends exactly its encoding and cannot fail. *)
Theorem writeForHash_injective `{Runtime} (t : htype) (c c' : hval) (h r r' : bytes) :
  typed c t -> typed c' t ->
  exists p p', writeForHash c h = Some (None, h ++ p) /\ writeForHash c' h = Some (None, h ++ p') /\
    (p ++ r = p' ++ r' -> canon c = canon c' /\ r = r').
Proof.
  intros Ht Ht'. exists (enc_hval c), (enc_hval c').
  rewrite !(writeForHash_ok _ t) by done. split_and!; [done..|]. by apply (hval_prefix_free c t).
Qed.

Lemma writeForHash_injective_witness :
  let rt := Build_Runtime (fun _ => []) (fun _ => []) (fun _ _ => ([], 0)) in
  let c := HStruct (str "T") [(str "A", true, HUint64 7); (str "B", true, HBytes [1; 2])] in
  let c' := HStruct (str "T") [(str "A", true, HUint64 7); (str "B", true, HBytes [1])] in
  exists p p', @writeForHash rt bytes _ c [5] = Some (None, [5] ++ p) /\
    @writeForHash rt bytes _ c' [5] = Some (None, [5] ++ p') /\
    (p ++ [] = p' ++ [2] -> canon c = canon c' /\ [] = [2]).
Proof.
  intros rt c c'.
  apply (@writeForHash_injective rt (TStruct [TUint64; TBytes]) c c' [5] [] [2]);
    cbn; repeat split; unfold u64_ok; vm_compute; try discriminate; done.
Defined.

(** An asset identifier commits to its issuance program, VM version and definition hash: two
    with one identifier agree (a nil definition hash being a zero one), or their preimages
    are a collision of SHA3-256. *)
Theorem ComputeAssetID_binding `{Runtime} `{Sha3Laws} (p1 p2 : bytes) (v1 v2 : Z)
    (d1 d2 : option Hash) :
  asset_args_ok p1 v1 d1 -> asset_args_ok p2 v2 d2 ->
  ComputeAssetID p1 v1 d1 = ComputeAssetID p2 v2 d2 ->
  (p1 = p2 /\ v1 = v2 /\ default zeroHash d1 = default zeroHash d2) \/
  (asset_preimage p1 v1 d1 <> asset_preimage p2 v2 d2 /\
   Sum256 (asset_preimage p1 v1 d1) = Sum256 (asset_preimage p2 v2 d2)).
Proof.
  intros Hok1 Hok2. rewrite !ComputeAssetID_eq by done. intros Heq%(inj Some).
  apply (readDigest_inj (asset_preimage p1 v1 d1) (asset_preimage p2 v2 d2)) in Heq.
  destruct (decide (asset_preimage p1 v1 d1 = asset_preimage p2 v2 d2)) as [E|Hne]; [left|by right].
  destruct Hok1 as (? & ? & ?), Hok2 as (? & ? & ?). unfold asset_preimage in E.
  apply le_put_u64_prefix in E as [-> E]; [|done..]. apply varstr_prefix in E as [-> E]; [|done..].
  rewrite <- (app_nil_r (Byte32 (default _ d1))), <- (app_nil_r (Byte32 (default _ d2))) in E.
  by apply Byte32_prefix in E as [-> _].
Qed.

Lemma ComputeAssetID_binding_witness :
  let rt := Build_Runtime (fun _ => []) (fun _ => []) (fun _ _ => ([], 0)) in
  @ComputeAssetID rt pad32 [81] 1 None = @ComputeAssetID rt pad32 [81] 1 (Some zeroHash) /\
  ([81] = [81] /\ 1 = 1 /\ zeroHash = zeroHash \/
   asset_preimage [81] 1 None <> asset_preimage [81] 1 (Some zeroHash) /\
   @Sum256 pad32 (asset_preimage [81] 1 None) = @Sum256 pad32 (asset_preimage [81] 1 (Some zeroHash))).
Proof.
  intros rt. split; [reflexivity|].
  apply (@ComputeAssetID_binding rt pad32 pad32_laws [81] [81] 1 1 None (Some zeroHash));
    [| |reflexivity]; unfold asset_args_ok, Hash_ok, u64_ok; vm_compute; repeat split; discriminate.
Defined.
