(* ===== verification/TxTypes.v ===== *)
(** * Transactions on the wire

    Models [protocol/bc/types]: inputs ([txinput.go], [issuance.go], [spend.go],
    [coinbase.go], [spend_commitment.go]), outputs ([txoutput.go],
    [output_commitment.go]) and [TxData.readFrom] of [transaction.go].

    Every [readFrom] here is called on a fresh structure that its caller drops when the
    read fails, so that a read is a computation of the monad [rd] returning the structure.
    The writers of these structures are not in the repository; [enc_tx] and the encoders
    below it state the format the readers accept. *)
From S2P Require Import Prelude Errors GoLib Encoding Hash Codec Entry.

(** ** Data *)
Record SpendCommitment := mkSpendCommitment {
  sc_AssetAmount : AssetAmount;
  SourceID : Hash;
  SourcePosition : Z;
  sc_VMVersion : Z;
  sc_ControlProgram : bytes;
}.

Record OutputCommitment := mkOutputCommitment {
  oc_AssetAmount : AssetAmount;
  oc_VMVersion : Z;
  oc_ControlProgram : bytes;
}.

Record IssuanceInput := mkIssuanceInput {
  Nonce : bytes;
  ii_Amount : Z;
  ii_AssetDefinition : bytes;
  ii_VMVersion : Z;
  IssuanceProgram : bytes;
  ii_Arguments : list bytes;
}.

Record SpendInput := mkSpendInput {
  SpendCommitmentSuffix : bytes;
  si_Arguments : list bytes;
  si_SpendCommitment : SpendCommitment;
}.

Record CoinbaseInput := mkCoinbaseInput { Arbitrary : bytes }.

(** The dynamic types of the interface [TypedInput]. *)
Inductive TypedInput :=
| TIssuance (ii : IssuanceInput)
| TSpend (si : SpendInput)
| TCoinbase (ci : CoinbaseInput).

Record TxInput := mkTxInput {
  ti_AssetVersion : Z;
  ti_TypedInput : option TypedInput;
  ti_CommitmentSuffix : bytes;
  WitnessSuffix : bytes;
}.

Record TxOutput := mkTxOutput {
  to_AssetVersion : Z;
  to_OutputCommitment : OutputCommitment;
  to_CommitmentSuffix : bytes;
}.

Record TxData := mkTxData {
  tx_Version : Z;
  SerializedSize : Z;
  TimeRange : Z;
  Inputs : list TxInput;
  Outputs : list TxOutput;
}.

#[export] Instance SpendCommitment_eq_dec : EqDecision SpendCommitment.
Proof. solve_decision. Defined.
#[export] Instance OutputCommitment_eq_dec : EqDecision OutputCommitment.
Proof. solve_decision. Defined.
#[export] Instance IssuanceInput_eq_dec : EqDecision IssuanceInput.
Proof. solve_decision. Defined.
#[export] Instance SpendInput_eq_dec : EqDecision SpendInput.
Proof. solve_decision. Defined.
#[export] Instance CoinbaseInput_eq_dec : EqDecision CoinbaseInput.
Proof. solve_decision. Defined.
#[export] Instance TypedInput_eq_dec : EqDecision TypedInput.
Proof. solve_decision. Defined.
#[export] Instance TxInput_eq_dec : EqDecision TxInput.
Proof. solve_decision. Defined.
#[export] Instance TxOutput_eq_dec : EqDecision TxOutput.
Proof. solve_decision. Defined.
#[export] Instance TxData_eq_dec : EqDecision TxData.
Proof. solve_decision. Defined.

Definition IssuanceInputType : Z := 0.
Definition SpendInputType : Z := 1.
Definition CoinbaseInputType : Z := 2.

Definition InputType (t : TypedInput) : Z :=
  match t with
  | TIssuance _ => IssuanceInputType
  | TSpend _ => SpendInputType
  | TCoinbase _ => CoinbaseInputType
  end.

Definition zeroAssetAmount : AssetAmount := mkAssetAmount None 0.
Definition zeroSpendCommitment : SpendCommitment :=
  mkSpendCommitment zeroAssetAmount zeroHash 0 0 [].
Definition zeroOutputCommitment : OutputCommitment := mkOutputCommitment zeroAssetAmount 0 [].

(** ** Constructors *)
Definition NewIssuanceInput (nonce : bytes) (amount : Z) (issuanceProgram : bytes)
    (arguments : list bytes) (assetDefinition : bytes) : TxInput :=
  mkTxInput 1 (Some (TIssuance (mkIssuanceInput nonce amount assetDefinition 1 issuanceProgram
    arguments))) [] [].

Definition NewSpendInput (arguments : list bytes) (sourceID : Hash) (assetID : AssetID)
    (amount sourcePos : Z) (controlProgram : bytes) : TxInput :=
  let sc := mkSpendCommitment (mkAssetAmount (Some assetID) amount) sourceID sourcePos 1
              controlProgram in
  mkTxInput 1 (Some (TSpend (mkSpendInput [] arguments sc))) [] [].

Definition NewCoinbaseInput (arbitrary : bytes) : TxInput :=
  mkTxInput 1 (Some (TCoinbase (mkCoinbaseInput arbitrary))) [] [].

Definition NewTxOutput (assetID : AssetID) (amount : Z) (controlProgram : bytes) : TxOutput :=
  mkTxOutput 1 (mkOutputCommitment (mkAssetAmount (Some assetID) amount) 1 controlProgram) [].

(** ** Issuances *)
Section issuance.
Context `{Runtime} `{Sha3}.

Definition IssuanceInput_AssetDefinitionHash (ii : IssuanceInput) : Hash :=
  let sha := Get256 in
  let '(_, _, sha) := Write (ii_AssetDefinition ii) sha in
  readDigest sha.

Definition IssuanceInput_NonceHash (ii : IssuanceInput) : Hash :=
  let sha := Get256 in
  let '(_, _, sha) := Write (Nonce ii) sha in
  readDigest sha.

(** The computation never panics, [ComputeAssetID_total]. *)
Definition IssuanceInput_AssetID (ii : IssuanceInput) : AssetID :=
  let defhash := IssuanceInput_AssetDefinitionHash ii in
  default zeroHash (ComputeAssetID (IssuanceProgram ii) (ii_VMVersion ii) (Some defhash)).
End issuance.

(** ** Reading *)

(** [errors.Wrap] and [errors.Wrapf] around the error of a read. *)
Definition rd_wrapf `{Runtime} {A} (m : rd A) (msg : gostring) (args : list iface) : rd A := fun r =>
  match m r with
  | (Err e, r') => (Err (default e (Wrapf (Some e) msg args)), r')
  | ok => ok
  end.
Definition rd_wrap `{Runtime} {A} (m : rd A) (msg : gostring) : rd A := fun r =>
  match m r with
  | (Err e, r') => (Err (default e (Wrap (Some e) [IString msg])), r')
  | ok => ok
  end.

(** The text of a byte under the verb %#x. *)
Definition hex_verb (b : Z) : gostring :=
  str "0x" ++ (if b <? 16 then [hexchar b] else [hexchar (b / 16); hexchar (b mod 16)]).

Definition errBadAssetID : error := EMsg (str "asset ID does not match other issuance parameters").
Definition errVMVersion (v : Z) : error :=
  EMsg (Sprintf (str "unrecognized VM version %d for asset version 1") [IInt v]).

(** Bit mask of the accepted serialization flags. *)
Definition serRequired : Z := 7.

Section reading.
Context `{Runtime} `{Sha3}.

(** The closures of [SpendCommitment.readFrom] and [OutputCommitment.readFrom]. *)
Definition spend_commitment_body (assetVersion : Z) : rd SpendCommitment :=
  if assetVersion =? 1 then
    sourceID ← rd_wrap ReadHash (str "reading source id");
    amount ← rd_wrap ReadAssetAmount (str "reading asset+amount");
    position ← rd_wrap ReadVarint63 (str "reading source position");
    vm ← rd_wrap ReadVarint63 (str "reading VM version");
    if negb (vm =? 1) then rd_fail (errVMVersion vm)
    else
      program ← rd_wrap ReadVarstr31 (str "reading control program");
      mret (mkSpendCommitment amount sourceID position vm program)
  else mret zeroSpendCommitment.

Definition SpendCommitment_readFrom (assetVersion : Z) : rd (SpendCommitment * bytes) :=
  ReadExtensibleString (spend_commitment_body assetVersion).

Definition output_commitment_body (assetVersion : Z) : rd OutputCommitment :=
  if assetVersion =? 1 then
    amount ← rd_wrap ReadAssetAmount (str "reading asset+amount");
    vm ← rd_wrap ReadVarint63 (str "reading VM version");
    if negb (vm =? 1) then rd_fail (errVMVersion vm)
    else
      program ← rd_wrap ReadVarstr31 (str "reading control program");
      mret (mkOutputCommitment amount vm program)
  else mret zeroOutputCommitment.

Definition OutputCommitment_readFrom (assetVersion : Z) : rd (OutputCommitment * bytes) :=
  ReadExtensibleString (output_commitment_body assetVersion).

(** The commitment closure of [TxInput.readFrom]: the typed input so far and the asset
    identifier an issuance announces. *)
Definition input_commitment (assetVersion : Z) : rd (option TypedInput * AssetID) :=
  if negb (assetVersion =? 1) then mret (None, zeroHash)
  else
    icType ← rd_wrap (ReadFull_rd 1) (str "reading input commitment type");
    match icType with
    | [0] =>
        nonce ← ReadVarstr31;
        assetID ← ReadHash;
        amount ← ReadVarint63;
        mret (Some (TIssuance (mkIssuanceInput nonce amount [] 0 [] [])), assetID)
    | [1] =>
        '(sc, suffix) ← SpendCommitment_readFrom 1;
        mret (Some (TSpend (mkSpendInput suffix [] sc)), zeroHash)
    | [2] =>
        arbitrary ← ReadVarstr31;
        mret (Some (TCoinbase (mkCoinbaseInput arbitrary)), zeroHash)
    | _ => rd_fail (EMsg (Sprintf (str "unsupported input type %d") [IInt (hd 0 icType)]))
    end.

(** The witness closure, which completes the typed input. *)
Definition input_witness (assetVersion : Z) (typed : option TypedInput) (assetID : AssetID)
    : rd (option TypedInput) :=
  if negb (assetVersion =? 1) then mret typed
  else
    match typed with
    | Some (TIssuance inp) =>
        definition ← ReadVarstr31;
        vm ← ReadVarint63;
        program ← ReadVarstr31;
        let inp := mkIssuanceInput (Nonce inp) (ii_Amount inp) definition vm program [] in
        if decide (IssuanceInput_AssetID inp <> assetID) then rd_fail errBadAssetID
        else
          arguments ← ReadVarstrList_rd;
          mret (Some (TIssuance (mkIssuanceInput (Nonce inp) (ii_Amount inp) definition vm program
            arguments)))
    | Some (TSpend inp) =>
        arguments ← ReadVarstrList_rd;
        mret (Some (TSpend (mkSpendInput (SpendCommitmentSuffix inp) arguments
          (si_SpendCommitment inp))))
    | t => mret t
    end.

Definition TxInput_readFrom : rd TxInput :=
  assetVersion ← ReadVarint63;
  '(typed, assetID, commitmentSuffix) ← ReadExtensibleString (input_commitment assetVersion);
  '(typed, witnessSuffix) ← ReadExtensibleString (input_witness assetVersion typed assetID);
  mret (mkTxInput assetVersion typed commitmentSuffix witnessSuffix).

(** The output witness is read and ignored. *)
Definition TxOutput_readFrom : rd TxOutput :=
  assetVersion ← rd_wrap ReadVarint63 (str "reading asset version");
  '(oc, suffix) ← rd_wrap (OutputCommitment_readFrom assetVersion) (str "reading output commitment");
  _ ← rd_wrap ReadVarstr31 (str "reading output witness");
  mret (mkTxOutput assetVersion oc suffix).

(** [for ; n > 0; n--]: [acc] is the slice the elements are appended to. *)
Fixpoint read_loop {A} (m : rd A) (msg : gostring) (n : nat) (acc : list A) : rd (list A) :=
  match n with
  | O => mret acc
  | S n =>
      x ← rd_wrapf m msg [IInt #acc];
      read_loop m msg n (acc ++ [x])
  end.

Definition rd_Len : rd Z := fun r => (Ok (Reader_Len r), r).

Definition TxData_readFrom : rd TxData :=
  startSerializedSize ← rd_Len;
  serflags ← rd_wrap (ReadFull_rd 1) (str "reading serialization flags");
  if decide (hd 0 serflags <> serRequired)
  then rd_fail (EMsg (str "unsupported serflags " ++ hex_verb (hd 0 serflags)))
  else
    version ← rd_wrap ReadVarint63 (str "reading transaction version");
    timeRange ← ReadVarint63;
    n ← rd_wrap ReadVarint31 (str "reading number of transaction inputs");
    inputs ← read_loop TxInput_readFrom (str "reading input %d") (Z.to_nat n) [];
    n ← rd_wrap ReadVarint31 (str "reading number of transaction outputs");
    outputs ← read_loop TxOutput_readFrom (str "reading output %d") (Z.to_nat n) [];
    endSerializedSize ← rd_Len;
    mret (mkTxData version (u64 (startSerializedSize - endSerializedSize)) timeRange inputs outputs).
End reading.

(** ** The format *)
Definition enc_spend_commitment (sc : SpendCommitment) : bytes :=
  Byte32 (SourceID sc) ++ enc_asset_amount (sc_AssetAmount sc) ++ enc_varint (SourcePosition sc)
    ++ enc_varint (sc_VMVersion sc) ++ enc_varstr (sc_ControlProgram sc).

Definition u63_ok (x : Z) : Prop := 0 <= x <= MaxInt63.
Definition str_ok31 (s : bytes) : Prop := bytes_ok s /\ #s <= MaxInt31.

Definition SpendCommitment_ok (sc : SpendCommitment) : Prop :=
  Hash_ok (SourceID sc) /\ AssetAmount_ok (sc_AssetAmount sc) /\ u63_ok (SourcePosition sc) /\
  sc_VMVersion sc = 1 /\ str_ok31 (sc_ControlProgram sc).

(** A commitment of another asset version is all suffix. *)
Definition enc_output_commitment (assetVersion : Z) (oc : OutputCommitment) : bytes :=
  if assetVersion =? 1 then
    enc_asset_amount (oc_AssetAmount oc) ++ enc_varint (oc_VMVersion oc)
      ++ enc_varstr (oc_ControlProgram oc)
  else [].

Definition OutputCommitment_ok (assetVersion : Z) (oc : OutputCommitment) : Prop :=
  if assetVersion =? 1 then
    AssetAmount_ok (oc_AssetAmount oc) /\ oc_VMVersion oc = 1 /\ str_ok31 (oc_ControlProgram oc)
  else oc = zeroOutputCommitment.

(** What the commitment of an input carries: the input without its witness, and the asset
    identifier of an issuance. *)
Definition skel (t : TypedInput) : TypedInput :=
  match t with
  | TIssuance ii => TIssuance (mkIssuanceInput (Nonce ii) (ii_Amount ii) [] 0 [] [])
  | TSpend si => TSpend (mkSpendInput (SpendCommitmentSuffix si) [] (si_SpendCommitment si))
  | TCoinbase ci => TCoinbase ci
  end.

Definition enc_commitment (p : option TypedInput * AssetID) : bytes :=
  match p.1 with
  | None => []
  | Some (TIssuance ii) => [0] ++ enc_varstr (Nonce ii) ++ Byte32 p.2 ++ enc_varint (ii_Amount ii)
  | Some (TSpend si) =>
      [1] ++ enc_varstr (enc_spend_commitment (si_SpendCommitment si) ++ SpendCommitmentSuffix si)
  | Some (TCoinbase ci) => [2] ++ enc_varstr (Arbitrary ci)
  end.

Definition typed_commit_ok (t : TypedInput) : Prop :=
  match t with
  | TIssuance ii => str_ok31 (Nonce ii) /\ u63_ok (ii_Amount ii)
  | TSpend si =>
      SpendCommitment_ok (si_SpendCommitment si) /\ bytes_ok (SpendCommitmentSuffix si) /\
      #(enc_spend_commitment (si_SpendCommitment si) ++ SpendCommitmentSuffix si) <= MaxInt31
  | TCoinbase ci => str_ok31 (Arbitrary ci)
  end.

Definition commitment_ok (assetVersion : Z) (p : option TypedInput * AssetID) : Prop :=
  if assetVersion =? 1 then
    exists t, p.1 = Some t /\ skel t = t /\ typed_commit_ok t /\
      match t with TIssuance _ => Hash_ok p.2 | _ => p.2 = zeroHash end
  else p = (None, zeroHash).

Definition enc_witness (t : option TypedInput) : bytes :=
  match t with
  | Some (TIssuance ii) =>
      enc_varstr (ii_AssetDefinition ii) ++ enc_varint (ii_VMVersion ii)
        ++ enc_varstr (IssuanceProgram ii) ++ enc_varstrs (ii_Arguments ii)
  | Some (TSpend si) => enc_varstrs (si_Arguments si)
  | _ => []
  end.

Definition typed_witness_ok (t : TypedInput) : Prop :=
  match t with
  | TIssuance ii =>
      str_ok31 (ii_AssetDefinition ii) /\ u63_ok (ii_VMVersion ii) /\
      str_ok31 (IssuanceProgram ii) /\ varstrs_ok (ii_Arguments ii)
  | TSpend si => varstrs_ok (si_Arguments si)
  | TCoinbase _ => True
  end.

Section format.
Context `{Runtime} `{Sha3}.

(** The identifier an issuance's witness gives its asset. *)
Definition input_asset (t : TypedInput) : AssetID :=
  match t with TIssuance ii => IssuanceInput_AssetID ii | _ => zeroHash end.

(** A completed input for the commitment read before it. *)
Definition witness_ok (assetVersion : Z) (typed : option TypedInput) (assetID : AssetID)
    (typed' : option TypedInput) : Prop :=
  if assetVersion =? 1 then
    match typed, typed' with
    | Some t, Some t' =>
        skel t' = skel t /\ typed_witness_ok t' /\
        match t' with
        | TIssuance ii => IssuanceInput_AssetID ii = assetID
        | TSpend _ | TCoinbase _ => True
        end
    | None, None => True
    | _, _ => False
    end
  else typed' = typed.

Definition enc_input (ti : TxInput) : bytes :=
  let t := ti_TypedInput ti in
  enc_varint (ti_AssetVersion ti)
    ++ enc_varstr (enc_commitment (skel <$> t, default zeroHash (input_asset <$> t))
                   ++ ti_CommitmentSuffix ti)
    ++ enc_varstr (enc_witness t ++ WitnessSuffix ti).

Definition enc_output (to : TxOutput) : bytes :=
  enc_varint (to_AssetVersion to)
    ++ enc_varstr (enc_output_commitment (to_AssetVersion to) (to_OutputCommitment to)
                   ++ to_CommitmentSuffix to)
    ++ enc_varstr [].

Definition enc_tx (tx : TxData) : bytes :=
  [7] ++ enc_varint (tx_Version tx) ++ enc_varint (TimeRange tx)
    ++ enc_varint #(Inputs tx) ++ mjoin (map enc_input (Inputs tx))
    ++ enc_varint #(Outputs tx) ++ mjoin (map enc_output (Outputs tx)).

(** The well-formed structures: what a successful read guarantees. *)
Definition TxInput_ok (ti : TxInput) : Prop :=
  u63_ok (ti_AssetVersion ti) /\
  (if ti_AssetVersion ti =? 1 then
     exists t, ti_TypedInput ti = Some t /\ typed_commit_ok t /\ typed_witness_ok t
   else ti_TypedInput ti = None) /\
  bytes_ok (ti_CommitmentSuffix ti) /\ bytes_ok (WitnessSuffix ti) /\
  #(enc_commitment (skel <$> ti_TypedInput ti, default zeroHash (input_asset <$> ti_TypedInput ti))
      ++ ti_CommitmentSuffix ti) <= MaxInt31 /\
  #(enc_witness (ti_TypedInput ti) ++ WitnessSuffix ti) <= MaxInt31.

Definition TxOutput_ok (to : TxOutput) : Prop :=
  u63_ok (to_AssetVersion to) /\
  OutputCommitment_ok (to_AssetVersion to) (to_OutputCommitment to) /\
  bytes_ok (to_CommitmentSuffix to) /\
  #(enc_output_commitment (to_AssetVersion to) (to_OutputCommitment to)
      ++ to_CommitmentSuffix to) <= MaxInt31.

Definition TxData_ok (tx : TxData) : Prop :=
  u63_ok (tx_Version tx) /\ u63_ok (TimeRange tx) /\
  #(Inputs tx) <= MaxInt31 /\ Forall TxInput_ok (Inputs tx) /\
  #(Outputs tx) <= MaxInt31 /\ Forall TxOutput_ok (Outputs tx).
End format.

(** ** The readers invert the format *)
Section codecs.
Context `{Runtime} `{Sha3Laws}.

#[export] Instance wrap_codec {A} (m : rd A) enc ok msg :
  Codec m enc ok -> Codec (rd_wrap m msg) enc ok.
Proof.
  intros Hm. split; unfold rd_wrap.
  - intros a rest Ha. by rewrite codec_enc.
  - intros r a r' Hr E. destruct (m r) as [[x|e] r1] eqn:Em; [|done]. injection E as <- <-.
    by eapply codec_dec.
Qed.

#[export] Instance wrapf_codec {A} (m : rd A) enc ok msg args :
  Codec m enc ok -> Codec (rd_wrapf m msg args) enc ok.
Proof.
  intros Hm. split; unfold rd_wrapf.
  - intros a rest Ha. by rewrite codec_enc.
  - intros r a r' Hr E. destruct (m r) as [[x|e] r1] eqn:Em; [|done]. injection E as <- <-.
    by eapply codec_dec.
Qed.
End codecs.

(** One step of a reader on an encoding. *)
Ltac enc_step := erewrite bind_step by (apply codec_enc; try done); cbn [negb Z.eqb Pos.eqb].

Ltac codec_done := cbn -[zlen Z.add app bytes_ok] in *; autorewrite with zlen in *; split_and!; done || lia.

(** Decodes every read in the context. *)
Ltac dec_all :=
  repeat match goal with
  | H : ?m ?r = (Ok ?a, ?r'), Hr : bytes_ok ?r |- _ =>
      apply (codec_dec (m := m)) in H as (? & ? & ?); [|exact Hr]
  end.

Section codecs2.
Context `{Runtime} `{Sha3Laws}.

#[export] Instance spend_commitment_codec :
  Codec (spend_commitment_body 1) enc_spend_commitment SpendCommitment_ok.
Proof.
  split.
  - intros [amt src pos vm prog] rest (? & ? & ? & Hvm & ?). cbn in *. subst vm.
    unfold enc_spend_commitment, spend_commitment_body. cbn.
    rewrite <- !app_assoc. by repeat enc_step.
  - intros r sc r' Hr Hd. unfold spend_commitment_body in Hd. cbn [Z.eqb Pos.eqb] in Hd.
    rd_inv. dec_all. zbool. subst. unfold SpendCommitment_ok, enc_spend_commitment. cbn.
    codec_done.
Qed.

#[export] Instance output_commitment_codec v :
  Codec (output_commitment_body v) (enc_output_commitment v) (OutputCommitment_ok v).
Proof.
  unfold output_commitment_body, enc_output_commitment, OutputCommitment_ok.
  destruct (Z.eqb_spec v 1); split.
  - intros [amt vm prog] rest (? & Hvm & ?). cbn in *. subst vm.
    rewrite <- !app_assoc. by repeat enc_step.
  - intros r oc r' Hr Hd. rd_inv. dec_all. zbool. subst. cbn.
    codec_done.
  - by intros oc rest ->.
  - intros r oc r' Hr Hd. rd_inv. cbn. codec_done.
Qed.

Lemma ReadFull_1_enc b rest : ReadFull_rd 1 ([b] ++ rest) = (Ok [b], rest).
Proof. by apply ReadFull_rd_app. Qed.

Lemma ReadFull_1_dec r p r' : bytes_ok r -> ReadFull_rd 1 r = (Ok p, r') ->
  exists b, p = [b] /\ byte_ok b /\ bytes_ok r' /\ #r = 1 + #r'.
Proof.
  intros Hr Hp. apply ReadFull_rd_dec in Hp as (Hl & -> & Hp & Hr'); [|done].
  destruct p as [|b [|]]; try done. apply Forall_cons_1 in Hp as [Hb _].
  exists b. split_and!; try done. rewrite zlen_app, zlen_cons, zlen_nil. lia.
Qed.

Lemma rd_wrap_ok {A} (m : rd A) msg r a r' : rd_wrap m msg r = (Ok a, r') <-> m r = (Ok a, r').
Proof. unfold rd_wrap. by destruct (m r) as [[]]. Qed.

#[export] Instance commitment_codec v :
  Codec (input_commitment v) enc_commitment (commitment_ok v).
Proof.
  unfold input_commitment, commitment_ok. destruct (Z.eqb_spec v 1); cbn [negb]; split.
  - intros [t id] rest (t' & Ht & Hsk & Hok & Hid). cbn in Ht, Hid. subst t. unfold enc_commitment. cbn [fst snd].
    destruct t' as [ii|si|ci]; rewrite <- !app_assoc;
      erewrite bind_step by (apply rd_wrap_ok, ReadFull_1_enc); cbn [skel] in Hsk; cbv iota.
    + destruct Hok. repeat enc_step. by rewrite Hsk.
    + destruct Hok as (? & ? & ?). subst id.
      erewrite bind_step by (apply (ExtensibleString_enc _ enc_spend_commitment); [by apply codec_enc|done]).
      unfold mret, rd_ret. by rewrite Hsk.
    + subst id. repeat enc_step. by destruct ci.
  - intros r [t id] r' Hr Hd. rd_inv.
    match goal with Hx : rd_wrap _ _ _ = _ |- _ =>
      apply rd_wrap_ok, ReadFull_1_dec in Hx as (b & -> & Hb & Hr1 & Hl1); [|exact Hr] end.
    unfold enc_commitment. cbv iota in Hd.
    destruct b as [|[?|[?|?|]|]|?]; rd_inv.
    + dec_all. split; [eexists; split_and!; done || by split|]. codec_done.
    + dec_all. split; [eexists; split_and!; done|]. codec_done.
    + match goal with Hx : SpendCommitment_readFrom 1 _ = _ |- _ =>
        apply (ExtensibleString_dec _ enc_spend_commitment SpendCommitment_ok) in Hx
          as (? & ? & ? & ? & ?); [|apply codec_dec|done] end.
      split; [eexists; split_and!; done|]. codec_done.
  - by intros [t id] rest [= -> ->].
  - intros r p r' Hr Hd. apply rd_ret_ok in Hd as [<- <-]. unfold enc_commitment. codec_done.
Qed.

Lemma witness_codec v typed id : (v <> 1 -> typed = None) ->
  Codec (input_witness v typed id) enc_witness (witness_ok v typed id).
Proof.
  intros Hv. unfold input_witness, witness_ok. destruct (Z.eqb_spec v 1); cbn [negb]; split.
  - intros t' rest Hok. destruct typed as [t|], t' as [t'|]; try done.
    destruct Hok as (Hsk & Hw & Hid). unfold enc_witness.
    destruct t as [ii|si|ci], t' as [ii'|si'|ci']; cbn [skel] in Hsk; try done;
      injection Hsk as Hsk; rewrite <- ?app_assoc; cbn in Hw.
    + destruct Hw as (? & ? & ? & ?). repeat enc_step. cbv zeta.
      replace (mkIssuanceInput (Nonce ii) (ii_Amount ii) (ii_AssetDefinition ii') (ii_VMVersion ii')
                 (IssuanceProgram ii') [])
        with (mkIssuanceInput (Nonce ii') (ii_Amount ii') (ii_AssetDefinition ii') (ii_VMVersion ii')
                (IssuanceProgram ii') []) by congruence.
      rewrite decide_False by tauto. enc_step. destruct ii'; cbn in *. by simplify_eq.
    + enc_step. destruct si, si'; cbn in *. by simplify_eq.
    + by subst.
  - intros r t' r' Hr Hd. destruct typed as [[ii|si|ci]|]; rd_inv.
    + dec_all. match goal with Hid : ~ (_ <> _) |- _ => apply dec_stable in Hid end.
      split; [split_and!; [done|by split_and!|done]|]. codec_done.
    + dec_all. codec_done.
    + codec_done.
    + codec_done.
  - intros t' rest ->. by rewrite (Hv n).
  - intros r t' r' Hr Hd. rd_inv. rewrite (Hv n). codec_done.
Qed.

Lemma skel_skel t : skel (skel t) = skel t.
Proof. by destruct t. Qed.

Lemma typed_commit_skel t t' : skel t = skel t' -> typed_commit_ok t <-> typed_commit_ok t'.
Proof.
  destruct t as [[]|[]|], t' as [[]|[]|]; cbn; intros [=]; unfold typed_commit_ok; by simplify_eq/=.
Qed.

Lemma input_asset_ok t : Hash_ok (input_asset t).
Proof.
  destruct t as [ii| |]; [|vm_compute; repeat split; discriminate..].
  unfold input_asset, IssuanceInput_AssetID. cbv zeta. match goal with |- context [ComputeAssetID ?p ?v ?d] => destruct (ComputeAssetID p v d) eqn:E end.
  - by apply ComputeAssetID_ok in E.
  - vm_compute; repeat split; discriminate.
Qed.

(** A commitment and the witness read after it make up one well-formed input. *)
Lemma commitment_witness v o h o' : commitment_ok v (o, h) -> witness_ok v o h o' ->
  (skel <$> o', default zeroHash (input_asset <$> o')) = (o, h) /\
  (if v =? 1 then exists t, o' = Some t /\ typed_commit_ok t /\ typed_witness_ok t else o' = None).
Proof.
  unfold commitment_ok, witness_ok. destruct (v =? 1).
  - intros (t & Ht & Hsk & Hok & Hid). cbn in Ht, Hid. subst o. destruct o' as [t'|]; [|done].
    intros (Hs & Hw & Hid'). rewrite Hsk in Hs. cbn. split.
    + rewrite Hs. f_equal. destruct t, t'; try done; cbn in *; by subst.
    + exists t'. split_and!; [done| |done]. apply (typed_commit_skel t' t); [by rewrite Hs|done].
  - by intros [= -> ->] ->.
Qed.

#[export] Instance input_codec : Codec TxInput_readFrom enc_input TxInput_ok.
Proof.
  split.
  - intros [v t csuf wsuf] rest (Hv & Ht & Hcs & Hws & Hlc & Hlw). cbn [ti_AssetVersion ti_TypedInput ti_CommitmentSuffix WitnessSuffix] in *.
    unfold TxInput_readFrom, enc_input. cbn [ti_AssetVersion ti_TypedInput ti_CommitmentSuffix WitnessSuffix].
    rewrite <- !app_assoc. enc_step.
    assert (commitment_ok v (skel <$> t, default zeroHash (input_asset <$> t))) as Hc.
    { unfold commitment_ok. destruct (v =? 1); [|by subst t].
      destruct Ht as (x & -> & Hx & _). exists (skel x). cbn. split_and!; [done|apply skel_skel| |].
      - by apply (typed_commit_skel (skel x) x (skel_skel x)).
      - pose proof (input_asset_ok x). by destruct x. }
    erewrite bind_step by (apply (ExtensibleString_enc _ enc_commitment); [by apply codec_enc|done]).
    cbn beta iota.
    assert (witness_ok v (skel <$> t) (default zeroHash (input_asset <$> t)) t) as Hw.
    { unfold witness_ok. destruct (v =? 1); [|by subst t]. destruct Ht as (x & -> & _ & Hx). cbn.
      rewrite skel_skel. split_and!; [done|done|]. by destruct x. }
    assert (v <> 1 -> skel <$> t = None) as Hne.
    { intros Hv1. rewrite (proj2 (Z.eqb_neq v 1) Hv1) in Ht. by subst t. }
    pose proof (witness_codec v _ (default zeroHash (input_asset <$> t)) Hne).
    by erewrite bind_step by (apply (ExtensibleString_enc _ enc_witness); [by apply codec_enc|done]).
  - intros r ti r' Hr Hd. unfold TxInput_readFrom in Hd. rd_inv. dec_all.
    match goal with Hx : ReadExtensibleString (input_commitment _) _ = _ |- _ =>
      apply (ExtensibleString_dec _ enc_commitment _ _ _ _ _ codec_dec) in Hx
        as (Hc & ? & ? & ? & ?); [|done] end.
    match goal with Hx : ReadExtensibleString (input_witness ?v ?t _) _ = _ |- _ =>
      assert (v <> 1 -> t = None) as Hne end.
    { intros Hv1. unfold commitment_ok in Hc. rewrite (proj2 (Z.eqb_neq _ _) Hv1) in Hc. congruence. }
    match goal with Hx : ReadExtensibleString (input_witness ?v ?t ?id) _ = _ |- _ =>
      pose proof (witness_codec v t id Hne);
      apply (ExtensibleString_dec _ enc_witness _ _ _ _ _ codec_dec) in Hx
        as (Hw & ? & ? & ? & ?); [|done] end.
    destruct (commitment_witness _ _ _ _ Hc Hw) as [He Ht].
    unfold TxInput_ok, enc_input. cbn [ti_AssetVersion ti_TypedInput ti_CommitmentSuffix WitnessSuffix].
    rewrite He. split; [by split_and!|]. autorewrite with zlen in *. split; [done|lia].
Qed.

#[export] Instance output_codec : Codec TxOutput_readFrom enc_output TxOutput_ok.
Proof.
  split.
  - intros [v oc suf] rest (Hv & Hoc & Hs & Hl). cbn [to_AssetVersion to_OutputCommitment to_CommitmentSuffix] in *.
    unfold TxOutput_readFrom, enc_output. cbn [to_AssetVersion to_OutputCommitment to_CommitmentSuffix].
    rewrite <- !app_assoc. enc_step.
    erewrite bind_step by (apply rd_wrap_ok, (ExtensibleString_enc _ (enc_output_commitment v));
                           [by apply codec_enc|done]).
    cbn beta iota. erewrite bind_step by (apply rd_wrap_ok, codec_enc; split; [auto with go|done]). done.
  - intros r to r' Hr Hd. unfold TxOutput_readFrom in Hd. rd_inv. dec_all.
    match goal with Hx : rd_wrap (OutputCommitment_readFrom ?v) _ _ = _ |- _ =>
      apply rd_wrap_ok, (ExtensibleString_dec _ (enc_output_commitment v) _ _ _ _ _ codec_dec) in Hx
        as (? & ? & ? & ? & ?); [|done] end.
    dec_all. unfold TxOutput_ok, enc_output.
    cbn [to_AssetVersion to_OutputCommitment to_CommitmentSuffix].
    split; [by split_and!|]. split; [done|].
    match goal with Hx : bytes_ok ?s /\ _ |- _ => pose proof (enc_varstr_mono [] s) end.
    autorewrite with zlen in *. pose proof (zlen_nonneg x1). lia.
Qed.

Lemma read_loop_enc {A} (m : rd A) enc ok msg `{!Codec m enc ok} l : forall acc rest,
  Forall ok l ->
  read_loop m msg (length l) acc (mjoin (map enc l) ++ rest) = (Ok (acc ++ l), rest).
Proof.
  induction l as [|x l IH]; intros acc rest Hl; cbn [length read_loop map].
  { by rewrite app_nil_r. }
  apply Forall_cons_1 in Hl as [Hx Hl]. rewrite mjoin_cons, <- app_assoc. enc_step.
  rewrite IH by done. by rewrite <- app_assoc.
Qed.

Lemma read_loop_dec {A} (m : rd A) enc ok msg `{!Codec m enc ok} n : forall acc r l r',
  bytes_ok r -> read_loop m msg n acc r = (Ok l, r') ->
  exists k, l = acc ++ k /\ length k = n /\ Forall ok k /\ bytes_ok r' /\
    #(mjoin (map enc k)) + #r' <= #r.
Proof.
  induction n as [|n IH]; intros acc r l r' Hr Hd; cbn [read_loop] in Hd; rd_inv.
  { exists []. rewrite app_nil_r. by split_and!. }
  dec_all. apply IH in Hd as (k & -> & Hk & Hok & Hr' & Hl); [|done].
  exists (x :: k). cbn [map length]. rewrite <- app_assoc, mjoin_cons, zlen_app.
  split_and!; [done|lia|by constructor|done|lia].
Qed.

(** What [TxData.readFrom] does on a transaction's own encoding. *)
Lemma TxData_readFrom_enc tx rest : TxData_ok tx ->
  TxData_readFrom (enc_tx tx ++ rest)
    = (Ok (mkTxData (tx_Version tx) (u64 #(enc_tx tx)) (TimeRange tx) (Inputs tx) (Outputs tx)), rest).
Proof.
  intros (Hv & Ht & Hni & Hi & Hno & Ho).
  pose proof (zlen_nonneg (Inputs tx)). pose proof (zlen_nonneg (Outputs tx)).
  unfold TxData_readFrom. erewrite bind_step by done.
  unfold Reader_Len. rewrite zlen_app. generalize (#(enc_tx tx)) as len. intros len.
  unfold enc_tx. rewrite <- !app_assoc.
  erewrite bind_step by (apply rd_wrap_ok, ReadFull_1_enc). cbn [hd].
  rewrite decide_False by (intros E; by apply E). do 3 enc_step.
  erewrite bind_step by (unfold zlen; rewrite Nat2Z.id; apply (read_loop_enc _ enc_input TxInput_ok); [apply _|done]).
  enc_step.
  erewrite bind_step by (unfold zlen; rewrite Nat2Z.id; apply (read_loop_enc _ enc_output TxOutput_ok); [apply _|done]).
  erewrite bind_step by done. unfold mret, rd_ret. cbn [app]. unfold Reader_Len.
  by replace (len + #rest - #rest) with len by lia.
Qed.

Lemma TxData_readFrom_dec r tx r' : bytes_ok r -> TxData_readFrom r = (Ok tx, r') ->
  TxData_ok tx /\ bytes_ok r' /\ #(enc_tx tx) + #r' <= #r /\ SerializedSize tx = u64 (#r - #r').
Proof.
  intros Hr Hd. unfold TxData_readFrom in Hd. rd_inv.
  unfold rd_Len, Reader_Len in *. simplify_eq.
  match goal with Hx : rd_wrap (ReadFull_rd 1) _ _ = _ |- _ =>
    apply rd_wrap_ok, ReadFull_1_dec in Hx as (b & -> & _ & ? & ?); [|done] end.
  assert (hd 0 [b] = serRequired) as E7 by (by apply dec_stable). cbn [hd serRequired] in E7. subst b.
  dec_all.
  match goal with Hx : read_loop TxInput_readFrom _ _ _ _ = _ |- _ =>
    apply (read_loop_dec _ enc_input TxInput_ok) in Hx as (ki & -> & Hki & Hiok & ? & ?); [|apply _|done] end.
  dec_all.
  match goal with Hx : read_loop TxOutput_readFrom _ _ _ _ = _ |- _ =>
    apply (read_loop_dec _ enc_output TxOutput_ok) in Hx as (ko & -> & Hko & Hook & ? & ?); [|apply _|done] end.
  cbn [app]. assert (#ki = x7) as <- by zlia. assert (#ko = x11) as <- by zlia.
  unfold TxData_ok, enc_tx. cbn [tx_Version TimeRange Inputs Outputs SerializedSize].
  autorewrite with zlen in *. split_and!; done || lia.
Qed.
End codecs2.

(** ** Properties *)

(** C10: A well-formed transaction is read back from its encoding, whatever follows: every field is
    the transaction's, and the serialized size is the number of bytes read. *)
Theorem TxData_roundtrip `{Runtime} `{Sha3Laws} (tx : TxData) (rest : bytes) :
  TxData_ok tx ->
  TxData_readFrom (enc_tx tx ++ rest) =
    (Ok (mkTxData (tx_Version tx) (u64 #(enc_tx tx)) (TimeRange tx) (Inputs tx) (Outputs tx)), rest).
Proof. apply TxData_readFrom_enc. Qed.

(** A small transaction with an input and an output of each kind, and its serialization. *)
Definition sample_tx : TxData :=
  mkTxData 1 188 0
    [NewSpendInput [[1]; []] zeroHash (mkHash 1 2 3 4) 300 1 [81];
     NewCoinbaseInput [5; 6];
     NewIssuanceInput [1] 7 [81; 82] [] [9];
     mkTxInput 2 None [1; 2; 3] [4]]
    [NewTxOutput (mkHash 1 2 3 4) 300 [81]; mkTxOutput 3 zeroOutputCommitment [8]].

Definition sample_runtime : Runtime :=
  Build_Runtime (fun _ => []) (fun _ => []) (fun _ _ => ([], 0)).

Definition sample_bytes : bytes := @enc_tx sample_runtime pad32 sample_tx.

Lemma sample_read :
  @TxData_readFrom sample_runtime pad32 (sample_bytes ++ [1; 2]) = (Ok sample_tx, [1; 2]).
Proof. vm_compute. reflexivity. Qed.

Lemma sample_tx_ok : @TxData_ok sample_runtime pad32 sample_tx.
Proof.
  eapply (@TxData_readFrom_dec sample_runtime pad32 pad32_laws); [|exact sample_read].
  apply bytes_okb_ok. vm_compute. reflexivity.
Qed.

Lemma TxData_roundtrip_witness :
  @TxData_readFrom sample_runtime pad32 (@enc_tx sample_runtime pad32 sample_tx ++ [1; 2])
    = (Ok sample_tx, [1; 2]).
Proof. exact (@TxData_roundtrip sample_runtime pad32 pad32_laws sample_tx [1; 2] sample_tx_ok). Defined.

(** C9: Whatever bytes a transaction is read from, it is well-formed: amounts and counts in range,
    spend and output programs of VM version 1, every issuance's announced asset identifier the
    one its witness computes; its serialized size is the bytes consumed, its canonical encoding
    is no longer, and reading that encoding gives the same transaction. *)
Theorem TxData_read_wellformed `{Runtime} `{Sha3Laws} (r r' : Reader) (tx : TxData) :
  bytes_ok r -> TxData_readFrom r = (Ok tx, r') ->
  TxData_ok tx /\ SerializedSize tx = u64 (#r - #r') /\ #(enc_tx tx) <= #r - #r' /\
  forall rest, exists size, TxData_readFrom (enc_tx tx ++ rest) =
    (Ok (mkTxData (tx_Version tx) size (TimeRange tx) (Inputs tx) (Outputs tx)), rest).
Proof.
  intros Hr Hd. destruct (TxData_readFrom_dec _ _ _ Hr Hd) as (Hok & _ & Hl & Hs).
  split_and!; [done|done|lia|]. intros rest. eexists. by apply TxData_readFrom_enc.
Qed.

Lemma TxData_read_wellformed_witness :
  SerializedSize sample_tx = 188 /\ @TxData_ok sample_runtime pad32 sample_tx.
Proof.
  destruct (@TxData_read_wellformed sample_runtime pad32 pad32_laws (sample_bytes ++ [1; 2]) [1; 2]
    sample_tx) as (Hok & _ & _).
  - apply bytes_okb_ok. vm_compute. reflexivity.
  - exact sample_read.
  - split; [reflexivity|exact Hok].
Defined.

(** C14: An issuance whose commitment announces another asset than its witness computes is refused
    with errBadAssetID, and the reader is past the whole input. *)
Theorem TxInput_rejects_asset `{Runtime} `{Sha3Laws} (ii : IssuanceInput) (id : AssetID)
    (csuf wsuf rest : bytes) :
  let t := TIssuance ii in
  typed_commit_ok t -> typed_witness_ok t -> Hash_ok id -> id <> IssuanceInput_AssetID ii ->
  #(enc_commitment (Some (skel t), id) ++ csuf) <= MaxInt31 ->
  #(enc_witness (Some t) ++ wsuf) <= MaxInt31 ->
  TxInput_readFrom (enc_varint 1 ++ enc_varstr (enc_commitment (Some (skel t), id) ++ csuf)
    ++ enc_varstr (enc_witness (Some t) ++ wsuf) ++ rest) = (Err errBadAssetID, rest).
Proof.
  intros t Hc Hw Hid Hne Hlc Hlw. unfold TxInput_readFrom. enc_step.
  erewrite bind_step by (apply (ExtensibleString_enc _ enc_commitment); [|done];
    apply codec_enc; by exists (skel t)). cbn beta iota.
  unfold mbind at 1, rd_bind, ReadExtensibleString, NewReader.
  rewrite ReadVarstr31_enc by done.
  assert (input_witness 1 (Some (skel t)) id (enc_witness (Some t) ++ wsuf)
    = (Err errBadAssetID, enc_varstrs (ii_Arguments ii) ++ wsuf)) as ->; [|done].
  destruct Hw as (? & ? & ? & ?). unfold input_witness, enc_witness, t. cbn [negb Z.eqb Pos.eqb skel].
  rewrite <- !app_assoc. do 3 enc_step. cbv zeta. by rewrite decide_True by exact (not_eq_sym Hne).
Qed.

Lemma TxInput_rejects_asset_witness :
  let ii := mkIssuanceInput [1] 7 [9] 1 [81; 82] [] in
  @TxInput_readFrom sample_runtime pad32
    (enc_varint 1 ++ enc_varstr (enc_commitment (Some (skel (TIssuance ii)), zeroHash) ++ [3])
      ++ enc_varstr (enc_witness (Some (TIssuance ii)) ++ []) ++ [4]) = (Err errBadAssetID, [4]).
Proof.
  intros ii.
  apply (@TxInput_rejects_asset sample_runtime pad32 pad32_laws ii zeroHash [3] [] [4]).
  - split; [split; [by apply bytes_okb_ok|]|]; vm_compute; repeat split; discriminate.
  - split_and!; try (split; [by apply bytes_okb_ok|vm_compute; discriminate]).
    + vm_compute. repeat split; discriminate.
    + split; [vm_compute; discriminate|constructor].
  - vm_compute. repeat split; discriminate.
  - vm_compute. discriminate.
  - vm_compute. discriminate.
  - vm_compute. discriminate.
Defined.
