(* ===== verification/BlockTypes.v ===== *)
(** * Block headers and blocks on the wire

    Models [protocol/bc/types/block_header.go], [block.go], [block_commitment.go] and the
    constructor [NewTx] of [transaction.go].  Unlike the transaction structures, a header or
    a block keeps what a failed read assigned before it failed (callers such as
    [BlockResponseMessage.GetBlock] ignore the error), so that these reads thread the
    structure: they return the error, the structure as left and the reader.

    Four functions the code calls are not in the repository and are arguments here:
    [BlockCommitment.readFrom], [BlockHeader.writeTo], [Tx.WriteTo] and, behind [MapTx], the
    entry constructors.  [None] is a run-time panic, which only [MapTx] can raise. *)
From S2P Require Import Prelude Errors GoLib Encoding Hash Codec Entry TxTypes.

(** ** Data *)
Definition SerBlockHeader : Z := 1.
Definition SerBlockTransactions : Z := 2.
Definition SerBlockFull : Z := 3.

Record BlockCommitment := mkBlockCommitment {
  TransactionsMerkleRoot : Hash;
  TransactionStatusHash : Hash;
}.

Record BlockHeader := mkBlockHeader {
  bh_Version : Z;
  Height : Z;
  PreviousBlockHash : Hash;
  Timestamp : Z;
  bh_Nonce : Z;
  Bits : Z;
  bh_BlockCommitment : BlockCommitment;
}.

(** A transaction with its entries-based form, of an arbitrary type. *)
Record Tx (BcTx : Type) := mkTx { tx_TxData : TxData; tx_Tx : BcTx }.
Arguments mkTx {BcTx} _ _.
Arguments tx_TxData {BcTx} _.
Arguments tx_Tx {BcTx} _.

Record Block (BcTx : Type) := mkBlock { b_BlockHeader : BlockHeader; Transactions : list (Tx BcTx) }.
Arguments mkBlock {BcTx} _ _.
Arguments b_BlockHeader {BcTx} _.
Arguments Transactions {BcTx} _.

(** ** Reading a header *)
Definition set_Version v bh := mkBlockHeader v (Height bh) (PreviousBlockHash bh) (Timestamp bh)
  (bh_Nonce bh) (Bits bh) (bh_BlockCommitment bh).
Definition set_Height v bh := mkBlockHeader (bh_Version bh) v (PreviousBlockHash bh) (Timestamp bh)
  (bh_Nonce bh) (Bits bh) (bh_BlockCommitment bh).
Definition set_PreviousBlockHash v bh := mkBlockHeader (bh_Version bh) (Height bh) v (Timestamp bh)
  (bh_Nonce bh) (Bits bh) (bh_BlockCommitment bh).
Definition set_Timestamp v bh := mkBlockHeader (bh_Version bh) (Height bh) (PreviousBlockHash bh) v
  (bh_Nonce bh) (Bits bh) (bh_BlockCommitment bh).
Definition set_Nonce v bh := mkBlockHeader (bh_Version bh) (Height bh) (PreviousBlockHash bh)
  (Timestamp bh) v (Bits bh) (bh_BlockCommitment bh).
Definition set_Bits v bh := mkBlockHeader (bh_Version bh) (Height bh) (PreviousBlockHash bh)
  (Timestamp bh) (bh_Nonce bh) v (bh_BlockCommitment bh).
Definition set_Commitment v bh := mkBlockHeader (bh_Version bh) (Height bh) (PreviousBlockHash bh)
  (Timestamp bh) (bh_Nonce bh) (Bits bh) v.

(** A read that updates a structure of type [S], also when it fails. *)
Definition st_rd (S : Type) : Type := S -> Reader -> option error * S * Reader.

(** [if x.F, err = ReadVarint63(r); err != nil]: the field is zeroed on failure. *)
Definition read_field {S} (m : rd Z) (set : Z -> S -> S) : st_rd S := fun s r =>
  match m r with
  | (Ok v, r') => (None, set v s, r')
  | (Err e, r') => (Some e, set 0 s, r')
  end.

(** The next read, unless the one before failed. *)
Definition then_rd {S} (m k : st_rd S) : st_rd S := fun s r =>
  match m s r with
  | (None, s', r') => k s' r'
  | failed => failed
  end.
Notation "m >>> k" := (then_rd m k) (at level 90, right associativity) : go_scope.

Section header.
(** [BlockCommitment.readFrom] *)
Context (commitment_readFrom : st_rd BlockCommitment).

(** [ReadExtensibleString(r, bh.BlockCommitment.readFrom)]: the closure assigns through its
    receiver, whether it fails or not. *)
Definition read_commitment : st_rd BlockHeader := fun bh r =>
  let f s := let '(err, c, s') := commitment_readFrom (bh_BlockCommitment bh) s in (Ok (err, c), s') in
  match ReadExtensibleString f r with
  | (Ok (err, c, _), r') => (err, set_Commitment c bh, r')
  | (Err e, r') => (Some e, bh, r')
  end.

Definition read_previous : st_rd BlockHeader := fun bh r =>
  let '(_, err, h, r') := Hash_ReadFrom (PreviousBlockHash bh) r in
  (err, set_PreviousBlockHash h bh, r').

Definition read_header_fields : st_rd BlockHeader :=
  read_field ReadVarint63 set_Version >>>
  read_field ReadVarint63 set_Height >>>
  read_previous >>>
  read_field ReadVarint63 set_Timestamp >>>
  read_commitment >>>
  read_field ReadVarint63 set_Nonce >>>
  read_field ReadVarint63 set_Bits.

(** The error of reading the flag byte is ignored: a missing byte reads as zero. *)
Definition BlockHeader_readFrom (bh : BlockHeader) (r : Reader)
    : Z * option error * BlockHeader * Reader :=
  let '(serflags, _, r1) := ReadFull [0] r in
  let serflag := hd 0 serflags in
  if (serflag =? SerBlockHeader) || (serflag =? SerBlockFull) then
    let '(err, bh', r2) := read_header_fields bh r1 in
    match err with
    | Some e => (0, Some e, bh', r2)
    | None => (serflag, None, bh', r2)
    end
  else (0, Some (EMsg (str "unsupported serialization flags 0x" ++ hex_encode serflags)), bh, r1).
End header.

(** ** Blocks *)
Section block.
Context `{Runtime} `{Sha3} {BcTx : Type}.
Context (commitment_readFrom : st_rd BlockCommitment) (MapTx : TxData -> option BcTx).

Definition NewTx (data : TxData) : option (Tx BcTx) :=
  tx ← MapTx data;
  Some (mkTx data tx).

(** The loop over the [n] transactions, appending each to the block. *)
Fixpoint Block_read_txs (n : nat) (b : Block BcTx) (r : Reader)
    : option (option error * Block BcTx * Reader) :=
  match n with
  | O => Some (None, b, r)
  | S n =>
      match TxData_readFrom r with
      | (Err e, r') =>
          Some (Wrapf (Some e) (str "reading transaction %d") [IInt #(Transactions b)], b, r')
      | (Ok data, r') =>
          tx ← NewTx data;
          Block_read_txs n (mkBlock (b_BlockHeader b) (Transactions b ++ [tx])) r'
      end
  end.

Definition Block_readFrom (b : Block BcTx) (r : Reader) : option (option error * Block BcTx * Reader) :=
  let '(serflags, err, bh, r1) := BlockHeader_readFrom commitment_readFrom (b_BlockHeader b) r in
  let b := mkBlock bh (Transactions b) in
  match err with
  | Some e => Some (Some e, b, r1)
  | None =>
      if serflags =? SerBlockHeader then Some (None, b, r1)
      else
        match ReadVarint31 r1 with
        | (Err e, r2) => Some (Wrap (Some e) [IString (str "reading number of transactions")], b, r2)
        | (Ok n, r2) => Block_read_txs (Z.to_nat n) b r2
        end
  end.

Definition Block_UnmarshalText (b : Block BcTx) (text : bytes) : option (option error * Block BcTx) :=
  let '(decoded, err) := hex_decode text in
  match err with
  | Some e => Some (Some e, b)
  | None =>
      let r := NewReader decoded in
      '(err, b, r) ← Block_readFrom b r;
      match err with
      | Some e => Some (Some e, b)
      | None =>
          let trailing := Reader_Len r in
          if 0 <? trailing
          then Some (Some (EMsg (Sprintf (str "trailing garbage (%d bytes)") [IInt trailing])), b)
          else Some (None, b)
      end
  end.
End block.

Section writing.
Context `{Writer U} {BcTx : Type}.
(** [BlockHeader.writeTo] and [Tx.WriteTo] *)
Context (header_writeTo : BlockHeader -> Z -> EWriter U -> option error * EWriter U).
Context (Tx_WriteTo : Tx BcTx -> EWriter U -> Z * option error * EWriter U).

Fixpoint Block_write_txs (txs : list (Tx BcTx)) (w : EWriter U) : option error * EWriter U :=
  match txs with
  | [] => (None, w)
  | tx :: txs =>
      let '(_, err, w) := Tx_WriteTo tx w in
      match err with
      | Some _ => (err, w)
      | None => Block_write_txs txs w
      end
  end.

Definition Block_writeTo (b : Block BcTx) (w : EWriter U) (serflags : Z)
    : option (option error * EWriter U) :=
  let '(err, w) := header_writeTo (b_BlockHeader b) serflags w in
  match err with
  | Some _ => Some (err, w)
  | None =>
      if serflags =? SerBlockHeader then Some (None, w)
      else
        '(_, err, w) ← WriteVarint31 w (u64 #(Transactions b));
        match err with
        | Some _ => Some (err, w)
        | None => Some (Block_write_txs (Transactions b) w)
        end
  end.

Definition Block_WriteTo (b : Block BcTx) (w : U) : option (Z * option error * U) :=
  let ew := NewWriter w in
  '(err, ew) ← Block_writeTo b ew SerBlockFull;
  match err with
  | Some _ => Some (0, err, ew_w ew)
  | None => Some (Written ew, EWriter_Err ew, ew_w ew)
  end.
End writing.

(** [MarshalText] writes into a pooled buffer. *)
Definition Block_MarshalText {BcTx} header_writeTo Tx_WriteTo (b : Block BcTx)
    : option (bytes * option error) :=
  '(_, err, buf) ← Block_WriteTo (U := bytes) header_writeTo Tx_WriteTo b [];
  match err with
  | Some _ => Some ([], err)
  | None => Some (hex_encode buf, None)
  end.

(** ** The format *)
Definition BlockCommitment_ok (c : BlockCommitment) : Prop :=
  Hash_ok (TransactionsMerkleRoot c) /\ Hash_ok (TransactionStatusHash c).

Definition BlockHeader_ok (bh : BlockHeader) : Prop :=
  u63_ok (bh_Version bh) /\ u63_ok (Height bh) /\ Hash_ok (PreviousBlockHash bh) /\
  u63_ok (Timestamp bh) /\ u63_ok (bh_Nonce bh) /\ u63_ok (Bits bh) /\
  BlockCommitment_ok (bh_BlockCommitment bh).

(** What the missing functions are expected to do with headers and transactions whose fields can
    be written; [enc_commit] is the serialization of a
    commitment that [commitment_readFrom] accepts. *)
Record codec_laws `{Runtime, Sha3} {BcTx} (commitment_readFrom : st_rd BlockCommitment)
    (enc_commit : BlockCommitment -> bytes)
    (header_writeTo : BlockHeader -> Z -> EWriter bytes -> option error * EWriter bytes)
    (Tx_WriteTo : Tx BcTx -> EWriter bytes -> Z * option error * EWriter bytes)
    (enc_header : Z -> BlockHeader -> bytes) (enc_tx : TxData -> bytes) : Prop := {
  law_commit c0 c : BlockCommitment_ok c -> commitment_readFrom c0 (enc_commit c) = (None, c, []);
  law_commit_size c : #(enc_commit c) <= MaxInt31;
  law_header bh f w n : BlockHeader_ok bh -> exists n',
    header_writeTo bh f (mkEWriter w n None) = (None, mkEWriter (w ++ enc_header f bh) n' None);
  law_tx tx w n : TxData_ok (tx_TxData tx) -> exists k n',
    Tx_WriteTo tx (mkEWriter w n None) = (k, None, mkEWriter (w ++ enc_tx (tx_TxData tx)) n' None);
}.

Definition enc_header (enc_commit : BlockCommitment -> bytes) (flags : Z) (bh : BlockHeader) : bytes :=
  [flags] ++ enc_varint (bh_Version bh) ++ enc_varint (Height bh) ++ Byte32 (PreviousBlockHash bh)
    ++ enc_varint (Timestamp bh) ++ enc_varstr (enc_commit (bh_BlockCommitment bh))
    ++ enc_varint (bh_Nonce bh) ++ enc_varint (Bits bh).

Section header_lemmas.
Context (commitment_readFrom : st_rd BlockCommitment) (enc_commit : BlockCommitment -> bytes).
Context (Hcommit : forall c0 c, BlockCommitment_ok c -> commitment_readFrom c0 (enc_commit c) = (None, c, [])).
Context (Hsize : forall c, #(enc_commit c) <= MaxInt31).

Lemma then_rd_step {S} (m k : st_rd S) s r s' r' : m s r = (None, s', r') -> (m >>> k) s r = k s' r'.
Proof. intros E. unfold then_rd. by rewrite E. Qed.

Lemma read_field_enc {S} (set : Z -> S -> S) s v rest : u63_ok v ->
  read_field ReadVarint63 set s (enc_varint v ++ rest) = (None, set v s, rest).
Proof. intros Hv. unfold read_field. by rewrite codec_enc. Qed.

Lemma read_previous_enc bh h rest : Hash_ok h ->
  read_previous bh (Byte32 h ++ rest) = (None, set_PreviousBlockHash h bh, rest).
Proof. intros Hh. unfold read_previous. by rewrite Hash_ReadFrom_enc. Qed.

Lemma read_commitment_enc bh c rest : BlockCommitment_ok c ->
  read_commitment commitment_readFrom bh (enc_varstr (enc_commit c) ++ rest)
    = (None, set_Commitment c bh, rest).
Proof using Hcommit Hsize.
  intros Hc. unfold read_commitment, ReadExtensibleString, NewReader.
  rewrite ReadVarstr31_enc by apply Hsize. by rewrite Hcommit.
Qed.

Lemma BlockHeader_readFrom_enc bh0 bh f rest : f = SerBlockHeader \/ f = SerBlockFull ->
  BlockHeader_ok bh ->
  BlockHeader_readFrom commitment_readFrom bh0 (enc_header enc_commit f bh ++ rest)
    = (f, None, bh, rest).
Proof using Hcommit Hsize.
  intros Hf (H1 & H2 & H3 & H4 & H5 & H6 & Hc). unfold BlockHeader_readFrom, enc_header.
  rewrite <- !app_assoc. change [0] with (replicate 1 0). rewrite ReadFull_app by done. cbn [hd].
  assert ((f =? SerBlockHeader) || (f =? SerBlockFull) = true) as -> by (by destruct Hf as [-> | ->]).
  assert (read_header_fields commitment_readFrom bh0
    (enc_varint (bh_Version bh) ++ enc_varint (Height bh) ++ Byte32 (PreviousBlockHash bh) ++
     enc_varint (Timestamp bh) ++ enc_varstr (enc_commit (bh_BlockCommitment bh)) ++
     enc_varint (bh_Nonce bh) ++ enc_varint (Bits bh) ++ rest) = (None, bh, rest)) as ->; [|done].
  unfold read_header_fields.
  rewrite (then_rd_step _ _ _ _ _ _ (read_field_enc _ _ _ _ H1)),
    (then_rd_step _ _ _ _ _ _ (read_field_enc _ _ _ _ H2)),
    (then_rd_step _ _ _ _ _ _ (read_previous_enc _ _ _ H3)),
    (then_rd_step _ _ _ _ _ _ (read_field_enc _ _ _ _ H4)),
    (then_rd_step _ _ _ _ _ _ (read_commitment_enc _ _ _ Hc)),
    (then_rd_step _ _ _ _ _ _ (read_field_enc _ _ _ _ H5)), (read_field_enc _ _ _ _ H6).
  by destruct bh.
Qed.
End header_lemmas.

Section block_lemmas.
Context `{Runtime} `{Sha3Laws} {BcTx : Type}.
Context (commitment_readFrom : st_rd BlockCommitment) (enc_commit : BlockCommitment -> bytes).
Context (MapTx : TxData -> option BcTx).
Context (header_writeTo : BlockHeader -> Z -> EWriter bytes -> option error * EWriter bytes).
Context (Tx_WriteTo : Tx BcTx -> EWriter bytes -> Z * option error * EWriter bytes).
Context (Hlaws : codec_laws commitment_readFrom enc_commit header_writeTo Tx_WriteTo
                   (enc_header enc_commit) enc_tx).

(** A transaction as a block built by the program holds it. *)
Definition BlockTx_ok (tx : Tx BcTx) : Prop :=
  TxData_ok (tx_TxData tx) /\ SerializedSize (tx_TxData tx) = u64 #(enc_tx (tx_TxData tx)) /\
  NewTx MapTx (tx_TxData tx) = Some tx.

Definition Block_ok (b : Block BcTx) : Prop :=
  BlockHeader_ok (b_BlockHeader b) /\ #(Transactions b) <= MaxInt31 /\
  Forall BlockTx_ok (Transactions b).

Definition enc_block (b : Block BcTx) : bytes :=
  enc_header enc_commit SerBlockFull (b_BlockHeader b) ++ enc_varint #(Transactions b)
    ++ mjoin (map (fun tx => enc_tx (tx_TxData tx)) (Transactions b)).

Lemma BlockTx_data txs : Forall BlockTx_ok txs -> Forall (fun tx => TxData_ok (tx_TxData tx)) txs.
Proof. apply List.Forall_impl. by intros tx [? _]. Qed.

Lemma Block_read_txs_enc txs : forall b rest, Forall BlockTx_ok txs ->
  Block_read_txs MapTx (length txs) b (mjoin (map (fun tx => enc_tx (tx_TxData tx)) txs) ++ rest)
    = Some (None, mkBlock (b_BlockHeader b) (Transactions b ++ txs), rest).
Proof.
  induction txs as [|tx txs IH]; intros b rest Htx; cbn [length Block_read_txs map].
  { rewrite app_nil_r. by destruct b. }
  apply Forall_cons_1 in Htx as [(Hok & Hsz & Hnew) Htx].
  rewrite mjoin_cons, <- app_assoc, TxData_readFrom_enc by done.
  rewrite <- Hsz. destruct tx as [[v sz t i o] m]. cbn in Hnew |- *. rewrite Hnew. cbn.
  rewrite IH by done. cbn. by rewrite <- app_assoc.
Qed.

Lemma Block_readFrom_enc b0 b rest : Block_ok b ->
  Block_readFrom commitment_readFrom MapTx b0 (enc_block b ++ rest)
    = Some (None, mkBlock (b_BlockHeader b) (Transactions b0 ++ Transactions b), rest).
Proof using All.
  intros (Hh & Hn & Htx). destruct Hlaws as [Hc Hs ? ?]. unfold Block_readFrom, enc_block.
  pose proof (zlen_nonneg (Transactions b)).
  rewrite <- !app_assoc, (BlockHeader_readFrom_enc _ _ Hc Hs) by (auto || by right).
  cbn [Z.eqb Pos.eqb SerBlockFull SerBlockHeader]. rewrite ReadVarint31_enc by done.
  unfold zlen. rewrite Nat2Z.id. by rewrite Block_read_txs_enc.
Qed.

Lemma Block_write_txs_enc txs : forall w n, Forall (fun tx => TxData_ok (tx_TxData tx)) txs -> exists n',
  Block_write_txs Tx_WriteTo txs (mkEWriter w n None)
    = (None, mkEWriter (w ++ mjoin (map (fun tx => enc_tx (tx_TxData tx)) txs)) n' None).
Proof using All.
  induction txs as [|tx txs IH]; intros w n Hf; cbn [Block_write_txs map].
  { exists n. by rewrite app_nil_r. }
  apply Forall_cons_1 in Hf as [Htx Hf]. destruct (law_tx _ _ _ _ _ _ Hlaws tx w n Htx) as (k & n' & ->).
  destruct (IH (w ++ enc_tx (tx_TxData tx)) n' Hf) as [n2 ->]. exists n2.
  by rewrite mjoin_cons, app_assoc.
Qed.

Lemma Block_MarshalText_enc b : BlockHeader_ok (b_BlockHeader b) -> #(Transactions b) <= MaxInt31 ->
  Forall (fun tx => TxData_ok (tx_TxData tx)) (Transactions b) ->
  Block_MarshalText header_writeTo Tx_WriteTo b = Some (hex_encode (enc_block b), None).
Proof using All.
  intros Hh Hn Hf. pose proof (zlen_nonneg (Transactions b)).
  unfold Block_MarshalText, Block_WriteTo, Block_writeTo, NewWriter.
  destruct (law_header _ _ _ _ _ _ Hlaws (b_BlockHeader b) SerBlockFull [] 0 Hh) as [n1 ->].
  unfold enc_block. generalize (enc_header enc_commit SerBlockFull (b_BlockHeader b)) as eh. intros eh.
  cbn [app Z.eqb Pos.eqb SerBlockFull SerBlockHeader]. unfold WriteVarint31.
  rewrite wrap_small by (unfold MaxInt31 in *; lia). case_on; zbool; [lia|].
  rewrite PutUvarint_ok by (unfold MaxInt31, MaxInt63 in *; lia). cbn.
  destruct (Block_write_txs_enc (Transactions b) (eh ++ enc_varint #(Transactions b))
    (i64 (n1 + #(enc_varint #(Transactions b)))) Hf) as [n2 ->]. cbn.
  by rewrite <- app_assoc.
Qed.
End block_lemmas.

(** A concrete codec with the laws: the two hashes of a commitment one after the other. *)
Definition plain_enc_commit (c : BlockCommitment) : bytes :=
  Byte32 (TransactionsMerkleRoot c) ++ Byte32 (TransactionStatusHash c).
Definition plain_commitment_readFrom : st_rd BlockCommitment := fun c r =>
  match (h ← ReadHash; g ← ReadHash; mret (mkBlockCommitment h g)) r with
  | (Ok c', r') => (None, c', r')
  | (Err e, r') => (Some e, c, r')
  end.
Definition plain_header_writeTo (bh : BlockHeader) (f : Z) (w : EWriter bytes)
    : option error * EWriter bytes :=
  let '(_, err, w) := EWriter_Write (enc_header plain_enc_commit f bh) w in (err, w).
Definition plain_Tx_WriteTo (tx : Tx unit) (w : EWriter bytes) : Z * option error * EWriter bytes :=
  EWriter_Write (@enc_tx sample_runtime pad32 (tx_TxData tx)) w.

Lemma plain_laws : @codec_laws sample_runtime pad32 unit plain_commitment_readFrom plain_enc_commit plain_header_writeTo
  plain_Tx_WriteTo (enc_header plain_enc_commit) (@enc_tx sample_runtime pad32).
Proof.
  split.
  - intros c0 [g h] [Hg Hh]. cbn in Hg, Hh. unfold plain_commitment_readFrom, plain_enc_commit. cbn.
    erewrite bind_step by (by apply ReadHash_enc).
    rewrite <- (app_nil_r (Byte32 h)). by erewrite bind_step by (by apply ReadHash_enc).
  - intros c. unfold plain_enc_commit. autorewrite with zlen. vm_compute. discriminate.
  - intros bh f w n _. eexists. reflexivity.
  - intros tx w n _. eexists _, _. reflexivity.
Qed.

Definition sample_block : Block unit :=
  mkBlock (mkBlockHeader 1 5 (mkHash 1 2 3 4) 1524 9 7
             (mkBlockCommitment (mkHash 5 6 7 8) (mkHash 9 10 11 12)))
          [mkTx sample_tx tt].
Definition sample_MapTx (_ : TxData) : option unit := Some tt.

Lemma sample_block_ok : @Block_ok sample_runtime pad32 unit sample_MapTx sample_block.
Proof.
  split; [vm_compute; repeat split; discriminate|]. split; [vm_compute; discriminate|].
  constructor; [|constructor]. split; [apply sample_tx_ok|]. by split; [vm_compute|].
Qed.

(** ** The functions that are not in the repository, together *)
(** The commitment's reader with the encoding it accepts, the mapping of transactions and the
    writers of headers and transactions. *)
Class BlockCodec (BcTx : Type) := {
  commitment_readFrom : st_rd BlockCommitment;
  enc_commit : BlockCommitment -> bytes;
  codec_MapTx : TxData -> option BcTx;
  header_writeTo : BlockHeader -> Z -> EWriter bytes -> option error * EWriter bytes;
  Tx_WriteTo : Tx BcTx -> EWriter bytes -> Z * option error * EWriter bytes;
}.
Class BlockCodecLaws `{Runtime, Sha3, BlockCodec BcTx} :=
  block_codec_laws : codec_laws commitment_readFrom enc_commit header_writeTo Tx_WriteTo (enc_header enc_commit) enc_tx.

Section codec.
Context `{Runtime, Sha3, BlockCodec BcTx}.

Definition block_MarshalText (b : Block BcTx) : option (bytes * option error) :=
  Block_MarshalText header_writeTo Tx_WriteTo b.
Definition block_UnmarshalText (b0 : Block BcTx) (text : bytes) : option (option error * Block BcTx) :=
  Block_UnmarshalText commitment_readFrom codec_MapTx b0 text.

(** A block as the program holds it, and its text. *)
Definition storable (b : Block BcTx) : Prop := Block_ok codec_MapTx b /\ bytes_ok (enc_block enc_commit b).
Definition block_text (b : Block BcTx) : bytes := hex_encode (enc_block enc_commit b).

Definition zeroBlock : Block BcTx :=
  mkBlock (mkBlockHeader 0 0 zeroHash 0 0 0 (mkBlockCommitment zeroHash zeroHash)) [].
End codec.

Lemma block_MarshalText_ok `{Runtime, Sha3Laws, BlockCodec BcTx, !BlockCodecLaws} (b : Block BcTx) : storable b ->
  block_MarshalText b = Some (block_text b, None).
Proof.
  intros [(Hh & Hn & Ht) Hb]. apply (Block_MarshalText_enc commitment_readFrom enc_commit codec_MapTx _ _ block_codec_laws); [done..|].
  by apply BlockTx_data in Ht.
Qed.

Lemma block_UnmarshalText_ok `{Runtime, Sha3Laws, BlockCodec BcTx, !BlockCodecLaws} (b0 b : Block BcTx) : storable b ->
  block_UnmarshalText b0 (block_text b) = Some (None, mkBlock (b_BlockHeader b) (Transactions b0 ++ Transactions b)).
Proof.
  intros [Hok Hb]. unfold block_UnmarshalText, Block_UnmarshalText, block_text, NewReader.
  rewrite hex_decode_encode by done. rewrite <- (app_nil_r (enc_block enc_commit b)).
  by rewrite (Block_readFrom_enc _ _ _ _ _ block_codec_laws).
Qed.

Definition plain_codec : BlockCodec unit := {|
  commitment_readFrom := plain_commitment_readFrom;
  enc_commit := plain_enc_commit;
  codec_MapTx := sample_MapTx;
  header_writeTo := plain_header_writeTo;
  Tx_WriteTo := plain_Tx_WriteTo;
|}.

Lemma plain_codec_laws : @BlockCodecLaws sample_runtime pad32 unit plain_codec.
Proof. exact plain_laws. Qed.

Lemma sample_storable : @storable sample_runtime pad32 unit plain_codec sample_block.
Proof. split; [exact sample_block_ok|]. apply bytes_okb_ok. vm_compute. reflexivity. Qed.

(** ** Properties *)

(** C12: A block's text form is read back: header and transactions are the block's, appended to
    the transactions the receiving block already had; reading never panics where every
    transaction can be mapped. *)
Theorem Block_text_roundtrip `{Runtime} `{Sha3Laws} {BcTx} commitment_readFrom enc_commit
    (MapTx : TxData -> option BcTx) header_writeTo
    (Tx_WriteTo : Tx BcTx -> EWriter bytes -> Z * option error * EWriter bytes) (b b0 : Block BcTx) :
  codec_laws commitment_readFrom enc_commit header_writeTo Tx_WriteTo (enc_header enc_commit) enc_tx ->
  Block_ok MapTx b -> bytes_ok (enc_block enc_commit b) ->
  exists text, Block_MarshalText header_writeTo Tx_WriteTo b = Some (text, None) /\
    Block_UnmarshalText commitment_readFrom MapTx b0 text
      = Some (None, mkBlock (b_BlockHeader b) (Transactions b0 ++ Transactions b)).
Proof.
  intros Hlaws Hb Hbytes. exists (hex_encode (enc_block enc_commit b)). split.
  - destruct Hb as (Hh & Hn & Ht). apply (Block_MarshalText_enc _ _ MapTx _ _ Hlaws); [done|done|by eapply BlockTx_data].
  - unfold Block_UnmarshalText, NewReader. rewrite hex_decode_encode by done.
    rewrite <- (app_nil_r (enc_block enc_commit b)).
    by erewrite Block_readFrom_enc by done.
Qed.

(** Bytes after a block are an error, but the block has been assigned in full when it is
    reported; text that is not hexadecimal is an error that leaves the block alone. *)
Theorem Block_UnmarshalText_trailing `{Runtime} `{Sha3Laws} {BcTx} commitment_readFrom enc_commit
    (MapTx : TxData -> option BcTx) header_writeTo
    (Tx_WriteTo : Tx BcTx -> EWriter bytes -> Z * option error * EWriter bytes) (b b0 : Block BcTx) (extra text : bytes) :
  codec_laws commitment_readFrom enc_commit header_writeTo Tx_WriteTo (enc_header enc_commit) enc_tx ->
  Block_ok MapTx b -> bytes_ok (enc_block enc_commit b ++ extra) -> extra <> [] ->
  (exists e, Block_UnmarshalText commitment_readFrom MapTx b0
     (hex_encode (enc_block enc_commit b ++ extra))
     = Some (Some e, mkBlock (b_BlockHeader b) (Transactions b0 ++ Transactions b))) /\
  ((hex_decode text).2 <> None -> exists e,
     Block_UnmarshalText commitment_readFrom MapTx b0 text = Some (Some e, b0)).
Proof.
  intros Hlaws Hb Hbytes Hextra. unfold Block_UnmarshalText, NewReader. split.
  - rewrite hex_decode_encode by done. erewrite Block_readFrom_enc by done.
    cbn [mbind option_bind]. unfold Reader_Len. rewrite (proj2 (Z.ltb_lt 0 #extra)); [eauto|].
    pose proof (zlen_nonneg extra). pose proof (zlen_0 extra). destruct (Z.eq_dec #extra 0); [tauto|lia].
  - destruct (hex_decode text) as [d [e|]]; [eauto|done].
Qed.

Lemma Block_text_roundtrip_witness :
  exists text, Block_MarshalText plain_header_writeTo plain_Tx_WriteTo sample_block = Some (text, None) /\
    @Block_UnmarshalText sample_runtime pad32 unit plain_commitment_readFrom sample_MapTx sample_block text
      = Some (None, mkBlock (b_BlockHeader sample_block) [mkTx sample_tx tt; mkTx sample_tx tt]).
Proof.
  apply (@Block_text_roundtrip sample_runtime pad32 pad32_laws unit plain_commitment_readFrom
    plain_enc_commit sample_MapTx plain_header_writeTo plain_Tx_WriteTo sample_block sample_block
    plain_laws sample_block_ok).
  apply bytes_okb_ok. vm_compute. reflexivity.
Defined.

Lemma Block_UnmarshalText_trailing_witness :
  let bad := hex_encode (@enc_block sample_runtime pad32 unit plain_enc_commit sample_block ++ [7]) in
  let b0 := mkBlock (b_BlockHeader sample_block) [] in
  (exists e, @Block_UnmarshalText sample_runtime pad32 unit plain_commitment_readFrom sample_MapTx b0 bad
     = Some (Some e, sample_block)) /\
  (exists e, @Block_UnmarshalText sample_runtime pad32 unit plain_commitment_readFrom sample_MapTx b0 [103]
     = Some (Some e, b0)).
Proof.
  intros bad b0.
  destruct (@Block_UnmarshalText_trailing sample_runtime pad32 pad32_laws unit plain_commitment_readFrom
    plain_enc_commit sample_MapTx plain_header_writeTo plain_Tx_WriteTo sample_block b0 [7] [103]
    plain_laws sample_block_ok) as [H1 H2].
  - apply bytes_okb_ok. vm_compute. reflexivity.
  - discriminate.
  - split; [exact H1|]. apply H2. discriminate.
Defined.
