(* ===== verification/PeerSet.v ===== *)
(** * The table of peers of a switch

    Models [p2p/peer_set.go].  The list of peers is a Go slice: a reference to an array on a
    heap of arrays, a length and a capacity.  [append] writes into the array when the capacity
    allows it, so that a slice handed out by [List] may share its array with the table; that
    such a slice never changes is a theorem here. *)
From S2P Require Import Prelude Errors GoLib.

Section peerset.
(** A peer is an opaque pointer with a key. *)
Context {Peer : Type} (Key : Peer -> gostring).

(** ** Slices of peers *)

(** An array is the list of its cells; [None] is nil. *)
Abbreviation array := (list (option Peer)).

Record Slice := mkSlice { sl_array : nat; sl_len : nat }.

Record peerSetItem := mkItem { item_peer : Peer; item_index : nat }.

Record PeerSet := mkPS {
  ps_lookup : gmap gostring peerSetItem;
  ps_list : Slice;
  arrays : gmap nat array;
}.

(** What a slice shows. *)
Definition slice_get (h : gmap nat array) (s : Slice) : array :=
  match h !! sl_array s with Some a => take (sl_len s) a | None => [] end.

(** [append(s, p)]: in place when there is room, otherwise into a new array, of which [room]
    says how many cells the runtime allocates beyond those needed. *)
Definition append_peer (room : nat) (h : gmap nat array) (s : Slice) (p : Peer)
    : gmap nat array * Slice :=
  let a := default [] (h !! sl_array s) in
  if (sl_len s <? length a)%nat then
    (<[sl_array s := <[sl_len s := Some p]> a]> h, mkSlice (sl_array s) (S (sl_len s)))
  else
    let r := fresh (dom h) in
    (<[r := take (sl_len s) a ++ [Some p] ++ replicate room None]> h, mkSlice r (S (sl_len s))).

(** ** The operations *)
Definition NewPeerSet : PeerSet :=
  mkPS ∅ (mkSlice 0 0) {[ 0%nat := replicate 256 None ]}.

Definition ErrDuplicatePeer : error := EMsg (str "Duplicate peer").

Definition Add (room : nat) (ps : PeerSet) (peer : Peer) : option error * PeerSet :=
  match ps_lookup ps !! Key peer with
  | Some _ => (Some ErrDuplicatePeer, ps)
  | None =>
      let index := sl_len (ps_list ps) in
      let '(h, l) := append_peer room (arrays ps) (ps_list ps) peer in
      (None, mkPS (<[Key peer := mkItem peer index]> (ps_lookup ps)) l h)
  end.

Definition Has (ps : PeerSet) (peerKey : gostring) : bool :=
  match ps_lookup ps !! peerKey with Some _ => true | None => false end.

Definition Get (ps : PeerSet) (peerKey : gostring) : option Peer :=
  item ← ps_lookup ps !! peerKey; Some (item_peer item).

(** [None] is a run-time panic: an index out of range or a nil pointer. *)
Definition Remove (ps : PeerSet) (peer : Peer) : option PeerSet :=
  match ps_lookup ps !! Key peer with
  | None => Some ps
  | Some item =>
      let index := item_index item in
      let n := sl_len (ps_list ps) in
      if (n =? 0)%nat then go_panic
      else
        let newList := take (n - 1) (slice_get (arrays ps) (ps_list ps)) in
        let r := fresh (dom (arrays ps)) in
        if (index =? n - 1)%nat then
          Some (mkPS (delete (Key peer) (ps_lookup ps)) (mkSlice r (n - 1)) (<[r := newList]> (arrays ps)))
        else
          lastPeer ← slice_get (arrays ps) (ps_list ps) !! (n - 1)%nat;
          lastPeer ← lastPeer;
          let lastPeerKey := Key lastPeer in
          lastPeerItem ← ps_lookup ps !! lastPeerKey;
          if (index <? length newList)%nat then
            let newList := <[index := Some lastPeer]> newList in
            let lookup := <[lastPeerKey := mkItem (item_peer lastPeerItem) index]> (ps_lookup ps) in
            Some (mkPS (delete (Key peer) lookup) (mkSlice r (n - 1)) (<[r := newList]> (arrays ps)))
          else go_panic
  end.

Definition Size (ps : PeerSet) : Z := Z.of_nat (sl_len (ps_list ps)).

(** The slice given out, and what it shows at the time. *)
Definition List (ps : PeerSet) : Slice := ps_list ps.

(** ** The specification: a finite map from keys to peers *)
Record Spec (ps : PeerSet) (m : gmap gostring Peer) : Prop := {
  spec_peers : item_peer <$> ps_lookup ps = m;
  spec_len : length (slice_get (arrays ps) (ps_list ps)) = sl_len (ps_list ps);
  spec_index k it : ps_lookup ps !! k = Some it ->
    Key (item_peer it) = k /\ slice_get (arrays ps) (ps_list ps) !! item_index it = Some (Some (item_peer it));
  spec_list i c : slice_get (arrays ps) (ps_list ps) !! i = Some c ->
    exists p, c = Some p /\ ps_lookup ps !! Key p = Some (mkItem p i);
}.

(** A slice given out earlier: its cells are never written again.  Either its array is not
    the table's, or the table's slice is at least as long. *)
Definition snapshot (ps : PeerSet) (s : Slice) (c : array) : Prop :=
  slice_get (arrays ps) s = c /\ is_Some (arrays ps !! sl_array s) /\
  (sl_array s = sl_array (ps_list ps) -> (sl_len s <= sl_len (ps_list ps))%nat).

(** ** Slices *)
Lemma slice_get_len h s : (length (slice_get h s) <= sl_len s)%nat.
Proof. unfold slice_get. destruct (h !! sl_array s); [rewrite length_take|cbn]; lia. Qed.

(** What a slice shows does not depend on other arrays. *)
Lemma slice_get_frame h r a s : r <> sl_array s -> slice_get (<[r := a]> h) s = slice_get h s.
Proof. intros Hne. unfold slice_get. by rewrite lookup_insert_ne. Qed.

Lemma slice_get_new h r a n : slice_get (<[r := a]> h) (mkSlice r n) = take n a.
Proof. unfold slice_get. cbn. by rewrite lookup_insert_eq. Qed.

Lemma append_peer_spec room h s p h' s' : append_peer room h s p = (h', s') ->
  length (slice_get h s) = sl_len s -> is_Some (h !! sl_array s) ->
  slice_get h' s' = slice_get h s ++ [Some p] /\ sl_len s' = S (sl_len s) /\
  is_Some (h' !! sl_array s') /\
  (forall t, is_Some (h !! sl_array t) -> (sl_array t = sl_array s -> (sl_len t <= sl_len s)%nat) ->
     slice_get h' t = slice_get h t /\ is_Some (h' !! sl_array t) /\
     (sl_array t = sl_array s' -> (sl_len t <= sl_len s')%nat)).
Proof.
  intros Hap Hlen [a Ha]. unfold append_peer in Hap. rewrite Ha in Hap. cbn [default id] in Hap.
  assert (slice_get h s = take (sl_len s) a) as Es by (unfold slice_get; by rewrite Ha). rewrite Es in *.
  rewrite length_take in Hlen.
  destruct (Nat.ltb_spec (sl_len s) (length a)) as [Hroom|Hfull]; injection Hap as <- <-.
  - rewrite slice_get_new. cbn [sl_len sl_array]. split_and!; try done.
    + erewrite take_S_r by (apply list_lookup_insert_eq; done). by rewrite take_insert_ge by lia.
    + rewrite lookup_insert_eq. by eexists.
    + intros t [b Hb] Ht. destruct (decide (sl_array s = sl_array t)) as [E|E].
      * specialize (Ht (eq_sym E)). unfold slice_get. rewrite <- E, lookup_insert_eq, Ha.
        rewrite take_insert_ge by lia. split_and!; [done|by eexists|lia].
      * rewrite slice_get_frame by done. rewrite lookup_insert_ne by done. split_and!; [done|by eexists|].
        intros E'. by rewrite E' in E.
  - set (r := fresh (dom h)). assert (h !! r = None) as Hr by apply not_elem_of_dom, is_fresh.
    rewrite slice_get_new. cbn [sl_len sl_array].
    assert (length (take (sl_len s) a) = sl_len s) as Hl by (rewrite length_take; lia). split_and!; try done.
    + by rewrite take_app_ge, Hl, Nat.sub_succ_l, Nat.sub_diag, firstn_cons, firstn_O by lia.
    + rewrite lookup_insert_eq. by eexists.
    + intros t [b Hb] Ht. assert (r <> sl_array t) by congruence.
      rewrite slice_get_frame, lookup_insert_ne by done. split_and!; [done|by eexists|congruence].
Qed.

(** ** The operations implement the specification *)
Lemma NewPeerSet_spec : Spec NewPeerSet ∅.
Proof.
  split; cbn [NewPeerSet ps_lookup ps_list arrays]; [apply fmap_empty|done..|].
  intros i c. unfold slice_get. by rewrite lookup_singleton_eq, take_0.
Qed.

Definition wf_array (ps : PeerSet) : Prop := is_Some (arrays ps !! sl_array (ps_list ps)).

Lemma lookup_spec ps m k : Spec ps m -> m !! k = item_peer <$> (ps_lookup ps !! k).
Proof. intros Hs. rewrite <- (spec_peers _ _ Hs). apply lookup_fmap. Qed.

Lemma Add_spec room ps m p e ps' : Spec ps m -> wf_array ps -> Add room ps p = (e, ps') ->
  e = (match m !! Key p with Some _ => Some ErrDuplicatePeer | None => None end) /\
  Spec ps' (match m !! Key p with Some _ => m | None => <[Key p := p]> m end) /\ wf_array ps' /\
  forall s c, snapshot ps s c -> snapshot ps' s c.
Proof.
  intros Hs Hw. unfold Add. rewrite (lookup_spec _ _ _ Hs).
  destruct (ps_lookup ps !! Key p) as [it|] eqn:Hk; cbn [fmap option_fmap option_map]; [by intros [= <- <-]|].
  destruct (append_peer room (arrays ps) (ps_list ps) p) as [h l] eqn:Hap. intros [= <- <-].
  destruct (append_peer_spec _ _ _ _ _ _ Hap (spec_len _ _ Hs) Hw) as (Hg & Hl & Hw' & Hsn).
  split; [done|]. split; [|split; [exact Hw'|]].
  - split; cbn [ps_lookup ps_list arrays].
    + by rewrite fmap_insert, (spec_peers _ _ Hs).
    + rewrite Hg, length_app, (spec_len _ _ Hs), Hl. cbn. lia.
    + intros k it. rewrite Hg. destruct (decide (Key p = k)) as [<-|Hne].
      * rewrite lookup_insert_eq. intros [= <-]. split; [done|]. cbn [item_index item_peer].
        rewrite lookup_app_r by (by rewrite (spec_len _ _ Hs)). by rewrite (spec_len _ _ Hs), Nat.sub_diag.
      * rewrite lookup_insert_ne by done. intros Hit. destruct (spec_index _ _ Hs _ _ Hit) as [? Hi].
        split; [done|]. rewrite lookup_app_l; [done|]. by eapply lookup_lt_Some.
    + intros i c. rewrite Hg. intros [Hi|[Hge Hi]]%lookup_app_Some.
      * destruct (spec_list _ _ Hs _ _ Hi) as (q & -> & Hq). exists q. split; [done|].
        rewrite lookup_insert_ne; [done|]. congruence.
      * rewrite (spec_len _ _ Hs) in *. destruct (i - _)%nat as [|?] eqn:Ei; [|by destruct n].
        injection Hi as <-. exists p. split; [done|]. rewrite lookup_insert_eq. do 2 f_equal. lia.
  - intros s c (Hc & Hin & Hle). destruct (Hsn s Hin Hle) as (E & ? & ?). 
    split; [cbn; by rewrite E|by split].
Qed.

(** Swapping the last cell into position [i] and shortening. *)
Lemma swap_remove_lookup (l : array) i n x : length l = S n -> l !! n = Some x -> (i < n)%nat ->
  forall j c, <[i := x]> (take n l) !! j = Some c <->
    (j = i /\ c = x) \/ (j <> i /\ (j < n)%nat /\ l !! j = Some c).
Proof.
  intros Hl Hx Hi j c. destruct (decide (j = i)) as [->|Hne].
  - rewrite list_lookup_insert_eq by (rewrite length_take; lia).
    split; [intros [= <-]; by left|by intros [[_ ->]|[[] _]]].
  - rewrite list_lookup_insert_ne by done. rewrite lookup_take_Some. split; [intros [? ?]; by right|].
    by intros [[-> _]|(_ & ? & ?)].
Qed.

(** A removal has built the new list [l] on a new array. *)
Lemma removed_spec ps m p l n r lookup : Spec ps m -> wf_array ps -> r = fresh (dom (arrays ps)) ->
  length l = n ->
  delete (Key p) m = item_peer <$> lookup ->
  (forall k it, lookup !! k = Some it -> Key (item_peer it) = k /\ l !! item_index it = Some (Some (item_peer it))) ->
  (forall i c, l !! i = Some c -> exists q, c = Some q /\ lookup !! Key q = Some (mkItem q i)) ->
  let ps' := mkPS lookup (mkSlice r n) (<[r := l]> (arrays ps)) in
  Spec ps' (delete (Key p) m) /\ wf_array ps' /\ forall s c, snapshot ps s c -> snapshot ps' s c.
Proof.
  intros Hs Hw Hr <- Hm Hi Hl ps'.
  assert (arrays ps !! r = None) as Hf by (rewrite Hr; apply not_elem_of_dom, is_fresh).
  assert (slice_get (arrays ps') (ps_list ps') = l) as Eg by (cbn; by rewrite slice_get_new, take_ge).
  split; [|split].
  - split; rewrite ?Eg; try done.
  - unfold wf_array. cbn. rewrite lookup_insert_eq. by eexists.
  - intros s c (Hc & [b Hb] & Hle). assert (r <> sl_array s) by congruence.
    split; [|split]; cbn.
    + by rewrite slice_get_frame.
    + rewrite lookup_insert_ne by done. by eexists.
    + congruence.
Qed.

Lemma Remove_spec ps m p : Spec ps m -> wf_array ps ->
  exists ps', Remove ps p = Some ps' /\ Spec ps' (delete (Key p) m) /\ wf_array ps' /\
    forall s c, snapshot ps s c -> snapshot ps' s c.
Proof.
  intros Hs Hw. unfold Remove. pose proof (lookup_spec _ _ (Key p) Hs) as Hm.
  destruct (ps_lookup ps !! Key p) as [it|] eqn:Hk; cbn in Hm; [|exists ps; by rewrite delete_id].
  destruct (spec_index _ _ Hs _ _ Hk) as [Hkey Hidx]. pose proof (lookup_lt_Some _ _ _ Hidx) as Hlt.
  set (l := slice_get (arrays ps) (ps_list ps)) in *.
  assert (length l = sl_len (ps_list ps)) as Hlen by apply (spec_len _ _ Hs). rewrite <- Hlen.
  destruct (length l) as [|n] eqn:En; [lia|]. cbn [Nat.eqb].
  replace (S n - 1)%nat with n by lia.
  assert (length (take n l) = n) as Hn by (rewrite length_take; lia).
  destruct (Nat.eqb_spec (item_index it) n) as [Hlast|Hnl].
  - eexists. split; [done|]. apply (removed_spec ps m); try done.
    + by rewrite fmap_delete, (spec_peers _ _ Hs).
    + intros k it' [Hne Hit]%lookup_delete_Some. destruct (spec_index _ _ Hs _ _ Hit) as [Hk' Hi]. split; [done|].
      fold l in Hi. apply lookup_take_Some. split; [done|].
      pose proof (lookup_lt_Some _ _ _ Hi). enough (item_index it' <> n) by lia. intros E.
      rewrite <- Hlast in E. rewrite E in Hi. congruence.
    + intros i c [Hi Hin]%lookup_take_Some. destruct (spec_list _ _ Hs _ _ Hi) as (q & -> & Hq).
      exists q. split; [done|]. rewrite lookup_delete_ne; [done|]. intros E. rewrite E in Hk.
      assert (it = mkItem q i) as -> by congruence. cbn in Hlast. lia.
  - destruct (lookup_lt_is_Some_2 l n) as [c Hc]; [lia|].
    destruct (spec_list _ _ Hs _ _ Hc) as (last & -> & Hq). rewrite Hc. cbn [mbind option_bind].
    rewrite Hq. cbn [mbind option_bind item_peer]. rewrite Hn.
    rewrite (proj2 (Nat.ltb_lt (item_index it) n)) by lia.
    assert (Key p <> Key last) as Hne.
    { intros E. rewrite E in Hk. assert (it = mkItem last n) as -> by congruence. by cbn in Hnl. }
    assert (length (<[item_index it:=Some last]> (take n l)) = n) as Hn' by (by rewrite length_insert).
    pose proof (swap_remove_lookup l (item_index it) n (Some last) En Hc ltac:(lia)) as Hsw.
    eexists. split; [done|]. apply (removed_spec ps m); try done.
    + rewrite fmap_delete, fmap_insert, (spec_peers _ _ Hs). cbn. f_equal. rewrite insert_id; [done|].
      rewrite (lookup_spec _ _ _ Hs), Hq. done.
    + intros k it' [Hkne Hit]%lookup_delete_Some. destruct (decide (Key last = k)) as [<-|Hkl].
      * rewrite lookup_insert_eq in Hit. injection Hit as <-. split; [done|]. apply Hsw. by left.
      * rewrite lookup_insert_ne in Hit by done. destruct (spec_index _ _ Hs _ _ Hit) as [Hk' Hi].
        split; [done|]. apply Hsw. right. fold l in Hi. pose proof (lookup_lt_Some _ _ _ Hi).
        split; [intros E; rewrite E in Hi; congruence|]. split; [|done].
        enough (item_index it' <> n) by lia. intros E. rewrite E in Hi. congruence.
    + intros i c [[-> ->]|(Hi1 & Hi2 & Hi3)]%Hsw.
      * exists last. split; [done|]. rewrite lookup_delete_ne, lookup_insert_eq by done. done.
      * destruct (spec_list _ _ Hs _ _ Hi3) as (q & -> & Hq'). exists q. split; [done|].
        rewrite lookup_delete_ne, lookup_insert_ne; [done| |].
        -- intros E. rewrite E in Hq. assert (i = n) by congruence. lia.
        -- intros E. rewrite E in Hk. assert (it = mkItem q i) as -> by congruence. by cbn in Hi1.
Qed.

(** The list shows the peers of the map, each once. *)
Lemma list_perm ps m : Spec ps m ->
  slice_get (arrays ps) (ps_list ps) ≡ₚ Some <$> (map_to_list m).*2.
Proof.
  intros Hs. apply NoDup_Permutation.
  - apply NoDup_alt. intros i j c Hi Hj.
    destruct (spec_list _ _ Hs _ _ Hi) as (p & -> & Hp). destruct (spec_list _ _ Hs _ _ Hj) as (q & E & Hq).
    injection E as <-. rewrite Hp in Hq. by injection Hq.
  - apply NoDup_fmap_2; [apply _|]. apply NoDup_fmap_2_strong; [|apply NoDup_map_to_list].
    intros [k1 p1] [k2 p2] H1%elem_of_map_to_list H2%elem_of_map_to_list. cbn. intros <-.
    rewrite (lookup_spec _ _ _ Hs) in H1. rewrite (lookup_spec _ _ _ Hs) in H2.
    apply fmap_Some in H1 as (i1 & E1 & ->). apply fmap_Some in H2 as (i2 & E2 & E).
    destruct (spec_index _ _ Hs _ _ E1) as [<- _]. destruct (spec_index _ _ Hs _ _ E2) as [<- _]. by rewrite E.
  - intros c. rewrite list_elem_of_lookup, list_elem_of_fmap. split.
    + intros (i & Hi). destruct (spec_list _ _ Hs _ _ Hi) as (p & -> & Hp). exists p. split; [done|].
      apply list_elem_of_fmap. exists (Key p, p). split; [done|]. apply elem_of_map_to_list.
      by rewrite (lookup_spec _ _ _ Hs), Hp.
    + intros (p & -> & ([k q] & -> & Hq%elem_of_map_to_list)%list_elem_of_fmap). cbn.
      rewrite (lookup_spec _ _ _ Hs) in Hq. apply fmap_Some in Hq as (it & Hit & ->).
      destruct (spec_index _ _ Hs _ _ Hit) as [_ Hi]. by eexists.
Qed.

(** ** Sequences of calls *)
Inductive ps_op :=
| op_Add (room : nat) (peer : Peer)
| op_Remove (peer : Peer).

Fixpoint ps_run (ps : PeerSet) (l : list ps_op) : option (list (option error) * PeerSet) :=
  match l with
  | [] => Some ([], ps)
  | op_Add room p :: l =>
      let '(e, ps) := Add room ps p in
      r ← ps_run ps l;
      Some (e :: r.1, r.2)
  | op_Remove p :: l =>
      ps ← Remove ps p;
      ps_run ps l
  end.

Fixpoint spec_run (m : gmap gostring Peer) (l : list ps_op) : list (option error) * gmap gostring Peer :=
  match l with
  | [] => ([], m)
  | op_Add _ p :: l =>
      match m !! Key p with
      | Some _ => let r := spec_run m l in (Some ErrDuplicatePeer :: r.1, r.2)
      | None => let r := spec_run (<[Key p := p]> m) l in (None :: r.1, r.2)
      end
  | op_Remove p :: l => spec_run (delete (Key p) m) l
  end.

Lemma ps_run_spec l : forall ps m, Spec ps m -> wf_array ps ->
  exists ps', ps_run ps l = Some ((spec_run m l).1, ps') /\ Spec ps' (spec_run m l).2 /\ wf_array ps' /\
    forall s c, snapshot ps s c -> snapshot ps' s c.
Proof.
  induction l as [|[room p|p] l IH]; intros ps m Hs Hw; cbn [ps_run spec_run]; [by exists ps| |].
  - destruct (Add room ps p) as [e ps1] eqn:Ha.
    destruct (Add_spec _ _ _ _ _ _ Hs Hw Ha) as (-> & Hs1 & Hw1 & Hsn).
    destruct (m !! Key p); destruct (IH _ _ Hs1 Hw1) as (ps2 & -> & Hs2 & Hw2 & Hsn2); exists ps2;
      (split; [done|]); (split; [done|]); (split; [done|]); auto.
  - destruct (Remove_spec ps m p Hs Hw) as (ps1 & -> & Hs1 & Hw1 & Hsn). cbn [mbind option_bind].
    destruct (IH _ _ Hs1 Hw1) as (ps2 & -> & Hs2 & Hw2 & Hsn2). exists ps2. split_and!; auto.
Qed.

(** ** Properties *)

(** C11: The table is a finite map from keys to peers: every sequence of calls runs without a
    panic and answers as the map does ([ErrDuplicatePeer] exactly when the key is taken), [Has],
    [Get] and [Size] are those of the map, and [List] shows its peers, each once.  A slice that
    [List] gave out at any point still shows the same peers after any later calls, although
    [append] may write into the array it shares. *)
Theorem PeerSet_refinement (before after : list ps_op) :
  let '(out1, m1) := spec_run ∅ before in
  let '(out2, m2) := spec_run m1 after in
  exists ps1 ps2, ps_run NewPeerSet before = Some (out1, ps1) /\ ps_run ps1 after = Some (out2, ps2) /\
    (forall k, Get ps2 k = m2 !! k) /\
    (forall k, Has ps2 k = true <-> is_Some (m2 !! k)) /\
    Size ps2 = Z.of_nat (size m2) /\
    slice_get (arrays ps2) (List ps2) ≡ₚ Some <$> (map_to_list m2).*2 /\
    slice_get (arrays ps2) (List ps1) = slice_get (arrays ps1) (List ps1).
Proof.
  destruct (spec_run ∅ before) as [out1 m1] eqn:E1. destruct (spec_run m1 after) as [out2 m2] eqn:E2.
  destruct (ps_run_spec before _ _ NewPeerSet_spec) as (ps1 & H1 & Hs1 & Hw1 & _); [by eexists|].
  rewrite E1 in H1, Hs1. cbn [fst snd] in *.
  destruct (ps_run_spec after _ _ Hs1 Hw1) as (ps2 & H2 & Hs2 & Hw2 & Hsn). rewrite E2 in H2, Hs2.
  cbn [fst snd] in *. exists ps1, ps2. split; [done|]. split; [done|].
  assert (forall k, Get ps2 k = m2 !! k) as Hget.
  { intros k. unfold Get. rewrite (lookup_spec _ _ _ Hs2). by destruct (ps_lookup ps2 !! k). }
  split; [done|]. split.
  { intros k. rewrite <- Hget. unfold Has, Get. destruct (ps_lookup ps2 !! k); cbn; [by eauto|].
    split; [done|by intros [? ?]]. }
  pose proof (list_perm _ _ Hs2) as Hp. split; [|split; [done|]].
  - unfold Size. rewrite <- (spec_len _ _ Hs2), Hp, !length_fmap. by rewrite length_map_to_list.
  - apply (Hsn (List ps1) (slice_get (arrays ps1) (List ps1))). by split_and!.
Qed.
End peerset.
