(* ===== verification/Connection.v ===== *)
(** * The multiplexed peer connection

    Models [p2p/connection/connection.go].  The two goroutines of a connection are modelled by
    one definition for each iteration of their loops; which case of a [select] runs, and what a
    write to the buffered writer answers, are arguments.  The encoding of packets is
    go-wire's, a parameter.  Throttling, flushing and logging only affect timing and are left
    out. *)
From Stdlib Require Import SpecFloat.
From S2P Require Import Prelude Errors GoLib.

(** ** Constants *)
Definition numBatchMsgPackets : nat := 10.
Definition defaultSendQueueCapacity : Z := 1.
Definition defaultRecvBufferCapacity : Z := 4096.
Definition defaultRecvMessageCapacity : Z := 22020096.
Definition maxMsgPacketPayloadSize : Z := 1024.
Definition packetTypePing : Z := 1.
Definition packetTypePong : Z := 2.
Definition packetTypeMsg : Z := 3.

(** ** Packets and their encoding *)
Record msgPacket := mkPacket { ChannelID : Z; EOFlag : Z; Bytes : bytes }.

Definition ErrBinaryReadOverflow : error := EMsg (str "Error: binary read overflow").

(** [wire.WriteBinary] and [wire.ReadBinaryPtr] at [msgPacket]. *)
Class Wire := {
  write_packet : msgPacket -> bytes;
  read_packet : bytes -> res error (msgPacket * bytes);
}.

Definition packet_ok (p : msgPacket) : Prop :=
  byte_ok (ChannelID p) /\ byte_ok (EOFlag p) /\ #(Bytes p) <= maxMsgPacketPayloadSize.

(** A packet of legal size is read back as it was written. *)
Class WireLaws `{Wire} := read_write_packet p r : packet_ok p -> read_packet (write_packet p ++ r) = Ok (p, r).

(** ** float32 *)
Definition f32_of_int (z : Z) : spec_float := binary_normalize 24 128 z 0 false.
Definition f32_div := SFdiv 24 128.
Definition MaxFloat32 : spec_float := S754_finite false 16777215 104.

(** ** float64, for the decay of the statistics *)
Definition double_of_int (z : Z) : spec_float := binary_normalize 53 1024 z 0 false.
Definition double_mul := SFmul 53 1024.
(** The double nearest to 0.8. *)
Definition double_08 : spec_float := S754_finite false 7205759403792794 (-53).
(** [int64(x)] truncates; out of range the result is not specified. *)
Definition int64_of_double (x : spec_float) : Z :=
  match x with
  | S754_finite s m e =>
      let a := if e <? 0 then Z.shiftr (Zpos m) (- e) else Z.shiftl (Zpos m) e in
      if s then - a else a
  | _ => 0
  end.

(** ** Channels *)
Record ChannelDescriptor := mkDesc {
  ID : Z;
  Priority : Z;
  SendQueueCapacity : Z;
  RecvBufferCapacity : Z;
  RecvMessageCapacity : Z;
}.

Definition FillDefaults (d : ChannelDescriptor) : ChannelDescriptor :=
  mkDesc (ID d) (Priority d)
    (if SendQueueCapacity d =? 0 then defaultSendQueueCapacity else SendQueueCapacity d)
    (if RecvBufferCapacity d =? 0 then defaultRecvBufferCapacity else RecvBufferCapacity d)
    (if RecvMessageCapacity d =? 0 then defaultRecvMessageCapacity else RecvMessageCapacity d).

(** [sendQueue] is a buffered Go channel, whose capacity is the descriptor's. *)
Record Channel := mkChannel {
  ch_desc : ChannelDescriptor;
  ch_id : Z;
  sendQueue : list bytes;
  sendQueueSize : Z;
  recving : bytes;
  sending : bytes;
  priority : Z;
  recentlySent : Z;
}.

Definition set_queue (q : list bytes) (size : Z) (ch : Channel) : Channel :=
  mkChannel (ch_desc ch) (ch_id ch) q size (recving ch) (sending ch) (priority ch) (recentlySent ch).
Definition set_sending (b : bytes) (size : Z) (ch : Channel) : Channel :=
  mkChannel (ch_desc ch) (ch_id ch) (sendQueue ch) size (recving ch) b (priority ch) (recentlySent ch).
Definition set_recving (b : bytes) (ch : Channel) : Channel :=
  mkChannel (ch_desc ch) (ch_id ch) (sendQueue ch) (sendQueueSize ch) b (sending ch) (priority ch) (recentlySent ch).
Definition set_recentlySent (n : Z) (ch : Channel) : Channel :=
  mkChannel (ch_desc ch) (ch_id ch) (sendQueue ch) (sendQueueSize ch) (recving ch) (sending ch) (priority ch) n.

(** [make] panics on a negative size. *)
Definition newChannel (desc : ChannelDescriptor) : option Channel :=
  let desc := FillDefaults desc in
  if Priority desc <=? 0 then go_panic
  else if (SendQueueCapacity desc <? 0) || (RecvBufferCapacity desc <? 0) then go_panic
  else Some (mkChannel desc (ID desc) [] 0 [] [] (Priority desc) 0).

(** [ch.sendQueue <- bytes] when the queue has room. *)
Definition enqueue (ch : Channel) (b : bytes) : Channel :=
  set_queue (sendQueue ch ++ [b]) (i32 (sendQueueSize ch + 1)) ch.
Definition has_room (ch : Channel) : bool := #(sendQueue ch) <? SendQueueCapacity (ch_desc ch).

(** The call returns when there is room or when the timer fires ([timeout]); otherwise it is
    still blocked ([None]). *)
Definition sendBytes (ch : Channel) (b : bytes) (timeout : bool) : option (bool * Channel) :=
  if timeout then Some (false, ch)
  else if has_room ch then Some (true, enqueue ch b)
  else None.

Definition trySendBytes (ch : Channel) (b : bytes) : bool * Channel :=
  if has_room ch then (true, enqueue ch b) else (false, ch).

Definition loadSendQueueSize (ch : Channel) : Z := sendQueueSize ch.
Definition ch_canSend (ch : Channel) : bool := loadSendQueueSize ch <? defaultSendQueueCapacity.

Definition isSendPending (ch : Channel) : bool * Channel :=
  if #(sending ch) =? 0 then
    match sendQueue ch with
    | [] => (false, ch)
    | b :: q => (true, set_sending b (sendQueueSize ch) (set_queue q (sendQueueSize ch) ch))
    end
  else (true, ch).

Definition nextMsgPacket (ch : Channel) : msgPacket * Channel :=
  let n := Z.to_nat (Z.min maxMsgPacketPayloadSize #(sending ch)) in
  let b := take n (sending ch) in
  if #(sending ch) <=? maxMsgPacketPayloadSize
  then (mkPacket (ch_id ch) 1 b, set_sending [] (i32 (sendQueueSize ch - 1)) ch)
  else (mkPacket (ch_id ch) 0 b, set_sending (drop n (sending ch)) (sendQueueSize ch) ch).

(** The bytes written, or the error that [werr] says the writer answers. *)
Definition writeMsgPacketTo `{Wire} (ch : Channel) (werr : option error) : res error bytes * Channel :=
  let '(packet, ch) := nextMsgPacket ch in
  match werr with
  | Some e => (Err e, ch)
  | None =>
      let b := packetTypeMsg :: write_packet packet in
      (Ok b, set_recentlySent (i64 (recentlySent ch + #b)) ch)
  end.

(** [Some] is a complete message.  It shares the channel's buffer until the next packet. *)
Definition recvMsgPacket (ch : Channel) (packet : msgPacket) : res error (option bytes * Channel) :=
  if RecvMessageCapacity (ch_desc ch) <? #(recving ch) + #(Bytes packet) then Err ErrBinaryReadOverflow
  else
    let recving := recving ch ++ Bytes packet in
    if EOFlag packet =? 1 then Ok (Some recving, set_recving [] ch)
    else Ok (None, set_recving recving ch).

Definition updateStats (ch : Channel) : Channel :=
  set_recentlySent (int64_of_double (double_mul (double_of_int (recentlySent ch)) double_08)) ch.

(** ** Connections *)

(** [written] is what the buffered writer took; [send] and [pong] tell whether the Go channels
    of those names hold a token or a waiting sender; [onError] lists the calls of the callback.
    [channelsIdx] gives positions in [channels], which hold the shared channel objects. *)
Record MConnection := mkConn {
  channels : list Channel;
  channelsIdx : gmap Z nat;
  running : bool;
  errored : Z;
  onError : list error;
  send : bool;
  pong : bool;
  written : bytes;
}.

Definition with_channels (l : list Channel) (c : MConnection) : MConnection :=
  mkConn l (channelsIdx c) (running c) (errored c) (onError c) (send c) (pong c) (written c).
Definition with_send (s : bool) (c : MConnection) : MConnection :=
  mkConn (channels c) (channelsIdx c) (running c) (errored c) (onError c) s (pong c) (written c).
Definition with_pong (p : bool) (c : MConnection) : MConnection :=
  mkConn (channels c) (channelsIdx c) (running c) (errored c) (onError c) (send c) p (written c).
Definition write_bytes (b : bytes) (c : MConnection) : MConnection :=
  mkConn (channels c) (channelsIdx c) (running c) (errored c) (onError c) (send c) (pong c) (written c ++ b).

Fixpoint new_channels (descs : list ChannelDescriptor) : option (list Channel) :=
  match descs with
  | [] => Some []
  | d :: descs =>
      ch ← newChannel d;
      l ← new_channels descs;
      Some (ch :: l)
  end.

(** [channelsIdx[channel.id] = channel], in order: the last of equal ids stays. *)
Fixpoint index_channels (i : nat) (l : list Channel) (m : gmap Z nat) : gmap Z nat :=
  match l with
  | [] => m
  | ch :: l => index_channels (S i) l (<[ch_id ch := i]> m)
  end.

(** The connection once started. *)
Definition NewMConnection (descs : list ChannelDescriptor) : option MConnection :=
  l ← new_channels descs;
  Some (mkConn l (index_channels 0 l ∅) true 0 [] false false []).

Definition stopForError (c : MConnection) (e : error) : MConnection :=
  if errored c =? 0
  then mkConn (channels c) (channelsIdx c) false 1 (onError c ++ [e]) (send c) (pong c) (written c)
  else mkConn (channels c) (channelsIdx c) false (errored c) (onError c) (send c) (pong c) (written c).

(** The channel object with an id, and its position. *)
Definition find_channel (c : MConnection) (chID : Z) : option (nat * Channel) :=
  i ← channelsIdx c !! chID;
  ch ← channels c !! i;
  Some (i, ch).

(** [msg] is the message after [wire.BinaryBytes]. *)
Definition Send (c : MConnection) (chID : Z) (msg : bytes) (timeout : bool) : option (bool * MConnection) :=
  if negb (running c) then Some (false, c)
  else match find_channel c chID with
  | None => Some (false, c)
  | Some (i, ch) =>
      r ← sendBytes ch msg timeout;
      let '(success, ch) := r in
      if success : bool then Some (true, with_send true (with_channels (<[i := ch]> (channels c)) c))
      else Some (false, c)
  end.

Definition TrySend (c : MConnection) (chID : Z) (msg : bytes) : bool * MConnection :=
  if negb (running c) then (false, c)
  else match find_channel c chID with
  | None => (false, c)
  | Some (i, ch) =>
      let '(ok, ch) := trySendBytes ch msg in
      if ok then (true, with_send true (with_channels (<[i := ch]> (channels c)) c)) else (false, c)
  end.

Definition CanSend (c : MConnection) (chID : Z) : bool :=
  if negb (running c) then false
  else match find_channel c chID with
  | None => false
  | Some (_, ch) => ch_canSend ch
  end.

Definition ratio (ch : Channel) : spec_float :=
  f32_div (f32_of_int (recentlySent ch)) (f32_of_int (priority ch)).

(** The loop over the channels from position [i]: the channels after their [isSendPending]
    calls and the position of the least ratio. *)
Fixpoint least_channel (i : nat) (l : list Channel) (leastRatio : spec_float) (least : option nat)
    : list Channel * option nat :=
  match l with
  | [] => ([], least)
  | ch :: l =>
      let '(pending, ch) := isSendPending ch in
      let '(l, least) :=
        if negb pending then least_channel (S i) l leastRatio least
        else if SFltb (ratio ch) leastRatio then least_channel (S i) l (ratio ch) (Some i)
        else least_channel (S i) l leastRatio least in
      (ch :: l, least)
  end.

Section routines.
Context `{Wire}.

(** Returns true if messages from channels were exhausted. *)
Definition sendMsgPacket (c : MConnection) (werr : option error) : bool * MConnection :=
  let '(l, least) := least_channel 0 (channels c) MaxFloat32 None in
  let c := with_channels l c in
  match least with
  | None => (true, c)
  | Some i =>
      match l !! i with
      | None => (true, c)
      | Some ch =>
          let '(r, ch) := writeMsgPacketTo ch werr in
          let c := with_channels (<[i := ch]> l) c in
          match r with
          | Err e => (true, stopForError c e)
          | Ok b => (false, write_bytes b c)
          end
      end
  end.

Fixpoint send_batch (n : nat) (c : MConnection) (werr : nat -> option error) : bool * MConnection :=
  match n with
  | O => (false, c)
  | S n =>
      let '(eof, c) := sendMsgPacket c (werr n) in
      if eof then (true, c) else send_batch n c werr
  end.

Definition sendSomeMsgPackets (c : MConnection) (werr : nat -> option error) : bool * MConnection :=
  send_batch numBatchMsgPackets c werr.

(** One iteration of [sendRoutine]: the case of the select that ran.  [None]: the case cannot
    run now.  The boolean says whether the loop goes on. *)
Inductive send_case :=
| case_flush
| case_chStats
| case_ping (werr : option error)
| case_pong (werr : option error)
| case_quit
| case_send (werr : nat -> option error).

Definition write_type (t : Z) (werr : option error) (c : MConnection) : MConnection * option error :=
  match werr with
  | Some e => (c, Some e)
  | None => (write_bytes [t] c, None)
  end.

Definition sendRoutine_step (c : MConnection) (k : send_case) : option (bool * MConnection) :=
  let after '(c, err) :=
    if negb (running c) then (false, c)
    else match err with Some e => (false, stopForError c e) | None => (true, c) end in
  match k with
  | case_flush => Some (after (c, None))
  | case_chStats => Some (after (with_channels (map updateStats (channels c)) c, None))
  | case_ping werr => Some (after (write_type packetTypePing werr c))
  | case_pong werr =>
      if pong c then Some (after (write_type packetTypePong werr (with_pong false c))) else None
  | case_quit => if running c then None else Some (false, c)
  | case_send werr =>
      if send c then
        let '(eof, c) := sendSomeMsgPackets (with_send false c) werr in
        Some (after (if eof : bool then c else with_send true c, None))
      else None
  end.

(** One iteration of [recvRoutine] on the bytes received so far: the message given to
    [onReceive], if any, and the bytes left.  [None] while the routine waits for the send
    routine to take a pong. *)
Inductive recv_result :=
| Received (msg : option (Z * bytes)) (rest : bytes)
| Stopped.

(** A panic is caught by [_recover], which stops the connection too. *)
Definition recvRoutine_step (c : MConnection) (input : bytes) : option (recv_result * MConnection) :=
  if pong c then None
  else
    let stop e := Some (Stopped, if running c then stopForError c e else c) in
    match input with
    | [] => stop EOF
    | pktType :: input =>
        if pktType =? packetTypePing then Some (Received None input, with_pong true c)
        else if pktType =? packetTypePong then Some (Received None input, c)
        else if pktType =? packetTypeMsg then
          match read_packet input with
          | Err e => stop e
          | Ok (pkt, input) =>
              match find_channel c (ChannelID pkt) with
              | None => Some (Stopped, stopForError c (EMsg (str "Unknown channel")))
              | Some (i, ch) =>
                  match recvMsgPacket ch pkt with
                  | Err e => stop e
                  | Ok (msg, ch) =>
                      let c := with_channels (<[i := ch]> (channels c)) c in
                      Some (Received (b ← msg; Some (ChannelID pkt, b)) input, c)
                  end
              end
          end
        else Some (Stopped, stopForError c (EMsg (str "Unknown message type")))
    end.
End routines.

(** ** Settings and status *)
Definition updateState : Z := 2000000000.
Definition pingTimeout : Z := 40000000000.
Definition flushThrottle : Z := 100000000.
Definition defaultSendTimeout : Z := 10000000000.
Definition defaultSendRate : Z := 512000.
Definition defaultRecvRate : Z := 512000.

Record MConnConfig := mkMConnConfig { SendRate : Z; RecvRate : Z }.
Definition DefaultMConnConfig : MConnConfig := mkMConnConfig defaultSendRate defaultRecvRate.

(** [_recover]: [r] is the panic with its stack as an error, if there is one. *)
Definition recover_ (r : option error) (c : MConnection) : MConnection :=
  match r with Some err => stopForError c err | None => c end.

Record ChannelStatus := mkChannelStatus {
  cs_ID : Z; cs_SendQueueCapacity : Z; cs_SendQueueSize : Z; cs_Priority : Z; cs_RecentlySent : Z }.
(** The monitors are of another package. *)
Record ConnectionStatus (M : Type) := mkConnectionStatus { SendMonitor : M; RecvMonitor : M; cs_Channels : list ChannelStatus }.
Arguments mkConnectionStatus {M} _ _ _.
Definition Status {M} (sendMonitor recvMonitor : M) (c : MConnection) : ConnectionStatus M :=
  mkConnectionStatus sendMonitor recvMonitor
    (map (fun channel => mkChannelStatus (ch_id channel) (SendQueueCapacity (ch_desc channel)) (sendQueueSize channel)
                           (priority channel) (recentlySent channel)) (channels c)).
