(* ===== verification/Float32.v ===== *)
(** * What is needed of float32

    The channel with the least [recentlySent/priority] is found by comparisons that start from
    [math.MaxFloat32].  Here: comparison is transitive, and the quotient of an int64 by a
    positive int64, both rounded to float32, is smaller than [MaxFloat32]. *)
From Stdlib Require Import SpecFloat.
From S2P Require Import Prelude Connection.

Lemma SFltb_trans a b c : SFltb a b = true -> SFltb b c = true -> SFltb a c = true.
Proof.
  assert (forall m n, PosDef.Pos.compare_cont Eq m n = Pos.compare m n) as Hp by done.
  unfold SFltb, SFcompare.
  destruct a as [| | |[] m1 e1], b as [| | |[] m2 e2], c as [| | |[] m3 e3];
    repeat match goal with s : bool |- _ => destruct s end; try done; rewrite ?(Hp m1 m2), ?(Hp m2 m3), ?(Hp m1 m3);
    destruct (Z.compare_spec e1 e2), (Z.compare_spec e2 e3), (Z.compare_spec e1 e3); try done; try lia;
    destruct (Pos.compare_spec m1 m2), (Pos.compare_spec m2 m3), (Pos.compare_spec m1 m3); cbn; done || lia.
Qed.

Lemma SFltb_irrefl a : SFltb a a = false.
Proof.
  unfold SFltb, SFcompare. destruct a as [[]|[]| |[] m e]; try done;
    rewrite Z.compare_refl; change (PosDef.Pos.compare_cont Eq m m) with (Pos.compare m m); by rewrite Pos.compare_refl.
Qed.

(** ** Digits *)
Lemma digits2_pos_bounds p : 2 ^ (Z.pos (digits2_pos p) - 1) <= Z.pos p < 2 ^ Z.pos (digits2_pos p).
Proof.
  induction p as [p IH|p IH|]; cbn [digits2_pos]; [..|done];
    rewrite Pos2Z.inj_succ; replace (Z.succ (Z.pos (digits2_pos p)) - 1) with (Z.succ (Z.pos (digits2_pos p) - 1)) by lia;
    rewrite !Z.pow_succ_r by lia; lia.
Qed.

Lemma Zdigits2_le m k : 0 <= m -> 0 <= k -> m < 2 ^ k -> Zdigits2 m <= k.
Proof.
  intros Hm Hk Hlt. destruct m as [|p|p]; cbn; [done| |lia].
  pose proof (digits2_pos_bounds p). enough (Z.pos (digits2_pos p) - 1 < k) by lia.
  apply (Z.pow_lt_mono_r_iff 2); lia.
Qed.

Lemma Zdigits2_pow m : 0 < m -> 2 ^ (Zdigits2 m - 1) <= m /\ 0 < Zdigits2 m.
Proof. destruct m as [|p|p]; intros; try lia. cbn. pose proof (digits2_pos_bounds p). lia. Qed.

(** ** Shifting right *)
Lemma iter_pos_nat {A} (f : A -> A) p : forall x, SpecFloat.iter_pos f p x = Nat.iter (Pos.to_nat p) f x.
Proof.
  induction p as [p IH|p IH|]; intros x; cbn [SpecFloat.iter_pos]; [..|done]; rewrite !IH.
  - rewrite Pos2Nat.inj_xI. rewrite <- Nat.iter_add. rewrite <- Nat.iter_succ_r. f_equal. lia.
  - rewrite Pos2Nat.inj_xO. rewrite <- Nat.iter_add. f_equal. lia.
Qed.

Lemma shr_1_half r : 0 <= shr_m r -> shr_m (shr_1 r) = shr_m r / 2.
Proof.
  destruct r as [m ? ?]. cbn. intros Hm. destruct m as [|[p|p|]|p]; cbn; try done; try lia.
  - rewrite Pos2Z.inj_xI, Z.mul_comm, Z.div_add_l by lia. change (1 / 2) with 0. lia.
  - rewrite Pos2Z.inj_xO, Z.mul_comm, Z.div_mul by lia. done.
Qed.

Lemma shr_iter n : forall r, 0 <= shr_m r -> shr_m (Nat.iter n shr_1 r) = shr_m r / 2 ^ Z.of_nat n.
Proof.
  induction n as [|n IH]; intros r Hr; [cbn; by rewrite Z.div_1_r|].
  assert (0 < 2 ^ Z.of_nat n) by (apply Z.pow_pos_nonneg; lia).
  rewrite Nat.iter_succ, shr_1_half, IH by (rewrite ?IH by done; by try apply Z.div_pos).
  rewrite Z.div_div by lia. f_equal. rewrite Nat2Z.inj_succ, Z.pow_succ_r by lia. lia.
Qed.

Section round.
Let prec : Z := 24.
Let emax : Z := 128.

Lemma shr_fexp_spec m e l : 0 <= m ->
  let '(r, e') := shr_fexp prec emax m e l in
  e' = Z.max e (fexp prec emax (Zdigits2 m + e)) /\ shr_m r = m / 2 ^ (e' - e).
Proof.
  intros Hm. unfold shr_fexp, shr.
  assert (shr_m (shr_record_of_loc m l) = m) as Hr by (by destruct l as [|[]]).
  set (f := fexp prec emax (Zdigits2 m + e)) in *. destruct (f - e) as [|p|p] eqn:E.
  - split; [lia|]. rewrite Hr, Z.sub_diag. cbn. by rewrite Z.div_1_r.
  - split; [lia|]. rewrite iter_pos_nat, shr_iter, Hr by (by rewrite Hr). do 2 f_equal. lia.
  - split; [lia|]. rewrite Hr, Z.sub_diag. cbn. by rewrite Z.div_1_r.
Qed.

(** A value below 2^K keeps below 2^K when shifted. *)
Lemma shr_fexp_bound m e l K : 0 <= m -> e <= K -> -100 <= K -> m < 2 ^ (K - e) ->
  let '(r, e') := shr_fexp prec emax m e l in
  e <= e' <= Z.max e (Z.max (K - 24) (-149)) /\ 0 <= shr_m r < 2 ^ (K - e').
Proof.
  intros Hm HeK HK Hlt. pose proof (shr_fexp_spec m e l Hm) as Hs.
  destruct (shr_fexp prec emax m e l) as [r e']. destruct Hs as [He' Hr].
  pose proof (Zdigits2_le m (K - e) Hm ltac:(lia) Hlt). unfold fexp, emin, prec, emax in He'.
  split; [lia|]. rewrite Hr. assert (0 < 2 ^ (e' - e)) by (apply Z.pow_pos_nonneg; lia). split; [by apply Z.div_pos|].
  apply Z.div_lt_upper_bound; [done|]. rewrite <- Z.pow_add_r by lia. by replace (e' - e + (K - e')) with (K - e) by lia.
Qed.

Lemma shr_fexp_pos m e l : 0 < m -> -149 < e ->
  let '(r, e') := shr_fexp prec emax m e l in 0 < shr_m r.
Proof.
  intros Hm He. pose proof (shr_fexp_spec m e l ltac:(lia)) as Hs.
  destruct (shr_fexp prec emax m e l) as [r e']. destruct Hs as [He' ->].
  destruct (Zdigits2_pow m Hm) as [Hd Hp]. unfold fexp, emin, prec, emax in He'.
  assert (2 ^ (e' - e) <= 2 ^ (Zdigits2 m - 1)) by (apply Z.pow_le_mono_r; lia).
  assert (0 < 2 ^ (e' - e)) by (apply Z.pow_pos_nonneg; lia).
  apply Z.div_str_pos. lia.
Qed.

(** The result of rounding a value below 2^K at the exponent [e]. *)
Definition small_float (s : bool) (K e : Z) (x : spec_float) : Prop :=
  x = S754_zero s \/
  exists m e', x = S754_finite s m e' /\ e <= e' <= Z.max e (Z.max (K - 23) (-149)) /\ Z.pos m < 2 ^ (K + 1 - e').

Lemma round_bound s m e l K : 0 <= m -> e <= K -> -100 <= K <= 120 -> e < 104 -> m < 2 ^ (K - e) ->
  small_float s K e (binary_round_aux prec emax s m e l) /\
  (0 < m -> -149 < e -> binary_round_aux prec emax s m e l <> S754_zero s).
Proof.
  intros Hm HeK HK He Hlt. unfold binary_round_aux.
  pose proof (shr_fexp_bound m e l K Hm HeK ltac:(lia) Hlt) as H1. pose proof (shr_fexp_pos m e l) as P1.
  destruct (shr_fexp prec emax m e l) as [r e1]. destruct H1 as [He1 Hr].
  set (m1 := round_nearest_even _ _).
  assert (shr_m r <= m1 <= shr_m r + 1) as Hm1.
  { unfold m1. destruct (loc_of_shr_record r) as [|[]]; cbn; [lia| |lia..]. destruct (Z.even _); lia. }
  assert (e1 <= K) as He1K by lia.
  assert (m1 < 2 ^ (K + 1 - e1)) as Hm1lt.
  { replace (K + 1 - e1) with (Z.succ (K - e1)) by lia. rewrite Z.pow_succ_r by lia. lia. }
  pose proof (shr_fexp_bound m1 e1 loc_Exact (K + 1) ltac:(lia) ltac:(lia) ltac:(lia) Hm1lt) as H2.
  pose proof (shr_fexp_pos m1 e1 loc_Exact) as P2.
  destruct (shr_fexp prec emax m1 e1 loc_Exact) as [r2 e2]. destruct H2 as [He2 Hr2].
  destruct (shr_m r2) as [|p|p] eqn:Ep; [|..|lia].
  - split; [by left|]. intros Hpos Hlow. specialize (P1 Hpos Hlow). specialize (P2 ltac:(lia) ltac:(lia)). lia.
  - rewrite (proj2 (Z.leb_le _ _)) by (unfold emax, prec; lia). split; [|done].
    right. exists p, e2. split; [done|]. split; lia.
Qed.
End round.

(** An integer of 63 bits as a float32. *)
Lemma iter_xO p d : Z.pos (Pos.iter xO p d) = Z.pos p * 2 ^ Z.pos d.
Proof.
  induction d as [|d IH] using Pos.peano_ind; [cbn; lia|].
  rewrite Pos.iter_succ, Pos2Z.inj_xO, IH, Pos2Z.inj_succ, Z.pow_succ_r by lia. lia.
Qed.

Lemma round_int s p : Z.pos p <= 2 ^ 63 ->
  exists m e, binary_round 24 128 s p 0 = S754_finite s m e /\ -23 <= e <= 41 /\ Z.pos m < 2 ^ (65 - e).
Proof.
  intros Hp. unfold binary_round. pose proof (digits2_pos_bounds p) as Hd.
  set (f := fexp 24 128 _). assert (-23 <= f) as Hf by (unfold f, fexp, emin; lia).
  assert (exists q e, shl_align p 0 f = (q, e) /\ -23 <= e <= 0 /\ Z.pos q = Z.pos p * 2 ^ (- e)) as (q & e & -> & He & Hq).
  { unfold shl_align. rewrite Z.sub_0_r. destruct f as [|x|x] eqn:E; [exists p, 0; cbn; split_and!; done || lia..|].
    exists (Pos.iter xO p x), (Z.neg x). split; [done|]. split; [lia|]. apply iter_xO. }
  destruct (round_bound s (Z.pos q) e loc_Exact 64) as [[Hz|(m & e' & -> & He' & Hm)] Hnz]; try lia.
  - rewrite Hq. replace (64 - e) with (64 + - e) by lia. rewrite Z.pow_add_r by lia.
    apply Z.mul_lt_mono_pos_r; [apply Z.pow_pos_nonneg; lia|]. lia.
  - exfalso. apply Hnz; [lia..|done].
  - exists m, e'. split; [done|]. split; [lia|]. done.
Qed.

Lemma ratio_small ch : - 2 ^ 63 <= recentlySent ch < 2 ^ 63 -> 0 < priority ch < 2 ^ 63 ->
  SFltb (ratio ch) MaxFloat32 = true.
Proof.
  intros Hr Hp. unfold ratio, f32_div, f32_of_int.
  destruct (priority ch) as [|p|p]; try lia. cbn [binary_normalize].
  destruct (round_int false p ltac:(lia)) as (m2 & e2 & -> & He2 & _).
  assert (forall s q, Z.pos q <= 2 ^ 63 ->
    SFltb (SFdiv 24 128 (binary_round 24 128 s q 0) (S754_finite false m2 e2)) MaxFloat32 = true) as Hmain.
  { intros s q Hq. destruct (round_int s q Hq) as (m1 & e1 & -> & He1 & Hm1). cbn [SFdiv].
    unfold SFdiv_core_binary. set (e' := Z.min _ (e1 - e2)). set (k := e1 - e2 - e').
    assert (0 <= k) as Hk by lia. assert (-200 <= e') as Hlow by (unfold e', fexp, emin; lia).
    assert (match k with 0 => Z.pos m1 | Z.pos _ => Z.shiftl (Z.pos m1) k | Z.neg _ => 0 end = Z.pos m1 * 2 ^ k) as ->.
    { destruct k; [cbn; lia|by rewrite Z.shiftl_mul_pow2 by lia|lia]. }
    pose proof (Z_div_mod (Z.pos m1 * 2 ^ k) (Z.pos m2) ltac:(lia)) as Hdm.
    destruct (Z.div_eucl _ _) as [qq rr]. destruct Hdm as [Hdm Hrr].
    assert (0 < 2 ^ k) by (apply Z.pow_pos_nonneg; lia).
    assert (0 <= qq <= Z.pos m1 * 2 ^ k) as Hqq by nia.
    assert (qq < 2 ^ (88 - e')) as Hlt.
    { eapply Z.le_lt_trans; [apply Hqq|]. apply Z.lt_le_trans with (2 ^ (65 - e1) * 2 ^ k).
      - by apply Z.mul_lt_mono_pos_r.
      - rewrite <- Z.pow_add_r by lia. apply Z.pow_le_mono_r; lia. }
    destruct (round_bound (xorb s false) qq e' (new_location (Z.pos m2) rr) 88) as [[->|(m & e & -> & He & _)] _]; try lia; [done|].
    unfold SFltb, SFcompare, MaxFloat32. destruct (xorb s false); [done|].
    rewrite (proj2 (Z.compare_lt_iff _ _)) by lia. done. }
  destruct (recentlySent ch) as [|q|q]; cbn [binary_normalize]; [done|apply Hmain; lia..].
Qed.
