(* ===== verification/ConnDelivery.v ===== *)
(** * What a pair of peer connections delivers

    Two connections that write to each other, every call and every iteration of their four
    routines being a step, in any order.  Each side's messages reach the other side's callback
    once, in the order in which the channel accepted them, and no connection stops.  Also: the
    send routine is idle only when no channel has anything to send. *)
From Stdlib Require Import SpecFloat.
From S2P Require Import Prelude Errors GoLib Connection Float32.

(** ** Channels by id *)
Definition chan (c : MConnection) (id : Z) : option Channel := snd <$> find_channel c id.

(** The index table holds the position of every channel, and ids are unique. *)
Definition wf_idx (c : MConnection) : Prop :=
  forall id i, channelsIdx c !! id = Some i <-> ch_id <$> (channels c !! i) = Some id.

Definition ids (c : MConnection) : list Z := ch_id <$> channels c.

(** What the channel has still to send, and where it stands in receiving. *)
Definition out (c : MConnection) (id : Z) : option (bytes * list bytes) :=
  (fun ch => (sending ch, sendQueue ch)) <$> chan c id.
Definition inn (c : MConnection) (id : Z) : option (bytes * Z) :=
  (fun ch => (recving ch, RecvMessageCapacity (ch_desc ch))) <$> chan c id.

Lemma chan_Some c id ch : wf_idx c -> chan c id = Some ch <-> exists i, channels c !! i = Some ch /\ ch_id ch = id.
Proof.
  intros Hw. unfold chan, find_channel. split.
  - destruct (channelsIdx c !! id) as [i|] eqn:Hi; [|done]. cbn.
    destruct (channels c !! i) as [ch'|] eqn:Hc; [|done]. cbn. intros [= <-]. exists i. split; [done|].
    apply Hw in Hi. rewrite Hc in Hi. by injection Hi.
  - intros (i & Hc & Hid). assert (channelsIdx c !! id = Some i) as -> by (apply Hw; rewrite Hc; cbn; by rewrite Hid).
    cbn. by rewrite Hc.
Qed.

Lemma find_channel_chan c id i ch : wf_idx c -> find_channel c id = Some (i, ch) ->
  channels c !! i = Some ch /\ ch_id ch = id /\ chan c id = Some ch.
Proof.
  intros Hw Hf. assert (chan c id = Some ch) as Hc by (unfold chan; by rewrite Hf).
  unfold find_channel in Hf. destruct (channelsIdx c !! id) as [j|] eqn:Hi; [|done]. cbn in Hf.
  destruct (channels c !! j) as [ch'|] eqn:Hj; [|done]. injection Hf as <- <-.
  split; [done|]. split; [|done]. apply Hw in Hi. rewrite Hj in Hi. by injection Hi.
Qed.

Lemma find_channel_None c id : find_channel c id = None <-> chan c id = None.
Proof. unfold chan. by destruct (find_channel c id) as [[? ?]|]. Qed.

Lemma wf_idx_ids c l : wf_idx c -> ch_id <$> l = ids c -> wf_idx (with_channels l c).
Proof.
  intros Hw Hl id i. cbn. rewrite (Hw id i).
  assert (ch_id <$> (l !! i) = ch_id <$> (channels c !! i)) as ->; [|done].
  unfold ids in Hl. rewrite <- !list_lookup_fmap. by rewrite Hl.
Qed.

(** Channels changed in place. *)
Lemma chan_with_channels c l id : wf_idx c -> ch_id <$> l = ids c ->
  chan (with_channels l c) id = (i ← channelsIdx c !! id; l !! i).
Proof. intros Hw Hl. unfold chan, find_channel. cbn. destruct (_ !! id) as [i|]; [|done]. cbn. by destruct (l !! i). Qed.

Lemma ids_insert c i ch ch' : channels c !! i = Some ch -> ch_id ch' = ch_id ch ->
  ch_id <$> <[i := ch']> (channels c) = ids c.
Proof.
  intros Hc Hid. unfold ids. rewrite list_fmap_insert, Hid.
  apply list_insert_id. by rewrite list_lookup_fmap, Hc.
Qed.

Lemma chan_insert c i ch ch' id : wf_idx c -> channels c !! i = Some ch -> ch_id ch' = ch_id ch ->
  chan (with_channels (<[i := ch']> (channels c)) c) id = if decide (id = ch_id ch) then Some ch' else chan c id.
Proof.
  intros Hw Hc Hid. rewrite chan_with_channels by (done || by apply (ids_insert c i ch)).
  pose proof (lookup_lt_Some _ _ _ Hc) as Hlt.
  assert (channelsIdx c !! ch_id ch = Some i) as Hi by (apply Hw; by rewrite Hc).
  case_decide as Hd.
  - subst id. rewrite Hi. cbn. by apply list_lookup_insert_eq.
  - unfold chan, find_channel. destruct (channelsIdx c !! id) as [j|] eqn:Hj; [|done]. cbn.
    rewrite list_lookup_insert_ne; [by destruct (channels c !! j)|]. intros ->. apply Hw in Hj.
    rewrite Hc in Hj. by injection Hj as <-.
Qed.

(** ** Packets on the wire *)
Inductive item := IPing | IPong | IMsg (p : msgPacket).

(** The packets of one channel put together after [partial]: complete messages and the rest. *)
Fixpoint assemble (id : Z) (partial : bytes) (l : list item) : list bytes * bytes :=
  match l with
  | [] => ([], partial)
  | IMsg p :: l =>
      if decide (ChannelID p = id) then
        if EOFlag p =? 1 then let r := assemble id [] l in ((partial ++ Bytes p) :: r.1, r.2)
        else assemble id (partial ++ Bytes p) l
      else assemble id partial l
  | _ :: l => assemble id partial l
  end.

Lemma assemble_app id l k : forall partial,
  assemble id partial (l ++ k) =
    let r := assemble id partial l in let r' := assemble id r.2 k in (r.1 ++ r'.1, r'.2).
Proof.
  induction l as [|x l IH]; intros partial; cbn [assemble app]; [cbn; by destruct (assemble id partial k)|].
  destruct x as [| |p]; [apply IH..|]. case_decide; [|apply IH]. case_on; [|apply IH].
  cbn. rewrite IH. cbn. done.
Qed.

(** Messages of one channel in a log. *)
Definition msgs (id : Z) (l : list (Z * bytes)) : list bytes :=
  omap (fun e => if decide (e.1 = id) then Some e.2 else None) l.

Lemma msgs_app id l k : msgs id (l ++ k) = msgs id l ++ msgs id k.
Proof. apply omap_app. Qed.
Lemma msgs_one id id' b : msgs id [(id', b)] = if decide (id' = id) then [b] else [].
Proof. cbn. by case_decide. Qed.

(** What a channel has not put on the wire, [partial] being already under way. *)
Definition backlog (partial : bytes) (sq : bytes * list bytes) : list bytes :=
  match sq.1 with [] => sq.2 | s => (partial ++ s) :: sq.2 end.

Section delivery.
Context `{WireLaws}.

Definition enc_item (x : item) : bytes :=
  match x with
  | IPing => [packetTypePing]
  | IPong => [packetTypePong]
  | IMsg p => packetTypeMsg :: write_packet p
  end.
Definition enc_items (l : list item) : bytes := mjoin (map enc_item l).

Lemma enc_items_app l k : enc_items (l ++ k) = enc_items l ++ enc_items k.
Proof. unfold enc_items. rewrite map_app. apply join_app. Qed.

Definition item_ok (i : Z -> option (bytes * Z)) (x : item) : Prop :=
  match x with IMsg p => packet_ok p /\ Bytes p <> [] /\ is_Some (i (ChannelID p)) | _ => True end.

(** One channel in one direction: what was accepted is what was delivered, what is on the
    wire and the backlog, in this order. *)
Definition channel_inv (id : Z) (o : option (bytes * list bytes)) (i : option (bytes * Z))
    (items : list item) (acc del : list bytes) : Prop :=
  match o, i with
  | Some sq, Some (r, cap) =>
      let '(ms, partial) := assemble id r items in
      acc = del ++ ms ++ backlog partial sq /\
      (sq.1 = [] -> partial = []) /\
      Forall (fun m => m <> [] /\ #m <= cap) (ms ++ backlog partial sq)
  | None, None => acc = [] /\ del = []
  | _, _ => False
  end.

Definition Dir (o : Z -> option (bytes * list bytes)) (i : Z -> option (bytes * Z)) (w : bytes)
    (acc del : list (Z * bytes)) : Prop :=
  exists items, w = enc_items items /\ Forall (item_ok i) items /\
    forall id, channel_inv id (o id) (i id) items (msgs id acc) (msgs id del).

Lemma Dir_ext o i w acc del o' i' : Dir o i w acc del -> (forall id, o' id = o id) -> (forall id, i' id = i id) ->
  Dir o' i' w acc del.
Proof.
  intros (items & Hw & Hok & Hc) Ho Hi. exists items. split; [done|]. split.
  - refine (List.Forall_impl _ _ Hok). intros [| |p]; cbn; [done..|]. by rewrite Hi.
  - intros id. by rewrite Ho, Hi.
Qed.

(** [isSendPending] may move the first message of the queue. *)
Definition pull (a b : bytes * list bytes) : Prop :=
  b = a \/ (a.1 = [] /\ a.2 = b.1 :: b.2).

Lemma backlog_pull a b partial : pull a b -> (a.1 = [] -> partial = []) ->
  Forall (fun m : bytes => m <> []) (backlog partial a) ->
  backlog partial b = backlog partial a /\ (b.1 = [] -> partial = []).
Proof.
  intros [->|[E1 E2]] Hp Hf; [done|]. specialize (Hp E1) as ->. unfold backlog in *. rewrite E1, E2 in *.
  apply Forall_cons_iff in Hf as [Hne _]. by destruct b.1.
Qed.

Lemma Dir_pull o i w acc del o' : Dir o i w acc del -> (forall id, option_Forall2 pull (o id) (o' id)) ->
  Dir o' i w acc del.
Proof.
  intros (items & Hw & Hok & Hc) Ho. exists items. split; [done|]. split; [done|].
  intros id. specialize (Hc id). specialize (Ho id). unfold channel_inv in *.
  destruct Ho as [a b Hpull|]; [|done]. destruct (i id) as [[r cap]|]; [|done].
  destruct (assemble id r items) as [ms partial]. destruct Hc as (Hacc & Hp & Hf).
  destruct (backlog_pull a b partial Hpull Hp) as [E Hp'].
  { apply Forall_app in Hf as [_ Hf]. refine (List.Forall_impl _ _ Hf). by intros m [? _]. }
  by rewrite E.
Qed.

Lemma Dir_accept o i w acc del o' id s q m r cap : Dir o i w acc del ->
  o id = Some (s, q) -> i id = Some (r, cap) -> m <> [] -> #m <= cap ->
  (forall k, o' k = if decide (k = id) then Some (s, q ++ [m]) else o k) ->
  Dir o' i w (acc ++ [(id, m)]) del.
Proof.
  intros (items & Hw & Hok & Hc) Ho Hi Hm Hcap Ho'. exists items. split; [done|]. split; [done|].
  intros k. specialize (Hc k). rewrite Ho', msgs_app, msgs_one. destruct (decide (k = id)) as [->|Hne].
  - rewrite decide_True by done. rewrite Ho, Hi in Hc. rewrite Hi. unfold channel_inv in *.
    destruct (assemble id r items) as [ms partial]. destruct Hc as (-> & Hp & Hf).
    assert (backlog partial (s, q ++ [m]) = backlog partial (s, q) ++ [m]) as -> by (by unfold backlog; destruct s).
    split; [by rewrite <- !app_assoc|]. split; [done|]. rewrite app_assoc. apply Forall_app. by split; [|constructor].
  - rewrite decide_False by done. by rewrite app_nil_r.
Qed.

Lemma assemble_other id id' partial items p : ChannelID p = id -> id' <> id ->
  assemble id' partial (items ++ [IMsg p]) = assemble id' partial items.
Proof.
  intros Hp Hne. rewrite assemble_app. cbn. rewrite decide_False by congruence.
  destruct (assemble id' partial items). cbn. by rewrite app_nil_r.
Qed.

Lemma Dir_packet o i w acc del o' id s q : Dir o i w acc del ->
  o id = Some (s, q) -> s <> [] -> byte_ok id ->
  let n := Z.to_nat (Z.min maxMsgPacketPayloadSize #s) in
  let last := #s <=? maxMsgPacketPayloadSize in
  (forall k, o' k = if decide (k = id) then Some (if last then [] else drop n s, q) else o k) ->
  Dir o' i (w ++ packetTypeMsg :: write_packet (mkPacket id (if last then 1 else 0) (take n s))) acc del.
Proof.
  intros (items & -> & Hok & Hc) Ho Hs Hb n last Ho'. set (p := mkPacket _ _ _).
  assert (0 < #s) as Hpos by (destruct s; [done|rewrite zlen_cons; pose proof (zlen_nonneg s); lia]).
  unfold maxMsgPacketPayloadSize in *.
  exists (items ++ [IMsg p]). split; [by rewrite enc_items_app; unfold enc_items; cbn; rewrite app_nil_r|]. split.
  { apply Forall_app. split; [done|]. constructor; [|done]. split; [|split].
    - unfold packet_ok, p. cbn. split; [done|]. split; [destruct last; unfold byte_ok; lia|].
      rewrite zlen_take. unfold n, maxMsgPacketPayloadSize. lia.
    - cbn. intros E%zlen_0. rewrite zlen_take in E. lia.
    - specialize (Hc id). rewrite Ho in Hc. cbn. destruct (i id); [by eexists|done]. }
  intros k. specialize (Hc k). rewrite Ho'. destruct (decide (k = id)) as [->|Hne].
  - rewrite Ho in Hc. unfold channel_inv in *. destruct (i id) as [[r cap]|]; [|done].
    rewrite assemble_app. destruct (assemble id r items) as [ms partial]. cbn. rewrite decide_True by done.
    destruct Hc as (Hacc & _ & Hf). assert (backlog partial (s, q) = (partial ++ s) :: q) as E by (by destruct s).
    rewrite E in *. destruct last eqn:Hl.
    + change (1 =? 1) with true. cbn. unfold last in Hl. zbool.
      assert (take n s = s) as Et by (apply take_ge; unfold n; zlia). rewrite Et.
      change (backlog [] ([], q)) with q. rewrite <- app_assoc. cbn. by split_and!.
    + change (0 =? 1) with false. cbn. unfold last in Hl. zbool. rewrite app_nil_r.
      assert (drop n s <> []) as Hd by (intros E'%zlen_0; rewrite zlen_drop in E'; lia).
      assert (backlog (partial ++ take n s) (drop n s, q) = (partial ++ s) :: q) as ->.
      { unfold backlog. cbn. destruct (drop n s) eqn:Ed; [done|]. by rewrite <- app_assoc, <- Ed, take_drop. }
      split; [done|]. split; [by intros ?|done].
  - unfold channel_inv in *. destruct (o k), (i k) as [[r cap]|]; try done.
    rewrite (assemble_other id) by done. done.
Qed.

Lemma Dir_ctl o i w acc del t : Dir o i w acc del -> t = packetTypePing \/ t = packetTypePong ->
  Dir o i (w ++ [t]) acc del.
Proof.
  intros (items & -> & Hok & Hc) Ht.
  assert (exists x, enc_item x = [t] /\ (x = IPing \/ x = IPong)) as (x & Ex & Hx)
    by (destruct Ht as [-> | ->]; [exists IPing|exists IPong]; auto).
  exists (items ++ [x]). split; [rewrite enc_items_app; unfold enc_items; cbn; by rewrite Ex|]. split.
  { apply Forall_app. split; [done|]. constructor; [|done]. by destruct Hx as [-> | ->]. }
  intros id. specialize (Hc id). unfold channel_inv in *. destruct (o id), (i id) as [[r cap]|]; try done.
  rewrite assemble_app. destruct (assemble id r items) as [ms partial].
  destruct Hx as [-> | ->]; cbn; by rewrite app_nil_r.
Qed.

(** What is being received is the beginning of the next message. *)
Lemma assemble_prefix id items sq : forall partial,
  let r := assemble id partial items in
  partial <> [] -> (sq.1 = [] -> r.2 = []) ->
  exists m t, r.1 ++ backlog r.2 sq = m :: t /\ #partial <= #m.
Proof.
  induction items as [|x items IH]; intros partial r Hne Hsq; unfold r in *; cbn [assemble fst snd] in *.
  - destruct sq as [[|b s] q]; cbn in *; [by specialize (Hsq eq_refl)|].
    eexists _, _. split; [done|]. rewrite zlen_app. pose proof (zlen_nonneg (b :: s)). lia.
  - destruct x as [| |p]; [by apply IH..|]. case_decide; [|by apply IH].
    case_on.
    + cbn. eexists _, _. split; [done|]. rewrite zlen_app. pose proof (zlen_nonneg (Bytes p)). lia.
    + destruct (IH (partial ++ Bytes p)) as (m & t & -> & Hm); [by destruct partial|done|].
      exists m, t. split; [done|]. rewrite zlen_app in Hm. pose proof (zlen_nonneg (Bytes p)). lia.
Qed.

(** The first packet on the wire. *)
Lemma Dir_front o i w acc del : Dir o i w acc del -> w <> [] ->
  (exists t rest, w = t :: rest /\ (t = packetTypePing \/ t = packetTypePong) /\ Dir o i rest acc del) \/
  (exists p rest r cap, w = packetTypeMsg :: write_packet p ++ rest /\ packet_ok p /\
     i (ChannelID p) = Some (r, cap) /\ #r + #(Bytes p) <= cap /\
     forall i', (forall k, i' k = if decide (k = ChannelID p)
                                then Some (if EOFlag p =? 1 then [] else r ++ Bytes p, cap) else i k) ->
       Dir o i' rest acc (if EOFlag p =? 1 then del ++ [(ChannelID p, r ++ Bytes p)] else del)).
Proof.
  intros (items & -> & Hok & Hc) Hne. destruct items as [|x items]; [done|].
  apply Forall_cons_1 in Hok as [Hx Hok].
  assert (forall t, enc_item x = [t] -> (x = IPing \/ x = IPong) ->
    exists rest, enc_items (x :: items) = t :: rest /\ Dir o i rest acc del) as Hctl.
  { intros t Ex Hxx. exists (enc_items items). split; [by unfold enc_items; cbn; rewrite Ex|].
    exists items. split; [done|]. split; [done|]. intros k. specialize (Hc k). unfold channel_inv in *.
    by destruct Hxx as [-> | ->]. }
  destruct x as [| |p].
  - left. destruct (Hctl _ eq_refl (or_introl eq_refl)) as (rest & E & HD). rewrite E. eauto 6.
  - left. destruct (Hctl _ eq_refl (or_intror eq_refl)) as (rest & E & HD). rewrite E. eauto 6.
  - right. destruct Hx as (Hp & Hb & [[r cap] Hi]). exists p, (enc_items items), r, cap.
    split; [done|]. split; [done|]. split; [done|]. split.
    + specialize (Hc (ChannelID p)). rewrite Hi in Hc. unfold channel_inv in Hc.
      destruct (o (ChannelID p)) as [sq|]; [|done]. cbn [assemble] in Hc. rewrite decide_True in Hc by done.
      rewrite <- zlen_app. case_in Hc.
      * cbn in Hc. destruct Hc as (_ & _ & Hf). apply Forall_cons_1 in Hf. tauto.
      * assert (r ++ Bytes p <> []) as Hne' by (by intros [_ ?]%app_eq_nil).
        pose proof (assemble_prefix (ChannelID p) items sq (r ++ Bytes p) Hne') as Hpre. cbv zeta in Hpre.
        destruct (assemble _ _ _) as [ms partial]. destruct Hc as (_ & Hsq & Hf).
        destruct (Hpre Hsq) as (m & t & E & Hm). cbn [fst snd] in E. rewrite E in Hf.
        apply Forall_cons_1 in Hf as [[_ ?] _]. lia.
    + intros i' Hi'. exists items. split; [done|]. split.
      { refine (List.Forall_impl _ _ Hok). intros [| |p']; cbn; [done..|]. intros (? & ? & ?).
        split; [done|]. split; [done|]. rewrite Hi'. case_decide; [by eexists|done]. }
      intros k. specialize (Hc k). rewrite Hi'. unfold channel_inv in *. cbn [assemble] in Hc.
      destruct (decide (k = ChannelID p)) as [->|Hk].
      * rewrite Hi in Hc. destruct (o _) as [sq|]; [|done]. rewrite decide_True in Hc by done.
        case_on; [|done]. rewrite msgs_app, msgs_one, decide_True by done. cbn [fst snd] in Hc.
        destruct (assemble (ChannelID p) [] items) as [ms partial]. cbn [fst snd] in Hc.
        destruct Hc as (Hacc & Hsq & Hf). apply Forall_cons_1 in Hf as [_ Hf].
        split; [rewrite Hacc; by rewrite <- app_assoc|done].
      * assert (msgs k (if EOFlag p =? 1 then del ++ [(ChannelID p, r ++ Bytes p)] else del) = msgs k del) as ->.
        { case_on; [|done]. rewrite msgs_app, msgs_one, decide_False by done. by rewrite app_nil_r. }
        destruct (o k) as [sq|], (i k) as [[r' cap']|]; try done. by rewrite decide_False in Hc.
Qed.

(** ** One connection *)
Record good (c : MConnection) : Prop := {
  good_idx : wf_idx c;
  good_ids : Forall byte_ok (ids c);
  good_running : running c = true;
}.

(** What a call on the sending side leaves alone. *)
Definition same_inn (c c' : MConnection) : Prop := good c' /\ forall k, inn c' k = inn c k.

Lemma good_update c i ch ch' : good c -> channels c !! i = Some ch -> ch_id ch' = ch_id ch ->
  let c' := with_channels (<[i := ch']> (channels c)) c in
  good c' /\
  (forall k, out c' k = if decide (k = ch_id ch) then Some (sending ch', sendQueue ch') else out c k) /\
  (forall k, inn c' k = if decide (k = ch_id ch) then Some (recving ch', RecvMessageCapacity (ch_desc ch'))
                        else inn c k) /\
  out c (ch_id ch) = Some (sending ch, sendQueue ch) /\
  inn c (ch_id ch) = Some (recving ch, RecvMessageCapacity (ch_desc ch)).
Proof.
  intros [Hw Hb Hr] Hc Hid c'. pose proof (ids_insert c i ch ch' Hc Hid) as Hids.
  assert (chan c (ch_id ch) = Some ch) as Hch by (apply chan_Some; [done|by exists i]).
  split_and!.
  - split; [by apply wf_idx_ids|by unfold ids, c'; cbn; rewrite Hids|done].
  - intros k. unfold out. unfold c'. rewrite (chan_insert c i ch) by done. by case_decide.
  - intros k. unfold inn. unfold c'. rewrite (chan_insert c i ch) by done. by case_decide.
  - unfold out. by rewrite Hch.
  - unfold inn. by rewrite Hch.
Qed.

Lemma good_with_send b c : good c -> good (with_send b c).
Proof. by intros [? ? ?]. Qed.
Lemma good_with_pong b c : good c -> good (with_pong b c).
Proof. by intros [? ? ?]. Qed.
Lemma good_write b c : good c -> good (write_bytes b c).
Proof. by intros [? ? ?]. Qed.

(** A message accepted. *)
Definition accepted_by (c c' : MConnection) (id : Z) (m : bytes) : Prop :=
  same_inn c c' /\ written c' = written c /\ pong c' = pong c /\
  exists s q, out c id = Some (s, q) /\
    forall k, out c' k = if decide (k = id) then Some (s, q ++ [m]) else out c k.

Lemma enqueue_accepted c i ch id m : good c -> find_channel c id = Some (i, ch) ->
  accepted_by c (with_send true (with_channels (<[i := enqueue ch m]> (channels c)) c)) id m.
Proof.
  intros Hg Hf. destruct (find_channel_chan c id i ch (good_idx _ Hg) Hf) as (Hc & <- & _).
  destruct (good_update c i ch (enqueue ch m) Hg Hc eq_refl) as (Hg' & Ho & Hi & Ho1 & Hi1).
  split; [split; [by apply good_with_send|]|].
  - intros k. change (inn (with_send true ?x) k) with (inn x k). rewrite Hi. case_decide; [|done]. by subst.
  - split; [done|]. split; [done|]. exists (sending ch), (sendQueue ch). split; [done|]. intros k. apply Ho.
Qed.

Lemma TrySend_spec c id m : good c ->
  TrySend c id m = (false, c) \/ exists c', TrySend c id m = (true, c') /\ accepted_by c c' id m.
Proof.
  intros Hg. unfold TrySend. rewrite (good_running _ Hg). cbn [negb].
  destruct (find_channel c id) as [[i ch]|] eqn:Hf; [|by left]. unfold trySendBytes.
  case_on; [|by left]. right. eexists. split; [done|]. by apply enqueue_accepted.
Qed.

Lemma Send_spec c id m timeout r : good c -> Send c id m timeout = Some r ->
  r = (false, c) \/ exists c', r = (true, c') /\ accepted_by c c' id m.
Proof.
  intros Hg. unfold Send. rewrite (good_running _ Hg). cbn [negb].
  destruct (find_channel c id) as [[i ch]|] eqn:Hf; [|intros [= <-]; by left]. unfold sendBytes.
  destruct timeout; [intros [= <-]; by left|]. case_on; [|done]. cbn. intros [= <-].
  right. eexists. split; [done|]. by apply enqueue_accepted.
Qed.

(** A change of every channel that keeps ids. *)
Lemma good_channels c l (R : Channel -> Channel -> Prop) : good c -> Forall2 R (channels c) l ->
  (forall a b, R a b -> ch_id b = ch_id a) ->
  good (with_channels l c) /\
  forall k, option_Forall2 R (chan c k) (chan (with_channels l c) k).
Proof.
  intros [Hw Hb Hr] Hl HR.
  assert (ch_id <$> l = ids c) as Hids.
  { unfold ids. clear -Hl HR. induction Hl as [|a b l1 l2 Hab Hl IH]; [done|]. cbn. rewrite (HR _ _ Hab). by f_equal. }
  split; [split; [by apply wf_idx_ids|by unfold ids; cbn; rewrite Hids|done]|].
  intros k. rewrite chan_with_channels by done. unfold chan, find_channel.
  destruct (channelsIdx c !! k) as [i|]; [|constructor]. cbn.
  apply (Forall2_lookup _ _ _) with (i := i) in Hl. by destruct Hl; constructor.
Qed.

(** The channel after [isSendPending]. *)
Definition pulled (a b : Channel) : Prop :=
  ch_id b = ch_id a /\ ch_desc b = ch_desc a /\ recving b = recving a /\
  pull (sending a, sendQueue a) (sending b, sendQueue b) /\
  priority b = priority a /\ recentlySent b = recentlySent a.

Lemma isSendPending_spec ch b ch' : isSendPending ch = (b, ch') ->
  pulled ch ch' /\
  (Forall (fun m : bytes => m <> []) (sendQueue ch) -> b = true <-> sending ch' <> []) /\
  (b = false -> ch' = ch /\ sending ch = [] /\ sendQueue ch = []).
Proof.
  unfold isSendPending. destruct (Z.eqb_spec #(sending ch) 0) as [E|E].
  - apply zlen_0 in E. destruct (sendQueue ch) as [|m q] eqn:Eq; intros [= <- <-].
    + split; [by unfold pulled, pull; rewrite Eq; split_and!; try done; left|]. by rewrite E.
    + split; [unfold pulled, pull; cbn; rewrite E, Eq; split_and!; try done; by right|]. cbn.
      split; [|done]. intros Hf. by apply Forall_cons_1 in Hf as [? _].
  - rewrite zlen_0 in E. intros [= <- <-]. split; [unfold pulled, pull; split_and!; try done; by left|].
    by split.
Qed.

Lemma least_channel_spec l : forall i x o l' least, least_channel i l x o = (l', least) ->
  Forall (fun ch => Forall (fun m : bytes => m <> []) (sendQueue ch)) l ->
  Forall2 pulled l l' /\
  (least = o \/ exists k ch, least = Some (i + k)%nat /\ l' !! k = Some ch /\ sending ch <> []).
Proof.
  induction l as [|ch l IH]; intros i x o l' least Hl Hf; cbn [least_channel] in Hl.
  { injection Hl as <- <-. by split; [constructor|left]. }
  apply Forall_cons_1 in Hf as [Hf1 Hf]. destruct (isSendPending ch) as [b ch'] eqn:Hp.
  destruct (isSendPending_spec _ _ _ Hp) as (Hpl & Hb & _). specialize (Hb Hf1).
  assert (exists l1 x1 o1, least_channel (S i) l x1 o1 = (l1, least) /\ l' = ch' :: l1 /\
    (o1 = o \/ (o1 = Some i /\ sending ch' <> []))) as (l1 & x1 & o1 & H1 & -> & Ho1).
  { destruct b; cbn in Hl; [destruct (SFltb (ratio ch') x)|];
      (destruct (least_channel (S i) l _ _) as [l1 o1] eqn:H1); injection Hl as <- <-;
      eexists _, _, _; (split; [exact H1|]); (split; [done|]); auto.
    right. split; [done|]. by apply Hb. }
  destruct (IH _ _ _ _ _ H1 Hf) as [HF Hls]. split; [by constructor|].
  destruct Hls as [->|(k & c & -> & Hk & Hs)].
  - destruct Ho1 as [->|[-> Hs]]; [by left|]. right. exists 0%nat, ch'. split; [f_equal; lia|done].
  - right. exists (S k), c. split; [f_equal; lia|done].
Qed.

Lemma Dir_queues c i w acc del : good c -> Dir (out c) i w acc del ->
  Forall (fun ch => Forall (fun m : bytes => m <> []) (sendQueue ch)) (channels c).
Proof.
  intros Hg (items & _ & _ & Hc). apply List.Forall_forall. intros ch (n & Hn)%list_elem_of_In%list_elem_of_lookup.
  assert (chan c (ch_id ch) = Some ch) as Hch by (apply chan_Some; [apply Hg|by exists n]).
  specialize (Hc (ch_id ch)). unfold out in Hc. rewrite Hch in Hc. unfold channel_inv in Hc. cbn in Hc.
  destruct (i (ch_id ch)) as [[r cap]|]; [|done]. destruct (assemble _ _ _) as [ms partial].
  destruct Hc as (_ & _ & Hf). apply Forall_app in Hf as [_ Hf]. unfold backlog in Hf. cbn [fst snd] in Hf.
  destruct (sending ch); [|apply Forall_cons_1 in Hf as [_ Hf]];
    (refine (List.Forall_impl _ _ Hf); by intros m [? _]).
Qed.

(** [sendMsgPacket] puts on the wire what the invariant allows. *)
Lemma sendMsgPacket_Dir c i acc del b c' : good c -> Dir (out c) i (written c) acc del ->
  sendMsgPacket c None = (b, c') ->
  same_inn c c' /\ pong c' = pong c /\ Dir (out c') i (written c') acc del.
Proof.
  intros Hg HD. unfold sendMsgPacket.
  destruct (least_channel 0 (channels c) MaxFloat32 None) as [l least] eqn:Hl.
  destruct (least_channel_spec _ _ _ _ _ _ Hl (Dir_queues _ _ _ _ _ Hg HD)) as [HF Hls].
  destruct (good_channels c l pulled Hg HF) as [Hg1 Hch]; [by intros x y []|].
  set (c1 := with_channels l c) in *.
  assert (forall k, inn c1 k = inn c k) as Hi1.
  { intros k. unfold inn. destruct (Hch k) as [x y (_ & Hd & Hr & _)|]; [|done]. cbn. by rewrite Hd, Hr. }
  assert (Dir (out c1) i (written c1) acc del) as HD1.
  { apply (Dir_pull (out c)); [done|]. intros k. unfold out. destruct (Hch k) as [x y (_ & _ & _ & Hpl & _)|]; by constructor. }
  destruct Hls as [->|(k & ch & -> & Hk & Hs)]; [by intros [= <- <-]|]. cbn [Nat.add]. rewrite Hk.
  unfold writeMsgPacketTo. destruct (nextMsgPacket ch) as [pkt ch'] eqn:Hn. intros [= <- <-].
  set (last := #(sending ch) <=? maxMsgPacketPayloadSize).
  set (n := Z.to_nat (Z.min maxMsgPacketPayloadSize #(sending ch))).
  assert (ch_id ch' = ch_id ch /\ ch_desc ch' = ch_desc ch /\ recving ch' = recving ch /\ sendQueue ch' = sendQueue ch /\
    sending ch' = (if last then [] else drop n (sending ch)) /\
    pkt = mkPacket (ch_id ch) (if last then 1 else 0) (take n (sending ch))) as (E1 & E2 & E3 & E4 & E5 & ->).
  { unfold nextMsgPacket in Hn. fold last n in Hn. destruct last; injection Hn as <- <-; by split_and!. }
  set (ch2 := set_recentlySent _ ch').
  destruct (good_update c1 k ch ch2 Hg1 Hk E1) as (Hg2 & Ho2 & Hi2 & Hoc & Hic).
  set (c2 := with_channels (<[k:=ch2]> l) c1).
  change (with_channels (<[k:=ch2]> (channels c1)) c1) with c2 in *.
  assert (byte_ok (ch_id ch)) as Hbyte.
  { pose proof (good_ids _ Hg1) as Hb. rewrite List.Forall_forall in Hb. apply Hb, list_elem_of_In, list_elem_of_lookup.
    exists k. unfold ids, c1. cbn. by rewrite list_lookup_fmap, Hk. }
  pose proof (Dir_packet (out c1) i (written c1) acc del (out c2) (ch_id ch) (sending ch) (sendQueue ch) HD1 Hoc Hs Hbyte)
    as HD2. cbv zeta in HD2. fold last n in HD2. split; [|split; [done|]].
  - split; [by apply good_write|]. intros j. change (inn (write_bytes _ ?x) j) with (inn x j). rewrite Hi2, <- Hi1.
    case_decide; [|done]. subst j. unfold ch2. cbn [recving ch_desc set_recentlySent]. by rewrite E2, E3, Hic.
  - apply HD2. intros j. rewrite Ho2. unfold ch2. cbn [sending sendQueue set_recentlySent]. by rewrite E4, E5.
Qed.

Lemma send_batch_Dir i acc del n : forall c b c', good c -> Dir (out c) i (written c) acc del ->
  send_batch n c (fun _ => None) = (b, c') ->
  same_inn c c' /\ pong c' = pong c /\ Dir (out c') i (written c') acc del.
Proof.
  induction n as [|n IH]; intros c b c' Hg HD; cbn [send_batch]; [by intros [= <- <-]|].
  destruct (sendMsgPacket c None) as [eof c1] eqn:H1.
  destruct (sendMsgPacket_Dir _ _ _ _ _ _ Hg HD H1) as ([Hg1 Hi1] & Hp1 & HD1).
  destruct eof; [by intros [= <- <-]|]. intros H2.
  destruct (IH _ _ _ Hg1 HD1 H2) as ([Hg2 Hi2] & Hp2 & HD2).
  split; [|by split; [etrans|]]. split; [done|]. intros k. by rewrite Hi2.
Qed.

(** A case of the send routine whose writes succeed. *)
Definition case_ok (k : send_case) : Prop :=
  match k with
  | case_ping e | case_pong e => e = None
  | case_send e => e = fun _ => None
  | _ => True
  end.

Lemma sendRoutine_step_Dir c i acc del k b c' : good c -> case_ok k -> Dir (out c) i (written c) acc del ->
  sendRoutine_step c k = Some (b, c') ->
  b = true /\ same_inn c c' /\ Dir (out c') i (written c') acc del.
Proof.
  intros Hg Hk HD. pose proof (good_running _ Hg) as Hr. unfold sendRoutine_step. destruct k as [| |e|e| |e]; cbn in Hk.
  - cbv zeta beta. rewrite Hr. by intros [= <- <-].
  - cbv zeta beta. cbn [running with_channels]. rewrite Hr. intros [= <- <-]. split; [done|].
    destruct (good_channels c (map updateStats (channels c)) (fun x y => y = updateStats x)) as [Hg1 Hch]; [done| |by intros ? ? ->|].
    { clear. induction (channels c) as [|x l IH]; cbn; by constructor. }
    split; [split; [done|]|].
    + intros j. unfold inn. destruct (Hch j) as [x y ->|]; done.
    + apply (Dir_ext (out c) i); [done| |done]. intros j. unfold out. destruct (Hch j) as [x y ->|]; done.
  - subst e. cbn. rewrite Hr. intros [= <- <-]. split; [done|]. split; [by split; [apply good_write|]|].
    apply (Dir_ctl (out c)); [done|by left].
  - subst e. case_on; [|done]. cbn. rewrite Hr. intros [= <- <-]. split; [done|].
    split; [by split; [apply good_write, good_with_pong|]|]. apply (Dir_ctl (out c)); [done|by right].
  - by rewrite Hr.
  - subst e. case_on; [|done]. destruct (sendSomeMsgPackets _ _) as [eof c1] eqn:H1.
    destruct (send_batch_Dir i acc del _ _ _ _ (good_with_send false _ Hg) HD H1) as ([Hg1 Hi1] & _ & HD1).
    assert (good (if eof then c1 else with_send true c1)) as Hg2 by (by destruct eof; [|apply good_with_send]).
    cbv zeta beta. rewrite (good_running _ Hg2). cbn [negb]. intros [= <- <-]. split; [done|].
    split; [split; [done|]|]; by destruct eof.
Qed.

(** An iteration of the receive routine on a nonempty wire. *)
Lemma recvRoutine_step_Dir c o w acc del r c' : good c -> Dir o (inn c) w acc del -> w <> [] ->
  recvRoutine_step c w = Some (r, c') ->
  good c' /\ written c' = written c /\ (forall k, out c' k = out c k) /\
  (forall k, snd <$> inn c' k = snd <$> inn c k) /\
  exists msg rest, r = Received msg rest /\
    Dir o (inn c') rest acc (del ++ match msg with Some m => [m] | None => [] end).
Proof.
  intros Hg HD Hne. unfold recvRoutine_step. destruct (pong c) eqn:Hpong; [done|]. cbv zeta.
  destruct (Dir_front _ _ _ _ _ HD Hne) as [(t & rest & -> & Ht & HD1)|(p & rest & rv & cap & -> & Hok & Hi & Hcap & Hd)].
  - unfold packetTypePing, packetTypePong, packetTypeMsg in *.
    destruct Ht as [-> | ->]; cbn [Z.eqb Pos.eqb]; intros [= <- <-].
    + split; [by apply good_with_pong|]. do 3 (split; [done|]). exists None, rest. by rewrite app_nil_r.
    + do 4 (split; [done|]). exists None, rest. by rewrite app_nil_r.
  - change (packetTypeMsg =? packetTypePing) with false. change (packetTypeMsg =? packetTypePong) with false.
    rewrite Z.eqb_refl, read_write_packet by done.
    destruct (find_channel c (ChannelID p)) as [[n ch]|] eqn:Hf.
    2: { apply find_channel_None in Hf. unfold inn in Hi. by rewrite Hf in Hi. }
    destruct (find_channel_chan c _ n ch (good_idx _ Hg) Hf) as (Hc & Hid & Hch).
    pose proof Hi as Hin. unfold inn in Hi. rewrite Hch in Hi. injection Hi as E1 E2. unfold recvMsgPacket.
    rewrite E1, E2, (proj2 (Z.ltb_ge _ _)) by lia.
    set (ch' := if EOFlag p =? 1 then set_recving [] ch else set_recving (rv ++ Bytes p) ch).
    assert (ch_id ch' = ch_id ch /\ sending ch' = sending ch /\ sendQueue ch' = sendQueue ch /\ ch_desc ch' = ch_desc ch /\
      recving ch' = if EOFlag p =? 1 then [] else rv ++ Bytes p) as (F1 & F2 & F3 & F4 & F5).
    { unfold ch'. by destruct (EOFlag p =? 1). }
    destruct (good_update c n ch ch' Hg Hc F1) as (Hg1 & Ho1 & Hi1 & Hoc & _).
    set (c1 := with_channels _ c) in *.
    assert (forall k, out c1 k = out c k) as Hsame.
    { intros k. rewrite Ho1, F2, F3. case_decide; [|done]. by subst. }
    assert (forall k, snd <$> inn c1 k = snd <$> inn c k) as Hcaps.
    { intros k. rewrite Hi1, F4, E2. case_decide; [|done]. subst k. by rewrite Hid, Hin. }
    specialize (Hd (inn c1)). rewrite <- F5 in Hd. rewrite Hid in Hi1. rewrite F4, E2 in Hi1. specialize (Hd Hi1).
    assert (r = Received (if EOFlag p =? 1 then Some (ChannelID p, rv ++ Bytes p) else None) rest /\ c' = c1 ->
      good c' /\ written c' = written c /\ (forall k, out c' k = out c k) /\
      (forall k, snd <$> inn c' k = snd <$> inn c k) /\
      exists msg rest0, r = Received msg rest0 /\
        Dir o (inn c') rest0 acc (del ++ match msg with Some m => [m] | None => [] end)) as Hend.
    { intros [-> ->]. do 4 (split; [done|]). eexists _, _. split; [done|].
      destruct (EOFlag p =? 1); [done|by rewrite app_nil_r]. }
    unfold c1, ch' in *. destruct (EOFlag p =? 1); cbn [mbind option_bind]; intros [= <- <-]; by apply Hend.
Qed.

(** ** Two connections *)

(** One end: its connection, the messages its [Send] and [TrySend] accepted and the messages
    its callback received, each with the channel. *)
Record side := mkSide {
  s_conn : MConnection;
  s_accepted : list (Z * bytes);
  s_delivered : list (Z * bytes);
}.

Inductive sys_op :=
| op_Send (chID : Z) (msg : bytes) (timeout : bool)
| op_TrySend (chID : Z) (msg : bytes)
| op_sender (k : send_case)
| op_receive.

Definition take_written (w : bytes) (c : MConnection) : MConnection :=
  mkConn (channels c) (channelsIdx c) (running c) (errored c) (onError c) (send c) (pong c) w.

(** A step of one end; [None]: it has to wait. *)
Definition side_step (me peer : side) (o : sys_op) : option (side * side) :=
  let call chID msg '(ok, c) :=
    (mkSide c (s_accepted me ++ if ok : bool then [(chID, msg)] else []) (s_delivered me), peer) in
  match o with
  | op_Send chID msg timeout => call chID msg <$> Send (s_conn me) chID msg timeout
  | op_TrySend chID msg => Some (call chID msg (TrySend (s_conn me) chID msg))
  | op_sender k =>
      r ← sendRoutine_step (s_conn me) k;
      Some (mkSide r.2 (s_accepted me) (s_delivered me), peer)
  | op_receive =>
      if #(written (s_conn peer)) =? 0 then None
      else
        r ← recvRoutine_step (s_conn me) (written (s_conn peer));
        match r.1 with
        | Received msg rest =>
            Some (mkSide r.2 (s_accepted me) (s_delivered me ++ match msg with Some m => [m] | None => [] end),
                  mkSide (take_written rest (s_conn peer)) (s_accepted peer) (s_delivered peer))
        | Stopped => Some (mkSide r.2 (s_accepted me) (s_delivered me), peer)
        end
  end.

Definition swap_sides (s : side * side) : side * side := (s.2, s.1).

Definition sys_step (s : side * side) (o : bool * sys_op) : option (side * side) :=
  if o.1 then side_step s.1 s.2 o.2 else swap_sides <$> side_step s.2 s.1 o.2.

Fixpoint sys_run (s : side * side) (l : list (bool * sys_op)) : option (side * side) :=
  match l with
  | [] => Some s
  | o :: l => s ← sys_step s o; sys_run s l
  end.

(** [caps] are the receive capacities of the other end's channels. *)
Definition op_ok (caps : Z -> option Z) (o : sys_op) : Prop :=
  match o with
  | op_Send id m _ | op_TrySend id m => m <> [] /\ forall n, caps id = Some n -> #m <= n
  | op_sender k => case_ok k
  | op_receive => True
  end.

Definition SDir (me peer : side) : Prop :=
  Dir (out (s_conn me)) (inn (s_conn peer)) (written (s_conn me)) (s_accepted me) (s_delivered peer).

Record SysInv (capA capB : Z -> option Z) (s : side * side) : Prop := {
  sys_goodA : good (s_conn s.1);
  sys_goodB : good (s_conn s.2);
  sys_AB : SDir s.1 s.2;
  sys_BA : SDir s.2 s.1;
  sys_capA : forall k, snd <$> inn (s_conn s.1) k = capA k;
  sys_capB : forall k, snd <$> inn (s_conn s.2) k = capB k;
}.

Lemma SysInv_swap capA capB s : SysInv capA capB s -> SysInv capB capA (swap_sides s).
Proof. intros []. by split. Qed.

Lemma accepted_inv capA capB me peer c' id m : SysInv capA capB (me, peer) -> accepted_by (s_conn me) c' id m ->
  m <> [] -> (forall n, capB id = Some n -> #m <= n) ->
  SysInv capA capB (mkSide c' (s_accepted me ++ [(id, m)]) (s_delivered me), peer).
Proof.
  intros [Hg1 Hg2 H1 H2 Hc1 Hc2] ([Hg' Hi] & Hw & Hp & s & q & Ho & Ho') Hm Hcap. cbn [fst snd] in *.
  unfold SDir in *. split; cbn [fst snd s_conn s_accepted s_delivered]; unfold SDir; cbn [s_conn s_accepted s_delivered]; try done.
  - rewrite Hw. specialize (Hc2 id).
    destruct (inn (s_conn peer) id) as [[r cap]|] eqn:Hin.
    + apply (Dir_accept (out (s_conn me)) _ _ _ _ _ id s q m r cap); try done. apply Hcap. by rewrite <- Hc2.
    + destruct H1 as (items & _ & _ & Hc). specialize (Hc id). unfold channel_inv in Hc. by rewrite Ho, Hin in Hc.
  - by apply (Dir_ext (out (s_conn peer)) (inn (s_conn me))).
  - intros k. by rewrite Hi.
Qed.

Lemma side_step_inv capA capB me peer o s' : SysInv capA capB (me, peer) -> op_ok capB o ->
  side_step me peer o = Some s' -> SysInv capA capB s'.
Proof.
  intros HI Hok. pose proof HI as [Hg1 Hg2 H1 H2 Hc1 Hc2]. cbn [fst snd] in *. destruct o as [id m timeout|id m|k|]; cbn [side_step].
  - destruct Hok as [Hm Hcap]. destruct (Send (s_conn me) id m timeout) as [r|] eqn:Hs; [|done]. intros [= <-].
    destruct (Send_spec _ _ _ _ _ Hg1 Hs) as [->|(c' & -> & Hacc)]; [rewrite app_nil_r; by destruct me|].
    by apply accepted_inv.
  - destruct Hok as [Hm Hcap]. intros [= <-].
    destruct (TrySend_spec (s_conn me) id m Hg1) as [->|(c' & -> & Hacc)]; [rewrite app_nil_r; by destruct me|].
    by apply accepted_inv.
  - destruct (sendRoutine_step (s_conn me) k) as [[b c']|] eqn:Hs; [|done]. intros [= <-].
    destruct (sendRoutine_step_Dir _ _ _ _ _ _ _ Hg1 Hok H1 Hs) as (_ & [Hg' Hi] & HD).
    split; cbn [fst snd s_conn]; try done.
    + by apply (Dir_ext (out (s_conn peer)) (inn (s_conn me))).
    + intros j. by rewrite Hi.
  - destruct (Z.eqb_spec #(written (s_conn peer)) 0) as [|Hne]; [done|]. rewrite zlen_0 in Hne.
    destruct (recvRoutine_step (s_conn me) (written (s_conn peer))) as [[r c']|] eqn:Hs; [|done].
    destruct (recvRoutine_step_Dir _ _ _ _ _ _ _ Hg1 H2 Hne Hs) as (Hg' & Hw & Ho & Hcap & msg & rest & -> & HD).
    cbn [mbind option_bind fst snd]. intros [= <-]. split; cbn [fst snd s_conn]; try done.
    + by destruct Hg2.
    + unfold SDir in *. cbn [s_conn s_accepted s_delivered]. rewrite Hw. by apply (Dir_ext (out (s_conn me)) (inn (s_conn peer))).
    + intros j. by rewrite Hcap.
Qed.

Lemma sys_run_inv capA capB l : forall s s', SysInv capA capB s ->
  Forall (fun o : bool * sys_op => op_ok (if o.1 then capB else capA) o.2) l ->
  sys_run s l = Some s' -> SysInv capA capB s'.
Proof.
  induction l as [|[[] o] l IH]; intros [x y] s' HI Hok; cbn [sys_run]; [by intros [= <-]|..];
    apply Forall_cons_1 in Hok as [Ho Hok]; unfold sys_step; cbn [fst snd] in *.
  - destruct (side_step x y o) as [s1|] eqn:H1; [|done]. cbn. apply IH; [|done]. by eapply side_step_inv.
  - destruct (side_step y x o) as [s1|] eqn:H1; [|done]. cbn. apply IH; [|done].
    apply SysInv_swap. eapply side_step_inv; [|done|done]. by apply (SysInv_swap _ _ (x, y)).
Qed.

(** ** Fresh connections *)
Lemma index_channels_spec l : forall i m id j, NoDup (ch_id <$> l) ->
  index_channels i l m !! id = Some j <->
  (exists k, j = (i + k)%nat /\ (ch_id <$> (l !! k)) = Some id) \/ ((id ∉ (ch_id <$> l)) /\ m !! id = Some j).
Proof.
  induction l as [|ch l IH]; intros i m id j Hnd; cbn [index_channels].
  - split; [intros Hm; right; split; [apply not_elem_of_nil|done]|]. by intros [(k & _ & Hk)|[_ ?]].
  - rewrite fmap_cons in *. apply list.NoDup_cons in Hnd as [Hni Hnd]. rewrite IH by done. split.
    + intros [(k & -> & Hk)|[Hn Hm]].
      * left. exists (S k). split; [lia|done].
      * destruct (decide (ch_id ch = id)) as [E|E].
        -- left. exists 0%nat. rewrite E, lookup_insert_eq in Hm. injection Hm as <-. split; [lia|]. cbn. by rewrite E.
        -- rewrite lookup_insert_ne in Hm by done. right. split; [|done]. rewrite elem_of_cons. by intros [?|?].
    + intros [([|k] & -> & Hk)|[Hn Hm]].
      * cbn in Hk. injection Hk as <-. right. split; [done|]. rewrite lookup_insert_eq. f_equal. lia.
      * left. exists k. split; [lia|done].
      * rewrite elem_of_cons in Hn. right. split; [tauto|]. rewrite lookup_insert_ne; [done|]. intros E. apply Hn. by left.
Qed.

Lemma new_channels_spec descs : forall l, new_channels descs = Some l ->
  ch_id <$> l = ID <$> descs /\ Forall (fun ch => sending ch = [] /\ sendQueue ch = [] /\ recving ch = []) l.
Proof.
  induction descs as [|d descs IH]; intros l; cbn [new_channels]; [by intros [= <-]|].
  unfold newChannel. case_on; [done|]. case_on; [done|]. cbn [mbind option_bind].
  destruct (new_channels descs) as [l'|]; [|done]. cbn. intros [= <-].
  destruct (IH l' eq_refl) as [E Hf]. cbn. rewrite E. by split; [|constructor].
Qed.

Definition fresh_conn (descs : list ChannelDescriptor) (c : MConnection) : Prop :=
  good c /\ written c = [] /\
  forall id, (exists cap, out c id = Some ([], []) /\ inn c id = Some ([], cap) /\ id ∈ ID <$> descs) \/
             (out c id = None /\ inn c id = None /\ id ∉ ID <$> descs).

Lemma NewMConnection_fresh descs c : NewMConnection descs = Some c ->
  NoDup (ID <$> descs) -> Forall byte_ok (ID <$> descs) -> fresh_conn descs c.
Proof.
  unfold NewMConnection. destruct (new_channels descs) as [l|] eqn:Hl; [|done]. cbn. intros [= <-] Hnd Hb.
  destruct (new_channels_spec _ _ Hl) as [Hids Hf]. rewrite <- Hids in *.
  set (c := mkConn _ _ _ _ _ _ _ _).
  assert (wf_idx c) as Hw.
  { intros id i. cbn. rewrite index_channels_spec by done. split; [|intros Hi; left; by exists i].
    intros [(k & -> & ?)|[_ ?]]; [done|]. by rewrite lookup_empty in *. }
  split; [by split|]. split; [done|]. intros id. unfold out, inn.
  rewrite <- Hids. destruct (chan c id) as [ch|] eqn:Hch.
  - left. apply chan_Some in Hch as (i & Hi & <-); [|done]. cbn in Hi.
    rewrite List.Forall_forall in Hf. destruct (Hf ch) as (E1 & E2 & E3).
    { apply list_elem_of_In. by eapply list_elem_of_lookup_2. }
    cbn. rewrite E1, E2, E3. eexists. split; [done|]. split; [done|]. apply list_elem_of_fmap. exists ch.
    split; [done|]. by eapply list_elem_of_lookup_2.
  - right. split; [done|]. split; [done|]. intros (ch & -> & Hin)%list_elem_of_fmap.
    apply list_elem_of_lookup in Hin as [i Hi]. enough (chan c (ch_id ch) = Some ch) by congruence.
    apply chan_Some; [done|]. by exists i.
Qed.

Lemma fresh_Dir descsA descsB a b : fresh_conn descsA a -> fresh_conn descsB b ->
  (ID <$> descsA) ≡ₚ (ID <$> descsB) -> Dir (out a) (inn b) (written a) [] [].
Proof.
  intros (_ & Hw & Ha) (_ & _ & Hb) Hp. exists []. split; [done|]. split; [constructor|]. intros id.
  destruct (Ha id) as [(cap & E1 & E2 & E3)|(E1 & E2 & E3)], (Hb id) as [(cap' & F1 & F2 & F3)|(F1 & F2 & F3)];
    rewrite Hp in E3; try done; rewrite E1, F2; [|done]. by split.
Qed.

(** What the invariant says of the messages of one channel. *)
Lemma SDir_messages me peer id : SDir me peer ->
  msgs id (s_delivered peer) `prefix_of` msgs id (s_accepted me) /\
  (written (s_conn me) = [] -> out (s_conn me) id = Some ([], []) ->
   msgs id (s_delivered peer) = msgs id (s_accepted me)).
Proof.
  intros (items & Hw & _ & Hc). specialize (Hc id). unfold channel_inv in Hc.
  destruct (out (s_conn me) id) as [sq|].
  - destruct (inn (s_conn peer) id) as [[r cap]|]; [|done].
    destruct (assemble id r items) as [ms partial] eqn:E. destruct Hc as (-> & Hp & _). split; [by eexists|].
    intros Hnil [= ->]. rewrite Hnil in Hw.
    assert (items = []) as -> by (by destruct items as [|[] ?]). cbn in E. injection E as <- <-.
    unfold backlog. cbn. by rewrite app_nil_r.
  - destruct (inn (s_conn peer) id); [done|]. destruct Hc as [-> ->]. by split; [exists []|].
Qed.

Definition capacity (c : MConnection) (id : Z) : option Z := snd <$> inn c id.

Lemma SysInv_fresh descsA descsB a b : NewMConnection descsA = Some a -> NewMConnection descsB = Some b ->
  NoDup (ID <$> descsA) -> Forall byte_ok (ID <$> descsA) -> (ID <$> descsA) ≡ₚ (ID <$> descsB) ->
  SysInv (capacity a) (capacity b) (mkSide a [] [], mkSide b [] []).
Proof.
  intros Ha Hb Hnd Hbyte Hp. pose proof (NewMConnection_fresh _ _ Ha Hnd Hbyte) as Fa.
  assert (fresh_conn descsB b) as Fb by (apply NewMConnection_fresh; [done|by rewrite <- Hp|by rewrite <- Hp]).
  pose proof Fa as [? _]. pose proof Fb as [? _]. split; try done.
  - by apply (fresh_Dir descsA descsB).
  - by apply (fresh_Dir descsB descsA).
Qed.

(** C2: Two fresh connections with the same channels, any interleaving of calls, sends,
    pings, pongs and receipts, messages nonempty and within the receiver's capacity, writes that
    succeed: on each channel and in each direction the messages delivered are the
    first of those accepted, in order, unchanged and once each; they are all of them when nothing is
    left to send or to receive; and neither connection stops. *)
Theorem connection_delivery (descsA descsB : list ChannelDescriptor) (a b : MConnection)
    (ops : list (bool * sys_op)) (s : side * side) :
  NewMConnection descsA = Some a -> NewMConnection descsB = Some b ->
  NoDup (ID <$> descsA) -> Forall byte_ok (ID <$> descsA) -> (ID <$> descsA) ≡ₚ (ID <$> descsB) ->
  Forall (fun o : bool * sys_op => op_ok (capacity (if o.1 then b else a)) o.2) ops ->
  sys_run (mkSide a [] [], mkSide b [] []) ops = Some s ->
  (forall id, msgs id (s_delivered s.2) `prefix_of` msgs id (s_accepted s.1) /\
              msgs id (s_delivered s.1) `prefix_of` msgs id (s_accepted s.2)) /\
  (forall id, written (s_conn s.1) = [] -> out (s_conn s.1) id = Some ([], []) ->
              msgs id (s_delivered s.2) = msgs id (s_accepted s.1)) /\
  running (s_conn s.1) = true /\ running (s_conn s.2) = true.
Proof.
  intros Ha Hb Hnd Hbyte Hp Hops Hrun. pose proof (SysInv_fresh _ _ _ _ Ha Hb Hnd Hbyte Hp) as HI.
  assert (SysInv (capacity a) (capacity b) s) as HI'.
  { eapply sys_run_inv; [done| |done]. refine (List.Forall_impl _ _ Hops). by intros [[] o]. }
  destruct HI' as [G1 G2 D1 D2 _ _]. split; [|split; [|by split; apply good_running]].
  - intros id. by split; apply SDir_messages.
  - intros id. by apply SDir_messages.
Qed.
End delivery.

(** ** The choice of a channel *)
Definition pending (ch : Channel) : Prop := sending ch <> [] \/ sendQueue ch <> [].

Definition int64_stats (ch : Channel) : Prop :=
  - 2 ^ 63 <= recentlySent ch < 2 ^ 63 /\ 0 < priority ch < 2 ^ 63.

Lemma pulled_pending a b : pulled a b -> Forall (fun m : bytes => m <> []) (sendQueue a) ->
  pending b -> pending a.
Proof.
  intros (_ & _ & _ & [E|[E1 E2]] & _) Hf; cbn in *; unfold pending; [by injection E as -> ->|]. rewrite E2. by right.
Qed.

(** The loop's outcome: the ratio [xf] of the channel found (or the initial bound) is least. *)
Lemma least_channel_min l : forall i x o l' least, least_channel i l x o = (l', least) ->
  exists xf,
    ((xf = x /\ least = o) \/
     (SFltb xf x = true /\ exists k a b, least = Some (i + k)%nat /\ l !! k = Some a /\ l' !! k = Some b /\
        isSendPending a = (true, b) /\ ratio b = xf)) /\
    forall k a b, l !! k = Some a -> isSendPending a = (true, b) -> SFltb (ratio b) xf = false.
Proof.
  induction l as [|ch l IH]; intros i x o l' least; cbn [least_channel].
  { intros [= <- <-]. exists x. split; [by left|]. by intros []. }
  destruct (isSendPending ch) as [p ch'] eqn:Hp.
  assert (forall x1 o1 l1, least_channel (S i) l x1 o1 = (l1, least) -> l' = ch' :: l1 ->
    (x1 = x /\ o1 = o /\ (p = true -> SFltb (ratio ch') x = false)) \/
    (x1 = ratio ch' /\ o1 = Some i /\ p = true /\ SFltb (ratio ch') x = true) ->
    exists xf,
      ((xf = x /\ least = o) \/
       (SFltb xf x = true /\ exists k a b, least = Some (i + k)%nat /\ (ch :: l) !! k = Some a /\ l' !! k = Some b /\
          isSendPending a = (true, b) /\ ratio b = xf)) /\
      forall k a b, (ch :: l) !! k = Some a -> isSendPending a = (true, b) -> SFltb (ratio b) xf = false) as Hgo.
  { intros x1 o1 l1 H1 -> Hx. destruct (IH _ _ _ _ _ H1) as (xf & Hxf & Hmin). exists xf. split.
    - destruct Hxf as [[-> ->]|(Hlt & k & a & b & -> & Ha & Hb & Hab & Hr)].
      + destruct Hx as [(-> & -> & _)|(-> & -> & -> & Hlt)]; [by left|]. right. split; [done|].
        exists 0%nat, ch, ch'. split_and!; try done. f_equal. lia.
      + right. split; [destruct Hx as [(-> & _)|(-> & _ & _ & Hlt')]; [done|by eapply SFltb_trans]|].
        exists (S k), a, b. split_and!; try done. f_equal. lia.
    - intros [|k] a b Ha Hab; [|by eapply Hmin]. cbn in Ha. injection Ha as ->. rewrite Hp in Hab.
      injection Hab as -> ->. destruct (SFltb (ratio b) xf) eqn:E; [|done].
      destruct Hx as [(-> & _ & Hge)|(-> & _ & _ & _)]; destruct Hxf as [[-> _]|(Hlt & _)].
      + rewrite (Hge eq_refl) in E. done.
      + by rewrite (SFltb_trans _ _ _ E Hlt) in Hge; specialize (Hge eq_refl).
      + by rewrite SFltb_irrefl in E.
      + pose proof (SFltb_trans _ _ _ E Hlt) as E'. by rewrite SFltb_irrefl in E'. }
  destruct p; cbn [negb]; [destruct (SFltb (ratio ch') x) eqn:Hlt|];
    (destruct (least_channel (S i) l _ _) as [l1 o1] eqn:H1); intros [= <- <-]; apply (Hgo _ _ _ H1 eq_refl); [by right|by left|by left].
Qed.

Lemma isSendPending_pending ch : (isSendPending ch).1 = true <-> pending ch.
Proof.
  unfold isSendPending, pending. destruct (Z.eqb_spec #(sending ch) 0) as [E|E].
  - apply zlen_0 in E. rewrite E. destruct (sendQueue ch); cbn; split; try done; [by intros [?|?]|by right].
  - rewrite zlen_0 in E. split; [by left|done].
Qed.

Lemma isSendPending_ratio ch b ch' : isSendPending ch = (b, ch') -> ratio ch' = ratio ch /\ ch_id ch' = ch_id ch.
Proof.
  intros Hp. destruct (isSendPending_spec _ _ _ Hp) as [(E & _ & _ & _ & E1 & E2) _]. unfold ratio. by rewrite E, E1, E2.
Qed.

(** The send routine is idle only when no channel has anything to send: [sendMsgPacket]
    answers that the messages are exhausted exactly when no channel is pending, and otherwise
    writes one packet of a pending channel whose ratio no pending channel's is below.  The
    initial [math.MaxFloat32] never hides a channel. *)
Theorem sendMsgPacket_least `{Wire} (c c' : MConnection) (b : bool) :
  Forall int64_stats (channels c) ->
  sendMsgPacket c None = (b, c') ->
  if b then Forall (fun ch => ~ pending ch) (channels c) /\ written c' = written c
  else exists i ch pkt, channels c !! i = Some ch /\ pending ch /\
    Forall (fun ch' => pending ch' -> SFltb (ratio ch') (ratio ch) = false) (channels c) /\
    ChannelID pkt = ch_id ch /\ written c' = written c ++ packetTypeMsg :: write_packet pkt.
Proof.
  intros Hst. unfold sendMsgPacket.
  destruct (least_channel 0 (channels c) MaxFloat32 None) as [l least] eqn:Hl.
  destruct (least_channel_min _ _ _ _ _ _ Hl) as (xf & Hxf & Hmin).
  destruct Hxf as [[-> ->]|(_ & k & a & d & -> & Ha & Hd & Had & Hr)].
  - intros [= <- <-]. split; [|done]. apply List.Forall_forall. intros ch Hin Hp.
    apply isSendPending_pending in Hp. destruct (isSendPending ch) as [p ch'] eqn:E. cbn in Hp. subst p.
    pose proof Hin as Hin'. apply list_elem_of_In, list_elem_of_lookup in Hin' as [i Hi].
    pose proof (Hmin _ _ _ Hi E) as Hm. rewrite List.Forall_forall in Hst. destruct (Hst ch Hin) as [H1 H2].
    destruct (isSendPending_ratio _ _ _ E) as [Er _]. rewrite Er, ratio_small in Hm; done.
  - cbn [Nat.add]. rewrite Hd. unfold writeMsgPacketTo.
    destruct (nextMsgPacket d) as [pkt ch'] eqn:Hn. intros [= <- <-].
    destruct (isSendPending_ratio _ _ _ Had) as [Er Ei]. exists k, a, pkt. split; [done|].
    split; [apply isSendPending_pending; by rewrite Had|]. split; [|split; [|done]].
    + apply List.Forall_forall. intros ch Hin Hp. apply list_elem_of_In, list_elem_of_lookup in Hin as [i Hi].
      apply isSendPending_pending in Hp. destruct (isSendPending ch) as [p ch2] eqn:E. cbn in Hp. subst p.
      destruct (isSendPending_ratio _ _ _ E) as [E1 _]. rewrite <- E1, <- Er, Hr. by eapply Hmin.
    + unfold nextMsgPacket in Hn. case_in Hn; injection Hn as <- <-; by rewrite <- Ei.
Qed.

(** A concrete packet format for the witnesses: id, flag, two bytes of length, the bytes. *)
Definition plain_wire : Wire := {|
  write_packet p := ChannelID p :: EOFlag p :: be_put 2 #(Bytes p) ++ Bytes p;
  read_packet b :=
    match b with
    | id :: eof :: b =>
        let n := Z.to_nat (be_get (take 2 b)) in
        if #b <? 2 + Z.of_nat n then Err ErrUnexpectedEOF
        else Ok (mkPacket id eof (take n (drop 2 b)), drop n (drop 2 b))
    | _ => Err ErrUnexpectedEOF
    end |}.

Lemma plain_wire_laws : @WireLaws plain_wire.
Proof.
  intros [id eof b] r (_ & _ & Hb). unfold maxMsgPacketPayloadSize in Hb. cbn in Hb.
  cbn [write_packet read_packet plain_wire ChannelID EOFlag Bytes app].
  rewrite <- !app_assoc, take_app_length' by (by rewrite length_be_put). rewrite drop_app_length' by (by rewrite length_be_put).
  rewrite be_get_put, Z.mod_small by (change (256 ^ Z.of_nat 2) with 65536; pose proof (zlen_nonneg b); lia).
  rewrite take_zlen_app, drop_zlen_app, Z2Nat.id by apply zlen_nonneg.
  rewrite (proj2 (Z.ltb_ge _ _)); [done|]. autorewrite with zlen. unfold zlen at 2. rewrite length_be_put.
  pose proof (zlen_nonneg r). lia.
Qed.

Definition sample_descs : list ChannelDescriptor := [mkDesc 32 5 10 0 0; mkDesc 64 1 10 0 4000].
Definition sample_msg (n : nat) (x : Z) : bytes := replicate n x.

(** Both channels at once, a message of three packets among them. *)
Definition sample_traffic : list (bool * sys_op) :=
  [(true, op_TrySend 64 (sample_msg 2500 7)); (true, op_TrySend 32 (sample_msg 3 1));
   (true, op_Send 32 (sample_msg 4 2) false); (true, op_sender (case_ping None));
   (true, op_sender (case_send (fun _ => None)));
   (false, op_receive); (false, op_sender (case_pong None)); (true, op_receive);
   (false, op_receive); (false, op_receive); (false, op_receive); (false, op_receive); (false, op_receive)].

Lemma connection_delivery_witness : exists a s, NewMConnection sample_descs = Some a /\
  @sys_run plain_wire (mkSide a [] [], mkSide a [] []) sample_traffic = Some s /\
  msgs 64 (s_delivered s.2) = [sample_msg 2500 7] /\ msgs 32 (s_delivered s.2) = [sample_msg 3 1; sample_msg 4 2].
Proof.
  destruct (NewMConnection sample_descs) as [a|] eqn:Ha; [|vm_compute in Ha; discriminate].
  destruct (@sys_run plain_wire (mkSide a [] [], mkSide a [] []) sample_traffic) as [s|] eqn:Hs.
  2: { vm_compute in Ha. injection Ha as <-. vm_compute in Hs. discriminate. }
  exists a, s. split; [reflexivity|]. split; [exact Hs|].
  destruct (@connection_delivery plain_wire plain_wire_laws sample_descs sample_descs a a sample_traffic s Ha Ha)
    as (_ & Hall & _); [exact (bool_decide_unpack (NoDup (ID <$> sample_descs)) I)|apply bytes_okb_ok; reflexivity|reflexivity| |exact Hs|].
  { vm_compute in Ha. injection Ha as <-.
    repeat (apply Forall_cons_2; [cbn [op_ok fst snd]; first [exact I | reflexivity |
      split; [discriminate|intros n Hn; vm_compute in Hn; injection Hn as <-; vm_compute; discriminate]]|]).
    apply Forall_nil_2. }
  vm_compute in Ha. injection Ha as <-.
  split; (etrans; [apply Hall|]); vm_compute in Hs; injection Hs as <-; vm_compute; reflexivity.
Defined.

Lemma sendMsgPacket_least_witness : exists c pkt,
  @sendMsgPacket plain_wire (mkConn [mkChannel (mkDesc 1 1 1 0 0) 1 [] 1 [] [9] 1 500;
                                          mkChannel (mkDesc 2 5 1 0 0) 2 [[8]] 1 [] [] 5 600] ∅ true 0 [] false false []) None
    = (false, c) /\
  ChannelID pkt = 2 /\ written c = packetTypeMsg :: @write_packet plain_wire pkt.
Proof.
  set (c0 := mkConn _ _ _ _ _ _ _ _).
  destruct (@sendMsgPacket plain_wire c0 None) as [b c] eqn:Hs.
  assert (b = false) as -> by (vm_compute in Hs; congruence).
  destruct (@sendMsgPacket_least plain_wire c0 c false) as (i & ch & pkt & Hi & Hp & Hmin & Hid & Hw); [|exact Hs|].
  { repeat constructor; vm_compute; congruence. }
  exists c, pkt. split; [reflexivity|]. split; [|exact Hw]. rewrite Hid.
  destruct i as [|[|i]]; [|injection Hi as <-; reflexivity|discriminate Hi].
  injection Hi as <-. apply Forall_cons_1 in Hmin as [_ Hmin]. apply Forall_cons_1 in Hmin as [Hmin _].
  assert (SFltb (ratio (mkChannel (mkDesc 2 5 1 0 0) 2 [[8]] 1 [] [] 5 600))
    (ratio (mkChannel (mkDesc 1 1 1 0 0) 1 [] 1 [] [9] 1 500)) = false) as Hf by (apply Hmin; right; discriminate).
  vm_compute in Hf. discriminate Hf.
Defined.
