(* ===== verification/SecretConn.v ===== *)
(** * The encrypted connection

    Models [p2p/connection/secret_connection.go].  NaCl's box and secretbox, ed25519, the hash
    functions and go-wire's encoding of the authentication message are parameters.  The
    network connection is the bytes it still delivers; what a write to it answers is an
    argument.  A [None] is a run-time panic.  The keys and signatures of an authentication message are
    bytes: the panics of [MakeSecretConnection] on a nil key or one of another kind, which
    go-wire can decode, are not represented. *)
From S2P Require Import Prelude Errors GoLib.

Definition dataLenSize : Z := 2.
Definition dataMaxSize : Z := 1024.
Definition totalFrameSize : Z := dataMaxSize + dataLenSize.
Definition secretbox_Overhead : Z := 16.
Definition sealedFrameSize : Z := totalFrameSize + secretbox_Overhead.
Definition authSigMsgSize : Z := (32 + 1) + (64 + 1).

(** ** Parameters *)
Class Crypto := {
  Seal : bytes -> bytes -> bytes -> bytes;
  Open : bytes -> bytes -> bytes -> option bytes;
  Precompute : bytes -> bytes -> bytes;
  ripemd160 : bytes -> bytes;
  sha256 : bytes -> bytes;
  PubKey : bytes -> bytes;
  Sign : bytes -> bytes -> bytes;
  VerifyBytes : bytes -> bytes -> bytes -> bool;
  enc_auth : bytes -> bytes -> bytes;
  dec_auth : bytes -> res error (bytes * bytes);
}.

(** ** Nonces *)

(** The loop of [incrNonce] at index [i], counted down. *)
Fixpoint incr_from (i : nat) (nonce : bytes) : bytes :=
  let b := u8 (default 0 (nonce !! i) + 1) in
  let nonce := <[i := b]> nonce in
  if negb (b =? 0) then nonce
  else match i with
  | O => nonce
  | S i => incr_from i nonce
  end.

Definition incrNonce (nonce : bytes) : bytes := incr_from 23 nonce.
Definition incr2Nonce (nonce : bytes) : bytes := incrNonce (incrNonce nonce).

(** [bytes.Compare(foo, bar) < 0] *)
Fixpoint bytes_lt (foo bar : bytes) : bool :=
  match foo, bar with
  | _, [] => false
  | [], _ :: _ => true
  | a :: foo, b :: bar => (a <? b) || ((a =? b) && bytes_lt foo bar)
  end.

(** The pair and whether [lo] is the pointer [foo]. *)
Definition sort32 (foo bar : bytes) : bytes * bytes * bool :=
  if bytes_lt foo bar then (foo, bar, true) else (bar, foo, false).

(** ** Connections *)
Record SecretConnection := mkSC {
  recvBuffer : bytes;
  recvNonce : bytes;
  sendNonce : bytes;
  remPubKey : bytes;
  shrSecret : bytes;
}.

Definition set_recv (buf nonce : bytes) (sc : SecretConnection) : SecretConnection :=
  mkSC buf nonce (sendNonce sc) (remPubKey sc) (shrSecret sc).
Definition set_sendNonce (nonce : bytes) (sc : SecretConnection) : SecretConnection :=
  mkSC (recvBuffer sc) (recvNonce sc) nonce (remPubKey sc) (shrSecret sc).
Definition set_remPubKey (k : bytes) (sc : SecretConnection) : SecretConnection :=
  mkSC (recvBuffer sc) (recvNonce sc) (sendNonce sc) k (shrSecret sc).

(** The rest of [io.ReadFull] on what the network still delivers: the bytes read, the error
    and what is left. *)
Definition net_ReadFull (n : Z) (input : bytes) : bytes * option error * bytes :=
  if n <=? #input then (take (Z.to_nat n) input, None, drop (Z.to_nat n) input)
  else (input, Some (if #input =? 0 then EOF else ErrUnexpectedEOF), []).

Section secret.
Context `{Crypto}.

Definition hash32 (input : bytes) : bytes := go_copy (replicate 32 0) (sha256 input).
Definition hash24 (input : bytes) : bytes := go_copy (replicate 24 0) (ripemd160 input).
Definition hash20 (input : bytes) : bytes := go_copy (replicate 20 0) (ripemd160 input).

Definition genNonces (loPubKey hiPubKey : bytes) (locIsLo : bool) : bytes * bytes :=
  let nonce1 := hash24 (loPubKey ++ hiPubKey) in
  let nonce2 := go_copy (replicate 24 0) nonce1 in
  let nonce2 := <[23%nat := Z.lxor (default 0 (nonce2 !! 23%nat)) 1]> nonce2 in
  if locIsLo then (nonce1, nonce2) else (nonce2, nonce1).

Definition genChallenge (loPubKey hiPubKey : bytes) : bytes := hash32 (loPubKey ++ hiPubKey).

(** One frame of [Write]: what goes to the network. *)
Definition make_frame (chunk : bytes) : bytes :=
  let frame := replicate (Z.to_nat totalFrameSize) 0 in
  let frame := go_copy frame (be_put 2 (u16 #chunk)) in
  take 2 frame ++ go_copy (drop 2 frame) chunk.

Definition seal_frame (sc : SecretConnection) (chunk : bytes) : bytes :=
  Seal (make_frame chunk) (sendNonce sc) (shrSecret sc).

(** The loop of [Write]: the count, the error, the bytes the network took, the connection.
    Each round consumes data, so that [length data] rounds are enough. *)
Fixpoint write_loop (fuel : nat) (sc : SecretConnection) (data : bytes) (n : Z) (werr : nat -> option error)
    : Z * option error * bytes * SecretConnection :=
  match fuel with
  | O => (n, None, [], sc)
  | S fuel =>
      if #data <=? 0 then (n, None, [], sc)
      else
        let '(chunk, data) :=
          if dataMaxSize <? #data
          then (take (Z.to_nat dataMaxSize) data, drop (Z.to_nat dataMaxSize) data)
          else (data, []) in
        let sealedFrame := seal_frame sc chunk in
        let sc := set_sendNonce (incr2Nonce (sendNonce sc)) sc in
        match werr fuel with
        | Some e => (n, Some e, [], sc)
        | None =>
            let '(n, err, out, sc) := write_loop fuel sc data (n + #chunk) werr in
            (n, err, sealedFrame ++ out, sc)
        end
  end.

Definition Write (sc : SecretConnection) (data : bytes) (werr : nat -> option error)
    : Z * option error * bytes * SecretConnection :=
  write_loop (length data) sc data 0 werr.

(** [Read] into [data]: the count, the error, [data] afterwards, the connection and what the
    network still delivers. *)
Definition Read (sc : SecretConnection) (data input : bytes)
    : Z * option error * bytes * SecretConnection * bytes :=
  if 0 <? #(recvBuffer sc) then
    let n_ := copy_n data (recvBuffer sc) in
    (0, None, go_copy data (recvBuffer sc), set_recv (drop n_ (recvBuffer sc)) (recvNonce sc) sc, input)
  else
    let '(sealedFrame, err, input) := net_ReadFull sealedFrameSize input in
    match err with
    | Some e => (0, Some e, data, sc, input)
    | None =>
        match Open sealedFrame (recvNonce sc) (shrSecret sc) with
        | None => (0, New (str "Failed to decrypt SecretConnection"), data, sc, input)
        | Some frame =>
            let sc := set_recv (recvBuffer sc) (incr2Nonce (recvNonce sc)) sc in
            let chunkLength := be_get (take 2 frame) in
            if dataMaxSize <? chunkLength
            then (0, New (str "chunkLength is greater than dataMaxSize"), data, sc, input)
            else
              let chunk := take (Z.to_nat chunkLength) (drop (Z.to_nat dataLenSize) frame) in
              let n := copy_n data chunk in
              (Z.of_nat n, None, go_copy data chunk, set_recv (drop n chunk) (recvNonce sc) sc, input)
        end
    end.

(** [io.ReadFull(sc, buf)], with [want] bytes missing: it adds up the counts [Read] returns.
    [None] when the fuel is used up by reads that return nothing. *)
Fixpoint sc_ReadFull (fuel : nat) (sc : SecretConnection) (got : bytes) (want : Z) (input : bytes)
    : option (bytes * option error * SecretConnection * bytes) :=
  if want <=? 0 then Some (got, None, sc, input)
  else match fuel with
  | O => None
  | S fuel =>
      let '(n, err, data, sc, input) := Read sc (replicate (Z.to_nat want) 0) input in
      match err with
      | Some e =>
          if bool_decide (e = EOF) && (0 <? #got) then Some (got, Some ErrUnexpectedEOF, sc, input)
          else Some (got, Some e, sc, input)
      | None => sc_ReadFull fuel sc (got ++ take (Z.to_nat n) data) (want - n) input
      end
  end.

(** The key that the other side has proved to hold. *)
Definition RemotePubKey (sc : SecretConnection) : bytes := remPubKey sc.
Definition verifyChallengeSignature (challenge remPubKey remSignature : bytes) : bool :=
  VerifyBytes remPubKey challenge remSignature.

(** ** The handshake *)

(** Writes the ephemeral key and reads the other side's; [werr] is what the write answers. *)
Definition shareEphPubKey (locEphPub input : bytes) (werr : option error)
    : res error bytes * bytes * bytes :=
  let out := match werr with None => locEphPub | Some _ => [] end in
  let '(remEphPub, err2, input) := net_ReadFull 32 input in
  match werr, err2 with
  | Some e, _ => (Err e, out, input)
  | None, Some e => (Err e, out, input)
  | None, None => (Ok remEphPub, out, input)
  end.

Definition computeSharedSecret (remPubKey locPrivKey : bytes) : bytes := Precompute remPubKey locPrivKey.
Definition signChallenge (challenge locPrivKey : bytes) : bytes := Sign locPrivKey challenge.

(** The write and the read use different halves of the connection, so that it does not matter
    in which order their parts run.  [None]: the read waits forever. *)
Definition shareAuthSignature (sc : SecretConnection) (pubKey signature input : bytes)
    (werr : nat -> option error) (fuel : nat)
    : option (res error (bytes * bytes) * SecretConnection * bytes * bytes) :=
  let msgBytes := enc_auth pubKey signature in
  let '(_, err1, out, sc) := Write sc msgBytes werr in
  r ← sc_ReadFull fuel sc [] authSigMsgSize input;
  let '(readBuffer, err2, sc, input) := r in
  let recvMsg := match err2 with Some e => Err e | None => dec_auth readBuffer end in
  Some (match err1 with Some e => Err e | None => recvMsg end, sc, out, input).

(** The ephemeral key pair drawn is an argument.  The result, what was written and what the
    network still delivers. *)
Definition MakeSecretConnection (locPrivKey locEphPub locEphPriv input : bytes)
    (werr1 : option error) (werr2 : nat -> option error) (fuel : nat)
    : option (res error SecretConnection * bytes * bytes) :=
  let locPubKey := PubKey locPrivKey in
  let '(r, out1, input) := shareEphPubKey locEphPub input werr1 in
  match r with
  | Err e => Some (Err e, out1, input)
  | Ok remEphPub =>
      let shrSecret := computeSharedSecret remEphPub locEphPriv in
      let '(loEphPub, hiEphPub, locIsLo) := sort32 locEphPub remEphPub in
      let '(recvNonce, sendNonce) := genNonces loEphPub hiEphPub locIsLo in
      let challenge := genChallenge loEphPub hiEphPub in
      let sc := mkSC [] recvNonce sendNonce [] shrSecret in
      let locSignature := signChallenge challenge locPrivKey in
      r ← shareAuthSignature sc locPubKey locSignature input werr2 fuel;
      let '(authSigMsg, sc, out2, input) := r in
      match authSigMsg with
      | Err e => Some (Err e, out1 ++ out2, input)
      | Ok (remPubKey, remSignature) =>
          if negb (VerifyBytes remPubKey challenge remSignature)
          then Some (Err (EMsg (str "Challenge verification failed")), out1 ++ out2, input)
          else Some (Ok (set_remPubKey remPubKey sc), out1 ++ out2, input)
      end
  end.
End secret.

(** What the parameters are relied on for. *)
Class CryptoLaws `{Crypto} := {
  open_seal f n k : Open (Seal f n k) n k = Some f;
  seal_length f n k : #(Seal f n k) = #f + secretbox_Overhead;
  ripemd160_length b : length (ripemd160 b) = 20%nat;
  ripemd160_ok b : bytes_ok (ripemd160 b);
  enc_auth_length p m : #(enc_auth (PubKey p) (Sign p m)) = authSigMsgSize;
  dec_enc_auth p m : dec_auth (enc_auth (PubKey p) (Sign p m)) = Ok (PubKey p, Sign p m);
  verify_sign p m : VerifyBytes (PubKey p) m (Sign p m) = true;
}.

(** ** Nonces count in big-endian *)
Lemma be_get_insert l i b : (i < length l)%nat ->
  be_get (<[i := b]> l) = be_get l + (b - default 0 (l !! i)) * 256 ^ Z.of_nat (length l - 1 - i).
Proof.
  unfold be_get. revert i. induction l as [|x l IH] using rev_ind; intros i Hi; [cbn in Hi; lia|].
  rewrite length_app in *. cbn in Hi. rewrite reverse_snoc. cbn [le_get].
  destruct (decide (i = length l)) as [->|Hne].
  - rewrite insert_app_r_alt, lookup_app_r, Nat.sub_diag by lia. cbn [insert list_insert lookup list_lookup default id].
    rewrite reverse_snoc. cbn [le_get]. replace (length l + length [x] - 1 - length l)%nat with 0%nat by (cbn; lia).
    cbn. lia.
  - rewrite insert_app_l, lookup_app_l by lia. rewrite reverse_snoc. cbn [le_get]. rewrite IH by lia.
    replace (length l + length [x] - 1 - i)%nat with (S (length l - 1 - i)) by (cbn; lia).
    rewrite pow256_S. lia.
Qed.

Lemma length_incr_from i : forall n, length (incr_from i n) = length n.
Proof.
  induction i as [|i IH]; intros n; cbn [incr_from]; case_on; rewrite ?IH; by rewrite length_insert.
Qed.

Lemma incr_from_ok i : forall n, bytes_ok n -> bytes_ok (incr_from i n).
Proof.
  induction i as [|i IH]; intros n Hn; cbn [incr_from].
  - assert (bytes_ok (<[0%nat := u8 (default 0 (n !! 0%nat) + 1)]> n)) by (apply Forall_insert; [done|by apply (wrap_range 8)]).
    by case_on.
  - assert (bytes_ok (<[S i := u8 (default 0 (n !! S i) + 1)]> n)) by (apply Forall_insert; [done|by apply (wrap_range 8)]).
    case_on; [done|by apply IH].
Qed.

Lemma byte_at (l : bytes) i b : bytes_ok l -> l !! i = Some b -> 0 <= b < 256.
Proof. intros Hl Hi. by eapply (Forall_lookup_1 byte_ok). Qed.

Lemma be_get_range_24 l : bytes_ok l -> length l = 24%nat -> 0 <= be_get l < 2 ^ 192.
Proof.
  intros Hl H24. pose proof (be_get_range l Hl) as Hr. unfold zlen in Hr. rewrite H24 in Hr.
  replace (256 ^ Z.of_nat 24) with (2 ^ 192) in Hr by (vm_compute; reflexivity). exact Hr.
Qed.

(** Adding one at byte [i], the bytes after it unchanged. *)
Lemma incr_from_spec i : forall n, bytes_ok n -> (i < length n)%nat ->
  let w := 256 ^ Z.of_nat (length n - 1 - i) in
  let top := 256 ^ Z.of_nat (S i) in
  be_get (incr_from i n) = be_get n + w \/
  (be_get (incr_from i n) = be_get n + w - w * top).
Proof.
  induction i as [|i IH]; intros n Hn Hi w top; cbn [incr_from].
  - destruct (lookup_lt_is_Some_2 n 0 Hi) as [b Hb]. rewrite Hb. cbn [default id].
    pose proof (byte_at _ _ _ Hn Hb) as Hbok.
    pose proof (be_get_insert n 0 (u8 (b + 1)) Hi) as E. rewrite Hb in E. cbn [default id] in E. fold w in E.
    unfold top. change (256 ^ Z.of_nat 1) with 256.
    destruct (decide (b = 255)) as [->|].
    + change (u8 (255 + 1)) with 0 in *. cbn [Z.eqb negb]. right. lia.
    + rewrite wrap_small in * by lia. left. case_on; lia.
  - destruct (lookup_lt_is_Some_2 n (S i) Hi) as [b Hb]. rewrite Hb. cbn [default id].
    pose proof (byte_at _ _ _ Hn Hb) as Hbok.
    pose proof (be_get_insert n (S i) (u8 (b + 1)) Hi) as E. rewrite Hb in E. cbn [default id] in E. fold w in E.
    destruct (decide (b = 255)) as [->|].
    + change (u8 (255 + 1)) with 0 in *. cbn [Z.eqb negb].
      assert (bytes_ok (<[S i := 0]> n)) as Hok by (apply Forall_insert; [done|unfold byte_ok; lia]).
      specialize (IH (<[S i := 0]> n) Hok). rewrite length_insert in IH. specialize (IH ltac:(lia)). cbv zeta in IH.
      replace (length n - 1 - i)%nat with (S (length n - 1 - S i)) in IH by lia. rewrite pow256_S in IH. fold w in IH.
      unfold top. rewrite (pow256_S (S i)). destruct IH as [-> | ->]; [left|right]; lia.
    + rewrite wrap_small in * by lia. left. case_on; [lia|]. zbool. lia.
Qed.

(** [incrNonce] adds one modulo 2^192. *)
Lemma incrNonce_spec n : bytes_ok n -> length n = 24%nat ->
  be_get (incrNonce n) = (be_get n + 1) mod 2 ^ 192 /\ bytes_ok (incrNonce n) /\ length (incrNonce n) = 24%nat.
Proof.
  intros Hn Hl. assert (bytes_ok (incrNonce n)) as Hok by by apply incr_from_ok.
  assert (length (incrNonce n) = 24%nat) as Hl' by (unfold incrNonce; by rewrite length_incr_from).
  split; [|done]. pose proof (be_get_range_24 _ Hn Hl) as Hr. pose proof (be_get_range_24 _ Hok Hl') as Hr'.
  assert (be_get (incrNonce n) = be_get n + 1 \/ be_get (incrNonce n) = be_get n + 1 - 2 ^ 192) as [E|E].
  { pose proof (incr_from_spec 23 n Hn) as Hs. rewrite Hl in Hs. specialize (Hs ltac:(lia)). cbv zeta in Hs.
    replace (256 ^ Z.of_nat (24 - 1 - 23)) with 1 in Hs by (vm_compute; reflexivity).
    replace (256 ^ Z.of_nat 24) with (2 ^ 192) in Hs by (vm_compute; reflexivity).
    unfold incrNonce. destruct Hs as [-> | ->]; [left|right]; lia. }
  - rewrite E in *. symmetry. by apply Z.mod_small.
  - rewrite E in *. generalize dependent (2 ^ 192). intros M E Hr Hr'.
    assert (be_get n + 1 = M) as -> by lia. rewrite Z_mod_same_full. lia.
Qed.

Lemma incr2_ok n : bytes_ok n -> length n = 24%nat -> bytes_ok (incr2Nonce n) /\ length (incr2Nonce n) = 24%nat.
Proof.
  intros Hn Hl. destruct (incrNonce_spec _ Hn Hl) as (_ & Hk1 & Hl1). apply (incrNonce_spec _ Hk1 Hl1).
Qed.

Lemma incr2_iter n k : bytes_ok n -> length n = 24%nat ->
  be_get (Nat.iter k incr2Nonce n) = (be_get n + 2 * Z.of_nat k) mod 2 ^ 192 /\
  bytes_ok (Nat.iter k incr2Nonce n) /\ length (Nat.iter k incr2Nonce n) = 24%nat.
Proof.
  intros Hn Hl. induction k as [|k (IH & Hk & Hlk)].
  - split; [|done]. cbn. rewrite Z.add_0_r. symmetry. apply Z.mod_small. by apply be_get_range_24.
  - rewrite !Nat.iter_succ. set (m := Nat.iter k incr2Nonce n) in *. unfold incr2Nonce. destruct (incrNonce_spec _ Hk Hlk) as (E1 & Hk1 & Hl1).
    destruct (incrNonce_spec _ Hk1 Hl1) as (E2 & Hk2 & Hl2). split; [|done].
    rewrite E2, E1, IH. generalize (2 ^ 192). intros M.
    rewrite Zplus_mod_idemp_l, <- Z.add_assoc, Zplus_mod_idemp_l. f_equal. lia.
Qed.

(** The parity of a nonce is that of its last byte. *)
Lemma be_get_last l b : be_get (l ++ [b]) mod 2 = b mod 2.
Proof.
  unfold be_get. rewrite reverse_snoc. cbn [le_get].
  replace (b + 256 * le_get (reverse l)) with (b + 128 * le_get (reverse l) * 2) by lia. by apply Z_mod_plus.
Qed.

Lemma lxor_1_mod b : Z.lxor b 1 mod 2 <> b mod 2.
Proof.
  rewrite <- !Z.bit0_mod, Z.lxor_spec. by destruct (Z.testbit b 0).
Qed.

Lemma even_mod_2_192 x k : ((x + 2 * k) mod 2 ^ 192) mod 2 = x mod 2.
Proof.
  replace (2 ^ 192) with (2 * 2 ^ 191) by (rewrite <- Z.pow_succ_r; [done|lia]).
  assert (2 ^ 191 <> 0) as Hnz by (by apply Z.pow_nonzero). revert Hnz. generalize (2 ^ 191). intros M HM.
  rewrite (Z.mod_eq (x + 2 * k) (2 * M)) by lia. set (q := _ / _).
  replace (x + 2 * k - 2 * M * q) with (x + (k - M * q) * 2) by lia. apply Z_mod_plus_full.
Qed.

Section laws.
Context `{CryptoLaws}.

Lemma go_copy_length dst src : length (go_copy dst src) = length dst.
Proof. unfold go_copy. rewrite length_app, length_take, length_drop. lia. Qed.

Lemma hash24_ok b : bytes_ok (hash24 b) /\ length (hash24 b) = 24%nat.
Proof.
  unfold hash24. rewrite go_copy_length, length_replicate. split; [|done]. unfold go_copy.
  apply bytes_ok_app. split; [apply Forall_take, ripemd160_ok|apply Forall_drop, bytes_ok_zeros].
Qed.

(** The two nonces: one for each side, the other way round for the other, of
    different parity. *)
Lemma genNonces_spec lo hi : exists n1 n2,
  genNonces lo hi true = (n1, n2) /\ genNonces lo hi false = (n2, n1) /\
  bytes_ok n1 /\ length n1 = 24%nat /\ bytes_ok n2 /\ length n2 = 24%nat /\ be_get n1 mod 2 <> be_get n2 mod 2.
Proof.
  unfold genNonces. set (n1 := hash24 (lo ++ hi)). destruct (hash24_ok (lo ++ hi)) as [Hok Hl]. fold n1 in Hok, Hl.
  assert (go_copy (replicate 24 0) n1 = n1) as ->.
  { unfold go_copy. rewrite length_replicate, <- Hl, take_ge, drop_ge by (rewrite ?length_replicate; lia). apply app_nil_r. }
  destruct (lookup_lt_is_Some_2 n1 23 ltac:(lia)) as [b Hb]. rewrite Hb. cbn [default id].
  eexists n1, _. split; [done|]. split; [done|]. split; [done|]. split; [done|].
  pose proof (byte_at _ _ _ Hok Hb) as Hbr.
  split; [|split; [by rewrite length_insert|]].
  - apply Forall_insert; [done|]. apply (byte_forall (fun b => (0 <=? Z.lxor b 1) && (Z.lxor b 1 <? 256))) in Hbr; [|done].
    unfold byte_ok. zbool. lia.
  - assert (n1 = take 23 n1 ++ [b]) as E.
    { rewrite <- (take_S_r _ _ _ Hb). symmetry. apply take_ge. lia. }
    assert (<[23%nat:=Z.lxor b 1]> n1 = take 23 n1 ++ [Z.lxor b 1]) as ->.
    { rewrite E at 1. rewrite insert_app_r_alt by (rewrite length_take; lia).
      rewrite length_take, Hl. cbn. done. }
    rewrite E at 1. rewrite !be_get_last. apply not_eq_sym, lxor_1_mod.
Qed.

Lemma iter_nonces_differ n1 n2 i j : bytes_ok n1 -> length n1 = 24%nat -> bytes_ok n2 -> length n2 = 24%nat ->
  be_get n1 mod 2 <> be_get n2 mod 2 -> Nat.iter i incr2Nonce n1 <> Nat.iter j incr2Nonce n2.
Proof.
  intros H1 L1 H2 L2 Hne E. apply (f_equal be_get) in E.
  destruct (incr2_iter n1 i H1 L1) as [E1 _]. destruct (incr2_iter n2 j H2 L2) as [E2 _]. rewrite E1, E2 in E.
  apply (f_equal (fun x => x mod 2)) in E. rewrite !even_mod_2_192 in E. done.
Qed.

Lemma iter_nonce_inj n i j : bytes_ok n -> length n = 24%nat -> Z.of_nat i < 2 ^ 191 -> Z.of_nat j < 2 ^ 191 ->
  Nat.iter i incr2Nonce n = Nat.iter j incr2Nonce n -> i = j.
Proof.
  intros Hn Hl Hi Hj E. apply (f_equal be_get) in E.
  destruct (incr2_iter n i Hn Hl) as [E1 _]. destruct (incr2_iter n j Hn Hl) as [E2 _]. rewrite E1, E2 in E.
  replace (2 ^ 192) with (2 * 2 ^ 191) in E by (rewrite <- Z.pow_succ_r; [done|lia]).
  revert E Hi Hj. generalize (2 ^ 191). intros M E Hi Hj.
  assert (0 < M) by lia.
  pose proof (Z.div_mod (be_get n + 2 * Z.of_nat i) (2 * M) ltac:(lia)) as D1.
  pose proof (Z.div_mod (be_get n + 2 * Z.of_nat j) (2 * M) ltac:(lia)) as D2.
  rewrite E in D1. revert D1 D2. generalize ((be_get n + 2 * Z.of_nat i) / (2 * M)), ((be_get n + 2 * Z.of_nat j) / (2 * M)).
  intros q1 q2 D1 D2. assert (Z.of_nat i - Z.of_nat j = M * (q1 - q2)) as Hd by lia.
  assert (q1 - q2 = 0) as Hq by nia. rewrite Hq in Hd. lia.
Qed.

(** ** Frames *)
#[local] Opaque incr2Nonce.

Lemma go_copy_ge dst src : (length dst <= length src)%nat -> go_copy dst src = take (length dst) src.
Proof. intros. unfold go_copy. by rewrite drop_ge, app_nil_r by lia. Qed.

Lemma make_frame_spec chunk : #chunk <= dataMaxSize ->
  exists zeros, make_frame chunk = be_put 2 #chunk ++ chunk ++ zeros /\ #(make_frame chunk) = totalFrameSize.
Proof.
  intros Hc. unfold dataMaxSize in Hc. unfold make_frame, totalFrameSize, dataMaxSize, dataLenSize. cbv zeta.
  pose proof (zlen_nonneg chunk). rewrite wrap_small by (change (2 ^ 16) with 65536; lia).
  assert (length (be_put 2 #chunk) = 2%nat) as H2 by apply length_be_put.
  assert (go_copy (replicate (Z.to_nat (1024 + 2)) 0) (be_put 2 #chunk) = be_put 2 #chunk ++ replicate 1024 0) as ->.
  { unfold go_copy. rewrite take_ge by (rewrite H2, length_replicate; lia). rewrite drop_replicate, H2. done. }
  rewrite take_app_length', drop_app_length' by done.
  assert (go_copy (replicate 1024 0) chunk = chunk ++ replicate (1024 - length chunk) 0) as ->.
  { unfold go_copy. rewrite take_ge by (rewrite length_replicate; zlia). by rewrite drop_replicate. }
  eexists. split; [done|]. autorewrite with zlen. rewrite (f_equal Z.of_nat H2 : #(be_put 2 #chunk) = 2). zlia.
Qed.

(** The receiving end of a sending connection. *)
Definition paired (s r : SecretConnection) : Prop :=
  sendNonce s = recvNonce r /\ shrSecret s = shrSecret r /\ recvBuffer r = [].

Lemma seal_frame_length s chunk : #chunk <= dataMaxSize -> #(seal_frame s chunk) = sealedFrameSize.
Proof. intros Hc. unfold seal_frame. rewrite seal_length. by destruct (make_frame_spec chunk Hc) as (? & _ & ->). Qed.

(** Reading one frame into a buffer of any size. *)
Lemma Read_frame s r chunk data rest : paired s r -> #chunk <= dataMaxSize ->
  Read r data (seal_frame s chunk ++ rest) =
    (Z.of_nat (copy_n data chunk), None, go_copy data chunk,
     set_recv (drop (copy_n data chunk) chunk) (incr2Nonce (recvNonce r)) r, rest).
Proof.
  intros (Hn & Hk & Hb) Hc. unfold Read. rewrite Hb. change (0 <? zlen (@nil Z)) with false. cbv iota.
  unfold net_ReadFull. rewrite <- (seal_frame_length s chunk Hc).
  pose proof (zlen_nonneg rest). rewrite (proj2 (Z.leb_le _ _)) by (rewrite zlen_app; lia).
  rewrite take_zlen_app, drop_zlen_app. unfold seal_frame. rewrite Hn, Hk, open_seal.
  destruct (make_frame_spec chunk Hc) as (zeros & -> & _).
  rewrite take_app_length' by (by rewrite length_be_put).
  rewrite be_get_put. unfold dataMaxSize, dataLenSize in *. pose proof (zlen_nonneg chunk).
  rewrite Z.mod_small by (change (256 ^ Z.of_nat 2) with 65536; lia).
  rewrite (proj2 (Z.ltb_ge _ _)) by lia. cbv zeta.
  rewrite drop_app_length' by (by rewrite length_be_put). rewrite take_zlen_app. done.
Qed.

(** The chunks that [Write] cuts its data into. *)
Fixpoint chunks (fuel : nat) (data : bytes) : list bytes :=
  match fuel with
  | O => []
  | S fuel =>
      match data with
      | [] => []
      | _ => take (Z.to_nat dataMaxSize) data :: chunks fuel (drop (Z.to_nat dataMaxSize) data)
      end
  end.

Lemma chunks_spec fuel : forall data, (length data <= fuel)%nat ->
  mjoin (chunks fuel data) = data /\ Forall (fun c => 0 < #c <= dataMaxSize) (chunks fuel data).
Proof.
  induction fuel as [|fuel IH]; intros data Hl; cbn [chunks]; [by destruct data; [|cbn in Hl; lia]|].
  destruct data as [|b data]; [done|]. set (d := b :: data) in *.
  assert (0 < length d)%nat by (cbn; lia).
  destruct (IH (drop (Z.to_nat dataMaxSize) d)) as [Hj Hf]; [rewrite length_drop; unfold dataMaxSize; lia|]. split.
  - rewrite mjoin_cons, Hj. apply take_drop.
  - constructor; [|done]. rewrite zlen_take. unfold dataMaxSize. zlia.
Qed.

(** The frames of a list of chunks, the nonce moving on. *)
Fixpoint seal_all (s : SecretConnection) (l : list bytes) : bytes * SecretConnection :=
  match l with
  | [] => ([], s)
  | c :: l =>
      let r := seal_all (set_sendNonce (incr2Nonce (sendNonce s)) s) l in
      (seal_frame s c ++ r.1, r.2)
  end.

Lemma write_loop_spec fuel : forall s data n, (length data <= fuel)%nat ->
  write_loop fuel s data n (fun _ => None) =
    (n + #data, None, (seal_all s (chunks fuel data)).1, (seal_all s (chunks fuel data)).2).
Proof.
  induction fuel as [|fuel IH]; intros s data n Hl; cbn [write_loop chunks].
  { destruct data; [|cbn in Hl; lia]. cbn [seal_all fst snd]. by rewrite zlen_nil, Z.add_0_r. }
  destruct data as [|b data].
  { change (zlen (@nil Z) <=? 0) with true. cbv iota. cbn [seal_all fst snd]. by rewrite zlen_nil, Z.add_0_r. }
  set (d := b :: data) in *. assert (0 < length d)%nat by (cbn; lia). rewrite (proj2 (Z.leb_gt _ _)) by zlia.
  cbn [seal_all fst snd].
  destruct (Z.ltb_spec dataMaxSize #d) as [Hlt|Hge].
  - rewrite IH by (rewrite length_drop; unfold dataMaxSize; lia).
    rewrite zlen_take, zlen_drop. do 3 f_equal. unfold dataMaxSize in *. lia.
  - rewrite take_ge, drop_ge by zlia. rewrite IH by (cbn; lia).
    assert (chunks fuel [] = []) as -> by (by destruct fuel). rewrite zlen_nil. do 3 f_equal. lia.
Qed.

Lemma fst_no_error (l : list bytes) : fst <$> ((fun c => (c, @None error)) <$> l) = l.
Proof. induction l as [|c l IH]; [done|]. rewrite !fmap_cons. by f_equal. Qed.

(** Reading frame after frame into buffers of [size] bytes. *)
Fixpoint read_frames (k : nat) (r : SecretConnection) (size : nat) (input : bytes)
    : list (bytes * option error) * SecretConnection * bytes :=
  match k with
  | O => ([], r, input)
  | S k =>
      let '(n, err, data, r, input) := Read r (replicate size 0) input in
      let '(l, r, input) := read_frames k r size input in
      ((take (Z.to_nat n) data, err) :: l, r, input)
  end.

Lemma go_copy_whole data chunk : (length chunk <= length data)%nat ->
  copy_n data chunk = length chunk /\ take (length chunk) (go_copy data chunk) = chunk.
Proof.
  intros Hl. unfold copy_n, go_copy. split; [lia|].
  rewrite (take_ge chunk) by lia. by rewrite take_app_length.
Qed.

Lemma read_frames_spec l : forall s r size rest, paired s r -> Forall (fun c => 0 < #c <= dataMaxSize) l ->
  dataMaxSize <= Z.of_nat size ->
  exists r', read_frames (length l) r size ((seal_all s l).1 ++ rest) = ((fun c => (c, None)) <$> l, r', rest) /\
    paired (seal_all s l).2 r'.
Proof.
  induction l as [|c l IH]; intros s r size rest Hp Hf Hs; cbn [length read_frames seal_all fst snd].
  { by exists r. }
  apply Forall_cons_1 in Hf as [Hc Hf]. rewrite <- app_assoc, (Read_frame s) by (assumption || lia).
  destruct (go_copy_whole (replicate size 0) c) as [-> E]; [rewrite length_replicate; unfold dataMaxSize in *; zlia|].
  rewrite drop_all. set (s1 := set_sendNonce _ s). set (r1 := set_recv [] _ r).
  assert (paired s1 r1) as Hp1.
  { destruct Hp as (H1 & H2 & H3). split; [cbn; f_equal; exact H1|split; [exact H2|reflexivity]]. }
  destruct (IH s1 r1 size rest Hp1 Hf Hs) as (r' & -> & Hp'). exists r'. split; [|done].
  rewrite Nat2Z.id, E. done.
Qed.

(** ** Ordering the ephemeral keys *)
Lemma bytes_lt_asym a : forall b, bytes_lt a b = true -> bytes_lt b a = false.
Proof.
  induction a as [|x a IH]; intros [|y b]; cbn; try done. intros [Hlt|[Heq Hlt]%andb_true_iff]%orb_true_iff.
  - zbool. rewrite (proj2 (Z.ltb_ge _ _)), (proj2 (Z.eqb_neq _ _)) by lia. done.
  - zbool. subst. rewrite Z.ltb_irrefl, Z.eqb_refl, IH by done. done.
Qed.

Lemma bytes_lt_total a : forall b, length a = length b -> a <> b -> bytes_lt a b = true \/ bytes_lt b a = true.
Proof.
  induction a as [|x a IH]; intros [|y b] Hl Hne; cbn in *; try done.
  destruct (Z.lt_trichotomy x y) as [Hlt|[->|Hlt]].
  - left. by rewrite (proj2 (Z.ltb_lt _ _) Hlt).
  - rewrite Z.ltb_irrefl, Z.eqb_refl. cbn. apply IH; congruence.
  - right. by rewrite (proj2 (Z.ltb_lt _ _) Hlt).
Qed.

(** Both sides compute the same order, and exactly one of them is the low one. *)
Lemma sort32_pair a b : length a = length b -> a <> b -> exists lo hi isLo,
  sort32 a b = (lo, hi, isLo) /\ sort32 b a = (lo, hi, negb isLo).
Proof.
  intros Hl Hne. unfold sort32. destruct (bytes_lt_total a b Hl Hne) as [H1|H1]; pose proof (bytes_lt_asym _ _ H1) as H2;
    rewrite H1, H2; by eexists _, _, _.
Qed.

(** ** The handshake *)
Lemma paired_moved s r k k' n1 n2 : paired s r ->
  paired (set_remPubKey k (set_recv [] n1 (set_sendNonce (incr2Nonce (sendNonce s)) s)))
         (set_remPubKey k' (set_recv [] (incr2Nonce (recvNonce r)) (set_sendNonce n2 r))).
Proof. intros (N & S & R). split; [exact (f_equal incr2Nonce N)|]. split; [exact S|reflexivity]. Qed.

Lemma auth_exchange s r p m rest fuel : paired s r -> #(enc_auth (PubKey p) (Sign p m)) = authSigMsgSize ->
  exists r', sc_ReadFull (S fuel) r [] authSigMsgSize (seal_frame s (enc_auth (PubKey p) (Sign p m)) ++ rest) =
    Some (enc_auth (PubKey p) (Sign p m), None, r', rest) /\
  r' = set_recv [] (incr2Nonce (recvNonce r)) r.
Proof.
  intros Hp Hl. set (msg := enc_auth _ _) in *. eexists. split; [|reflexivity].
  cbn [sc_ReadFull]. change (authSigMsgSize <=? 0) with false. cbv iota.
  rewrite (Read_frame s) by (done || rewrite Hl; vm_compute; congruence).
  assert (length (replicate (Z.to_nat authSigMsgSize) 0) = length msg) as Hlen.
  { rewrite length_replicate. unfold zlen in Hl. rewrite <- Hl. lia. }
  destruct (go_copy_whole (replicate (Z.to_nat authSigMsgSize) 0) msg) as [-> E]; [lia|].
  rewrite Nat2Z.id, E, drop_all. fold (zlen msg). rewrite Hl, Z.sub_diag. by destruct fuel.
Qed.

Lemma chunks_one n d : 0 < #d <= dataMaxSize -> chunks (S n) d = [d].
Proof.
  intros Hd. cbn [chunks]. destruct d as [|b d]; [unfold zlen in Hd; cbn in Hd; lia|].
  rewrite take_ge, drop_ge by (unfold dataMaxSize in *; zlia). by destruct n.
Qed.

Lemma Write_one s msg : 0 < #msg <= dataMaxSize ->
  Write s msg (fun _ => None) = (#msg, None, seal_frame s msg, set_sendNonce (incr2Nonce (sendNonce s)) s).
Proof.
  intros Hl. unfold Write. rewrite write_loop_spec by done.
  assert (chunks (length msg) msg = [msg]) as ->.
  { destruct (length msg) as [|n] eqn:En; [unfold zlen in Hl; lia|]. by apply chunks_one. }
  cbn [seal_all fst snd]. by rewrite app_nil_r, Z.add_0_l.
Qed.

(** What one side computes before the authentication messages. *)
Definition half (ephPub ephPriv remEphPub : bytes) : SecretConnection * bytes :=
  let '(lo, hi, isLo) := sort32 ephPub remEphPub in
  let '(rn, sn) := genNonces lo hi isLo in
  (mkSC [] rn sn [] (Precompute remEphPub ephPriv), genChallenge lo hi).

(** What it writes. *)
Definition half_out (priv ephPub ephPriv remEphPub : bytes) : bytes :=
  let '(sc, challenge) := half ephPub ephPriv remEphPub in
  ephPub ++ seal_frame sc (enc_auth (PubKey priv) (Sign priv challenge)).

Lemma half_handshake priv ephPub ephPriv remPriv remEph rs ch rest fuel :
  length remEph = 32%nat -> (half ephPub ephPriv remEph).2 = ch ->
  paired rs (half ephPub ephPriv remEph).1 ->
  MakeSecretConnection priv ephPub ephPriv
    (remEph ++ seal_frame rs (enc_auth (PubKey remPriv) (Sign remPriv ch)) ++ rest) None (fun _ => None) (S fuel) =
  Some (Ok (set_remPubKey (PubKey remPriv)
         (set_recv [] (incr2Nonce (recvNonce (half ephPub ephPriv remEph).1))
           (set_sendNonce (incr2Nonce (sendNonce (half ephPub ephPriv remEph).1)) (half ephPub ephPriv remEph).1))),
        half_out priv ephPub ephPriv remEph, rest).
Proof.
  intros Hl Hch Hp. unfold MakeSecretConnection, shareEphPubKey, net_ReadFull, half_out.
  set (fr := seal_frame rs _). pose proof (zlen_nonneg (fr ++ rest)).
  rewrite (proj2 (Z.leb_le 32 _)) by (rewrite zlen_app; unfold zlen at 1; lia).
  replace (Z.to_nat 32) with (length remEph) by lia. rewrite take_app_length, drop_app_length.
  unfold half in *. destruct (sort32 ephPub remEph) as [[lo hi] isLo]. destruct (genNonces lo hi isLo) as [rn sn].
  cbn [fst snd] in *. unfold computeSharedSecret, signChallenge, shareAuthSignature. subst ch.
  rewrite Write_one by (rewrite enc_auth_length; vm_compute; split; congruence).
  assert (paired rs (set_sendNonce (incr2Nonce sn) (mkSC [] rn sn [] (Precompute remEph ephPriv)))) as Hp' by exact Hp.
  destruct (auth_exchange rs _ remPriv (genChallenge lo hi) rest fuel Hp' (enc_auth_length _ _)) as (r' & E & ->).
  cbn [sendNonce]. unfold fr. rewrite E. cbn [mbind option_bind].
  rewrite dec_enc_auth, verify_sign. done.
Qed.

Lemma half_pair ephA privA ephB privB : length ephA = length ephB -> ephA <> ephB ->
  Precompute ephB privA = Precompute ephA privB ->
  let a := half ephA privA ephB in let b := half ephB privB ephA in
  paired a.1 b.1 /\ paired b.1 a.1 /\ a.2 = b.2 /\
  bytes_ok (sendNonce a.1) /\ length (sendNonce a.1) = 24%nat /\ bytes_ok (sendNonce b.1) /\
  length (sendNonce b.1) = 24%nat /\ be_get (sendNonce a.1) mod 2 <> be_get (sendNonce b.1) mod 2.
Proof.
  intros Hl Hne Hpre. unfold half. destruct (sort32_pair ephA ephB Hl Hne) as (lo & hi & isLo & -> & ->).
  destruct (genNonces_spec lo hi) as (n1 & n2 & E1 & E2 & O1 & L1 & O2 & L2 & Hp).
  destruct isLo; cbn [negb]; rewrite E1, E2; cbn; unfold paired; cbn; split_and!; try done; by apply not_eq_sym.
Qed.

(** The whole handshake. *)
Lemma handshake_ok (privA ephA ephPrivA privB ephB ephPrivB restA restB : bytes) (fuel : nat) :
  length ephA = 32%nat -> length ephB = 32%nat -> ephA <> ephB ->
  Precompute ephB ephPrivA = Precompute ephA ephPrivB ->
  exists outA outB a b,
    MakeSecretConnection privA ephA ephPrivA (outB ++ restA) None (fun _ => None) (S fuel) = Some (Ok a, outA, restA) /\
    MakeSecretConnection privB ephB ephPrivB (outA ++ restB) None (fun _ => None) (S fuel) = Some (Ok b, outB, restB) /\
    remPubKey a = PubKey privB /\ remPubKey b = PubKey privA /\ paired a b /\ paired b a /\
    (forall i j, Nat.iter i incr2Nonce (sendNonce a) <> Nat.iter j incr2Nonce (sendNonce b)) /\
    (forall i j, Z.of_nat i < 2 ^ 191 -> Z.of_nat j < 2 ^ 191 ->
       Nat.iter i incr2Nonce (sendNonce a) = Nat.iter j incr2Nonce (sendNonce a) -> i = j).
Proof.
  intros HA HB Hne Hpre.
  destruct (half_pair ephA ephPrivA ephB ephPrivB) as (P1 & P2 & Hch & O1 & L1 & O2 & L2 & Hpar); [congruence|done|done|].
  exists (half_out privA ephA ephPrivA ephB), (half_out privB ephB ephPrivB ephA).
  pose proof (half_handshake privA ephA ephPrivA privB ephB _ _ restA fuel HB eq_refl P2) as EA.
  pose proof (half_handshake privB ephB ephPrivB privA ephA _ _ restB fuel HA eq_refl P1) as EB.
  rewrite Hch in EA. rewrite <- Hch in EB. unfold half_out in *.
  destruct (half ephA ephPrivA ephB) as [a ca], (half ephB ephPrivB ephA) as [b cb]. cbn [fst snd] in *. subst cb.
  rewrite <- !app_assoc. eexists _, _. split; [exact EA|]. split; [exact EB|].
  split; [done|]. split; [done|].
  split; [by apply paired_moved|]. split; [by apply paired_moved|].
  cbn [sendNonce set_remPubKey set_recv set_sendNonce]. split.
  - intros i j. rewrite <- !Nat.iter_succ_r. exact (iter_nonces_differ _ _ (S i) (S j) O1 L1 O2 L2 Hpar).
  - intros i j Hi Hj. destruct (incr2_ok (sendNonce a) O1 L1) as [O1' L1'].
    exact (iter_nonce_inj (incr2Nonce (sendNonce a)) i j O1' L1' Hi Hj).
Qed.

(** A side that finishes has read the other's ephemeral key first and written what it computes from it. *)
Lemma finished_out priv ephPub ephPriv input fuel a out rest :
  MakeSecretConnection priv ephPub ephPriv input None (fun _ => None) fuel = Some (Ok a, out, rest) ->
  exists remEph input', input = remEph ++ input' /\ length remEph = 32%nat /\ out = half_out priv ephPub ephPriv remEph.
Proof.
  unfold MakeSecretConnection, shareEphPubKey, net_ReadFull, half_out, half. destruct (Z.leb_spec 32 #input) as [Hl|]; [|done].
  intros Hm. exists (take (Z.to_nat 32) input), (drop (Z.to_nat 32) input). split; [by rewrite take_drop|].
  split; [rewrite length_take; unfold zlen in Hl; lia|]. revert Hm. generalize (take (Z.to_nat 32) input) as remEph. intros remEph.
  destruct (sort32 ephPub remEph) as [[lo hi] isLo]. destruct (genNonces lo hi isLo) as [rn sn].
  unfold shareAuthSignature, computeSharedSecret, signChallenge.
  rewrite Write_one by (rewrite enc_auth_length; vm_compute; split; congruence).
  destruct (sc_ReadFull _ _ _ _ _) as [[[[rb e] sc] i]|]; [|done]. cbn [mbind option_bind].
  destruct (match e with Some e => Err e | None => dec_auth rb end) as [[k sg]|]; [|done].
  destruct (VerifyBytes _ _ _); [|done]. by intros [= _ <- _].
Qed.

(** Whatever two sides tell each other, if both finish they are the two ends of a connection. *)
Lemma handshake_pairs privA ephA ephPrivA privB ephB ephPrivB fuel a b outA outB restA restB :
  length ephA = 32%nat -> length ephB = 32%nat -> ephA <> ephB ->
  Precompute ephB ephPrivA = Precompute ephA ephPrivB ->
  MakeSecretConnection privA ephA ephPrivA (outB ++ restA) None (fun _ => None) (S fuel) = Some (Ok a, outA, restA) ->
  MakeSecretConnection privB ephB ephPrivB (outA ++ restB) None (fun _ => None) (S fuel) = Some (Ok b, outB, restB) ->
  paired a b /\ paired b a.
Proof.
  intros HA HB Hne Hpre EA EB.
  destruct (finished_out _ _ _ _ _ _ _ _ EA) as (rB & tB & IA & LB & OA).
  destruct (finished_out _ _ _ _ _ _ _ _ EB) as (rA & tA & IB & LA & OB).
  destruct (handshake_ok privA ephA ephPrivA privB ephB ephPrivB restA restB fuel HA HB Hne Hpre)
    as (outA' & outB' & a' & b' & EA' & EB' & _ & _ & P1 & P2 & _).
  destruct (finished_out _ _ _ _ _ _ _ _ EA') as (rB' & tB' & IA' & LB' & OA').
  destruct (finished_out _ _ _ _ _ _ _ _ EB') as (rA' & tA' & IB' & LA' & OB').
  assert (forall priv e ep r t x, half_out priv e ep r ++ t = x -> length e = 32%nat -> take 32 x = e) as Ht.
  { intros priv e ep r t x <- He. unfold half_out. destruct (half e ep r) as [sc ch]. rewrite <- app_assoc, take_app_le by lia. by apply take_ge; lia. }
  assert (rB = ephB /\ rA = ephA /\ rB' = ephB /\ rA' = ephA) as (-> & -> & -> & ->).
  { assert (forall (r t : bytes), length r = 32%nat -> take 32 (r ++ t) = r) as Hr.
    { intros r t Hr. rewrite take_app_le by lia. apply take_ge. lia. }
    rewrite OB in IA. rewrite OA in IB. rewrite OB' in IA'. rewrite OA' in IB'.
    apply Ht in IA, IB, IA', IB'; [|done..]. rewrite Hr in * by done. done. }
  subst outA outB outA' outB'. rewrite EA in EA'. rewrite EB in EB'. by simplify_eq.
Qed.
End laws.

(** ** Properties *)

(** C4: Two honest sides with different ephemeral keys: each, given what the other writes,
    finishes the handshake with the other's long-term key; they share the secret, each one's
    send nonce is the other's receive nonce, and no nonce either will use to send, or has
    used, is ever one the other sends with; no side repeats one within 2^191 frames. *)
Theorem handshake `{CryptoLaws} (privA ephA ephPrivA privB ephB ephPrivB restA restB : bytes) (fuel : nat) :
  length ephA = 32%nat -> length ephB = 32%nat -> ephA <> ephB ->
  Precompute ephB ephPrivA = Precompute ephA ephPrivB ->
  exists outA outB a b,
    MakeSecretConnection privA ephA ephPrivA (outB ++ restA) None (fun _ => None) (S fuel) = Some (Ok a, outA, restA) /\
    MakeSecretConnection privB ephB ephPrivB (outA ++ restB) None (fun _ => None) (S fuel) = Some (Ok b, outB, restB) /\
    remPubKey a = PubKey privB /\ remPubKey b = PubKey privA /\ paired a b /\ paired b a /\
    (forall i j, Nat.iter i incr2Nonce (sendNonce a) <> Nat.iter j incr2Nonce (sendNonce b)) /\
    (forall i j, Z.of_nat i < 2 ^ 191 -> Z.of_nat j < 2 ^ 191 ->
       Nat.iter i incr2Nonce (sendNonce a) = Nat.iter j incr2Nonce (sendNonce a) -> i = j).
Proof.
  apply handshake_ok.
Qed.

(** A stream: [Write] reports the whole of its data, and reads with buffers of at least 1024
    bytes give the data back, frame by frame and without error; data of at most 1024 bytes in
    a single read.  The two ends stay in step. *)
Theorem Write_Read_stream `{CryptoLaws} (s r : SecretConnection) (data rest : bytes) (size : nat) :
  paired s r -> dataMaxSize <= Z.of_nat size ->
  exists k out s' l r',
    Write s data (fun _ => None) = (#data, None, out, s') /\
    read_frames k r size (out ++ rest) = (l, r', rest) /\
    mjoin (fst <$> l) = data /\ Forall (fun e => e.2 = None) l /\ paired s' r' /\
    (0 < #data <= dataMaxSize -> k = 1%nat).
Proof.
  intros Hp Hs. destruct (chunks_spec (length data) data ltac:(lia)) as [Hj Hf].
  destruct (read_frames_spec (chunks (length data) data) s r size rest Hp Hf Hs) as (r' & Hr & Hp').
  exists (length (chunks (length data) data)), (seal_all s (chunks (length data) data)).1,
    (seal_all s (chunks (length data) data)).2, ((fun c => (c, None)) <$> chunks (length data) data), r'.
  unfold Write. rewrite write_loop_spec by done. split; [done|]. split; [exact Hr|]. split.
  { by rewrite fst_no_error. }
  split; [apply Forall_fmap; by apply Forall_true|]. split; [done|].
  intros Hd. destruct (length data) as [|n] eqn:E; [unfold zlen in Hd; lia|]. by rewrite chunks_one.
Qed.

(** Data that a read leaves in the buffer is lost to [io.ReadFull]: [Read] copies it out but
    reports a count of zero.  Of two messages, the first read in two parts, the second part
    comes from the second message. *)
Theorem ReadFull_loses `{CryptoLaws} (s r s1 s2 : SecretConnection) (d1 d2 out1 out2 rest : bytes) (a fuel : nat) :
  paired s r -> 0 < #d1 <= dataMaxSize -> 0 < #d2 <= dataMaxSize ->
  (0 < a < length d1)%nat -> (length d1 - a <= length d2)%nat ->
  Write s d1 (fun _ => None) = (#d1, None, out1, s1) ->
  Write s1 d2 (fun _ => None) = (#d2, None, out2, s2) ->
  exists r1 r2,
    sc_ReadFull (S (S fuel)) r [] (Z.of_nat a) (out1 ++ out2 ++ rest) = Some (take a d1, None, r1, out2 ++ rest) /\
    sc_ReadFull (S (S fuel)) r1 [] (#d1 - Z.of_nat a) (out2 ++ rest) =
      Some (take (length d1 - a) d2, None, r2, rest).
Proof.
  intros Hp H1 H2 Ha Hb W1 W2. rewrite (Write_one s) in W1 by exact H1. rewrite (Write_one s1) in W2 by exact H2.
  rewrite !pair_equal_spec in W1, W2. destruct W1 as [[_ <-] <-], W2 as [[_ <-] _].
  set (s1 := set_sendNonce _ s).
  set (r1 := set_recv (drop a d1) (incr2Nonce (recvNonce r)) r).
  set (b := (length d1 - a)%nat). assert (#d1 - Z.of_nat a = Z.of_nat b) as -> by (unfold zlen; lia).
  assert (paired s1 (set_recv [] (incr2Nonce (recvNonce r)) r)) as Hp1.
  { destruct Hp as (N & S & _). split; [exact (f_equal incr2Nonce N)|]. split; [exact S|reflexivity]. }
  eexists r1, _. split.
  - cbn [sc_ReadFull]. rewrite (proj2 (Z.leb_gt _ 0)) by lia. rewrite (Read_frame s r) by (assumption || lia).
    assert (copy_n (replicate (Z.to_nat (Z.of_nat a)) 0) d1 = a) as -> by (unfold copy_n; rewrite length_replicate; lia).
    rewrite Z.sub_diag. change (0 <=? 0) with true. cbv iota. rewrite Nat2Z.id.
    rewrite go_copy_ge by (rewrite length_replicate; lia). rewrite length_replicate, take_take, Nat.min_id. done.
  - cbn [sc_ReadFull]. rewrite (proj2 (Z.leb_gt _ 0)) by lia.
    assert (Read r1 (replicate (Z.to_nat (Z.of_nat b)) 0) (seal_frame s1 d2 ++ rest) =
      (0, None, go_copy (replicate (Z.to_nat (Z.of_nat b)) 0) (drop a d1), set_recv [] (incr2Nonce (recvNonce r)) r,
       seal_frame s1 d2 ++ rest)) as ->.
    { unfold Read. change (recvBuffer r1) with (drop a d1).
      rewrite (proj2 (Z.ltb_lt 0 _)) by (rewrite zlen_drop; zlia). cbv zeta.
      assert (copy_n (replicate (Z.to_nat (Z.of_nat b)) 0) (drop a d1) = b) as ->
        by (unfold copy_n; rewrite length_replicate, length_drop; lia).
      rewrite (drop_ge (drop a d1)) by (rewrite length_drop; lia). done. }
    rewrite Z.sub_0_r, app_nil_l. change (Z.to_nat 0) with 0%nat. rewrite take_0.
    rewrite (Read_frame s1) by (assumption || lia). rewrite (proj2 (Z.leb_gt _ 0)) by lia.
    assert (copy_n (replicate (Z.to_nat (Z.of_nat b)) 0) d2 = b) as -> by (unfold copy_n; rewrite length_replicate; lia).
    rewrite Z.sub_diag, Nat2Z.id. rewrite go_copy_ge by (rewrite length_replicate; lia).
    rewrite length_replicate, take_take, Nat.min_id, app_nil_l. by destruct fuel.
Qed.

(** ** Concrete parameters for the witnesses *)
Definition plain_crypto : Crypto := {|
  Seal f _ _ := f ++ replicate 16 0;
  Open s _ _ := Some (take (length s - 16) s);
  Precompute a b := go_copy (replicate 32 0) (zip_with Z.lxor a b);
  ripemd160 b := replicate 20 0;
  sha256 b := replicate 32 0;
  PubKey p := go_copy (replicate 32 0) p;
  Sign _ _ := replicate 64 7;
  VerifyBytes _ _ sig := bool_decide (sig = replicate 64 7);
  enc_auth k sig := 1 :: k ++ 1 :: sig;
  dec_auth b := Ok (take 32 (drop 1 b), drop 34 b) |}.

Lemma plain_crypto_laws : @CryptoLaws plain_crypto.
Proof.
  split; cbn [Seal Open ripemd160 PubKey Sign VerifyBytes enc_auth dec_auth plain_crypto].
  - intros f n k. f_equal. rewrite take_app_length'; [done|]. rewrite length_app, length_replicate. lia.
  - intros f n k. rewrite zlen_app. reflexivity.
  - intros. reflexivity.
  - intros. apply bytes_okb_ok. reflexivity.
  - intros p m. autorewrite with zlen. unfold zlen at 1. rewrite go_copy_length. reflexivity.
  - intros p m. set (k := go_copy (replicate 32 0) p). assert (length k = 32%nat) as Hk by apply go_copy_length.
    change (drop 1 (1 :: k ++ 1 :: replicate 64 7)) with (k ++ 1 :: replicate 64 7).
    rewrite take_app_length' by (symmetry; exact Hk). do 2 f_equal.
    change (1 :: k ++ 1 :: replicate 64 7) with ([1] ++ k ++ [1] ++ replicate 64 7).
    rewrite !app_assoc, drop_app_length'; [reflexivity|]. rewrite !length_app, Hk. reflexivity.
  - intros p m. by apply bool_decide_true.
Qed.

Definition key1 : bytes := replicate 32 1.
Definition key2 : bytes := replicate 32 2.

Lemma handshake_witness : exists outA outB a b,
  @MakeSecretConnection plain_crypto [5] key1 key2 outB None (fun _ => None) 1 = Some (Ok a, outA, []) /\
  @MakeSecretConnection plain_crypto [6] key2 key1 outA None (fun _ => None) 1 = Some (Ok b, outB, []) /\
  remPubKey a = go_copy (replicate 32 0) [6] /\ remPubKey b = go_copy (replicate 32 0) [5].
Proof.
  destruct (@handshake plain_crypto plain_crypto_laws [5] key1 key2 [6] key2 key1 [] [] 0)
    as (outA & outB & a & b & HA & HB & Ra & Rb & _); [reflexivity..| |vm_compute; reflexivity|].
  - intros E. discriminate E.
  - exists outA, outB, a, b. rewrite !app_nil_r in *. split; [exact HA|]. split; [exact HB|]. split; [exact Ra|exact Rb].
Defined.

Definition sc_pair : SecretConnection := mkSC [] (replicate 24 0) (replicate 24 0) [] [].

Lemma Write_Read_stream_witness : exists k out s' l r',
  @Write plain_crypto sc_pair (replicate 2500 9) (fun _ => None) = (2500, None, out, s') /\
  @read_frames plain_crypto k sc_pair 1024 (out ++ []) = (l, r', []) /\ mjoin (fst <$> l) = replicate 2500 9.
Proof.
  destruct (@Write_Read_stream plain_crypto plain_crypto_laws sc_pair sc_pair (replicate 2500 9) [] 1024)
    as (k & out & s' & l & r' & HW & HR & Hj & _); [repeat split|vm_compute; discriminate|].
  exists k, out, s', l, r'. split; [exact HW|]. split; [exact HR|exact Hj].
Defined.

Lemma ReadFull_loses_witness : exists out1 s1 out2 s2 r1 r2,
  @Write plain_crypto sc_pair [1; 2; 3; 4] (fun _ => None) = (4, None, out1, s1) /\
  @Write plain_crypto s1 [5; 6; 7; 8] (fun _ => None) = (4, None, out2, s2) /\
  @sc_ReadFull plain_crypto 2 sc_pair [] 2 (out1 ++ out2 ++ []) = Some ([1; 2], None, r1, out2 ++ []) /\
  @sc_ReadFull plain_crypto 2 r1 [] 2 (out2 ++ []) = Some ([5; 6], None, r2, []).
Proof.
  destruct (@Write plain_crypto sc_pair [1; 2; 3; 4] (fun _ => None)) as [[[n1 e1] out1] s1] eqn:W1.
  destruct (@Write plain_crypto s1 [5; 6; 7; 8] (fun _ => None)) as [[[n2 e2] out2] s2] eqn:W2.
  assert (n1 = 4 /\ e1 = None) as [-> ->] by (apply (f_equal (fun x => x.1.1)) in W1; vm_compute in W1; injection W1; auto).
  assert (n2 = 4 /\ e2 = None) as [-> ->] by (apply (f_equal (fun x => x.1.1)) in W2; vm_compute in W2; injection W2; auto).
  destruct (@ReadFull_loses plain_crypto plain_crypto_laws sc_pair sc_pair s1 s2 [1; 2; 3; 4] [5; 6; 7; 8] out1 out2 [] 2 0)
    as (r1 & r2 & R1 & R2); [repeat split|vm_compute; split; congruence..|cbn; lia|cbn; lia|exact W1|exact W2|].
  exists out1, s1, out2, s2, r1, r2. split; [reflexivity|]. split; [exact W2|]. split; [exact R1|exact R2].
Defined.
