(* ===== verification/Link.v ===== *)
(** * The encrypted byte stream under a connection

    A multiplexed connection ([p2p/connection/connection.go]) writes and reads through the
    buffers of [bufio], and those through the frames of a [SecretConnection].  This file puts
    the layers together, with [bufio.Writer], [bufio.Reader] and [io.ReadFull] of the standard
    library, and shows that what comes out is the stream of bytes that went in: the transport
    that ConnDelivery.v takes for granted.  The frames of SecretConn.v alone do not give this,
    since a read of less than a frame loses bytes; it is the size of the reader's buffer that
    does. *)
From S2P Require Import Prelude Errors GoLib SecretConn.

Definition minReadBufferSize : Z := 1024.
Definition minWriteBufferSize : Z := 65536.

Definition ErrShortWrite : error := EMsg (str "short write").

(** ** bufio.Writer *)
(** The bytes that are buffered and the error that sticks. *)
Record bufWriter := mkBufWriter { bw_buf : bytes; bw_err : option error }.
Definition NewWriterSize : bufWriter := mkBufWriter [] None.
Definition Available (bw : bufWriter) : Z := minWriteBufferSize - #(bw_buf bw).

(** ** bufio.Reader *)
(** The bytes that are buffered and not yet read, and the error that the next read reports. *)
Record bufReader := mkBufReader { br_buf : bytes; br_err : option error }.
Definition NewReaderSize : bufReader := mkBufReader [] None.

Section link.
Context `{Crypto}.

(** [Flush]: the error, the writer, the connection and what the network takes.  [werr] is what
    the network answers to each frame. *)
Definition Flush (werr : nat -> option error) (bw : bufWriter) (sc : SecretConnection)
    : option error * bufWriter * SecretConnection * bytes :=
  match bw_err bw with
  | Some e => (Some e, bw, sc, [])
  | None =>
      if #(bw_buf bw) =? 0 then (None, bw, sc, [])
      else
        let '(n, err, out, sc) := Write sc (bw_buf bw) werr in
        let err := match err with None => if n <? #(bw_buf bw) then Some ErrShortWrite else None | _ => err end in
        match err with
        | Some e => (Some e, mkBufWriter (drop (Z.to_nat n) (bw_buf bw)) (Some e), sc, out)
        | None => (None, mkBufWriter [] None, sc, out)
        end
  end.

(** The loop of [Write]: what is left of the data.  Each round writes some of it or ends with an
    error; two rounds empty the buffer and write the rest. *)
Fixpoint bw_loop (fuel : nat) (werr : nat -> nat -> option error) (p : bytes) (nn : Z) (bw : bufWriter) (sc : SecretConnection)
    : bytes * Z * bufWriter * SecretConnection * bytes :=
  match fuel with
  | O => (p, nn, bw, sc, [])
  | S fuel =>
      if (Available bw <? #p) && bool_decide (bw_err bw = None) then
        let '(n, bw, sc, out) :=
          if #(bw_buf bw) =? 0 then
            let '(n, err, out, sc) := Write sc p (werr fuel) in (n, mkBufWriter (bw_buf bw) err, sc, out)
          else
            let n := Z.min (Available bw) #p in
            let '(_, bw, sc, out) := Flush (werr fuel) (mkBufWriter (bw_buf bw ++ take (Z.to_nat n) p) (bw_err bw)) sc in
            (n, bw, sc, out) in
        let '(p, nn, bw, sc, out') := bw_loop fuel werr (drop (Z.to_nat n) p) (nn + n) bw sc in
        (p, nn, bw, sc, out ++ out')
      else (p, nn, bw, sc, [])
  end.

Definition bw_Write (werr : nat -> nat -> option error) (p : bytes) (bw : bufWriter) (sc : SecretConnection)
    : Z * option error * bufWriter * SecretConnection * bytes :=
  let '(p, nn, bw, sc, out) := bw_loop (S (length p)) werr p 0 bw sc in
  match bw_err bw with
  | Some e => (nn, Some e, bw, sc, out)
  | None => (nn + #p, None, mkBufWriter (bw_buf bw ++ p) None, sc, out)
  end.

(** [Read] of a buffer of [len] bytes: what was read, the error, and the states. *)
Definition br_Read (len : Z) (br : bufReader) (sc : SecretConnection) (input : bytes)
    : bytes * option error * bufReader * SecretConnection * bytes :=
  let copy br sc input :=
    (take (Z.to_nat len) (br_buf br), None, mkBufReader (drop (Z.to_nat len) (br_buf br)) (br_err br), sc, input) in
  if #(br_buf br) =? 0 then
    match br_err br with
    | Some e => ([], Some e, mkBufReader [] None, sc, input)
    | None =>
        if len =? 0 then ([], None, br, sc, input)
        else if minReadBufferSize <=? len then
          let '(n, err, data, sc, input) := Read sc (replicate (Z.to_nat len) 0) input in
          (take (Z.to_nat n) data, err, br, sc, input)
        else
          let '(n, err, data, sc, input) := Read sc (replicate (Z.to_nat minReadBufferSize) 0) input in
          if n =? 0 then ([], err, br, sc, input)
          else copy (mkBufReader (take (Z.to_nat n) data) err) sc input
    end
  else copy br sc input.

(** [io.ReadFull] with [want] bytes missing; [None] when the fuel is used up by reads of nothing. *)
Fixpoint io_ReadFull (fuel : nat) (got : bytes) (want : Z) (br : bufReader) (sc : SecretConnection) (input : bytes)
    : option (bytes * option error * bufReader * SecretConnection * bytes) :=
  if want <=? 0 then Some (got, None, br, sc, input)
  else match fuel with
  | O => None
  | S fuel =>
      let '(b, err, br, sc, input) := br_Read want br sc input in
      match err with
      | Some e =>
          let got := got ++ b in
          if want - #b <=? 0 then Some (got, None, br, sc, input)
          else if bool_decide (e = EOF) && (0 <? #got) then Some (got, Some ErrUnexpectedEOF, br, sc, input)
          else Some (got, Some e, br, sc, input)
      | None => io_ReadFull fuel (got ++ b) (want - #b) br sc input
      end
  end.

(** [MConnection.flush] only logs the error. *)
Definition flush (werr : nat -> option error) (bw : bufWriter) (sc : SecretConnection) : bufWriter * SecretConnection * bytes :=
  let '(_, bw, sc, out) := Flush werr bw sc in (bw, sc, out).

(** ** One direction of a connection *)
(** The writer with its end, the bytes that the network has taken and not delivered, the reader
    with its end. *)
Record link := mkLink { l_bw : bufWriter; l_snd : SecretConnection; l_net : bytes; l_rcv : SecretConnection; l_br : bufReader }.

Inductive link_op := LWrite (p : bytes) | LFlush | LRead (n : nat).

(** A network that takes every frame and is not closed: a read that it does not deliver enough for
    waits ([None]). *)
Definition link_step (o : link_op) (l : link) : option (bytes * link) :=
  match o with
  | LWrite p =>
      let '(_, err, bw, sc, out) := bw_Write (fun _ _ => None) p (l_bw l) (l_snd l) in
      match err with
      | Some _ => None
      | None => Some ([], mkLink bw sc (l_net l ++ out) (l_rcv l) (l_br l))
      end
  | LFlush =>
      let '(bw, sc, out) := flush (fun _ => None) (l_bw l) (l_snd l) in
      Some ([], mkLink bw sc (l_net l ++ out) (l_rcv l) (l_br l))
  | LRead n =>
      r ← io_ReadFull n [] (Z.of_nat n) (l_br l) (l_rcv l) (l_net l);
      match r with
      | (b, None, br, sc, net) => Some (b, mkLink (l_bw l) (l_snd l) net sc br)
      | (_, Some _, _, _, _) => None
      end
  end.

Fixpoint link_run (os : list link_op) (l : link) : option (bytes * link) :=
  match os with
  | [] => Some ([], l)
  | o :: os => '(b, l) ← link_step o l; '(b', l) ← link_run os l; Some (b ++ b', l)
  end.

Definition written_by (os : list link_op) : bytes :=
  mjoin ((fun o => match o with LWrite p => p | _ => [] end) <$> os).

(** The ends after the handshake, the buffers empty. *)
Definition fresh_link (s r : SecretConnection) : link := mkLink NewWriterSize s [] r NewReaderSize.
End link.

(** ** What is on the way *)
Section on_the_way.
Context `{CryptoLaws}.

(** The network holds the frames of these chunks, which the receiver opens one after the other;
    after them the ends are paired. *)
Definition carries (cs : list bytes) (s : SecretConnection) (net : bytes) (r : SecretConnection) : Prop :=
  Forall (fun c => 0 < #c <= dataMaxSize) cs /\
  exists s0, paired s0 r /\ net = (seal_all s0 cs).1 /\ (seal_all s0 cs).2 = s.

Lemma seal_all_app l : forall s l', seal_all s (l ++ l') =
  ((seal_all s l).1 ++ (seal_all (seal_all s l).2 l').1, (seal_all (seal_all s l).2 l').2).
Proof.
  induction l as [|c l IH]; intros s l'; cbn [app seal_all fst snd]; [by destruct (seal_all s l')|].
  rewrite IH. cbn [fst snd]. by rewrite <- app_assoc.
Qed.

Lemma carries_nil s r : paired s r -> carries [] s [] r.
Proof. intros Hp. split; [done|]. by exists s. Qed.

(** Writing to the connection puts more chunks on the way. *)
Lemma Write_carries cs s net r p : carries cs s net r ->
  exists ds s' out, Write s p (fun _ => None) = (#p, None, out, s') /\ carries (cs ++ ds) s' (net ++ out) r /\ mjoin ds = p.
Proof.
  intros (Hf & s0 & Hp & -> & <-). destruct (chunks_spec (length p) p ltac:(lia)) as [Hj Hfc].
  eexists (chunks (length p) p), _, _. unfold Write. rewrite write_loop_spec, Z.add_0_l by done. split; [done|]. split; [|done].
  split; [by apply Forall_app|]. exists s0. by rewrite seal_all_app.
Qed.

(** A read of the connection with a buffer that holds a frame's data takes one chunk. *)
Lemma Read_carries c cs s net r len : carries (c :: cs) s net r -> dataMaxSize <= Z.of_nat len ->
  exists data r' net', Read r (replicate len 0) net = (#c, None, data, r', net') /\ take (length c) data = c /\ carries cs s net' r'.
Proof.
  intros (Hf & s0 & Hp & -> & Hs) Hl. apply Forall_cons_1 in Hf as [Hc Hf]. cbn [seal_all fst snd] in *.
  rewrite (Read_frame s0) by (assumption || lia).
  destruct (go_copy_whole (replicate len 0) c) as [-> E]; [rewrite length_replicate; clear -Hc Hl; unfold zlen in Hc; lia|].
  eexists _, _, _. split; [reflexivity|]. split; [exact E|]. split; [done|].
  eexists. split; [|by split; [|exact Hs]]. rewrite drop_all.
  destruct Hp as (H1 & H2 & H3). split; [exact (f_equal incr2Nonce H1)|split; [exact H2|reflexivity]].
Qed.

(** With nothing on the way a read finds nothing. *)
Lemma Read_nothing s net r data : carries [] s net r -> Read r data net = (0, Some EOF, data, r, []).
Proof. intros (_ & s0 & (_ & _ & Hb) & -> & _). unfold Read. by rewrite Hb. Qed.

(** *** The reader *)
(** What can be read: the buffer, then the chunks on the way. *)
Definition readable (cs : list bytes) (br : bufReader) : bytes := br_buf br ++ mjoin cs.

(** A read gives as much as its buffer or one chunk holds, and at least one byte. *)
Lemma br_Read_ok len cs s net r br : 0 < len -> br_err br = None -> carries cs s net r -> readable cs br <> [] ->
  exists b br' r' net' cs', br_Read len br r net = (b, None, br', r', net') /\ br_err br' = None /\ carries cs' s net' r' /\
    readable cs br = b ++ readable cs' br' /\ 0 < #b <= len.
Proof.
  intros Hl He Hc Hne. unfold br_Read, readable in *. destruct (Z.eqb_spec #(br_buf br) 0) as [Hz|Hz].
  - assert (br_buf br = []) as Hbuf by (destruct (br_buf br); [done|unfold zlen in Hz; cbn in Hz; lia]).
    rewrite Hbuf in *. cbn [app] in *. rewrite He. rewrite (proj2 (Z.eqb_neq len 0)) by lia.
    destruct cs as [|c cs]; [done|]. pose proof Hc as [Hf _]. apply Forall_cons_1 in Hf as [Hcl _].
    rewrite mjoin_cons. destruct (Z.leb_spec minReadBufferSize len).
    + destruct (Read_carries c cs s net r (Z.to_nat len)) as (data & r' & net' & -> & Ht & Hc'); [done|unfold minReadBufferSize, dataMaxSize in *; lia|].
      exists c, br, r', net', cs. rewrite Hbuf. cbn [app]. unfold zlen at 1. rewrite Nat2Z.id, Ht.
      split_and!; try done; unfold minReadBufferSize, dataMaxSize in *; lia.
    + destruct (Read_carries c cs s net r (Z.to_nat minReadBufferSize)) as (data & r' & net' & -> & Ht & Hc');
        [done|unfold minReadBufferSize, dataMaxSize; lia|].
      rewrite (proj2 (Z.eqb_neq #c 0)) by lia. cbn [br_buf br_err]. unfold zlen at 1 2. rewrite !Nat2Z.id, Ht.
      eexists _, _, r', net', cs. split; [reflexivity|]. cbn [br_buf br_err].
      split_and!; try done; [by rewrite app_assoc, take_drop|..]; rewrite zlen_take; lia.
  - eexists _, _, r, net, cs. split; [reflexivity|]. cbn [br_buf br_err].
    pose proof (zlen_nonneg (br_buf br)). split_and!; try done; [by rewrite app_assoc, take_drop|..]; rewrite zlen_take; lia.
Qed.

(** Nothing to read. *)
Lemma br_Read_nothing len cs s net r br : 0 < len -> br_err br = None -> carries cs s net r -> readable cs br = [] ->
  exists b br' r' net', br_Read len br r net = (b, Some EOF, br', r', net') /\ b = [].
Proof.
  intros Hl He Hc Hn. unfold readable in Hn. apply app_nil in Hn as [Hbuf Hj]. unfold br_Read. rewrite Hbuf.
  assert (cs = []) as ->.
  { destruct cs as [|c cs]; [done|]. destruct Hc as [Hf _]. apply Forall_cons_1 in Hf as [Hcl _]. rewrite mjoin_cons in Hj.
    apply app_nil in Hj as [-> _]. unfold zlen in Hcl. cbn in Hcl. lia. }
  change (zlen (@nil Z) =? 0) with true. cbv iota. rewrite He, (proj2 (Z.eqb_neq len 0)) by lia. rewrite !(Read_nothing s) by done.
  destruct (minReadBufferSize <=? len); by eexists _, _, _, _.
Qed.

(** [io.ReadFull] gives the next bytes if there are as many; else it would wait. *)
Lemma io_ReadFull_spec fuel : forall got want cs s net r br, (Z.to_nat want <= fuel)%nat -> br_err br = None -> carries cs s net r ->
  (want <= #(readable cs br) -> exists br' r' net' cs',
    io_ReadFull fuel got want br r net = Some (got ++ take (Z.to_nat want) (readable cs br), None, br', r', net') /\
    br_err br' = None /\ carries cs' s net' r' /\ readable cs' br' = drop (Z.to_nat want) (readable cs br)) /\
  (#(readable cs br) < want -> exists b e br' r' net', io_ReadFull fuel got want br r net = Some (b, Some e, br', r', net')).
Proof.
  induction fuel as [|fuel IH]; intros got want cs s net r br Hfu He Hc; cbn [io_ReadFull].
  { pose proof (zlen_nonneg (readable cs br)). rewrite (proj2 (Z.leb_le want 0)) by lia. split; [|lia]. intros _.
    assert (Z.to_nat want = 0%nat) as -> by lia. exists br, r, net, cs. by rewrite take_0, app_nil_r, drop_0. }
  destruct (Z.leb_spec want 0).
  { pose proof (zlen_nonneg (readable cs br)). split; [|lia]. intros _.
    assert (Z.to_nat want = 0%nat) as -> by lia. exists br, r, net, cs. by rewrite take_0, app_nil_r, drop_0. }
  destruct (decide (readable cs br = [])) as [Hn|Hn].
  - destruct (br_Read_nothing want cs s net r br) as (b & br' & r' & net' & -> & ->); try done. rewrite Hn. split; [unfold zlen; cbn; lia|].
    intros _. rewrite Z.sub_0_r, (proj2 (Z.leb_gt want 0)) by (unfold zlen; cbn; lia).
    destruct (bool_decide (EOF = EOF) && (0 <? #(got ++ []))); by eexists _, _, _, _, _.
  - destruct (br_Read_ok want cs s net r br) as (b & br' & r' & net' & cs' & -> & He' & Hc' & Hr & Hb); try done.
    destruct (IH (got ++ b) (want - #b) cs' s net' r' br') as [Hok Hbad]; [lia|done|done|]. rewrite Hr, zlen_app.
    assert (Z.to_nat want = length b + Z.to_nat (want - #b))%nat as Hw by zlia. split; intros Hle.
    + destruct Hok as (br2 & r2 & net2 & cs2 & -> & He2 & Hc2 & Hr2); [lia|]. exists br2, r2, net2, cs2.
      rewrite Hw, <- app_assoc, take_app_add, drop_app_add. split_and!; [done..|by rewrite Hr2].
    + apply Hbad. lia.
Qed.

(** *** The writer *)
Definition bw_ok (bw : bufWriter) : Prop := bw_err bw = None /\ #(bw_buf bw) <= minWriteBufferSize.

(** Flushing puts the buffer on the way. *)
Lemma Flush_ok cs s net r bw : bw_err bw = None -> carries cs s net r ->
  exists ds s' out, Flush (fun _ => None) bw s = (None, NewWriterSize, s', out) /\
    carries (cs ++ ds) s' (net ++ out) r /\ mjoin ds = bw_buf bw.
Proof.
  intros He Hc. unfold Flush. rewrite He. destruct (Z.eqb_spec #(bw_buf bw) 0) as [Hz|Hz].
  - exists [], s, []. destruct bw as [buf err]. cbn in *. subst err.
    assert (buf = []) as -> by (destruct buf; [done|unfold zlen in Hz; cbn in Hz; lia]). by rewrite !app_nil_r.
  - destruct (Write_carries cs s net r (bw_buf bw) Hc) as (ds & s' & out & -> & Hc' & Hj). rewrite Z.ltb_irrefl.
    by exists ds, s', out.
Qed.

(** The loop ends when the rest of the data fits into the buffer. *)
Lemma bw_loop_fits fuel p nn bw s : #p <= Available bw -> bw_loop fuel (fun _ _ => None) p nn bw s = (p, nn, bw, s, []).
Proof. intros Hp. destruct fuel; cbn [bw_loop]; [done|]. by rewrite (proj2 (Z.ltb_ge _ _)). Qed.

Lemma Available_empty : Available NewWriterSize = minWriteBufferSize.
Proof. done. Qed.

(** A round with an empty buffer writes all the data. *)
Lemma bw_loop_large fuel p nn s cs net r : minWriteBufferSize < #p -> carries cs s net r ->
  exists ds s' out, bw_loop (S fuel) (fun _ _ => None) p nn NewWriterSize s = ([], nn + #p, NewWriterSize, s', out) /\
    carries (cs ++ ds) s' (net ++ out) r /\ mjoin ds = p.
Proof.
  intros Hp Hc. cbn [bw_loop]. unfold Available at 1. cbn [bw_buf bw_err NewWriterSize]. rewrite zlen_nil, Z.sub_0_r.
  rewrite (proj2 (Z.ltb_lt _ _)), bool_decide_true by done. cbn [andb]. change (0 =? 0) with true. cbv iota.
  destruct (Write_carries cs s net r p Hc) as (ds & s' & out & -> & Hc' & Hj). unfold zlen at 1. rewrite Nat2Z.id, drop_all.
  change (mkBufWriter [] None) with NewWriterSize. rewrite bw_loop_fits by (rewrite Available_empty, zlen_nil; unfold minWriteBufferSize; lia).
  rewrite app_nil_r. by exists ds, s', out.
Qed.

Lemma bw_loop_ok fuel p bw s cs net r : bw_ok bw -> carries cs s net r ->
  exists p' bw' s' out ds, bw_loop (S (S fuel)) (fun _ _ => None) p 0 bw s = (p', #p - #p', bw', s', out) /\
    bw_err bw' = None /\ #p' <= Available bw' /\ carries (cs ++ ds) s' (net ++ out) r /\
    mjoin ds ++ bw_buf bw' ++ p' = bw_buf bw ++ p.
Proof.
  intros [He Hb] Hc. destruct (Z.ltb_spec (Available bw) #p) as [Hlt|Hge].
  2: { exists p, bw, s, [], []. rewrite bw_loop_fits, Z.sub_diag, !app_nil_r by done. by split_and!. }
  destruct (Z.eqb_spec #(bw_buf bw) 0) as [Hz|Hz].
  - destruct bw as [buf err]. cbn in He, Hz. subst err. assert (buf = []) as -> by (destruct buf; [done|unfold zlen in Hz; cbn in Hz; lia]).
    destruct (bw_loop_large (S fuel) p 0 s cs net r) as (ds & s' & out & Hw & Hc' & Hj); [by unfold Available in Hlt; cbn in Hlt; rewrite zlen_nil, Z.sub_0_r in Hlt|done|].
    exists [], NewWriterSize, s', out, ds. change (mkBufWriter [] None) with NewWriterSize. rewrite Hw, Available_empty.
    change (zlen (@nil Z)) with 0. rewrite Z.sub_0_r, !app_nil_r. by split_and!.
  - remember (S fuel) as f eqn:Ef. cbn [bw_loop]. rewrite (proj2 (Z.ltb_lt _ _) Hlt), He, bool_decide_true by done. cbn [andb].
    rewrite (proj2 (Z.eqb_neq _ _) Hz), Z.min_l by lia.
    destruct (Flush_ok cs s net r (mkBufWriter (bw_buf bw ++ take (Z.to_nat (Available bw)) p) None)) as (ds & s1 & out1 & -> & Hc1 & Hj1); [done|done|].
    set (p1 := drop (Z.to_nat (Available bw)) p). cbn [bw_buf] in Hj1.
    assert (bw_buf bw ++ p = mjoin ds ++ p1) as -> by (rewrite Hj1, <- app_assoc; unfold p1; by rewrite take_drop).
    assert (#p1 = #p - Available bw) as Hl1 by (unfold p1; rewrite zlen_drop; unfold Available in *; lia).
    destruct (Z.ltb_spec minWriteBufferSize #p1) as [Hbig|Hsmall].
    + subst f. destruct (bw_loop_large fuel p1 (0 + Available bw) s1 (cs ++ ds) (net ++ out1) r Hbig Hc1) as (ds2 & s2 & out2 & -> & Hc2 & Hj2).
      exists [], NewWriterSize, s2, (out1 ++ out2), (ds ++ ds2). change (zlen (@nil Z)) with 0.
      rewrite Hl1, !app_assoc, join_app, Hj2, Available_empty, !app_nil_r. split_and!; try done. do 4 f_equal. lia.
    + rewrite bw_loop_fits by (rewrite Available_empty; lia).
      exists p1, NewWriterSize, s1, out1, ds. rewrite app_nil_r. cbn [bw_buf NewWriterSize app].
      split_and!; try done. do 4 f_equal. lia.
Qed.

(** A write is buffered or put on the way, in order, and reports all of the data. *)
Lemma bw_Write_ok p bw s cs net r : bw_ok bw -> carries cs s net r ->
  exists bw' s' out ds, bw_Write (fun _ _ => None) p bw s = (#p, None, bw', s', out) /\ bw_ok bw' /\
    carries (cs ++ ds) s' (net ++ out) r /\ mjoin ds ++ bw_buf bw' = bw_buf bw ++ p.
Proof.
  intros Hok Hc. unfold bw_Write.
  assert (exists p' bw' s' out ds, bw_loop (S (length p)) (fun _ _ => None) p 0 bw s = (p', #p - #p', bw', s', out) /\
    bw_err bw' = None /\ #p' <= Available bw' /\ carries (cs ++ ds) s' (net ++ out) r /\
    mjoin ds ++ bw_buf bw' ++ p' = bw_buf bw ++ p) as (p' & bw' & s' & out & ds & -> & He & Hp & Hc' & Hj).
  { destruct p as [|x p]; [|by apply bw_loop_ok]. exists [], bw, s, [], [].
    rewrite bw_loop_fits by (destruct Hok; unfold Available; rewrite zlen_nil; lia). rewrite !app_nil_r.
    destruct Hok. split_and!; try done. unfold Available. rewrite zlen_nil. lia. }
  rewrite He. eexists _, _, _, ds. split; [do 4 f_equal; lia|]. cbn [bw_buf]. split_and!; [|done|done].
  split; [done|]. cbn [bw_buf]. rewrite zlen_app. unfold Available in Hp. lia.
Qed.
End on_the_way.

(** ** The stream *)
Section stream.
Context `{CryptoLaws}.

Definition link_inv (cs : list bytes) (l : link) : Prop :=
  bw_ok (l_bw l) /\ carries cs (l_snd l) (l_net l) (l_rcv l) /\ br_err (l_br l) = None.

Definition op_data (o : link_op) : bytes := match o with LWrite p => p | _ => [] end.

(** Every operation but a read of more than is on the way goes on, and keeps the bytes in their order. *)
Lemma link_step_ok o cs l : link_inv cs l -> (forall n, o = LRead n -> Z.of_nat n <= #(readable cs (l_br l))) ->
  exists b cs' l', link_step o l = Some (b, l') /\ link_inv cs' l' /\
    b ++ readable cs' (l_br l') ++ bw_buf (l_bw l') = readable cs (l_br l) ++ bw_buf (l_bw l) ++ op_data o /\
    match o with
    | LWrite _ => b = []
    | LFlush => b = [] /\ bw_buf (l_bw l') = []
    | LRead n => b = take n (readable cs (l_br l))
    end.
Proof.
  intros (Hbw & Hc & Hbr) Hn. destruct o as [p| |n]; cbn [link_step op_data].
  - destruct (bw_Write_ok p (l_bw l) _ cs _ _ Hbw Hc) as (bw' & s' & out & ds & -> & Hbw' & Hc' & Hj).
    eexists _, (cs ++ ds), _. split; [reflexivity|]. split; [by split_and!|]. split; [|done]. cbn [l_br l_bw app].
    unfold readable. rewrite join_app, <- !app_assoc. by rewrite Hj.
  - unfold flush. destruct Hbw as [He Hb]. destruct (Flush_ok cs (l_snd l) (l_net l) (l_rcv l) (l_bw l) He Hc) as (ds & s' & out & -> & Hc' & Hj).
    eexists _, (cs ++ ds), _. split; [reflexivity|]. split; [by split_and!|]. split; [|done]. cbn [l_br l_bw app bw_buf NewWriterSize].
    unfold readable. by rewrite join_app, Hj, !app_nil_r, <- !app_assoc.
  - destruct (io_ReadFull_spec n [] (Z.of_nat n) cs _ _ _ _ ltac:(lia) Hbr Hc) as [Hok _].
    destruct (Hok (Hn n eq_refl)) as (br' & r' & net' & cs' & -> & He' & Hc' & Hr). rewrite Nat2Z.id in *. cbn [mbind option_bind app].
    eexists _, cs', _. split; [reflexivity|]. split; [by split_and!|]. split; [|done]. cbn [l_br l_bw].
    by rewrite Hr, app_nil_r, app_assoc, take_drop.
Qed.

Lemma link_read_waits n cs l : link_inv cs l -> #(readable cs (l_br l)) < Z.of_nat n -> link_step (LRead n) l = None.
Proof.
  intros (_ & Hc & Hbr) Hn. cbn [link_step].
  destruct (io_ReadFull_spec n [] (Z.of_nat n) cs _ _ _ _ ltac:(lia) Hbr Hc) as [_ Hbad].
  destruct (Hbad Hn) as (b & e & br' & r' & net' & ->). done.
Qed.

Lemma link_read_bw n l b l' : link_step (LRead n) l = Some (b, l') -> l_bw l' = l_bw l.
Proof.
  cbn [link_step]. destruct (io_ReadFull _ _ _ _ _ _) as [[[[[b0 [e|]] br] sc] net]|]; cbn; [done| |done]. by intros [= _ <-].
Qed.

Lemma link_run_ok os : forall cs l outs l', link_inv cs l -> link_run os l = Some (outs, l') ->
  exists cs', link_inv cs' l' /\
    outs ++ readable cs' (l_br l') ++ bw_buf (l_bw l') = readable cs (l_br l) ++ bw_buf (l_bw l) ++ written_by os.
Proof.
  induction os as [|o os IH]; intros cs l outs l' Hi Hr; cbn [link_run] in Hr.
  { injection Hr as <- <-. exists cs. by rewrite app_nil_r. }
  destruct (link_step o l) as [[b l1]|] eqn:Es; [|done]. cbn [mbind option_bind] in Hr.
  destruct (link_run os l1) as [[b' l2]|] eqn:Er; [|done]. cbn [mbind option_bind] in Hr. injection Hr as <- <-.
  destruct (link_step_ok o cs l Hi) as (b1 & cs1 & l1' & Es' & Hi1 & Hj1 & _).
  { intros n ->. destruct (Z.ltb_spec #(readable cs (l_br l)) (Z.of_nat n)) as [Hlt|]; [|done].
    by rewrite (link_read_waits n cs l Hi Hlt) in Es. }
  rewrite Es in Es'. injection Es' as <- <-. destruct (IH cs1 l1 b' l2 Hi1 Er) as (cs2 & Hi2 & Hj2). exists cs2. split; [done|].
  change (written_by (o :: os)) with (op_data o ++ written_by os). rewrite <- app_assoc, Hj2.
  rewrite !app_assoc in Hj1. by rewrite !app_assoc, Hj1.
Qed.

(** C5: Over an encrypted connection whose network delivers every frame, writing, flushing and
    reading, in whatever sizes and order, is a stream of bytes: what has been read, what is on
    the way and what the writer still buffers is what was written, in its order.  A read of
    any number of bytes gives the next ones if as many are on the way and waits otherwise, a
    write never fails, and after a flush everything that was written and not yet read is on
    the way. *)
Theorem link_stream (s r : SecretConnection) (os : list link_op) (outs : bytes) (l : link) :
  paired s r -> link_run os (fresh_link s r) = Some (outs, l) ->
  exists transit, outs ++ transit ++ bw_buf (l_bw l) = written_by os /\
    #(bw_buf (l_bw l)) <= minWriteBufferSize /\
    (forall n, (n <= length transit)%nat -> exists l', link_step (LRead n) l = Some (take n transit, l')) /\
    (forall n, (length transit < n)%nat -> link_step (LRead n) l = None) /\
    (forall p, exists l', link_step (LWrite p) l = Some ([], l')) /\
    exists l', link_step LFlush l = Some ([], l') /\ bw_buf (l_bw l') = [] /\
      forall n, (n <= length (transit ++ bw_buf (l_bw l)))%nat -> exists l'', link_step (LRead n) l' = Some (take n (transit ++ bw_buf (l_bw l)), l'').
Proof.
  intros Hp Hr.
  assert (link_inv [] (fresh_link s r)) as Hi0.
  { split; [by split; cbn; [|rewrite zlen_nil; unfold minWriteBufferSize; lia]|]. split; [by apply carries_nil|done]. }
  destruct (link_run_ok os [] _ outs l Hi0 Hr) as (cs & Hi & Hj). exists (readable cs (l_br l)).
  split; [by rewrite Hj|]. split; [apply Hi|]. split; [|split; [|split]].
  - intros n Hn. destruct (link_step_ok (LRead n) cs l Hi) as (b & cs' & l' & Hs & _ & _ & ->); [intros n' [= <-]; zlia|by exists l'].
  - intros n Hn. apply (link_read_waits n cs l Hi). zlia.
  - intros p. destruct (link_step_ok (LWrite p) cs l Hi) as (b & cs' & l' & Hs & _ & _ & ->); [done|by exists l'].
  - destruct (link_step_ok LFlush cs l Hi) as (b & cs' & l' & Hs & Hi' & Hj' & -> & Hb); [done|]. exists l'. split; [done|]. split; [done|].
    cbn [op_data app] in Hj'. rewrite Hb, !app_nil_r in Hj'. intros n Hn. rewrite <- Hj' in *.
    destruct (link_step_ok (LRead n) cs' l' Hi') as (b & cs2 & l2 & Hs2 & _ & _ & ->); [intros n' [= <-]; zlia|by exists l2].
Qed.
End stream.

(** *** A concrete stream *)
(** A message of 2500 bytes is written and flushed, and read in parts that do not match its
    frames: one byte, and then 1500. *)
Definition ex_message : bytes := replicate 1500 9 ++ replicate 1000 8.

Lemma link_stream_witness : exists l1 l2 l3 l4,
  @link_step plain_crypto (LWrite ex_message) (fresh_link sc_pair sc_pair) = Some ([], l1) /\
  @link_step plain_crypto LFlush l1 = Some ([], l2) /\
  @link_step plain_crypto (LRead 1) l2 = Some ([9], l3) /\
  @link_step plain_crypto (LRead 1500) l3 = Some (replicate 1499 9 ++ [8], l4).
Proof.
  assert (@paired sc_pair sc_pair) as Hp by (repeat split).
  destruct (@link_stream plain_crypto plain_crypto_laws sc_pair sc_pair [] [] _ Hp eq_refl) as (_ & _ & _ & _ & _ & Hw & _).
  destruct (Hw ex_message) as [l1 H1].
  destruct (@link_stream plain_crypto plain_crypto_laws sc_pair sc_pair [LWrite ex_message] [] l1 Hp) as (t1 & E1 & _ & _ & _ & _ & l2 & H2 & Hb2 & Hr2).
  { cbn [link_run]. rewrite H1. reflexivity. }
  cbn [app] in E1. rewrite E1 in Hr2. destruct (Hr2 1%nat) as [l3 H3]; [vm_compute; lia|].
  destruct (@link_stream plain_crypto plain_crypto_laws sc_pair sc_pair [LWrite ex_message; LFlush; LRead 1] [9] l3 Hp) as (t3 & E3 & _ & Hr3 & _).
  { cbn [link_run]. rewrite H1. cbn [mbind option_bind]. rewrite H2. cbn [mbind option_bind]. rewrite H3. reflexivity. }
  rewrite (link_read_bw _ _ _ _ H3), Hb2, app_nil_r in E3.
  assert (t3 = replicate 1499 9 ++ replicate 1000 8) as -> by (apply (app_inv_head [9]); rewrite E3; reflexivity).
  destruct (Hr3 1500%nat) as [l4 H4]; [apply Nat.leb_le; vm_compute; reflexivity|]. exists l1, l2, l3, l4.
  split; [exact H1|]. split; [exact H2|]. split; [exact H3|]. rewrite H4. reflexivity.
Defined.
