(* ===== verification/Stack.v ===== *)
(** * A pair of connections over the encrypted stream

    ConnDelivery.v lets two multiplexed connections exchange bytes directly, and Link.v shows
    that one direction of buffers and encrypted frames is a stream.  Here the two are put together as
    a peer has them: each end has one [SecretConnection], which both its send and its receive
    routine use, a [bufio.Writer] and a [bufio.Reader].  Every step of this system is a step of
    the one in ConnDelivery.v, so that what is shown there holds of the whole stack. *)
From S2P Require Import Prelude Errors GoLib SecretConn Link Connection ConnDelivery.

(** ** Reading with go-wire *)
(** How a decoder reads: [n] bytes by [io.ReadFull], and then as what it has read tells. *)
Inductive reading :=
| reading_done
| reading_of (n : nat) (k : bytes -> reading).

(** On a list of bytes: what is read and what is left; [None] when there are too few. *)
Fixpoint feeds (rd : reading) (s : bytes) : option (bytes * bytes) :=
  match rd with
  | reading_done => Some ([], s)
  | reading_of n k =>
      if decide (n <= length s)%nat then
        '(b, r) ← feeds (k (take n s)) (drop n s);
        Some (take n s ++ b, r)
      else None
  end.

(** How [wire.ReadBinaryPtr] reads a packet: it asks for the bytes of the packet and no more. *)
Class WireReads `{Wire} := packet_reading : reading.
Class WireReadsLaws `{WireReads} := reads_packet p r : packet_ok p ->
  feeds packet_reading (write_packet p ++ r) = Some (write_packet p, r).

(** ** The ends *)
(** A connection with what its routines write and read through.  [e_net] is what the network has
    taken from this end and not delivered; the messages accepted and delivered as in
    ConnDelivery.v. *)
Record peer_end := mkEnd {
  e_conn : MConnection;
  e_bw : bufWriter;
  e_br : bufReader;
  e_sc : SecretConnection;
  e_net : bytes;
  e_accepted : list (Z * bytes);
  e_delivered : list (Z * bytes);
}.

(** [NewMConnectionWithConfig] on an encrypted connection. *)
Definition new_end (c : MConnection) (sc : SecretConnection) : peer_end :=
  mkEnd c NewWriterSize NewReaderSize sc [] [] [].

(** The direction from one end to the other. *)
Definition link_to (me peer : peer_end) : link :=
  mkLink (e_bw me) (e_sc me) (e_net me) (e_sc peer) (e_br peer).

Definition set_conn (c : MConnection) (e : peer_end) : peer_end :=
  mkEnd c (e_bw e) (e_br e) (e_sc e) (e_net e) (e_accepted e) (e_delivered e).
Definition log_accepted (l : list (Z * bytes)) (e : peer_end) : peer_end :=
  mkEnd (e_conn e) (e_bw e) (e_br e) (e_sc e) (e_net e) (e_accepted e ++ l) (e_delivered e).
Definition log_delivered (l : list (Z * bytes)) (e : peer_end) : peer_end :=
  mkEnd (e_conn e) (e_bw e) (e_br e) (e_sc e) (e_net e) (e_accepted e) (e_delivered e ++ l).
(** What is left of a direction at its writing end, and at its reading end. *)
Definition set_writer (l : link) (e : peer_end) : peer_end :=
  mkEnd (e_conn e) (l_bw l) (e_br e) (l_snd l) (l_net l) (e_accepted e) (e_delivered e).
Definition set_reader (l : link) (e : peer_end) : peer_end :=
  mkEnd (e_conn e) (e_bw e) (l_br l) (l_rcv l) (e_net e) (e_accepted e) (e_delivered e).

(** The cases of the send routine that flush; what a packet leaves in the buffer waits for the
    throttled flush. *)
Definition flushes (k : send_case) : list link_op :=
  match k with case_flush | case_ping _ | case_pong _ => [LFlush] | _ => [] end.

Section stack.
Context `{Crypto, WireReads}.

Fixpoint link_reads (rd : reading) (l : link) : option (bytes * link) :=
  match rd with
  | reading_done => Some ([], l)
  | reading_of n k =>
      '(b, l) ← link_step (LRead n) l;
      '(b', l) ← link_reads (k b) l;
      Some (b ++ b', l)
  end.

(** An iteration of [recvRoutine] reads the type and, of a packet, the packet. *)
Definition receive_reading : reading :=
  reading_of 1 (fun t => if bool_decide (t = [packetTypeMsg]) then packet_reading else reading_done).

(** The calls of an end and the iterations of its routines.  An iteration of the send routine is given
    the pieces in which the wire library writes what it sends. *)
Inductive end_op :=
| end_Send (chID : Z) (msg : bytes) (timeout : bool)
| end_TrySend (chID : Z) (msg : bytes)
| end_sender (k : send_case) (pieces : list bytes)
| end_receive.

(** [None]: the step has to wait. *)
Definition end_step (me peer : peer_end) (o : end_op) : option (peer_end * peer_end) :=
  let call chID msg '(ok, c) :=
    (log_accepted (if ok : bool then [(chID, msg)] else []) (set_conn c me), peer) in
  match o with
  | end_Send chID msg timeout => call chID msg <$> Send (e_conn me) chID msg timeout
  | end_TrySend chID msg => Some (call chID msg (TrySend (e_conn me) chID msg))
  | end_sender k pieces =>
      r ← sendRoutine_step (e_conn me) k;
      if decide (mjoin pieces = written r.2) then
        '(_, l) ← link_run ((LWrite <$> pieces) ++ flushes k) (link_to me peer);
        Some (set_conn (take_written [] r.2) (set_writer l me), peer)
      else None
  | end_receive =>
      '(b, l) ← link_reads receive_reading (link_to peer me);
      r ← recvRoutine_step (e_conn me) b;
      Some (log_delivered (match r.1 with Received (Some m) _ => [m] | _ => [] end)
              (set_conn r.2 (set_reader l me)),
            set_writer l peer)
  end.

Definition swap_ends (s : peer_end * peer_end) : peer_end * peer_end := (s.2, s.1).

Definition stack_step (s : peer_end * peer_end) (o : bool * end_op) : option (peer_end * peer_end) :=
  if o.1 then end_step s.1 s.2 o.2 else swap_ends <$> end_step s.2 s.1 o.2.

Fixpoint stack_run (s : peer_end * peer_end) (l : list (bool * end_op)) : option (peer_end * peer_end) :=
  match l with
  | [] => Some s
  | o :: l => s ← stack_step s o; stack_run s l
  end.
End stack.

(** ** The two uses of an encrypted connection *)
(** Writing changes only the nonce for sending, reading only the nonce for receiving and the
    receive buffer: the routines do not disturb each other. *)
Definition same_send (s s' : SecretConnection) : Prop :=
  sendNonce s' = sendNonce s /\ shrSecret s' = shrSecret s.
Definition same_recv (r r' : SecretConnection) : Prop :=
  recvNonce r' = recvNonce r /\ recvBuffer r' = recvBuffer r /\ shrSecret r' = shrSecret r.

#[export] Instance same_send_pre : PreOrder same_send.
Proof. split; [by intros s|]. intros a b c [? ?] [? ?]. split; congruence. Qed.
#[export] Instance same_recv_pre : PreOrder same_recv.
Proof. split; [by intros s|]. intros a b c (? & ? & ?) (? & ? & ?). split_and!; congruence. Qed.

Section halves.
Context `{Crypto}.

Lemma write_loop_recv werr fuel : forall s data n, same_recv s (write_loop fuel s data n werr).2.
Proof.
  induction fuel as [|fuel IH]; intros s data n; cbn [write_loop]; [reflexivity|].
  case_on; [reflexivity|]. destruct (if dataMaxSize <? #data then _ else _) as [chunk data'].
  destruct (werr fuel); [by split_and!|].
  specialize (IH (set_sendNonce (incr2Nonce (sendNonce s)) s) data' (n + #chunk)).
  destruct (write_loop _ _ _ _ _) as [[[n' err] out] s']. exact IH.
Qed.

Lemma Flush_recv werr bw s : same_recv s (Flush werr bw s).1.2.
Proof.
  unfold Flush. destruct (bw_err bw); [reflexivity|]. case_on; [reflexivity|].
  pose proof (write_loop_recv werr (length (bw_buf bw)) s (bw_buf bw) 0) as Hw. unfold Write.
  destruct (write_loop _ _ _ _ _) as [[[n err] out] s']. by destruct (match err with None => _ | _ => _ end).
Qed.

Lemma bw_loop_recv werr fuel : forall p nn bw s, same_recv s (bw_loop fuel werr p nn bw s).1.2.
Proof.
  induction fuel as [|fuel IH]; intros p nn bw s; cbn [bw_loop]; [reflexivity|]. case_on; [|reflexivity].
  case_on.
  - pose proof (write_loop_recv (werr fuel) (length p) s p 0) as Hw. unfold Write.
    destruct (write_loop _ _ _ _ _) as [[[n err] out] s']. cbn [snd] in Hw.
    specialize (IH (drop (Z.to_nat n) p) (nn + n) (mkBufWriter (bw_buf bw) err) s').
    destruct (bw_loop _ _ _ _ _ _) as [[[[? ?] ?] s2] ?]. by etrans.
  - match goal with |- context [Flush ?w ?b s] => pose proof (Flush_recv w b s) as Hw; destruct (Flush w b s) as [[[e bw'] s'] out] end.
    cbn [snd fst] in Hw. match goal with |- context [bw_loop fuel werr ?p' ?n' bw' s'] => specialize (IH p' n' bw' s') end.
    destruct (bw_loop _ _ _ _ _ _) as [[[[? ?] ?] s2] ?]. by etrans.
Qed.

Lemma Read_send r data input : same_send r (Read r data input).1.2.
Proof.
  unfold Read. case_on; [by split|]. destruct (net_ReadFull _ _) as [[f e] i]. destruct e; [reflexivity|].
  destruct (Open _ _ _); [|reflexivity]. case_on; by split.
Qed.

Lemma br_Read_send len br r input : same_send r (br_Read len br r input).1.2.
Proof.
  unfold br_Read. generalize minReadBufferSize. intros m. destruct (#(br_buf br) =? 0); [|reflexivity].
  destruct (br_err br); [reflexivity|]. destruct (len =? 0); [reflexivity|]. destruct (m <=? len).
  - pose proof (Read_send r (replicate (Z.to_nat len) 0) input) as Hr. by destruct (Read _ _ _) as [[[[n e] dt] r'] i].
  - pose proof (Read_send r (replicate (Z.to_nat m) 0) input) as Hr. destruct (Read _ _ _) as [[[[n e] dt] r'] i].
    by destruct (n =? 0).
Qed.

Lemma io_ReadFull_send fuel : forall got want br r input res,
  io_ReadFull fuel got want br r input = Some res -> same_send r res.1.2.
Proof.
  induction fuel as [|fuel IH]; intros got want br r input res; cbn [io_ReadFull]; (case_on; [by intros [= <-]|]); [done|].
  pose proof (br_Read_send want br r input) as Hr. destruct (br_Read want br r input) as [[[[b err] br'] r'] i]. cbn [fst snd] in Hr.
  destruct err as [e|]; [|intros Hi; etrans; [exact Hr|by eapply IH]].
  repeat case_on; by intros [= <-].
Qed.

(** One step of a direction: what it leaves alone. *)
Definition writes_only (l l' : link) : Prop :=
  l_rcv l' = l_rcv l /\ l_br l' = l_br l /\ same_recv (l_snd l) (l_snd l').
Definition reads_only (l l' : link) : Prop :=
  l_snd l' = l_snd l /\ l_bw l' = l_bw l /\ same_send (l_rcv l) (l_rcv l').

#[export] Instance writes_only_pre : PreOrder writes_only.
Proof.
  split; [by intros l|]. intros a b c (? & ? & ?) (? & ? & ?). split_and!; [congruence..|by etrans].
Qed.
#[export] Instance reads_only_pre : PreOrder reads_only.
Proof.
  split; [by intros l|]. intros a b c (? & ? & ?) (? & ? & ?). split_and!; [congruence..|by etrans].
Qed.

Lemma link_step_only o l b l' : link_step o l = Some (b, l') ->
  match o with LRead _ => reads_only l l' | _ => writes_only l l' end.
Proof.
  destruct o as [p| |n]; cbn [link_step].
  - unfold bw_Write. pose proof (bw_loop_recv (fun _ _ => None) (S (length p)) p 0 (l_bw l) (l_snd l)) as Hw.
    destruct (bw_loop _ _ _ _ _ _) as [[[[p' nn] bw] s] out]. cbn [fst snd] in Hw.
    destruct (bw_err bw); [done|]. by intros [= _ <-].
  - unfold flush. pose proof (Flush_recv (fun _ => None) (l_bw l) (l_snd l)) as Hw.
    destruct (Flush _ _ _) as [[[e bw] s] out]. cbn [fst snd] in Hw. by intros [= _ <-].
  - destruct (io_ReadFull n [] (Z.of_nat n) (l_br l) (l_rcv l) (l_net l)) as [[[[[b0 e] br] r] i]|] eqn:E; [|done].
    apply io_ReadFull_send in E. cbn [mbind option_bind fst snd] in *. destruct e; [done|]. by intros [= _ <-].
Qed.

Lemma link_run_writes os : forall l b l', Forall (fun o => match o with LRead _ => False | _ => True end) os ->
  link_run os l = Some (b, l') -> writes_only l l'.
Proof.
  induction os as [|o os IH]; intros l b l' Ho; cbn [link_run]; [by intros [= _ <-]|].
  apply Forall_cons_1 in Ho as [Ho Hos]. destruct (link_step o l) as [[b1 l1]|] eqn:E; [|done]. cbn [mbind option_bind].
  destruct (link_run os l1) as [[b2 l2]|] eqn:E2; [|done]. cbn [mbind option_bind]. intros [= _ <-].
  apply link_step_only in E. etrans; [|by eapply IH]. by destruct o.
Qed.

Lemma link_reads_only rd : forall l b l', link_reads rd l = Some (b, l') -> reads_only l l'.
Proof.
  induction rd as [|n k IH]; intros l b l'; cbn [link_reads]; [by intros [= _ <-]|].
  destruct (link_step (LRead n) l) as [[b1 l1]|] eqn:E; [|done]. cbn [mbind option_bind].
  destruct (link_reads (k b1) l1) as [[b2 l2]|] eqn:E2; [|done]. cbn [mbind option_bind]. intros [= _ <-].
  apply link_step_only in E. etrans; [exact E|]. by eapply IH.
Qed.
End halves.

(** What is on the way does not depend on the other uses of the ends. *)
Section others.
Context `{CryptoLaws}.

Lemma seal_all_send l : forall s s', same_send s s' ->
  (seal_all s' l).1 = (seal_all s l).1 /\ same_send (seal_all s l).2 (seal_all s' l).2 /\
  same_recv s' (seal_all s' l).2 /\ remPubKey (seal_all s' l).2 = remPubKey s'.
Proof.
  induction l as [|c l IH]; intros s s' [Hn Hk]; cbn [seal_all fst snd]; [by split_and!|].
  destruct (IH (set_sendNonce (incr2Nonce (sendNonce s)) s) (set_sendNonce (incr2Nonce (sendNonce s')) s'))
    as (E1 & E2 & E3 & E4); [split; [exact (f_equal incr2Nonce Hn)|exact Hk]|]. rewrite E1. split_and!; [|done|exact E3|exact E4].
  unfold seal_frame. by rewrite Hn, Hk.
Qed.

Lemma carries_other cs s s' net r r' : carries cs s net r -> same_send s s' -> same_recv r r' -> carries cs s' net r'.
Proof.
  intros (Hf & s0 & (H1 & H2 & H3) & -> & <-) [Hn Hk] (R1 & R2 & R3). split; [done|].
  exists (mkSC (recvBuffer s') (recvNonce s') (sendNonce s0) (remPubKey s') (shrSecret s0)).
  destruct (seal_all_send cs s0 (mkSC (recvBuffer s') (recvNonce s') (sendNonce s0) (remPubKey s') (shrSecret s0)))
    as (-> & [E1 E2] & (E3 & E4 & E5) & E6); [by split|]. split; [split_and!; cbn; congruence|]. split; [done|].
  destruct (seal_all (mkSC _ _ _ _ _) cs).2 as [buf rn sn rk sh], s'. cbn in *. congruence.
Qed.

Lemma link_inv_other cs bw s s' net r r' br : link_inv cs (mkLink bw s net r br) -> same_send s s' -> same_recv r r' ->
  link_inv cs (mkLink bw s' net r' br).
Proof. intros (? & Hc & ?) Hs Hr. split; [done|]. split; [|done]. by eapply carries_other. Qed.
End others.

(** ** Reading from a direction *)
Lemma feeds_split rd : forall s b r, feeds rd s = Some (b, r) -> s = b ++ r.
Proof.
  induction rd as [|n k IH]; intros s b r; cbn [feeds]; [by intros [= <- <-]|]. case_decide; [|done].
  destruct (feeds _ _) as [[b' r']|] eqn:E; [|done]. cbn. intros [= <- <-]. apply IH in E.
  by rewrite <- app_assoc, <- E, take_drop.
Qed.

(** More bytes behind do not matter. *)
Lemma feeds_app rd t : forall s b r, feeds rd s = Some (b, r) -> feeds rd (s ++ t) = Some (b, r ++ t).
Proof.
  induction rd as [|n k IH]; intros s b r; cbn [feeds]; [by intros [= <- <-]|]. case_decide as Hn; [|done].
  rewrite decide_True by (rewrite length_app; lia). rewrite take_app_le, drop_app_le by done.
  destruct (feeds (k (take n s)) (drop n s)) as [[b' r']|] eqn:E; [|done]. cbn. intros [= <- <-].
  by rewrite (IH _ _ _ _ E).
Qed.

Section directions.
Context `{CryptoLaws}.

(** A decoder reads from a direction as from the bytes that are on the way. *)
Lemma link_reads_ok rd : forall cs l, link_inv cs l ->
  match feeds rd (readable cs (l_br l)) with
  | Some (b, rest) => exists cs' l', link_reads rd l = Some (b, l') /\ link_inv cs' l' /\ readable cs' (l_br l') = rest
  | None => link_reads rd l = None
  end.
Proof.
  induction rd as [|n k IH]; intros cs l Hi; cbn [feeds link_reads]; [by exists cs, l|].
  case_decide as Hn.
  - destruct (link_step_ok (LRead n) cs l Hi) as (b & cs1 & l1 & E & Hi1 & Hj & ->); [intros m [= <-]; zlia|].
    pose proof (link_step_only _ _ _ _ E) as (_ & Hbw & _). rewrite E. cbn [mbind option_bind].
    rewrite Hbw, app_nil_r, app_assoc in Hj. apply app_inv_tail in Hj.
    assert (readable cs1 (l_br l1) = drop n (readable cs (l_br l))) as Hd.
    { apply (app_inv_head (take n (readable cs (l_br l)))). by rewrite Hj, take_drop. }
    specialize (IH (take n (readable cs (l_br l))) cs1 l1 Hi1). rewrite Hd in IH.
    destruct (feeds _ _) as [[b' r']|]; [|by rewrite IH]. destruct IH as (cs2 & l2 & -> & Hi2 & Hr).
    cbn [mbind option_bind]. by exists cs2, l2.
  - by rewrite (link_read_waits n cs l Hi) by zlia.
Qed.

(** What is written in pieces, and flushed or not. *)
Lemma link_writes_ok pieces fl cs l : link_inv cs l -> fl = [] \/ fl = [LFlush] ->
  exists cs' l' b, link_run ((LWrite <$> pieces) ++ fl) l = Some (b, l') /\ link_inv cs' l' /\ writes_only l l' /\
    readable cs' (l_br l') ++ bw_buf (l_bw l') = readable cs (l_br l) ++ bw_buf (l_bw l) ++ mjoin pieces /\
    (fl = [LFlush] -> bw_buf (l_bw l') = []).
Proof.
  revert cs l. induction pieces as [|p pieces IH]; intros cs l Hi Hfl.
  - cbn [fmap list_fmap app]. destruct Hfl as [-> | ->]; cbn [link_run].
    + exists cs, l, []. rewrite app_nil_r. split; [done|]. split; [done|]. by split.
    + destruct (link_step_ok LFlush cs l Hi) as (b & cs' & l' & E & Hi' & Hj & -> & Hb); [done|].
      rewrite E. exists cs', l', []. split; [done|]. split; [done|]. split; [exact (link_step_only _ _ _ _ E)|]. by split.
  - cbn [fmap list_fmap app link_run].
    destruct (link_step_ok (LWrite p) cs l Hi) as (b & cs1 & l1 & E & Hi1 & Hj & ->); [done|]. rewrite E. cbn [mbind option_bind].
    destruct (IH cs1 l1 Hi1 Hfl) as (cs2 & l2 & b2 & -> & Hi2 & Hw & Hj2 & Hb). cbn [mbind option_bind].
    exists cs2, l2, ([] ++ b2). split; [done|]. split; [done|]. split; [etrans; [exact (link_step_only _ _ _ _ E)|done]|]. split; [|done].
    rewrite Hj2, mjoin_cons, !app_assoc. f_equal. cbn [app op_data] in Hj. by rewrite Hj, app_assoc.
Qed.
End directions.

(** ** What a connection has written *)
(** A connection whose writer has taken [w] before: the routines never look at it. *)
Definition on (w : bytes) (c : MConnection) : MConnection := take_written (w ++ written c) c.

Lemma on_nil c : on [] c = c.
Proof. by destruct c. Qed.
Lemma on_clear w c : written c = [] -> on w c = take_written w c.
Proof. intros E. unfold on. by rewrite E, app_nil_r. Qed.
Lemma on_write w b c : write_bytes b (on w c) = on w (write_bytes b c).
Proof. unfold write_bytes, on, take_written. cbn. by rewrite app_assoc. Qed.
Lemma on_stop w c e : stopForError (on w c) e = on w (stopForError c e).
Proof. unfold stopForError. cbn. by case_on. Qed.

Lemma on_Send w c id m timeout : Send (on w c) id m timeout = prod_map (fun b => b) (on w) <$> Send c id m timeout.
Proof.
  unfold Send. cbn. case_on; [done|]. change (find_channel (on w c) id) with (find_channel c id).
  destruct (find_channel c id) as [[i ch]|]; [|done]. destruct (sendBytes ch m timeout) as [[[] ?]|]; done.
Qed.
Lemma on_TrySend w c id m : TrySend (on w c) id m = prod_map (fun b => b) (on w) (TrySend c id m).
Proof.
  unfold TrySend. cbn. case_on; [done|]. change (find_channel (on w c) id) with (find_channel c id).
  destruct (find_channel c id) as [[i ch]|]; [|done]. by destruct (trySendBytes ch m) as [[] ?].
Qed.

Section written.
Context `{Wire}.

Lemma on_sendMsgPacket w c werr : sendMsgPacket (on w c) werr = prod_map (fun b => b) (on w) (sendMsgPacket c werr).
Proof.
  unfold sendMsgPacket. change (channels (on w c)) with (channels c).
  destruct (least_channel _ _ _ _) as [l [i|]]; [|done]. destruct (l !! i); [|done].
  destruct (writeMsgPacketTo _ _) as [[b|e] ch]; unfold prod_map; cbn [fst snd].
  - exact (f_equal (pair false) (on_write w b (with_channels (<[i:=ch]> l) (with_channels l c)))).
  - exact (f_equal (pair true) (on_stop w (with_channels (<[i:=ch]> l) (with_channels l c)) e)).
Qed.

Lemma on_send_batch w werr n : forall c, send_batch n (on w c) werr = prod_map (fun b => b) (on w) (send_batch n c werr).
Proof.
  induction n as [|n IH]; intros c; cbn [send_batch]; [done|]. rewrite on_sendMsgPacket.
  destruct (sendMsgPacket c (werr n)) as [[] c']; [done|apply IH].
Qed.

Lemma on_sendRoutine w c k : sendRoutine_step (on w c) k = prod_map (fun b => b) (on w) <$> sendRoutine_step c k.
Proof.
  assert (forall (c : MConnection) (err : option error),
    (if negb (running (on w c)) then (false, on w c) else match err with Some e => (false, stopForError (on w c) e) | None => (true, on w c) end) =
    prod_map (fun b => b) (on w) (if negb (running c) then (false, c) else match err with Some e => (false, stopForError c e) | None => (true, c) end)) as Ha.
  { intros x err. change (running (on w x)) with (running x). case_on; [done|]. destruct err; [|done]. by rewrite on_stop. }
  unfold sendRoutine_step, write_type. destruct k as [| |werr|werr| |werr].
  - cbn [fmap option_fmap option_map]. f_equal. apply (Ha c None).
  - cbn [fmap option_fmap option_map]. f_equal. apply (Ha (with_channels (map updateStats (channels c)) c) None).
  - cbn [fmap option_fmap option_map]. f_equal. destruct werr; [apply (Ha c (Some e))|]. rewrite on_write. apply (Ha (write_bytes _ c) None).
  - change (pong (on w c)) with (pong c). destruct (pong c); [|done]. change (with_pong false (on w c)) with (on w (with_pong false c)).
    cbn [fmap option_fmap option_map]. f_equal. destruct werr; [apply (Ha (with_pong false c) (Some e))|]. rewrite on_write. apply (Ha (write_bytes _ _) None).
  - change (running (on w c)) with (running c). by destruct (running c).
  - change (send (on w c)) with (send c). destruct (send c); [|done]. change (with_send false (on w c)) with (on w (with_send false c)).
    unfold sendSomeMsgPackets. rewrite on_send_batch. destruct (send_batch _ _ _) as [eof c']. unfold prod_map at 1. cbn [fst snd fmap option_fmap option_map]. f_equal.
    destruct eof; [apply (Ha c' None)|]. change (with_send true (on w c')) with (on w (with_send true c')). apply (Ha _ None).
Qed.

Lemma on_recvRoutine w c input : recvRoutine_step (on w c) input = prod_map (fun r => r) (on w) <$> recvRoutine_step c input.
Proof.
  unfold recvRoutine_step. change (pong (on w c)) with (pong c). change (running (on w c)) with (running c).
  destruct (pong c); [done|].
  assert (forall e, Some (Stopped, if running c then stopForError (on w c) e else on w c) =
    prod_map (fun r => r) (on w) <$> Some (Stopped, if running c then stopForError c e else c)) as Hs.
  { intros e. destruct (running c); [rewrite on_stop|]; done. }
  destruct input as [|t input]; [apply Hs|]. case_on; [done|]. case_on; [done|].
  case_on; [|cbn; by rewrite on_stop].
  destruct (read_packet input) as [[p rest]|e]; [|apply Hs]. change (find_channel (on w c)) with (find_channel c).
  destruct (find_channel c (ChannelID p)) as [[i ch]|]; [|cbn; by rewrite on_stop].
  by destruct (recvMsgPacket ch p) as [[m ch']|e]; [|apply Hs].
Qed.
End written.

Lemma Send_written c id m timeout r : Send c id m timeout = Some r -> written r.2 = written c.
Proof.
  unfold Send. case_on; [by intros [= <-]|]. destruct (find_channel c id) as [[i ch]|]; [|by intros [= <-]].
  destruct (sendBytes ch m timeout) as [[[] ch']|]; [| |done]; by intros [= <-].
Qed.
Lemma TrySend_written c id m : written (TrySend c id m).2 = written c.
Proof.
  unfold TrySend. case_on; [done|]. destruct (find_channel c id) as [[i ch]|]; [|done].
  by destruct (trySendBytes ch m) as [[] ch'].
Qed.

(** ** The refinement *)
Definition abs_op (o : end_op) : sys_op :=
  match o with
  | end_Send chID msg timeout => op_Send chID msg timeout
  | end_TrySend chID msg => op_TrySend chID msg
  | end_sender k _ => op_sender k
  | end_receive => op_receive
  end.

(** The bytes between two ends: those that can be read and those the writer still buffers. *)
Definition way (cs : list bytes) (me peer : peer_end) : bytes := readable cs (e_br peer) ++ bw_buf (e_bw me).
(** An end as a side of ConnDelivery.v, which keeps all of them where they were written. *)
Definition abs_end (w : bytes) (e : peer_end) : side := mkSide (on w (e_conn e)) (e_accepted e) (e_delivered e).
Definition abs_sys (csA csB : list bytes) (s : peer_end * peer_end) : side * side :=
  (abs_end (way csA s.1 s.2) s.1, abs_end (way csB s.2 s.1) s.2).

Section refinement.
Context `{CL : CryptoLaws, WL : WireLaws, WR : !WireReads, WRL : !WireReadsLaws}.

(** Both directions are streams, and nothing that a routine has written is kept back. *)
Record Rel (csA csB : list bytes) (s : peer_end * peer_end) : Prop := {
  rel_AB : link_inv csA (link_to s.1 s.2);
  rel_BA : link_inv csB (link_to s.2 s.1);
  rel_A : written (e_conn s.1) = [];
  rel_B : written (e_conn s.2) = [];
}.

Lemma Rel_swap csA csB s : Rel csA csB s -> Rel csB csA (swap_ends s).
Proof. by intros []. Qed.

Definition more (t : bytes) (r : recv_result) : recv_result :=
  match r with Received m rest => Received m (rest ++ t) | Stopped => Stopped end.

(** An item at the front is read alone, and received as when more is behind it. *)
Lemma receive_item i x t : item_ok i x -> feeds receive_reading (enc_item x ++ t) = Some (enc_item x, t).
Proof.
  intros Hx. unfold receive_reading. destruct x as [| |p]; [done..|]. destruct Hx as [Hp _].
  change (enc_item (IMsg p) ++ t) with (packetTypeMsg :: write_packet p ++ t).
  cbn [feeds length]. rewrite decide_True by lia. cbn [take drop]. rewrite !take_0, drop_0, bool_decide_true by done.
  by rewrite reads_packet.
Qed.

Lemma recv_item i x t c : item_ok i x ->
  recvRoutine_step c (enc_item x ++ t) = prod_map (more t) (fun c => c) <$> recvRoutine_step c (enc_item x).
Proof.
  intros Hx. unfold recvRoutine_step. destruct (pong c); [done|]. destruct x as [| |p]; [done..|]. destruct Hx as [Hp _].
  change (enc_item (IMsg p) ++ t) with (packetTypeMsg :: write_packet p ++ t).
  change (enc_item (IMsg p)) with (packetTypeMsg :: write_packet p). cbv beta iota zeta.
  change (packetTypeMsg =? packetTypePing) with false. change (packetTypeMsg =? packetTypePong) with false.
  rewrite !Z.eqb_refl. rewrite read_write_packet by done. rewrite <- (app_nil_r (write_packet p)), read_write_packet by done.
  destruct (find_channel c (ChannelID p)) as [[n ch]|]; [|done]. by destruct (recvMsgPacket ch p) as [[m ch']|e].
Qed.

(** The receive routine waits only to hand over a pong. *)
Lemma recv_enabled c b : pong c = false -> is_Some (recvRoutine_step c b).
Proof.
  intros Hp. unfold recvRoutine_step. rewrite Hp. destruct b as [|t b]; [done|]. repeat (case_on; [done|]).
  case_on; [|done]. destruct (read_packet b) as [[p rest]|e]; [|done]. destruct (find_channel _ _) as [[i ch]|]; [|done].
  by destruct (recvMsgPacket ch p) as [[m ch']|e].
Qed.

Lemma recv_item_rest i x c m r c' : item_ok i x -> recvRoutine_step c (enc_item x) = Some (Received m r, c') -> r = [].
Proof.
  intros Hx. unfold recvRoutine_step. destruct (pong c); [done|]. destruct x as [| |p]; [by intros [= _ <- _]..|]. destruct Hx as [Hp _].
  change (enc_item (IMsg p)) with (packetTypeMsg :: write_packet p). cbv beta iota zeta.
  change (packetTypeMsg =? packetTypePing) with false. change (packetTypeMsg =? packetTypePong) with false.
  rewrite !Z.eqb_refl, <- (app_nil_r (write_packet p)), read_write_packet by done.
  destruct (find_channel c (ChannelID p)) as [[n ch]|]; [|done].
  destruct (recvMsgPacket ch p) as [[m' ch']|e]; [|done]. by intros [= _ <- _].
Qed.

(** The first item of what is on the way. *)
Lemma Dir_item o i w acc del : Dir o i w acc del -> w <> [] -> exists x rest, w = enc_item x ++ rest /\ item_ok i x.
Proof.
  intros (items & -> & Hok & _) Hne. destruct items as [|x items]; [done|]. apply Forall_cons_1 in Hok as [Hx _].
  by exists x, (enc_items items).
Qed.

Lemma flushes_cases k : flushes k = [] \/ flushes k = [LFlush].
Proof. destruct k; auto. Qed.

(** What a pair of ends is after one of them has written, or read. *)
Lemma Rel_writer csA csB csA' me peer c l : Rel csA csB (me, peer) -> written c = [] ->
  link_inv csA' l -> writes_only (link_to me peer) l -> Rel csA' csB (set_conn c (set_writer l me), peer).
Proof.
  intros [HA HB _ Hw2] Hc Hi (E1 & E2 & E3). cbn [fst snd] in *. split; cbn [fst snd]; [|..|done|done].
  - unfold link_to, set_conn, set_writer; cbn. cbn in E1, E2. rewrite <- E1, <- E2. by destruct l.
  - by apply (link_inv_other csB _ (e_sc peer) (e_sc peer) _ (e_sc me) (l_snd l)).
Qed.

Lemma Rel_reader csA csB csB' me peer c l del : Rel csA csB (me, peer) -> written c = [] ->
  link_inv csB' l -> reads_only (link_to peer me) l ->
  Rel csA csB' (log_delivered del (set_conn c (set_reader l me)), set_writer l peer).
Proof.
  intros [HA HB _ Hw2] Hc Hi (E1 & E2 & E3). cbn [fst snd] in *. split; cbn [fst snd]; [|..|done|done].
  - apply (link_inv_other csA _ (e_sc me) (l_rcv l) _ (e_sc peer) (l_snd l)); [done|done|]. cbn in E1. by rewrite E1.
  - by destruct l.
Qed.

Lemma set_conn_id e : set_conn (e_conn e) e = e.
Proof. by destruct e. Qed.

(** The steps of the stack are those of ConnDelivery.v. *)
Lemma call_refines csA csB me peer id m (ok : bool) c : Rel csA csB (me, peer) -> written c = [] ->
  let me' := log_accepted (if ok then [(id, m)] else []) (set_conn c me) in
  Rel csA csB (me', peer) /\
  abs_sys csA csB (me', peer) =
    (mkSide (on (way csA me peer) c) (e_accepted me ++ if ok then [(id, m)] else []) (e_delivered me), abs_end (way csB peer me) peer).
Proof. intros [HA HB _ Hw2] Hc me'. by split. Qed.

Lemma sender_refines csA csB me peer k pieces s' : Rel csA csB (me, peer) ->
  end_step me peer (end_sender k pieces) = Some s' ->
  exists csA', Rel csA' csB s' /\ (flushes k <> [] -> bw_buf (e_bw s'.1) = []) /\
    side_step (abs_end (way csA me peer) me) (abs_end (way csB peer me) peer) (op_sender k) = Some (abs_sys csA' csB s').
Proof.
  intros HR. cbn [end_step side_step abs_end s_conn s_accepted s_delivered]. rewrite on_sendRoutine.
  destruct (sendRoutine_step (e_conn me) k) as [[b c]|]; [|done]. cbn [mbind option_bind fst snd]. case_decide as Hp; [|done].
  destruct (link_writes_ok pieces (flushes k) csA (link_to me peer)) as (cs' & l & bs & -> & Hi & Hw & Hj & Hb);
    [apply HR|apply flushes_cases|]. cbn [mbind option_bind]. intros [= <-]. exists cs'.
  split; [by eapply Rel_writer|]. split; [intros Hf; apply Hb; destruct (flushes_cases k) as [E|E]; [contradiction|exact E]|].
  cbn [fmap option_fmap option_map]. unfold abs_sys, abs_end, prod_map. cbn. do 3 f_equal.
  destruct Hw as (_ & E2 & _). unfold on, way. cbn. cbn [l_br l_bw link_to] in Hj, E2. rewrite E2 in Hj. rewrite Hj, Hp, app_nil_r.
  unfold take_written. cbn. by rewrite <- !app_assoc.
Qed.

Lemma receive_refines capA capB csA csB me peer s' : Rel csA csB (me, peer) -> SysInv capA capB (abs_sys csA csB (me, peer)) ->
  end_step me peer end_receive = Some s' ->
  exists csB', Rel csA csB' s' /\
    side_step (abs_end (way csA me peer) me) (abs_end (way csB peer me) peer) op_receive = Some (abs_sys csA csB' s').
Proof.
  intros HR HI. cbn [end_step side_step].
  assert (written (e_conn me) = []) as Hw1 by exact (rel_A _ _ _ HR).
  assert (written (e_conn peer) = []) as Hw2 by exact (rel_B _ _ _ HR).
  pose proof (link_reads_ok receive_reading csB (link_to peer me) (rel_BA _ _ _ HR)) as Hl.
  destruct (feeds receive_reading _) as [[b rest]|] eqn:Ef; [|by rewrite Hl].
  destruct Hl as (csB' & l & El & Hi & Hrd). rewrite El. cbn [mbind option_bind].
  pose proof (link_reads_only _ _ _ _ El) as Hro.
  destruct (recvRoutine_step (e_conn me) b) as [[r c]|] eqn:Er; [|done]. cbn [mbind option_bind fst snd]. intros [= <-].
  pose proof (sys_BA _ _ _ HI) as HD. unfold SDir in HD. cbn [fst snd abs_sys abs_end s_conn s_accepted s_delivered] in HD.
  assert (written (on (way csB peer me) (e_conn peer)) = way csB peer me) as Hwr.
  { cbn. by rewrite Hw2, app_nil_r. }
  cbn [link_to l_br] in Ef. assert (feeds receive_reading (way csB peer me) = Some (b, rest ++ bw_buf (e_bw peer))) as Ef'
    by (by apply feeds_app).
  assert (way csB peer me <> []) as Hne by (intros E; by rewrite E in Ef').
  rewrite Hwr in HD. destruct (Dir_item _ _ _ _ _ HD Hne) as (x & t & Ew & Hx).
  rewrite Ew, (receive_item _ x t Hx) in Ef'. injection Ef' as <- ->.
  assert (recvRoutine_step (on (way csA me peer) (e_conn me)) (way csB peer me) =
    Some (more (rest ++ bw_buf (e_bw peer)) r, on (way csA me peer) c)) as Era.
  { rewrite on_recvRoutine, Ew, (recv_item _ _ _ _ Hx), Er. done. }
  destruct (recvRoutine_step_Dir _ _ _ _ _ _ _ (sys_goodA _ _ _ HI) HD Hne Era) as (_ & Hw & _ & _ & msg & rest' & Hmsg & _).
  assert (written c = []) as Hc.
  { cbn in Hw. rewrite Hw1 in Hw. by apply app_inv_head in Hw. }
  exists csB'. split; [by eapply Rel_reader|]. cbn [abs_end s_conn s_accepted s_delivered].
  rewrite Hwr, Era. rewrite (proj2 (Z.eqb_neq _ 0)) by (by rewrite zlen_0). cbn [mbind option_bind fst snd].
  destruct r as [m rest0|]; [|done]. cbn [more] in *. injection Hmsg as -> <-.
  rewrite (recv_item_rest _ _ _ _ _ _ Hx Er). destruct Hro as (_ & Hbw & _). cbn in Hbw.
  unfold abs_sys, abs_end, way, on, take_written. cbn. rewrite Hbw, Hrd, Hw2, !app_nil_r. done.
Qed.
Lemma end_step_refines capA capB csA csB me peer o s' : Rel csA csB (me, peer) ->
  SysInv capA capB (abs_sys csA csB (me, peer)) -> end_step me peer o = Some s' ->
  exists csA' csB', Rel csA' csB' s' /\
    side_step (abs_end (way csA me peer) me) (abs_end (way csB peer me) peer) (abs_op o) = Some (abs_sys csA' csB' s').
Proof.
  intros HR HI. pose proof (rel_A _ _ _ HR) as Hw1. cbn [fst] in Hw1. destruct o as [id m timeout|id m|k pieces|]; intros Hs.
  - cbn [end_step side_step abs_op abs_end s_conn] in *. rewrite on_Send.
    destruct (Send (e_conn me) id m timeout) as [[ok c]|] eqn:E; [|done]. injection Hs as <-. exists csA, csB.
    destruct (call_refines csA csB me peer id m ok c HR) as [HR' HE]; [exact (eq_trans (Send_written _ _ _ _ _ E) Hw1)|].
    split; [exact HR'|]. cbn [fmap option_fmap option_map]. by rewrite HE.
  - cbn [end_step side_step abs_op abs_end s_conn] in *. rewrite on_TrySend. pose proof (TrySend_written (e_conn me) id m) as Hw.
    destruct (TrySend (e_conn me) id m) as [ok c]. injection Hs as <-. exists csA, csB.
    destruct (call_refines csA csB me peer id m ok c HR) as [HR' HE]; [exact (eq_trans Hw Hw1)|].
    split; [exact HR'|]. by rewrite HE.
  - destruct (sender_refines csA csB me peer k pieces s' HR Hs) as (csA' & HR' & _ & HE). by exists csA', csB.
  - destruct (receive_refines capA capB csA csB me peer s' HR HI Hs) as (csB' & HR' & HE). by exists csA, csB'.
Qed.

Definition abs_event (o : bool * end_op) : bool * sys_op := (o.1, abs_op o.2).

(** Every run of the stack is a run of ConnDelivery.v. *)
Lemma stack_run_refines capA capB l : forall csA csB s s', Rel csA csB s -> SysInv capA capB (abs_sys csA csB s) ->
  Forall (fun o : bool * end_op => op_ok (if o.1 then capB else capA) (abs_op o.2)) l -> stack_run s l = Some s' ->
  exists csA' csB', Rel csA' csB' s' /\ SysInv capA capB (abs_sys csA' csB' s') /\
    sys_run (abs_sys csA csB s) (abs_event <$> l) = Some (abs_sys csA' csB' s').
Proof.
  induction l as [|[[] o] l IH]; intros csA csB [x y] s' HR HI Hok; cbn [stack_run];
    [intros [= <-]; by exists csA, csB|..]; apply Forall_cons_1 in Hok as [Ho Hok]; unfold stack_step; cbn [fst snd] in *.
  - destruct (end_step x y o) as [s1|] eqn:E; [|done]. cbn [mbind option_bind]. intros Hr.
    destruct (end_step_refines _ _ _ _ _ _ _ _ HR HI E) as (csA1 & csB1 & HR1 & HE).
    assert (SysInv capA capB (abs_sys csA1 csB1 s1)) as HI1 by (by eapply side_step_inv).
    destruct (IH csA1 csB1 s1 s' HR1 HI1 Hok Hr) as (csA2 & csB2 & ? & ? & Hrun). exists csA2, csB2. split; [done|]. split; [done|].
    cbn [fmap list_fmap sys_run]. unfold sys_step at 1. cbn [abs_event abs_sys fst snd]. rewrite HE. exact Hrun.
  - destruct (end_step y x o) as [s1|] eqn:E; [|done]. cbn [fmap option_fmap option_map mbind option_bind]. intros Hr.
    apply Rel_swap in HR. apply SysInv_swap in HI.
    destruct (end_step_refines _ _ _ _ _ _ _ _ HR HI E) as (csB1 & csA1 & HR1 & HE). cbn [fst snd] in HE.
    assert (SysInv capB capA (abs_sys csB1 csA1 s1)) as HI1 by (by eapply side_step_inv).
    destruct (IH csA1 csB1 (swap_ends s1) s') as (csA2 & csB2 & ? & ? & Hrun);
      [by apply Rel_swap in HR1|by apply SysInv_swap in HI1|done|done|]. exists csA2, csB2. split; [done|]. split; [done|].
    cbn [fmap list_fmap sys_run]. unfold sys_step at 1. cbn [abs_event abs_sys fst snd]. rewrite HE. exact Hrun.
Qed.

(** What holds of one direction. *)
Lemma direction_facts capA capB csA csB me peer : Rel csA csB (me, peer) -> SysInv capA capB (abs_sys csA csB (me, peer)) ->
  (forall id, msgs id (e_delivered peer) `prefix_of` msgs id (e_accepted me)) /\
  (forall id, bw_buf (e_bw me) = [] -> link_step (LRead 1) (link_to me peer) = None -> out (e_conn me) id = Some ([], []) ->
     msgs id (e_delivered peer) = msgs id (e_accepted me)) /\
  running (e_conn me) = true /\
  (forall k pieces r, sendRoutine_step (e_conn me) k = Some r -> mjoin pieces = written r.2 ->
     exists s', end_step me peer (end_sender k pieces) = Some s' /\ (flushes k <> [] -> bw_buf (e_bw s'.1) = [])) /\
  (bw_buf (e_bw me) = [] -> link_step (LRead 1) (link_to me peer) <> None -> pong (e_conn peer) = false ->
     exists s', end_step peer me end_receive = Some s').
Proof.
  intros HR HI. pose proof (sys_AB _ _ _ HI) as HD. pose proof (rel_A _ _ _ HR) as Hw1. cbn [fst] in Hw1.
  pose proof (link_step_ok (LRead 1) csA (link_to me peer) (rel_AB _ _ _ HR)) as Hread.
  assert (link_step (LRead 1) (link_to me peer) = None <-> readable csA (e_br peer) = []) as Hnone.
  { split; intros Hn.
    - destruct (readable csA (e_br peer)) as [|x t] eqn:E; [done|].
      destruct Hread as (b & cs' & l' & Hs & _); [|congruence]. intros n [= <-]. cbn [link_to l_br]. rewrite E, zlen_cons.
      pose proof (zlen_nonneg t). lia.
    - apply (link_read_waits 1 csA _ (rel_AB _ _ _ HR)). cbn [link_to l_br fst snd]. rewrite Hn. done. }
  assert (written (on (way csA me peer) (e_conn me)) = way csA me peer) as Hwr by (cbn; by rewrite Hw1, app_nil_r).
  split_and!.
  - intros id. by apply (SDir_messages _ _ id HD).
  - intros id Hb Hn Hout. apply (SDir_messages _ _ id HD); [|exact Hout]. etrans; [exact Hwr|].
    unfold way. by rewrite (proj1 Hnone Hn), Hb.
  - apply (good_running _ (sys_goodA _ _ _ HI)).
  - intros k pieces r Hs Hp. cbn [end_step]. rewrite Hs. cbn [mbind option_bind]. rewrite decide_True by done.
    destruct (link_writes_ok pieces (flushes k) csA (link_to me peer)) as (cs' & l & bs & -> & _ & _ & _ & Hb);
      [apply HR|apply flushes_cases|]. eexists. split; [reflexivity|]. intros Hf. apply Hb.
    destruct (flushes_cases k) as [E|E]; [contradiction|exact E].
  - intros Hb Hn Hpong. assert (way csA me peer = readable csA (e_br peer)) as Hway by (unfold way; by rewrite Hb, app_nil_r).
    unfold SDir in HD. cbn [abs_sys abs_end fst snd s_conn] in HD. rewrite Hwr, Hway in HD.
    destruct (Dir_item _ _ _ _ _ HD) as (x & t & Ew & Hx); [by intros E; apply Hn, Hnone|].
    pose proof (link_reads_ok receive_reading csA (link_to me peer) (rel_AB _ _ _ HR)) as Hl. cbn [link_to l_br] in Hl.
    rewrite Ew, (receive_item _ _ _ Hx) in Hl. destruct Hl as (cs' & l & Hl & _). cbn [end_step]. rewrite Hl. cbn [mbind option_bind].
    destruct (recv_enabled (e_conn peer) (enc_item x) Hpong) as [r ->]. by eexists.
Qed.

Lemma Rel_new a b sa sb : written a = [] -> written b = [] -> paired sa sb -> paired sb sa ->
  Rel [] [] (new_end a sa, new_end b sb) /\
  abs_sys [] [] (new_end a sa, new_end b sb) = (mkSide a [] [], mkSide b [] []).
Proof.
  intros Ha Hb H1 H2. split.
  - split; [..|done|done]; (split; [by split; cbn; [|rewrite zlen_nil; unfold minWriteBufferSize; lia]|]);
      (split; [by apply carries_nil|done]).
  - unfold abs_sys, abs_end, way. cbn [fst snd new_end e_conn e_br e_bw e_accepted e_delivered NewReaderSize NewWriterSize br_buf bw_buf readable].
    change (readable [] NewReaderSize ++ []) with (@nil Z). by rewrite !on_nil.
Qed.
End refinement.

(** ** Property *)
(** C1: Two nodes finish the handshake and each puts a connection with the same channels on it.
    Whatever is called and in whatever order the routines run, over buffers, frames and a network
    that delivers them, in either direction: on each channel the messages delivered are
    the first of those accepted, in order, unchanged and once each; no connection stops; what a
    send routine writes, in whatever pieces, is taken, and its flushes empty the buffer; once it is empty and
    there is something to read the receive routine goes on unless it waits to hand over a pong; and when there
    is nothing to read and the channel has nothing to send, all its messages have been delivered. *)
Theorem stack_delivery `{CryptoLaws, WireLaws, !WireReads, !WireReadsLaws}
    (privA ephA ephPrivA privB ephB ephPrivB outA outB : bytes) (fuel : nat) (sa sb : SecretConnection)
    (descsA descsB : list ChannelDescriptor) (a b : MConnection)
    (ops : list (bool * end_op)) (s : peer_end * peer_end) :
  length ephA = 32%nat -> length ephB = 32%nat -> ephA <> ephB -> Precompute ephB ephPrivA = Precompute ephA ephPrivB ->
  MakeSecretConnection privA ephA ephPrivA outB None (fun _ => None) (S fuel) = Some (Ok sa, outA, []) ->
  MakeSecretConnection privB ephB ephPrivB outA None (fun _ => None) (S fuel) = Some (Ok sb, outB, []) ->
  NewMConnection descsA = Some a -> NewMConnection descsB = Some b ->
  NoDup (ID <$> descsA) -> Forall byte_ok (ID <$> descsA) -> (ID <$> descsA) ≡ₚ (ID <$> descsB) ->
  Forall (fun o : bool * end_op => op_ok (capacity (if o.1 then b else a)) (abs_op o.2)) ops ->
  stack_run (new_end a sa, new_end b sb) ops = Some s ->
  forall me peer, s = (me, peer) \/ s = (peer, me) ->
    (forall id, msgs id (e_delivered peer) `prefix_of` msgs id (e_accepted me)) /\
    (forall id, bw_buf (e_bw me) = [] -> link_step (LRead 1) (link_to me peer) = None -> out (e_conn me) id = Some ([], []) ->
       msgs id (e_delivered peer) = msgs id (e_accepted me)) /\
    running (e_conn me) = true /\
    (forall k pieces r, sendRoutine_step (e_conn me) k = Some r -> mjoin pieces = written r.2 ->
       exists s', end_step me peer (end_sender k pieces) = Some s' /\ (flushes k <> [] -> bw_buf (e_bw s'.1) = [])) /\
    (bw_buf (e_bw me) = [] -> link_step (LRead 1) (link_to me peer) <> None -> pong (e_conn peer) = false ->
       exists s', end_step peer me end_receive = Some s').
Proof.
  intros LA LB Hne Hpre EA EB Ha Hb Hnd Hbyte Hp Hops Hrun me peer Hs.
  rewrite <- (app_nil_r outB) in EA. rewrite <- (app_nil_r outA) in EB.
  destruct (handshake_pairs _ _ _ _ _ _ _ _ _ _ _ _ _ LA LB Hne Hpre EA EB) as [P1 P2].
  destruct (NewMConnection_fresh _ _ Ha Hnd Hbyte) as (_ & Wa & _).
  destruct (NewMConnection_fresh _ _ Hb) as (_ & Wb & _); [by rewrite <- Hp..|].
  pose proof (SysInv_fresh _ _ _ _ Ha Hb Hnd Hbyte Hp) as HI.
  destruct (Rel_new a b sa sb Wa Wb P1 P2) as [HR HE]. rewrite <- HE in HI.
  destruct (stack_run_refines (capacity a) (capacity b) ops [] [] _ s HR HI) as (csA & csB & HR' & HI' & _); [|exact Hrun|].
  { refine (List.Forall_impl _ _ Hops). by intros [[] o]. }
  destruct Hs as [-> | ->].
  - by eapply direction_facts.
  - apply Rel_swap in HR'. apply SysInv_swap in HI'. by eapply direction_facts.
Qed.

(** ** A concrete exchange *)
(** The format of ConnDelivery.v's witness, read field by field. *)
Definition plain_reading : reading :=
  reading_of 1 (fun _ => reading_of 1 (fun _ => reading_of 2 (fun n => reading_of (Z.to_nat (be_get n)) (fun _ => reading_done)))).

Lemma plain_reads : @WireReadsLaws plain_wire plain_reading.
Proof.
  intros [id eof b] r (_ & _ & Hb). unfold maxMsgPacketPayloadSize in Hb. cbn in Hb. pose proof (zlen_nonneg b) as Hz.
  unfold packet_reading, plain_reading. cbn [write_packet plain_wire ChannelID EOFlag Bytes app feeds length].
  rewrite !decide_True by lia. cbn [take drop]. rewrite !take_0, !drop_0, <- !app_assoc.
  pose proof (length_be_put 2 #b) as Hl.
  rewrite decide_True by (cbn; lia). rewrite decide_True by (rewrite length_app; lia).
  rewrite take_app_length' by done. rewrite drop_app_length' by done.
  rewrite be_get_put, Z.mod_small by (change (256 ^ Z.of_nat 2) with 65536; lia).
  rewrite decide_True by (rewrite length_app; unfold zlen; lia). rewrite take_zlen_app, drop_zlen_app. cbn [mbind option_bind].
  by rewrite app_nil_r.
Qed.

Definition ex_outA : bytes := @half_out plain_crypto [5] key1 key2 key2.
Definition ex_outB : bytes := @half_out plain_crypto [6] key2 key1 key1.
Definition session (priv eph ephPriv input : bytes) : SecretConnection :=
  match @MakeSecretConnection plain_crypto priv eph ephPriv input None (fun _ => None) 1 with Some (Ok a, _, _) => a | _ => sc_pair end.
Definition ex_sa : SecretConnection := session [5] key1 key2 ex_outB.
Definition ex_sb : SecretConnection := session [6] key2 key1 ex_outA.
Definition ex_conn : MConnection := default (mkConn [] ∅ true 0 [] false false []) (NewMConnection sample_descs).
Definition ex_start : peer_end * peer_end := (new_end ex_conn ex_sa, new_end ex_conn ex_sb).

Definition ex_run : peer_end * peer_end -> list (bool * end_op) -> option (peer_end * peer_end) :=
  @stack_run plain_crypto plain_wire plain_reading.

Definition ex_calls : list (bool * end_op) :=
  [(true, end_TrySend 64 (sample_msg 2500 7)); (true, end_TrySend 32 (sample_msg 3 1)); (true, end_sender (case_ping None) [[1]])].
Definition ex_send : send_case := case_send (fun _ => None).
(** What the send routine then writes, in two pieces. *)
Definition ex_pieces : list bytes :=
  match ex_run ex_start ex_calls with
  | Some s =>
      match @sendRoutine_step plain_wire (e_conn s.1) ex_send with
      | Some r => [take 1500 (written r.2); drop 1500 (written r.2)]
      | None => []
      end
  | None => []
  end.
Definition ex_ops : list (bool * end_op) :=
  ex_calls ++
  [(true, end_sender ex_send ex_pieces); (false, end_receive); (true, end_sender case_flush []);
   (false, end_sender (case_pong None) [[2]]); (true, end_receive);
   (false, end_receive); (false, end_receive); (false, end_receive); (false, end_receive)].

Lemma stack_delivery_witness : exists s, ex_run ex_start ex_ops = Some s /\
  msgs 64 (e_delivered s.2) = [sample_msg 2500 7] /\ msgs 32 (e_delivered s.2) = [sample_msg 3 1].
Proof.
  destruct (ex_run ex_start ex_ops) as [s|] eqn:Hs; [|vm_compute in Hs; discriminate Hs].
  exists s. split; [reflexivity|].
  assert (NewMConnection sample_descs = Some ex_conn) as Hc by (vm_compute; reflexivity).
  destruct s as [x y].
  destruct (@stack_delivery plain_crypto plain_crypto_laws plain_wire plain_wire_laws plain_reading plain_reads
    [5] key1 key2 [6] key2 key1 ex_outA ex_outB 0 ex_sa ex_sb sample_descs sample_descs ex_conn ex_conn ex_ops (x, y)) with x y
    as (_ & Hall & _); try reflexivity; try assumption.
  - intros E. discriminate E.
  - exact (bool_decide_unpack (NoDup (ID <$> sample_descs)) I).
  - apply bytes_okb_ok. reflexivity.
  - unfold ex_ops, ex_calls. repeat (apply Forall_cons_2; [cbn [op_ok abs_op fst snd]; first [exact I | reflexivity |
      split; [discriminate|intros n Hn; vm_compute in Hn; injection Hn as <-; vm_compute; discriminate]]|]).
    apply Forall_nil_2.
  - left. reflexivity.
  - split; (etrans; [apply Hall|]); vm_compute in Hs; injection Hs as <- <-; vm_compute; reflexivity.
Defined.
