(* ===== verification/NetAddress.v ===== *)
(** * Network addresses

    Models [p2p/netaddress.go] and the grouping of addresses in [p2p/pex/addrbook.go].
    [net.IP], [net.IPNet] and their methods are the Go standard library's: an IP is a byte
    slice, of 4 or 16 bytes when valid and empty when nil.  [NetAddress.str] caches the
    result of [String] and is not a field here.  Addresses made from text are in
    Resolve.v; dialing is not modelled. *)
From Stdlib Require Import Btauto.
From S2P Require Import Prelude Errors GoLib.

(** ** net.IP *)
Abbreviation IP := (list Z).

Definition v4InV6Prefix : bytes := [0; 0; 0; 0; 0; 0; 0; 0; 0; 0; 255; 255].

(** [net.IPv4(a, b, c, d)] and [net.ParseIP] of a dotted quad: the 16-byte form. *)
Definition IPv4 (a b c d : Z) : IP := v4InV6Prefix ++ [a; b; c; d].

(** Nil is [None]. *)
Definition To4 (ip : IP) : option IP :=
  if #ip =? 4 then Some ip
  else if (#ip =? 16) && bool_decide (take 12 ip = v4InV6Prefix) then Some (drop 12 ip)
  else None.

Definition To16 (ip : IP) : option IP :=
  if #ip =? 4 then Some (v4InV6Prefix ++ ip)
  else if #ip =? 16 then Some ip
  else None.

Definition IP_Equal (ip x : IP) : bool :=
  if #ip =? #x then bool_decide (ip = x)
  else match To16 ip, To16 x with
       | Some a, Some b => ((#ip =? 4) || (#x =? 4)) && bool_decide (a = b)
       | _, _ => false
       end.

Definition IPv4bcast : IP := IPv4 255 255 255 255.
Definition IsUnspecified (ip : IP) : bool :=
  IP_Equal ip (IPv4 0 0 0 0) || IP_Equal ip (replicate 16 0).
Definition IsLoopback (ip : IP) : bool :=
  match To4 ip with
  | Some ip4 => hd 0 ip4 =? 127
  | None => IP_Equal ip (replicate 15 0 ++ [1])
  end.

(** [net.CIDRMask(ones, bits)] *)
Fixpoint mask_bytes (ones : Z) (n : nat) : bytes :=
  match n with
  | O => []
  | S n => (if 8 <=? ones then 255 else u8 (Z.lnot (Z.shiftr 255 ones)))
           :: mask_bytes (Z.max 0 (ones - 8)) n
  end.
Definition CIDRMask (ones bits : Z) : bytes := mask_bytes ones (Z.to_nat (bits / 8)).

Record IPNet := mkIPNet { net_IP : IP; net_Mask : bytes }.

(** [networkNumberAndMask]: nil for an IP or a mask of another length. *)
Definition networkNumberAndMask (n : IPNet) : option (IP * bytes) :=
  let ip := default (net_IP n) (To4 (net_IP n)) in
  if negb ((#ip =? 4) || (#ip =? 16)) then None
  else if #(net_Mask n) =? #ip then Some (ip, net_Mask n)
  else if (#(net_Mask n) =? 16) && (#ip =? 4) then Some (ip, drop 12 (net_Mask n))
  else None.

Definition IPNet_Contains (n : IPNet) (ip : IP) : bool :=
  let ip := default ip (To4 ip) in
  match networkNumberAndMask n with
  | None => #ip =? 0
  | Some (nn, m) =>
      (#ip =? #nn) &&
      forallb (fun '(a, b, m) => Z.land a m =? Z.land b m) (zip (zip nn ip) m)
  end.

(** *** Text *)
Definition dotted (ip : IP) : gostring := joinWith (str ".") (map itoa ip).

(** A word in hexadecimal, without leading zeros. *)
Definition hex_word (w : Z) : gostring :=
  let d k := hexchar (Z.shiftr w (4 * k) mod 16) in
  if 4096 <=? w then [d 3; d 2; d 1; d 0]
  else if 256 <=? w then [d 2; d 1; d 0]
  else if 16 <=? w then [d 1; d 0]
  else [d 0].

Fixpoint words (ip : IP) : list Z :=
  match ip with a :: b :: r => 256 * a + b :: words r | _ => [] end.

Fixpoint zero_run (w : list Z) : nat :=
  match w with 0 :: w => S (zero_run w) | _ => O end.

(** The first longest run of at least two zero words: where it starts and its length. *)
Fixpoint longest_run (i : nat) (best : nat * nat) (w : list Z) : nat * nat :=
  match w with
  | [] => best
  | _ :: w' =>
      let l := zero_run w in
      longest_run (S i) (if decide (2 <= l /\ best.2 < l)%nat then (i, l) else best) w'
  end.

Definition colons (w : list Z) : gostring := joinWith (str ":") (map hex_word w).

Definition v6_string (ip : IP) : gostring :=
  let w := words ip in
  let '(i, l) := longest_run 0 (0%nat, 0%nat) w in
  if decide (l = 0%nat) then colons w
  else colons (take i w) ++ str "::" ++ colons (drop (i + l) w).

Definition IP_String (ip : IP) : gostring :=
  match To4 ip with
  | Some ip4 => dotted ip4
  | None =>
      if #ip =? 0 then str "<nil>"
      else if #ip =? 16 then v6_string ip
      else str "?" ++ hex_encode ip
  end.

Fixpoint count_ones (fuel : nat) (b : Z) : Z :=
  match fuel with
  | O => 0
  | S fuel => if Z.testbit b (Z.of_nat fuel) then 1 + count_ones fuel b else 0
  end.

(** [simpleMaskLength]: the number of leading ones, or -1 if ones follow. *)
Fixpoint simpleMaskLength (m : bytes) : Z :=
  match m with
  | [] => 0
  | 255 :: m => let l := simpleMaskLength m in if l =? -1 then -1 else 8 + l
  | b :: m =>
      let n := count_ones 8 b in
      if (u8 (Z.shiftl b n) =? 0) && forallb (Z.eqb 0) m then n else -1
  end.

Definition IPNet_String (n : IPNet) : gostring :=
  match networkNumberAndMask n with
  | None => str "<nil>"
  | Some (nn, m) =>
      let l := simpleMaskLength m in
      IP_String nn ++ str "/" ++ (if l =? -1 then hex_encode m else itoa l)
  end.

(** [net.JoinHostPort] *)
Definition JoinHostPort (host port : gostring) : gostring :=
  if existsb (fun c => (c =? 58) || (c =? 37)) host
  then str "[" ++ host ++ str "]:" ++ port
  else host ++ str ":" ++ port.

(** ** netaddress.go *)
Record NetAddress := mkNetAddress { na_IP : IP; Port : Z }.

#[export] Instance NetAddress_eq_dec : EqDecision NetAddress.
Proof. solve_decision. Defined.

Definition NewNetAddressIPPort (ip : IP) (port : Z) : NetAddress := mkNetAddress ip port.

(** What [NewNetAddress] is given: an address of TCP or another [net.Addr]. *)
Inductive net_Addr := TCPAddr (ip : IP) (port : Z) | OtherAddr.

(** [testing] is whether the flag of the test program exists.  [net.IP] of a text is a conversion
    of its bytes.  [None] is the panic. *)
Definition NewNetAddress (testing : bool) (addr : net_Addr) : option NetAddress :=
  match addr with
  | TCPAddr ip port => Some (NewNetAddressIPPort ip (u16 port))
  | OtherAddr => if negb testing then go_panic else Some (NewNetAddressIPPort (str "0.0.0.0") 0)
  end.

Definition DialString (na : NetAddress) : gostring :=
  JoinHostPort (IP_String (na_IP na)) (itoa (Port na)).
Definition NetAddress_String (na : NetAddress) : gostring :=
  JoinHostPort (IP_String (na_IP na)) (itoa (Port na)).

(** The argument is an interface value: [None] when it holds another type. *)
Definition NetAddress_Equals (na : NetAddress) (other : option NetAddress) : bool :=
  match other with
  | Some o => bool_decide (NetAddress_String na = NetAddress_String o)
  | None => false
  end.

(** A 16-byte address from its eight words. *)
Definition v6 (w : list Z) : IP := mjoin (map (fun x => [x / 256; x mod 256]) w).

Definition rfc1918_10 := mkIPNet (IPv4 10 0 0 0) (CIDRMask 8 32).
Definition rfc1918_192 := mkIPNet (IPv4 192 168 0 0) (CIDRMask 16 32).
Definition rfc1918_172 := mkIPNet (IPv4 172 16 0 0) (CIDRMask 12 32).
Definition rfc3849 := mkIPNet (v6 [8193; 3512; 0; 0; 0; 0; 0; 0]) (CIDRMask 32 128).
Definition rfc3927 := mkIPNet (IPv4 169 254 0 0) (CIDRMask 16 32).
Definition rfc3964 := mkIPNet (v6 [8194; 0; 0; 0; 0; 0; 0; 0]) (CIDRMask 16 128).
Definition rfc4193 := mkIPNet (v6 [64512; 0; 0; 0; 0; 0; 0; 0]) (CIDRMask 7 128).
Definition rfc4380 := mkIPNet (v6 [8193; 0; 0; 0; 0; 0; 0; 0]) (CIDRMask 32 128).
Definition rfc4843 := mkIPNet (v6 [8193; 16; 0; 0; 0; 0; 0; 0]) (CIDRMask 28 128).
Definition rfc4862 := mkIPNet (v6 [65152; 0; 0; 0; 0; 0; 0; 0]) (CIDRMask 64 128).
Definition rfc6052 := mkIPNet (v6 [100; 65435; 0; 0; 0; 0; 0; 0]) (CIDRMask 96 128).
Definition rfc6145 := mkIPNet (v6 [0; 0; 0; 0; 65535; 0; 0; 0]) (CIDRMask 96 128).
Definition zero4 := mkIPNet (IPv4 0 0 0 0) (CIDRMask 8 32).

Section ranges.
Implicit Types na o : NetAddress.

Definition RFC1918 na : bool :=
  IPNet_Contains rfc1918_10 (na_IP na) || IPNet_Contains rfc1918_192 (na_IP na)
    || IPNet_Contains rfc1918_172 (na_IP na).
Definition RFC3849 na : bool := IPNet_Contains rfc3849 (na_IP na).
Definition RFC3927 na : bool := IPNet_Contains rfc3927 (na_IP na).
Definition RFC3964 na : bool := IPNet_Contains rfc3964 (na_IP na).
Definition RFC4193 na : bool := IPNet_Contains rfc4193 (na_IP na).
Definition RFC4380 na : bool := IPNet_Contains rfc4380 (na_IP na).
Definition RFC4843 na : bool := IPNet_Contains rfc4843 (na_IP na).
Definition RFC4862 na : bool := IPNet_Contains rfc4862 (na_IP na).
Definition RFC6052 na : bool := IPNet_Contains rfc6052 (na_IP na).
Definition RFC6145 na : bool := IPNet_Contains rfc6145 (na_IP na).

Definition Valid na : bool :=
  negb (#(na_IP na) =? 0) &&
  negb (IsUnspecified (na_IP na) || RFC3849 na || IP_Equal (na_IP na) IPv4bcast).

Definition Local na : bool := IsLoopback (na_IP na) || IPNet_Contains zero4 (na_IP na).

Definition Routable na : bool :=
  Valid na && negb (RFC1918 na || RFC3927 na || RFC4862 na || RFC4193 na || RFC4843 na || Local na).

(** [IP.To4() != nil] *)
Definition isV4 na : bool := match To4 (na_IP na) with Some _ => true | None => false end.

Definition Unreachable : Z := 0.
Definition Default : Z := 1.
Definition Teredo : Z := 2.
Definition Ipv6Weak : Z := 3.
Definition Ipv4 : Z := 4.
Definition Ipv6Strong : Z := 5.

Definition ReachabilityTo na o : Z :=
  if negb (Routable na) then Unreachable
  else if RFC4380 na then
    if negb (Routable o) then Default
    else if RFC4380 o then Teredo
    else if isV4 o then Ipv4
    else Ipv6Weak
  else if isV4 na then
    if Routable o && isV4 o then Ipv4 else Default
  else
    let tunnelled := RFC3964 o || RFC6052 o || RFC6145 o in
    if negb (Routable o) then Default
    else if RFC4380 o then Teredo
    else if isV4 o then Ipv4
    else if tunnelled then Ipv6Weak
    else Ipv6Strong.
End ranges.

(** ** [AddrBook.groupKey]

    Slicing [na.IP] past its end is a panic; the branches that slice are reached with
    16-byte addresses only, as [groupKey_total] shows. *)
Definition slice_ip (ip : IP) (i j : nat) : option IP :=
  if decide (j <= length ip)%nat then Some (take (j - i) (drop i ip)) else go_panic.

Definition groupKey (routabilityStrict : bool) (na : NetAddress) : option gostring :=
  if routabilityStrict && Local na then Some (str "local")
  else if routabilityStrict && negb (Routable na) then Some (str "unroutable")
  else if isV4 na then Some (IPNet_String (mkIPNet (na_IP na) (CIDRMask 16 32)))
  else if RFC6145 na || RFC6052 na then
    ip ← slice_ip (na_IP na) 12 16;
    Some (IPNet_String (mkIPNet ip (CIDRMask 16 32)))
  else if RFC3964 na then
    ip ← slice_ip (na_IP na) 2 7;
    Some (IPNet_String (mkIPNet ip (CIDRMask 16 32)))
  else if RFC4380 na then
    ip ← slice_ip (na_IP na) 12 16;
    let ip := map (fun b => Z.lxor b 255) ip in
    Some (IPNet_String (mkIPNet ip (CIDRMask 16 32)))
  else
    let heNet := mkIPNet (v6 [8193; 1136; 0; 0; 0; 0; 0; 0]) (CIDRMask 32 128) in
    let bits := if IPNet_Contains heNet (na_IP na) then 36 else 32 in
    Some (IPNet_String (mkIPNet (na_IP na) (CIDRMask bits 128))).

Example routable_ex : map (fun ip => Routable (mkNetAddress ip 80))
  [IPv4 8 8 8 8; [8; 8; 8; 8]; IPv4 10 1 2 3; IPv4 172 31 0 1; IPv4 172 32 0 1; IPv4 127 0 0 1;
   IPv4 0 0 0 0; v6 [8193; 3512; 0; 0; 0; 0; 0; 1]; v6 [9731; 0; 0; 0; 0; 0; 0; 1]; []]
  = [true; true; false; false; true; false; false; false; true; false].
Proof. vm_compute. reflexivity. Qed.

Example string_ex : map (fun ip => NetAddress_String (mkNetAddress ip 80))
  [IPv4 8 8 8 8; v6 [8193; 3512; 0; 0; 1; 0; 0; 1]; v6 [0; 0; 0; 0; 0; 0; 0; 1]; v6 [1; 0; 2; 3; 4; 5; 6; 0]]
  = [str "8.8.8.8:80"; str "[2001:db8::1:0:0:1]:80"; str "[::1]:80"; str "[1:0:2:3:4:5:6:0]:80"].
Proof. vm_compute. reflexivity. Qed.

(** ** Lemmas *)
Lemma land_255 b : byte_ok b -> Z.land b 255 = b.
Proof.
  intros Hb. change 255 with (Z.ones 8). rewrite Z.land_ones by done. by apply Z.mod_small.
Qed.

Lemma land_240 b : byte_ok b -> (Z.land b 240 =? 16) = (16 <=? b) && (b <=? 31).
Proof.
  intros Hb. apply eqb_prop.
  exact (byte_forall (fun b => eqb (Z.land b 240 =? 16) ((16 <=? b) && (b <=? 31)))
    ltac:(vm_compute; reflexivity) b Hb).
Qed.

(** A range of IPv4 addresses, and one of IPv6 addresses, on an IPv4 address. *)
Lemma contains_v4 n x y z w k l m o a b c d :
  networkNumberAndMask n = Some ([x; y; z; w], [k; l; m; o]) ->
  IPNet_Contains n (IPv4 a b c d)
    = (Z.land x k =? Z.land a k) && ((Z.land y l =? Z.land b l) &&
      ((Z.land z m =? Z.land c m) && ((Z.land w o =? Z.land d o) && true))).
Proof. intros E. unfold IPNet_Contains. by rewrite E. Qed.

Lemma contains_v4_v6 n nn m a b c d :
  networkNumberAndMask n = Some (nn, m) -> #nn = 16 -> IPNet_Contains n (IPv4 a b c d) = false.
Proof. intros E Hl. unfold IPNet_Contains. by rewrite E, Hl. Qed.

(** The reference definition of a routable IPv4 address, range by range. *)
Definition routable_v4 (a b c d : Z) : bool :=
  negb ((a =? 0) || (a =? 10) || (a =? 127) || ((a =? 169) && (b =? 254))
        || ((a =? 172) && (16 <=? b) && (b <=? 31)) || ((a =? 192) && (b =? 168))
        || ((a =? 255) && (b =? 255) && (c =? 255) && (d =? 255))).

Lemma IP_Equal_v4 a b c d x y z w :
  IP_Equal (IPv4 a b c d) (IPv4 x y z w) = (a =? x) && (b =? y) && (c =? z) && (d =? w).
Proof.
  unfold IP_Equal. change (#(IPv4 a b c d) =? #(IPv4 x y z w)) with true. cbv iota.
  destruct (Z.eqb_spec a x), (Z.eqb_spec b y), (Z.eqb_spec c z), (Z.eqb_spec d w); subst; cbn [andb];
    first [by rewrite bool_decide_true | apply bool_decide_false; unfold IPv4; cbn; congruence].
Qed.

Lemma Routable_IPv4 a b c d p : byte_ok a -> byte_ok b -> byte_ok c -> byte_ok d ->
  Routable (mkNetAddress (IPv4 a b c d) p) = routable_v4 a b c d.
Proof.
  intros Ha Hb Hc Hd.
  unfold Routable, Valid, Local, RFC1918, RFC3849, RFC3927, RFC4193, RFC4843, RFC4862, IsUnspecified.
  cbn [na_IP].
  rewrite (contains_v4 rfc1918_10 10 0 0 0 255 0 0 0 a b c d eq_refl),
    (contains_v4 rfc1918_192 192 168 0 0 255 255 0 0 a b c d eq_refl),
    (contains_v4 rfc1918_172 172 16 0 0 255 240 0 0 a b c d eq_refl),
    (contains_v4 rfc3927 169 254 0 0 255 255 0 0 a b c d eq_refl),
    (contains_v4 zero4 0 0 0 0 255 0 0 0 a b c d eq_refl),
    (contains_v4_v6 rfc3849 _ _ a b c d eq_refl eq_refl),
    (contains_v4_v6 rfc4862 _ _ a b c d eq_refl eq_refl),
    (contains_v4_v6 rfc4193 _ _ a b c d eq_refl eq_refl),
    (contains_v4_v6 rfc4843 _ _ a b c d eq_refl eq_refl).
  unfold IPv4bcast. rewrite !IP_Equal_v4.
  assert (IP_Equal (IPv4 a b c d) (replicate 16 0) = false) as ->.
  { unfold IP_Equal. change (#(IPv4 a b c d) =? #(replicate 16 0)) with true. cbv iota.
    by apply bool_decide_false. }
  change (IsLoopback (IPv4 a b c d)) with (a =? 127).
  change (#(IPv4 a b c d) =? 0) with false.
  rewrite !land_255, !Z.land_0_r by done.
  change (Z.land 16 240) with 16. rewrite (Z.eqb_sym 16), land_240 by done.
  rewrite !(Z.eqb_sym _ a), !(Z.eqb_sym _ b). unfold routable_v4. cbn [Z.eqb].
  rewrite (Z.eqb_sym a 255), (Z.eqb_sym a 0), (Z.eqb_sym a 127). btauto.
Qed.

(** A net of 16-byte addresses holds addresses of 16 bytes only. *)
Lemma contains_v6_length n nn m ip :
  networkNumberAndMask n = Some (nn, m) -> #nn = 16 -> IPNet_Contains n ip = true -> To4 ip = None ->
  length ip = 16%nat.
Proof.
  intros E Hl Hc H4. unfold IPNet_Contains in Hc. rewrite E, H4, Hl in Hc. cbn in Hc. zlia.
Qed.

Lemma isV4_None na : isV4 na = false -> To4 (na_IP na) = None.
Proof. unfold isV4. by destruct (To4 _). Qed.

Lemma slice_ip_ok ip i j : length ip = 16%nat -> (j <= 16)%nat ->
  slice_ip ip i j = Some (take (j - i) (drop i ip)).
Proof. intros Hl Hj. unfold slice_ip. rewrite decide_True; [done|lia]. Qed.

(** The group of an address is always defined: the slices of [groupKey] are in range. *)
Lemma groupKey_total strict na : exists g, groupKey strict na = Some g.
Proof.
  unfold groupKey. do 3 (case_on; [eauto|]). apply isV4_None in Heqb1.
  destruct (RFC6145 na) eqn:E1; [|destruct (RFC6052 na) eqn:E2]; cbn [orb].
  1,2: rewrite slice_ip_ok; [cbn; eauto| |lia].
  - by apply (contains_v6_length rfc6145 _ _ _ eq_refl eq_refl).
  - by apply (contains_v6_length rfc6052 _ _ _ eq_refl eq_refl).
  - destruct (RFC3964 na) eqn:E3; [|destruct (RFC4380 na) eqn:E4]; [| |case_on; eauto].
    all: rewrite slice_ip_ok; [cbn; eauto| |lia].
    + by apply (contains_v6_length rfc3964 _ _ _ eq_refl eq_refl).
    + by apply (contains_v6_length rfc4380 _ _ _ eq_refl eq_refl).
Qed.

(** A net whose IP is five bytes long has no text. *)
Lemma IPNet_String_5 ip m : #ip = 5 -> IPNet_String (mkIPNet ip m) = str "<nil>".
Proof.
  intros H5. unfold IPNet_String, networkNumberAndMask, To4. cbn [net_IP net_Mask].
  rewrite H5. cbn [Z.eqb Pos.eqb andb default id]. rewrite H5. done.
Qed.

(** A TCP address keeps its port; under test any other address becomes the seven bytes of a text
    and not the address 0.0.0.0. *)
Lemma NewNetAddress_spec testing : (forall ip port, 0 <= port < 2 ^ 16 -> NewNetAddress testing (TCPAddr ip port) = Some (mkNetAddress ip port)) /\
  (NewNetAddress testing OtherAddr = None <-> testing = false) /\
  (forall na, NewNetAddress testing OtherAddr = Some na -> NetAddress_String na = str "?302e302e302e30:0").
Proof.
  split; [|split; [by destruct testing|]].
  - intros ip port Hp. unfold NewNetAddress, NewNetAddressIPPort. rewrite wrap_small by lia. done.
  - intros na. destruct testing; [|done]. intros [= <-]. vm_compute. reflexivity.
Qed.

(** ** Properties *)

(** An IPv4 address is routable exactly outside the listed ranges; reachability is decided by
    routability: Unreachable exactly from an unroutable address, at most Default to one, and
    otherwise Teredo exactly to a Teredo address. *)
Theorem Routable_Reachability (a b c d p : Z) (na o : NetAddress) :
  byte_ok a -> byte_ok b -> byte_ok c -> byte_ok d ->
  Routable (mkNetAddress (IPv4 a b c d) p) = routable_v4 a b c d /\
  (ReachabilityTo na o = Unreachable <-> Routable na = false) /\
  (Routable o = false -> ReachabilityTo na o <= Default) /\
  (ReachabilityTo na o = Teredo <-> Routable na = true /\ Routable o = true /\ RFC4380 o = true /\
     (RFC4380 na = true \/ isV4 na = false)) /\
  (Routable na = true -> Routable o = true -> isV4 o = true -> ReachabilityTo na o = Ipv4 \/ RFC4380 o = true).
Proof.
  intros. split; [by apply Routable_IPv4|].
  unfold ReachabilityTo, Unreachable, Default, Teredo, Ipv6Weak, Ipv4, Ipv6Strong.
  destruct (Routable na), (Routable o), (RFC4380 na), (RFC4380 o), (isV4 na), (isV4 o),
    (RFC3964 o), (RFC6052 o), (RFC6145 o); cbn; intuition (try lia; try discriminate).
Qed.

Lemma Routable_Reachability_witness :
  Routable (mkNetAddress (IPv4 172 20 0 1) 80) = false /\
  ReachabilityTo (mkNetAddress (IPv4 8 8 8 8) 80) (mkNetAddress (IPv4 9 9 9 9) 80) = Ipv4.
Proof.
  destruct (Routable_Reachability 172 20 0 1 80 (mkNetAddress (IPv4 8 8 8 8) 80)
    (mkNetAddress (IPv4 9 9 9 9) 80)) as (H1 & _ & _ & _ & H2); try (unfold byte_ok; lia).
  split; [exact H1|]. destruct H2 as [H2|H2]; [reflexivity..|exact H2|vm_compute in H2; discriminate].
Defined.

(** How addresses are grouped: a public IPv4 address is keyed by its full text and not by its
    /16 network, so that two hosts of one network differ; every 6to4 address has the one key
    <nil>, whatever network it embeds. *)
Theorem groupKey_groups (strict : bool) (a b c d p : Z) (na : NetAddress) :
  byte_ok a -> byte_ok b -> byte_ok c -> byte_ok d -> routable_v4 a b c d = true ->
  isV4 na = false -> RFC6145 na || RFC6052 na = false -> RFC3964 na = true ->
  (strict = true -> Routable na = true) ->
  groupKey strict (mkNetAddress (IPv4 a b c d) p) = Some (dotted [a; b; c; d] ++ str "/16") /\
  groupKey strict na = Some (str "<nil>").
Proof.
  intros Ha Hb Hc Hd Hr Hv4 H6 H3 Hs. split.
  - unfold groupKey. rewrite Routable_IPv4, Hr by done.
    assert (Local (mkNetAddress (IPv4 a b c d) p) = false) as ->.
    { pose proof (Routable_IPv4 a b c d p Ha Hb Hc Hd) as E. rewrite Hr in E. unfold Routable in E. zbool.
      done. }
    by rewrite !andb_false_r.
  - unfold groupKey. rewrite Hv4, H6, H3.
    assert (strict && Local na = false) as ->.
    { destruct strict; [|done]. specialize (Hs eq_refl). unfold Routable in Hs. zbool. done. }
    assert (strict && negb (Routable na) = false) as -> by (destruct strict; [by rewrite Hs|done]).
    apply isV4_None in Hv4.
    assert (length (na_IP na) = 16%nat) as Hl
      by (by apply (contains_v6_length rfc3964 _ _ _ eq_refl eq_refl)).
    rewrite slice_ip_ok by (done || lia). cbn [mbind option_bind]. f_equal.
    assert (#(take (7 - 2) (drop 2 (na_IP na))) = 5) as H5.
    { unfold zlen. rewrite length_take, length_drop, Hl. done. }
    by apply IPNet_String_5.
Qed.

Lemma groupKey_groups_witness :
  groupKey true (mkNetAddress (IPv4 8 8 1 1) 80) = Some (str "8.8.1.1/16") /\
  groupKey true (mkNetAddress (v6 [8194; 1; 2; 3; 4; 5; 6; 7]) 80) = Some (str "<nil>").
Proof.
  apply (groupKey_groups true 8 8 1 1 80 (mkNetAddress (v6 [8194; 1; 2; 3; 4; 5; 6; 7]) 80));
    try (unfold byte_ok; lia); try reflexivity.
Defined.
