(* ===== verification/AddrBook.v ===== *)
(** * The address book of peer exchange

    Models [p2p/pex/addrbook.go], [know_address.go], [param.go] and the book's JSON form in
    [file.go].  A [*knownAddress] is shared by the lookup table and the buckets, so that the
    book carries a heap: tables and buckets hold references into it.  The mutex serialises the
    methods, each of which is one step here.

    What Go leaves open is an argument: the clock ([now], in nanoseconds; one reading per
    call), random draws (any integer, reduced as [rand] does), and the order in which a map is
    ranged over ([MapOrder], indexed by the loop so that two loops may differ).  [None] is a
    run-time panic. *)
From Stdlib Require Import SpecFloat.
From S2P Require Import Prelude Errors GoLib Hash NetAddress.

(** ** Parameters *)
Definition bucketTypeNew : Z := 1.
Definition bucketTypeOld : Z := 2.
Definition oldBucketSize : Z := 64.
Definition oldBucketCount : Z := 64.
Definition oldBucketsPerGroup : Z := 4.
Definition newBucketSize : Z := 64.
Definition newBucketCount : Z := 256.
Definition newBucketsPerGroup : Z := 32.
Definition getSelectionPercent : Z := 23.
Definition minGetSelection : Z := 32.
Definition maxGetSelection : Z := 250.
Definition needAddressThreshold : Z := 1000.
Definition maxNewBucketsPerAddress : Z := 4.
Definition numMissingDays : Z := 30.
Definition numRetries : Z := 3.
Definition maxFailures : Z := 10.
Definition minBadDays : Z := 7.

Definition Minute : Z := 60000000000.
Definition Hour : Z := 3600000000000.

(** ** know_address.go *)

(** Times are nanoseconds since the zero [time.Time]. *)
Record knownAddress := mkKa {
  Addr : NetAddress;
  Src : NetAddress;
  Attempts : Z;
  LastAttempt : Z;
  LastSuccess : Z;
  BucketType : Z;
  Buckets : list Z;
}.

Definition newKnownAddress (now : Z) (addr src : NetAddress) : knownAddress :=
  mkKa addr src 0 now 0 bucketTypeNew [].

Definition set_Buckets (l : list Z) (ka : knownAddress) : knownAddress :=
  mkKa (Addr ka) (Src ka) (Attempts ka) (LastAttempt ka) (LastSuccess ka) (BucketType ka) l.
Definition set_BucketType (t : Z) (ka : knownAddress) : knownAddress :=
  mkKa (Addr ka) (Src ka) (Attempts ka) (LastAttempt ka) (LastSuccess ka) t (Buckets ka).

(** The value returned and the address after the call. *)
Definition addBucketRef (ka : knownAddress) (bucketIdx : Z) : Z * knownAddress :=
  if existsb (Z.eqb bucketIdx) (Buckets ka) then (-1, ka)
  else
    let ka := set_Buckets (Buckets ka ++ [bucketIdx]) ka in
    (#(Buckets ka), ka).

Definition removeBucketRef (ka : knownAddress) (bucketIdx : Z) : Z * knownAddress :=
  let buckets := List.filter (fun b => negb (b =? bucketIdx)) (Buckets ka) in
  if negb (#buckets =? #(Buckets ka) - 1) then (-1, ka)
  else (#buckets, set_Buckets buckets ka).

Definition isOld (ka : knownAddress) : bool := BucketType ka =? bucketTypeOld.
Definition isNew (ka : knownAddress) : bool := BucketType ka =? bucketTypeNew.

Definition isBad (now : Z) (ka : knownAddress) : bool :=
  if BucketType ka =? bucketTypeOld then false
  else if (now - Minute <? LastAttempt ka) && negb (Attempts ka =? 0) then true
  else if LastAttempt ka <? now - numMissingDays * Hour * 24 then true
  else if (LastSuccess ka =? 0) && (numRetries <=? Attempts ka) then true
  else if (LastSuccess ka <? now - minBadDays * Hour * 24) && (maxFailures <=? Attempts ka) then true
  else false.

Definition markAttempt (now : Z) (ka : knownAddress) : knownAddress :=
  mkKa (Addr ka) (Src ka) (i32 (Attempts ka + 1)) now (LastSuccess ka) (BucketType ka) (Buckets ka).
Definition markGood (now : Z) (ka : knownAddress) : knownAddress :=
  mkKa (Addr ka) (Src ka) 0 now now (BucketType ka) (Buckets ka).

Definition ka_String (ka : knownAddress) : gostring := NetAddress_String (Addr ka).

(** ** addrbook.go *)
Record AddrBook := mkBook {
  routabilityStrict : bool;
  key : gostring;
  ourAddrs : gmap gostring NetAddress;
  addrLookup : gmap gostring nat;
  bucketsNew : list (gmap gostring nat);
  bucketsOld : list (gmap gostring nat);
  nOld : Z;
  nNew : Z;
  heap : gmap nat knownAddress;
}.

Definition NewAddrBook (strict : bool) (key : gostring) : AddrBook :=
  mkBook strict key ∅ ∅ (replicate 256 ∅) (replicate 64 ∅) 0 0 ∅.

Definition with_heap (h : gmap nat knownAddress) (a : AddrBook) : AddrBook :=
  mkBook (routabilityStrict a) (key a) (ourAddrs a) (addrLookup a) (bucketsNew a) (bucketsOld a)
    (nOld a) (nNew a) h.
Definition with_lookup (m : gmap gostring nat) (a : AddrBook) : AddrBook :=
  mkBook (routabilityStrict a) (key a) (ourAddrs a) m (bucketsNew a) (bucketsOld a)
    (nOld a) (nNew a) (heap a).
Definition with_counts (old new : Z) (a : AddrBook) : AddrBook :=
  mkBook (routabilityStrict a) (key a) (ourAddrs a) (addrLookup a) (bucketsNew a) (bucketsOld a)
    old new (heap a).
Definition with_buckets (new old : list (gmap gostring nat)) (a : AddrBook) : AddrBook :=
  mkBook (routabilityStrict a) (key a) (ourAddrs a) (addrLookup a) new old (nOld a) (nNew a) (heap a).

(** Indexing a slice with an int. *)
Definition index {A} (l : list A) (i : Z) : option A :=
  if i <? 0 then go_panic else l !! Z.to_nat i.

(** An unknown bucket type is logged and gives a nil map. *)
Definition getBucket (a : AddrBook) (bucketType bucketIdx : Z) : option (option (gmap gostring nat)) :=
  if bucketType =? bucketTypeNew then Some <$> index (bucketsNew a) bucketIdx
  else if bucketType =? bucketTypeOld then Some <$> index (bucketsOld a) bucketIdx
  else Some None.

(** Replaces the contents of a bucket. *)
Definition putBucket (a : AddrBook) (bucketType bucketIdx : Z) (m : gmap gostring nat) : AddrBook :=
  let i := Z.to_nat bucketIdx in
  if bucketType =? bucketTypeNew then with_buckets (<[i := m]> (bucketsNew a)) (bucketsOld a) a
  else if bucketType =? bucketTypeOld then with_buckets (bucketsNew a) (<[i := m]> (bucketsOld a)) a
  else a.

(** [delete(bucket, s)], which a nil map ignores. *)
Definition bucket_delete (bucketType : Z) (s : gostring) (a : AddrBook) (bucketIdx : Z) : option AddrBook :=
  m ← getBucket a bucketType bucketIdx;
  match m with
  | Some m => Some (putBucket a bucketType bucketIdx (delete s m))
  | None => Some a
  end.

Fixpoint delete_from_buckets (bucketType : Z) (s : gostring) (idxs : list Z) (a : AddrBook) : option AddrBook :=
  match idxs with
  | [] => Some a
  | i :: idxs =>
      a ← bucket_delete bucketType s a i;
      delete_from_buckets bucketType s idxs a
  end.

(** One address fewer of the type. *)
Definition count_out (bucketType : Z) (a : AddrBook) : AddrBook :=
  if bucketType =? bucketTypeNew then with_counts (nOld a) (nNew a - 1) a
  else with_counts (nOld a - 1) (nNew a) a.

Definition removeFromAllBuckets (a : AddrBook) (p : nat) : option AddrBook :=
  ka ← heap a !! p;
  let a := with_lookup (delete (ka_String ka) (addrLookup a)) a in
  a ← delete_from_buckets (BucketType ka) (ka_String ka) (Buckets ka) a;
  let a := with_heap (<[p := set_Buckets [] ka]> (heap a)) a in
  Some (count_out (BucketType ka) a).

Definition removeFromBucket (a : AddrBook) (p : nat) (bucketIdx : Z) : option AddrBook :=
  ka ← heap a !! p;
  a ← bucket_delete (BucketType ka) (ka_String ka) a bucketIdx;
  let '(n, ka) := removeBucketRef ka bucketIdx in
  let a := with_heap (<[p := ka]> (heap a)) a in
  if n =? 0 then
    let a := with_lookup (delete (ka_String ka) (addrLookup a)) a in
    Some (count_out (BucketType ka) a)
  else Some a.

(** The order in which loop number [n] ranges over a map. *)
Class MapOrder := iter : forall A, nat -> gmap gostring A -> list (gostring * A).
Class MapOrderLaws `{MapOrder} := iter_perm A n (m : gmap gostring A) : iter A n m ≡ₚ map_to_list m.

Fixpoint first_bad (a : AddrBook) (now : Z) (l : list (gostring * nat)) : option (option nat) :=
  match l with
  | [] => Some None
  | (_, p) :: l =>
      ka ← heap a !! p;
      if isBad now ka then Some (Some p) else first_bad a now l
  end.

Fixpoint oldest_of (a : AddrBook) (oldest : option nat) (l : list (gostring * nat)) : option (option nat) :=
  match l with
  | [] => Some oldest
  | (_, p) :: l =>
      ka ← heap a !! p;
      match oldest with
      | None => oldest_of a (Some p) l
      | Some o =>
          ko ← heap a !! o;
          oldest_of a (if LastAttempt ka <? LastAttempt ko then Some p else Some o) l
      end
  end.

Section book.
Context `{Sha3} `{MapOrder}.

(** Ranging over a nil map visits nothing. *)
Definition pickOldest (a : AddrBook) (bucketType bucketIdx : Z) : option (option nat) :=
  bucket ← getBucket a bucketType bucketIdx;
  oldest_of a None (match bucket with Some m => iter nat 1 m | None => [] end).

Definition expireNew (a : AddrBook) (now bucketIdx : Z) : option AddrBook :=
  bucket ← index (bucketsNew a) bucketIdx;
  bad ← first_bad a now (iter nat 0 bucket);
  match bad with
  | Some p => removeFromBucket a p bucketIdx
  | None =>
      oldest ← pickOldest a bucketTypeNew bucketIdx;
      p ← oldest;
      removeFromBucket a p bucketIdx
  end.

(** [bucket[addrStr] = ka], [a.addrLookup[addrStr] = ka] and the reference to the bucket. *)
Definition put_in_bucket (a : AddrBook) (p : nat) (ka : knownAddress) (bucketType bucketIdx : Z)
    (bucket : gmap gostring nat) : AddrBook :=
  let addrStr := ka_String ka in
  let a := putBucket a bucketType bucketIdx (<[addrStr := p]> bucket) in
  let a := with_lookup (<[addrStr := p]> (addrLookup a)) a in
  let '(n, ka) := addBucketRef ka bucketIdx in
  let a := with_heap (<[p := ka]> (heap a)) a in
  if n =? 1 then
    if bucketType =? bucketTypeNew then with_counts (nOld a) (nNew a + 1) a
    else with_counts (nOld a + 1) (nNew a) a
  else a.

Definition addToNewBucket (a : AddrBook) (now : Z) (p : nat) (bucketIdx : Z)
    : option (option error * AddrBook) :=
  ka ← heap a !! p;
  if isOld ka then Some (New (str "cant add old address to new bucket"), a)
  else
    bucket ← index (bucketsNew a) bucketIdx;
    match bucket !! ka_String ka with
    | Some _ => Some (None, a)
    | None =>
        a ← (if newBucketSize <? Z.of_nat (size bucket) then expireNew a now bucketIdx else Some a);
        bucket ← index (bucketsNew a) bucketIdx;
        ka ← heap a !! p;
        Some (None, put_in_bucket a p ka bucketTypeNew bucketIdx bucket)
    end.

Definition addToOldBucket (a : AddrBook) (p : nat) (bucketIdx : Z) : option (option error * AddrBook) :=
  ka ← heap a !! p;
  if isNew ka then Some (New (str "cannot add old address to new bucket"), a)
  else if negb (#(Buckets ka) =? 0)
  then Some (New (str "cannot add already old address to another old bucket"), a)
  else
    bucket ← index (bucketsOld a) bucketIdx;
    if oldBucketSize <? Z.of_nat (size bucket) then Some (New (str "old bucket is full"), a)
    else Some (None, put_in_bucket a p ka bucketTypeOld bucketIdx bucket).

(** [crypto.DoubleSha256], which is SHA3-256 applied twice. *)
Definition DoubleSha256 (b : bytes) : bytes :=
  let sum := Sum256 b in
  Sum256 sum.

Definition bookGroupKey (a : AddrBook) (na : NetAddress) : option gostring :=
  groupKey (routabilityStrict a) na.

Definition calcNewBucket (a : AddrBook) (addr src : NetAddress) : option Z :=
  gaddr ← bookGroupKey a addr;
  gsrc ← bookGroupKey a src;
  let data1 := key a ++ gaddr ++ gsrc in
  let hash1 := DoubleSha256 data1 in
  let hash64 := be_get (slice hash1 0 8) mod newBucketsPerGroup in
  let hashbuf := be_put 8 hash64 in
  let data2 := key a ++ gsrc ++ hashbuf in
  let hash2 := DoubleSha256 data2 in
  Some (be_get (slice hash2 0 8) mod newBucketCount).

Definition calcOldBucket (a : AddrBook) (addr : NetAddress) : option Z :=
  let data1 := key a ++ NetAddress_String addr in
  let hash1 := DoubleSha256 data1 in
  let hash64 := be_get (slice hash1 0 8) mod oldBucketsPerGroup in
  let hashbuf := be_put 8 hash64 in
  gaddr ← bookGroupKey a addr;
  let data2 := key a ++ gaddr ++ hashbuf in
  let hash2 := DoubleSha256 data2 in
  Some (be_get (slice hash2 0 8) mod oldBucketCount).

(** [rand.Int31n] and [rand.Intn] panic unless the bound is positive. *)
Definition Intn (draw n : Z) : option Z := if n <=? 0 then go_panic else Some (draw mod n).

Definition addAddress (a : AddrBook) (now draw : Z) (addr src : option NetAddress)
    : option (option error * AddrBook) :=
  match addr, src with
  | Some addr, Some src =>
      match ourAddrs a !! NetAddress_String addr with
      | Some _ => Some (New (str "add ourselves to address book"), a)
      | None =>
          if routabilityStrict a && negb (Routable addr)
          then Some (New (str "cannot add non-routable address"), a)
          else
            let add a p :=
              bucket ← calcNewBucket a addr src;
              addToNewBucket a now p bucket in
            match addrLookup a !! NetAddress_String addr with
            | Some p =>
                ka ← heap a !! p;
                if isOld ka then Some (None, a)
                else if #(Buckets ka) =? maxNewBucketsPerAddress then Some (None, a)
                else
                  r ← Intn draw (i32 (2 * #(Buckets ka)));
                  if negb (r =? 0) then Some (None, a) else add a p
            | None =>
                let p := fresh (dom (heap a)) in
                add (with_heap (<[p := newKnownAddress now addr src]> (heap a)) a) p
            end
      end
  | _, _ => Some (New (str "can't add nil to address book"), a)
  end.

Definition moveToOld (a : AddrBook) (p : nat) : option (option error * AddrBook) :=
  ka ← heap a !! p;
  if isOld ka then Some (New (str "cannot promote address that is already old"), a)
  else if #(Buckets ka) =? 0
  then Some (New (str "cannot promote address that isn't in any new buckets"), a)
  else
    a ← removeFromAllBuckets a p;
    ka ← heap a !! p;
    let a := with_heap (<[p := set_BucketType bucketTypeOld ka]> (heap a)) a in
    oldBucketIdx ← calcOldBucket a (Addr ka);
    addToOldBucket a p oldBucketIdx.

(** ** The exported methods *)
Definition AddAddress (a : AddrBook) (now draw : Z) (addr src : option NetAddress)
    : option (option error * AddrBook) := addAddress a now draw addr src.

Definition AddOurAddress (a : AddrBook) (addr : NetAddress) : AddrBook :=
  mkBook (routabilityStrict a) (key a) (<[NetAddress_String addr := addr]> (ourAddrs a)) (addrLookup a)
    (bucketsNew a) (bucketsOld a) (nOld a) (nNew a) (heap a).

(** The error of [moveToOld] is logged. *)
Definition MarkGood (a : AddrBook) (now : Z) (addr : NetAddress) : option AddrBook :=
  match addrLookup a !! NetAddress_String addr with
  | None => Some a
  | Some p =>
      ka ← heap a !! p;
      let ka := markGood now ka in
      let a := with_heap (<[p := ka]> (heap a)) a in
      if isNew ka then snd <$> moveToOld a p else Some a
  end.

Definition MarkAttempt (a : AddrBook) (now : Z) (addr : NetAddress) : option AddrBook :=
  match addrLookup a !! NetAddress_String addr with
  | None => Some a
  | Some p =>
      ka ← heap a !! p;
      Some (with_heap (<[p := markAttempt now ka]> (heap a)) a)
  end.

Definition RemoveAddress (a : AddrBook) (addr : NetAddress) : option AddrBook :=
  match addrLookup a !! NetAddress_String addr with
  | None => Some a
  | Some p => removeFromAllBuckets a p
  end.

Definition book_size (a : AddrBook) : Z := nNew a + nOld a.
Definition Size (a : AddrBook) : Z := book_size a.
Definition NeedMoreAddrs (a : AddrBook) : bool := Size a <? needAddressThreshold.

(** [allAddr[i], allAddr[j] = allAddr[j], allAddr[i]] *)
Definition swap {A} (l : list A) (i j : Z) : option (list A) :=
  x ← index l i;
  y ← index l j;
  Some (<[Z.to_nat j := x]> (<[Z.to_nat i := y]> l)).

(** The [n] remaining rounds of the shuffle, from index [i]. *)
Fixpoint shuffle {A} (n : nat) (i : Z) (draw : Z -> Z) (l : list A) : option (list A) :=
  match n with
  | O => Some l
  | S n =>
      r ← Intn (draw i) (#l - i);
      l ← swap l i (r + i);
      shuffle n (i + 1) draw l
  end.

Fixpoint deref_all (a : AddrBook) (l : list (gostring * nat)) : option (list NetAddress) :=
  match l with
  | [] => Some []
  | (_, p) :: l =>
      ka ← heap a !! p;
      r ← deref_all a l;
      Some (Addr ka :: r)
  end.

Definition GetSelection (a : AddrBook) (draw : Z -> Z) : option (list NetAddress) :=
  let bookSize := book_size a in
  if bookSize =? 0 then Some []
  else
    let numAddresses := Z.max (Z.min minGetSelection bookSize)
                              (Z.quot (bookSize * getSelectionPercent) 100) in
    let numAddresses := Z.min maxGetSelection numAddresses in
    allAddr ← deref_all a (iter nat 2 (addrLookup a));
    allAddr ← shuffle (Z.to_nat numAddresses) 0 draw allAddr;
    if (numAddresses <? 0) || (#allAddr <? numAddresses) then go_panic
    else Some (take (Z.to_nat numAddresses) allAddr).

(** float64 arithmetic, rounding to nearest even. *)
Definition f64_of_int (z : Z) : spec_float := binary_normalize 53 1024 z 0 false.
Definition f64_mul := SFmul 53 1024.
Definition f64_add := SFadd 53 1024.
Definition f64_sub := SFsub 53 1024.
Definition f64_sqrt := SFsqrt 53 1024.

(** The outcome of [PickAddress]; [Looping] when every draw given hit an empty bucket. *)
Inductive pick_result :=
| Picked (na : option NetAddress)
| Looping
| Panicked.

(** [for len(bucket) == 0]: the bucket found and the draws left. *)
Fixpoint pick_bucket (buckets : list (gmap gostring nat)) (draws : list Z)
    : option (gmap gostring nat * list Z) + pick_result :=
  match draws with
  | [] => inr Looping
  | d :: draws =>
      match Intn d #buckets with
      | None => inr Panicked
      | Some i =>
          match index buckets i with
          | None => inr Panicked
          | Some m =>
              if (size m =? 0)%nat then pick_bucket buckets draws else inl (Some (m, draws))
          end
      end
  end.

Definition PickAddress (a : AddrBook) (bias : Z) (f : spec_float) (draws : list Z) : pick_result :=
  if book_size a =? 0 then Picked None
  else
    let bias := if 100 <? bias then 100 else if bias <? 0 then 0 else bias in
    let oldCorrelation :=
      f64_mul (f64_sqrt (f64_of_int (nOld a))) (f64_sub (f64_of_int 100) (f64_of_int bias)) in
    let newCorrelation := f64_mul (f64_sqrt (f64_of_int (nNew a))) (f64_of_int bias) in
    let pickFromOldBucket :=
      SFltb (f64_mul (f64_add newCorrelation oldCorrelation) f) oldCorrelation in
    if (pickFromOldBucket && (nOld a =? 0)) || (negb pickFromOldBucket && (nNew a =? 0))
    then Picked None
    else
      match pick_bucket (if pickFromOldBucket then bucketsOld a else bucketsNew a) draws with
      | inr r => r
      | inl None => Panicked
      | inl (Some (bucket, [])) => Looping
      | inl (Some (bucket, d :: _)) =>
          match Intn d (Z.of_nat (size bucket)) with
          | None => Panicked
          | Some randIndex =>
              match iter nat 3 bucket !! Z.to_nat randIndex with
              | None => Picked None
              | Some (_, p) =>
                  match heap a !! p with
                  | Some ka => Picked (Some (Addr ka))
                  | None => Panicked
                  end
              end
          end
      end.
End book.

(** ** file.go *)

(** The book's JSON form; encoding, decoding and the file system are not modelled. *)
Record addrBookJSON := mkBookJSON { json_Key : gostring; json_Addrs : list knownAddress }.

Fixpoint deref_kas (a : AddrBook) (l : list (gostring * nat)) : option (list knownAddress) :=
  match l with
  | [] => Some []
  | (_, p) :: l =>
      ka ← heap a !! p;
      r ← deref_kas a l;
      Some (ka :: r)
  end.

(** What [SaveToFile] marshals. *)
Definition SaveToFile `{MapOrder} (a : AddrBook) : option addrBookJSON :=
  addrs ← deref_kas a (iter nat 4 (addrLookup a));
  Some (mkBookJSON (key a) addrs).

(** [bucket[s] = ka]: a panic on a nil map. *)
Fixpoint load_buckets (bucketType : Z) (s : gostring) (p : nat) (idxs : list Z) (a : AddrBook) : option AddrBook :=
  match idxs with
  | [] => Some a
  | i :: idxs =>
      m ← getBucket a bucketType i;
      m ← m;
      load_buckets bucketType s p idxs (putBucket a bucketType i (<[s := p]> m))
  end.

Fixpoint load_addrs (l : list knownAddress) (a : AddrBook) : option AddrBook :=
  match l with
  | [] => Some a
  | ka :: l =>
      let p := fresh (dom (heap a)) in
      let a := with_heap (<[p := ka]> (heap a)) a in
      let a := with_lookup (<[ka_String ka := p]> (addrLookup a)) a in
      a ← load_buckets (BucketType ka) (ka_String ka) p (Buckets ka) a;
      let a := if BucketType ka =? bucketTypeNew then with_counts (nOld a) (nNew a + 1) a
               else with_counts (nOld a + 1) (nNew a) a in
      load_addrs l a
  end.

Definition with_key (k : gostring) (a : AddrBook) : AddrBook :=
  mkBook (routabilityStrict a) k (ourAddrs a) (addrLookup a) (bucketsNew a) (bucketsOld a)
    (nOld a) (nNew a) (heap a).

(** [loadFromFile] once the file is decoded; a missing file ([None]) is no error. *)
Definition loadFromFile (a : AddrBook) (file : option (res error addrBookJSON))
    : option (option error * AddrBook) :=
  match file with
  | None => Some (None, a)
  | Some (Err e) => Some (Some e, a)
  | Some (Ok aJSON) =>
      let a := with_key (json_Key aJSON) a in
      a ← load_addrs (json_Addrs aJSON) a;
      Some (None, a)
  end.
