(* ===== verification/AddrBookInv.v ===== *)
(** * The invariant of the address book and what follows from it

    The lookup table and the buckets describe one set of addresses: an address in the table
    is in one to four new buckets or in exactly one old one, which are those its record
    lists; a bucket holds nothing else; the counters count the table; no bucket exceeds 65
    addresses.  Every method preserves this and, from a book that satisfies it, never panics. *)
From S2P Require Import Prelude Errors GoLib Hash NetAddress AddrBook.

(** ** Buckets by type and index *)
Definition in_range (t i : Z) : Prop :=
  (t = bucketTypeNew /\ 0 <= i < newBucketCount) \/ (t = bucketTypeOld /\ 0 <= i < oldBucketCount).

#[export] Instance in_range_dec t i : Decision (in_range t i).
Proof. unfold in_range. apply _. Defined.

Definition bucket_at (a : AddrBook) (t i : Z) : gmap gostring nat :=
  match getBucket a t i with Some (Some m) => m | _ => ∅ end.

Definition wf_len (a : AddrBook) : Prop :=
  length (bucketsNew a) = 256%nat /\ length (bucketsOld a) = 64%nat.

Lemma index_some {A} (l : list A) i : 0 <= i < #l -> exists x, index l i = Some x.
Proof.
  intros Hi. unfold index. rewrite (proj2 (Z.ltb_ge i 0)) by lia.
  apply lookup_lt_is_Some_2. zlia.
Qed.

Lemma index_none {A} (l : list A) i : ~ (0 <= i < #l) -> index l i = None.
Proof.
  intros Hi. unfold index. destruct (Z.ltb_spec i 0); [done|]. apply lookup_ge_None_2. zlia.
Qed.

Lemma index_insert {A} (l : list A) i j x : 0 <= i < #l ->
  index (<[Z.to_nat i := x]> l) j = if decide (j = i) then Some x else index l j.
Proof.
  intros Hi. unfold index. destruct (Z.ltb_spec j 0); [by rewrite decide_False by lia|].
  case_decide as Hd; [subst; apply list_lookup_insert_eq; zlia|].
  apply list_lookup_insert_ne. lia.
Qed.

Lemma wf_len_z a : wf_len a -> #(bucketsNew a) = newBucketCount /\ #(bucketsOld a) = oldBucketCount.
Proof. intros [H1 H2]. unfold zlen. rewrite H1, H2. done. Qed.

Lemma getBucket_at a t i : wf_len a -> in_range t i -> getBucket a t i = Some (Some (bucket_at a t i)).
Proof.
  intros Hw Hr. apply wf_len_z in Hw as [Hn Ho]. unfold bucket_at, getBucket.
  destruct Hr as [[-> Hi]|[-> Hi]]; cbn [Z.eqb Pos.eqb bucketTypeNew bucketTypeOld].
  - rewrite <- Hn in Hi. destruct (index_some _ _ Hi) as [m ->]. done.
  - rewrite <- Ho in Hi. destruct (index_some _ _ Hi) as [m ->]. done.
Qed.

Lemma bucket_at_out a t i : wf_len a -> ~ in_range t i -> bucket_at a t i = ∅.
Proof.
  intros Hw Hr. apply wf_len_z in Hw as [Hn Ho]. unfold bucket_at, getBucket.
  destruct (Z.eqb_spec t bucketTypeNew) as [->|]; [|destruct (Z.eqb_spec t bucketTypeOld) as [->|]; [|done]].
  - rewrite index_none; [done|]. rewrite Hn. intros Hi. apply Hr. by left.
  - rewrite index_none; [done|]. rewrite Ho. intros Hi. apply Hr. by right.
Qed.

Lemma bucket_at_put a t i m t' i' : wf_len a -> in_range t i ->
  bucket_at (putBucket a t i m) t' i' = if decide (t' = t /\ i' = i) then m else bucket_at a t' i'.
Proof.
  intros Hw Hr. apply wf_len_z in Hw as [Hn Ho]. unfold bucket_at, putBucket, getBucket.
  unfold in_range, bucketTypeNew, bucketTypeOld in *.
  destruct Hr as [[-> Hi]|[-> Hi]]; cbn [Z.eqb Pos.eqb];
    (destruct (Z.eqb_spec t' 1) as [->|]; [|destruct (Z.eqb_spec t' 2) as [->|]]);
    cbn [bucketsNew bucketsOld with_buckets];
    rewrite ?index_insert by (rewrite ?Hn, ?Ho; done);
    try (destruct (decide (i' = i)) as [->|]; [rewrite decide_True by done|rewrite decide_False by (intros [? ?]; lia)]; done);
    by rewrite decide_False by (intros [? ?]; lia).
Qed.

Lemma putBucket_fields a t i m :
  routabilityStrict (putBucket a t i m) = routabilityStrict a /\ key (putBucket a t i m) = key a /\
  ourAddrs (putBucket a t i m) = ourAddrs a /\ addrLookup (putBucket a t i m) = addrLookup a /\
  nOld (putBucket a t i m) = nOld a /\ nNew (putBucket a t i m) = nNew a /\
  heap (putBucket a t i m) = heap a /\ (wf_len a -> wf_len (putBucket a t i m)).
Proof.
  unfold putBucket, wf_len. destruct (t =? bucketTypeNew), (t =? bucketTypeOld); cbn; rewrite ?length_insert; by split_and!.
Qed.

(** The parts of a book outside its buckets. *)
Definition same_rest (a b : AddrBook) : Prop :=
  routabilityStrict b = routabilityStrict a /\ key b = key a /\ ourAddrs b = ourAddrs a /\
  addrLookup b = addrLookup a /\ nOld b = nOld a /\ nNew b = nNew a /\ heap b = heap a.

(** [f] applied to the buckets [idxs] of type [t], and nothing else. *)
Definition updated (f : gmap gostring nat -> gmap gostring nat) (t : Z) (idxs : list Z) (a b : AddrBook) : Prop :=
  same_rest a b /\ wf_len b /\
  forall t' i', bucket_at b t' i' =
    if decide (t' = t /\ i' ∈ idxs) then f (bucket_at a t' i') else bucket_at a t' i'.

Lemma updated_nil f t a : wf_len a -> updated f t [] a a.
Proof.
  intros Hw. split_and!; [by unfold same_rest; split_and!|apply Hw..|].
  intros t' i'. rewrite decide_False; [done|]. intros [_ H]. by apply not_elem_of_nil in H.
Qed.

Lemma updated_cons f t i idxs a b : (forall m, f (f m) = f m) -> wf_len a -> in_range t i ->
  updated f t idxs (putBucket a t i (f (bucket_at a t i))) b -> updated f t (i :: idxs) a b.
Proof.
  intros Hf Hw Hi (Hs & Hwb & Hat).
  destruct (putBucket_fields a t i (f (bucket_at a t i))) as (F1 & F2 & F3 & F4 & F5 & F6 & F7 & F8).
  split.
  { destruct Hs as (?&?&?&?&?&?&?). unfold same_rest. by split_and!; etrans; eauto. }
  split; [done|]. intros t' i'. rewrite Hat, bucket_at_put by done.
  destruct (decide (t' = t /\ i' = i)) as [[-> ->]|Hne].
  - rewrite (decide_True (P := t = t /\ i ∈ i :: idxs)) by (split; [done|left]).
    case_decide; [|done]. by rewrite Hf.
  - destruct (decide (t' = t /\ i' ∈ idxs)) as [[-> Hin]|Hnin].
    + by rewrite decide_True by (split; [done|by right]).
    + rewrite decide_False; [done|]. intros [-> Hin]. apply elem_of_cons in Hin as [->|]; naive_solver.
Qed.

Lemma delete_from_buckets_spec t s idxs : forall a, wf_len a -> Forall (in_range t) idxs ->
  exists b, delete_from_buckets t s idxs a = Some b /\ updated (delete s) t idxs a b.
Proof.
  induction idxs as [|i idxs IH]; intros a Hw Hr; cbn [delete_from_buckets].
  { exists a. split; [done|by apply updated_nil]. }
  apply Forall_cons_1 in Hr as [Hi Hr]. unfold bucket_delete. rewrite getBucket_at by done.
  cbn [mbind option_bind].
  destruct (IH (putBucket a t i (delete s (bucket_at a t i)))) as (b & Hb & Hu); [by apply putBucket_fields|done|].
  exists b. split; [done|]. apply updated_cons; [intros m; apply delete_delete_eq|done..].
Qed.

(** ** The invariant *)
Definition typ (a : AddrBook) (p : nat) : option Z := BucketType <$> heap a !! p.
Definition count (a : AddrBook) (t : Z) : Z :=
  Z.of_nat (size (filter (fun sp => typ a sp.2 = Some t) (addrLookup a))).

Definition known (a : AddrBook) (s : gostring) (p : nat) (ka : knownAddress) : Prop :=
  ka_String ka = s /\
  ((BucketType ka = bucketTypeNew /\ 1 <= #(Buckets ka) <= maxNewBucketsPerAddress) \/
   (BucketType ka = bucketTypeOld /\ #(Buckets ka) = 1)) /\
  NoDup (Buckets ka) /\
  forall i, i ∈ Buckets ka <-> bucket_at a (BucketType ka) i !! s = Some p.

Record Inv (a : AddrBook) : Prop := {
  inv_len : wf_len a;
  inv_lookup s p : addrLookup a !! s = Some p -> exists ka, heap a !! p = Some ka /\ known a s p ka;
  inv_bucket t i s p : bucket_at a t i !! s = Some p ->
    addrLookup a !! s = Some p /\ exists ka, heap a !! p = Some ka /\ BucketType ka = t;
  inv_new : nNew a = count a bucketTypeNew;
  inv_old : nOld a = count a bucketTypeOld;
  inv_size t i : (size (bucket_at a t i) <= 65)%nat;
}.

Lemma index_replicate {A} n (x y : A) i : index (replicate n x) i = Some y -> y = x.
Proof. unfold index. case_on; [done|]. by intros [-> _]%lookup_replicate_1. Qed.

Lemma bucket_at_empty strict k t i : bucket_at (NewAddrBook strict k) t i = ∅.
Proof.
  unfold bucket_at, getBucket, NewAddrBook. cbn [bucketsNew bucketsOld].
  destruct (t =? bucketTypeNew); [|destruct (t =? bucketTypeOld); [|done]];
    (destruct (index (replicate _ _) _) as [m|] eqn:E; [|done]); by apply index_replicate in E as ->.
Qed.

Lemma Inv_NewAddrBook strict k : Inv (NewAddrBook strict k).
Proof.
  split; try done.
  - intros t i s p. by rewrite bucket_at_empty.
  - intros t i. rewrite bucket_at_empty, map_size_empty. lia.
Qed.

(** ** Consequences *)
Lemma known_in_range a s p ka i : wf_len a -> known a s p ka -> i ∈ Buckets ka -> in_range (BucketType ka) i.
Proof.
  intros Hw (_ & _ & _ & Hk) Hi. destruct (decide (in_range (BucketType ka) i)); [done|].
  apply Hk in Hi. by rewrite bucket_at_out in Hi.
Qed.

Lemma bucket_known a t i s p : Inv a -> bucket_at a t i !! s = Some p ->
  exists ka, heap a !! p = Some ka /\ known a s p ka /\ BucketType ka = t /\ i ∈ Buckets ka.
Proof.
  intros Ha Hb. destruct (inv_bucket _ Ha _ _ _ _ Hb) as (Hl & ka & Hh & Ht).
  destruct (inv_lookup _ Ha _ _ Hl) as (ka' & Hh' & Hk).
  assert (ka' = ka) as -> by congruence. exists ka. split_and!; try done. apply Hk. by rewrite Ht.
Qed.

(** One record describes one address. *)
Lemma lookup_inj a s s' p : Inv a -> addrLookup a !! s = Some p -> addrLookup a !! s' = Some p -> s = s'.
Proof.
  intros Ha H1 H2. destruct (inv_lookup _ Ha _ _ H1) as (k1 & E1 & <- & _).
  destruct (inv_lookup _ Ha _ _ H2) as (k2 & E2 & <- & _). by simplify_eq.
Qed.

Lemma count_split a : Inv a -> Z.of_nat (size (addrLookup a)) = count a bucketTypeNew + count a bucketTypeOld.
Proof.
  intros Ha. unfold count.
  rewrite <- (map_filter_union_complement (fun sp => typ a sp.2 = Some bucketTypeNew) (addrLookup a)) at 1.
  rewrite map_size_disj_union by apply map_disjoint_filter_complement. rewrite Nat2Z.inj_add. do 2 f_equal.
  f_equal. apply map_filter_ext. intros s p Hl. cbn.
  destruct (inv_lookup _ Ha _ _ Hl) as (ka & Hh & _ & Ht & _). unfold typ. rewrite Hh. cbn.
  unfold bucketTypeNew, bucketTypeOld in *. destruct Ht as [[E _]|[E _]]; rewrite E; intuition congruence.
Qed.

Lemma Size_lookup a : Inv a -> Size a = Z.of_nat (size (addrLookup a)).
Proof.
  intros Ha. unfold Size, book_size. rewrite (inv_new _ Ha), (inv_old _ Ha). symmetry. by apply count_split.
Qed.

(** Changes to the heap the table does not see. *)
Lemma Inv_heap a h : Inv a ->
  (forall s p ka, addrLookup a !! s = Some p -> heap a !! p = Some ka ->
     exists ka', h !! p = Some ka' /\ BucketType ka' = BucketType ka /\ Buckets ka' = Buckets ka /\
       ka_String ka' = ka_String ka) ->
  Inv (with_heap h a).
Proof.
  intros Ha Hh.
  assert (forall t, count (with_heap h a) t = count a t) as Hc.
  { intros t. unfold count. do 2 f_equal. apply map_filter_ext. intros s p Hl. cbn in *. unfold typ. cbn.
    destruct (inv_lookup _ Ha _ _ Hl) as (ka & E & _). destruct (Hh _ _ _ Hl E) as (ka' & -> & Ht & _).
    rewrite E. cbn. by rewrite Ht. }
  split; rewrite ?Hc; try apply Ha; cbn [addrLookup heap with_heap].
  - intros s p Hl. destruct (inv_lookup _ Ha _ _ Hl) as (ka & E & Hs & Ht & Hd & Hk).
    destruct (Hh _ _ _ Hl E) as (ka' & E' & Et & Eb & Es). exists ka'. split; [done|].
    unfold known. rewrite Et, Eb, Es. by split_and!.
  - intros t i s p Hb. destruct (inv_bucket _ Ha t i s p Hb) as (Hl & ka & E & Et). split; [done|].
    destruct (Hh _ _ _ Hl E) as (ka' & E' & Et' & _). exists ka'. by rewrite Et'.
Qed.

(** An update of a record no address refers to. *)
Lemma Inv_heap_free a p ka : Inv a -> (forall s, addrLookup a !! s <> Some p) ->
  Inv (with_heap (<[p := ka]> (heap a)) a).
Proof.
  intros Ha Hp. apply Inv_heap; [done|]. intros s q k Hl Hk.
  assert (q <> p) by (intros ->; by apply (Hp s)). exists k. by rewrite lookup_insert_ne.
Qed.

(** ** Counting *)
Definition counts (b : bool) : Z := if b then 1 else 0.

Lemma count_same a b : addrLookup b = addrLookup a ->
  (forall s p, addrLookup a !! s = Some p -> typ b p = typ a p) -> forall t, count b t = count a t.
Proof.
  intros Hl Ht t. unfold count. rewrite Hl. do 2 f_equal. apply map_filter_ext.
  intros s p E. cbn. by rewrite (Ht _ _ E).
Qed.

Lemma count_delete a b s p : addrLookup a !! s = Some p -> addrLookup b = delete s (addrLookup a) ->
  (forall s p, addrLookup a !! s = Some p -> typ b p = typ a p) -> forall t,
  count b t = count a t - counts (bool_decide (typ a p = Some t)).
Proof.
  intros Hs Hl Ht t. unfold count. rewrite Hl, map_filter_delete, map_size_delete.
  assert (filter (fun sp => typ b sp.2 = Some t) (addrLookup a)
          = filter (fun sp => typ a sp.2 = Some t) (addrLookup a)) as ->.
  { apply map_filter_ext. intros s' p' E. cbn. by rewrite (Ht _ _ E). }
  case_bool_decide as Hd.
  - assert (filter (fun sp => typ a sp.2 = Some t) (addrLookup a) !! s = Some p) as E
      by (by apply map_lookup_filter_Some_2).
    rewrite E. cbn. enough (size (filter (fun sp => typ a sp.2 = Some t) (addrLookup a)) <> 0%nat) by lia.
    intros Hz%map_size_empty_inv. by rewrite Hz in E.
  - assert (filter (fun sp => typ a sp.2 = Some t) (addrLookup a) !! s = None) as ->.
    { apply map_lookup_filter_None_2. right. intros x Hx. by simplify_eq. }
    cbn. lia.
Qed.

Lemma count_insert a b s p : addrLookup a !! s = None -> addrLookup b = <[s := p]> (addrLookup a) ->
  (forall s p, addrLookup a !! s = Some p -> typ b p = typ a p) -> forall t,
  count b t = count a t + counts (bool_decide (typ b p = Some t)).
Proof.
  intros Hs Hl Ht t. unfold count. rewrite Hl.
  assert (filter (fun sp => typ b sp.2 = Some t) (addrLookup a)
          = filter (fun sp => typ a sp.2 = Some t) (addrLookup a)) as E.
  { apply map_filter_ext. intros s' p' E. cbn. by rewrite (Ht _ _ E). }
  case_bool_decide as Hd.
  - rewrite map_filter_insert_True by done. rewrite map_size_insert_None, E; [cbn; lia|].
    apply map_lookup_filter_None_2. by left.
  - rewrite map_filter_insert_False, delete_id, E by done. cbn. lia.
Qed.

(** Changing the buckets of a record changes no type. *)
Lemma typ_set_Buckets a b p ka Bs : heap a !! p = Some ka -> heap b = <[p := set_Buckets Bs ka]> (heap a) ->
  forall q, typ b q = typ a q.
Proof.
  intros Hp Hh q. unfold typ. rewrite Hh. destruct (decide (q = p)) as [->|]; [|by rewrite lookup_insert_ne].
  by rewrite lookup_insert_eq, Hp.
Qed.

Lemma typ_heap a b q k : typ b q = typ a q -> heap a !! q = Some k ->
  exists k', heap b !! q = Some k' /\ BucketType k' = BucketType k.
Proof.
  intros Hq E. unfold typ in Hq. rewrite E in Hq. cbn in Hq.
  destruct (heap b !! q) as [k'|]; [|done]. injection Hq as Hq. by exists k'.
Qed.

(** The counts when an address leaves its last bucket, and when it enters its first. *)
Lemma count_detached a b s p ty (Bs : list Z) : addrLookup a !! s = Some p -> typ a p = Some ty ->
  (forall q, typ b q = typ a q) ->
  addrLookup b = (if decide (Bs = []) then delete s (addrLookup a) else addrLookup a) ->
  forall t, count b t = count a t - counts (bool_decide (Bs = [] /\ ty = t)).
Proof.
  intros Hs Hty Htyp Hl t. destruct (decide (Bs = [])) as [Hd|Hd]; subst.
  - rewrite (count_delete a b s p Hs Hl), Hty by done.
    do 2 f_equal. apply bool_decide_ext. split; [by intros [= ->]|by intros [_ ->]].
  - rewrite (count_same a b Hl) by done. rewrite bool_decide_false by tauto. cbn. lia.
Qed.

Lemma count_attached a b s p ty (Bs : list Z) : typ a p = Some ty -> (forall q, typ b q = typ a q) ->
  (addrLookup a !! s = Some p /\ Bs <> []) \/ (addrLookup a !! s = None /\ Bs = []) ->
  addrLookup b = <[s := p]> (addrLookup a) ->
  forall t, count b t = count a t + counts (bool_decide (Bs = [] /\ ty = t)).
Proof.
  intros Hty Htyp Hcase Hl t. destruct Hcase as [[Hs Hne]|[Hs ->]].
  - rewrite insert_id in Hl by done. rewrite (count_same a b Hl) by done. rewrite bool_decide_false by tauto. cbn. lia.
  - rewrite (count_insert a b s p Hs Hl), Htyp, Hty by done.
    do 2 f_equal. apply bool_decide_ext. split; [by intros [= ->]|by intros [_ ->]].
Qed.

(** ** Taking an address out of some of its buckets *)
Lemma Inv_detach a b p ka s (L Bs : list Z) :
  Inv a -> addrLookup a !! s = Some p -> heap a !! p = Some ka -> wf_len b ->
  (forall t i, bucket_at b t i =
     if decide (t = BucketType ka /\ i ∈ L) then delete s (bucket_at a t i) else bucket_at a t i) ->
  heap b = <[p := set_Buckets Bs ka]> (heap a) ->
  (forall i, i ∈ Bs <-> i ∈ Buckets ka /\ i ∉ L) -> NoDup Bs -> #Bs <= #(Buckets ka) ->
  addrLookup b = (if decide (Bs = []) then delete s (addrLookup a) else addrLookup a) ->
  nNew b = nNew a - counts (bool_decide (Bs = [] /\ BucketType ka = bucketTypeNew)) ->
  nOld b = nOld a - counts (bool_decide (Bs = [] /\ BucketType ka = bucketTypeOld)) ->
  Inv b.
Proof.
  intros Ha Hs Hp Hw Hat Hh HBs HNd Hlen Hl Hn Ho.
  destruct (inv_lookup _ Ha _ _ Hs) as (ka0 & E & Hk). assert (ka0 = ka) as -> by congruence. clear E.
  pose proof (typ_set_Buckets a b p ka Bs Hp Hh) as Htyp.
  pose proof (count_detached a b s p (BucketType ka) Bs Hs (f_equal (fmap BucketType) Hp) Htyp Hl) as Hcount.
  assert (forall s' q, addrLookup b !! s' = Some q -> addrLookup a !! s' = Some q) as Hsub.
  { intros s' q. rewrite Hl. case_decide; [|done]. by intros [_ ?]%lookup_delete_Some. }
  split; [done|..].
  - intros s' q Hq. pose proof (Hsub _ _ Hq) as Hq'.
    destruct (inv_lookup _ Ha _ _ Hq') as (k & E & Hkn).
    destruct (decide (q = p)) as [->|Hne].
    + assert (k = ka) as -> by congruence. pose proof (lookup_inj _ _ _ _ Ha Hs Hq') as <-.
      exists (set_Buckets Bs ka). rewrite Hh, lookup_insert_eq. split; [done|].
      assert (Bs <> []) as Hne.
      { intros ->. rewrite Hl, decide_True in Hq by done. by rewrite lookup_delete_eq in Hq. }
      destruct Hkn as (Hstr & Ht & _ & Hi). split; [done|]. cbn [BucketType Buckets set_Buckets].
      assert (1 <= #Bs) by (destruct Bs; [done|unfold zlen; cbn; lia]).
      split; [destruct Ht as [[? ?]|[? ?]]; [left|right]; split; done || lia|]. split; [done|].
      intros i. rewrite HBs, Hat, Hi. destruct (decide (i ∈ L)).
      * rewrite decide_True by done. rewrite lookup_delete_eq. split; [by intros [_ ?]|done].
      * rewrite decide_False by tauto. tauto.
    + exists k. rewrite Hh, lookup_insert_ne by done. split; [done|].
      destruct Hkn as (Hstr & Ht & Hd & Hi). split_and!; try done. intros i. rewrite Hi, Hat.
      goal_decide; [|done]. rewrite lookup_delete_ne; [done|]. intros <-. congruence.
  - intros t i s' q Hb. rewrite Hat in Hb.
    assert (bucket_at a t i !! s' = Some q) as Hb'.
    { goal_decide in Hb; [|done]. by apply lookup_delete_Some in Hb as [_ ?]. }
    destruct (bucket_known _ _ _ _ _ Ha Hb') as (k & E & Hkn & Ht & Hi).
    destruct (inv_bucket _ Ha _ _ _ _ Hb') as (Hlk & _).
    pose proof (typ_heap _ _ _ _ (Htyp q) E) as Hk'. rewrite Ht in Hk'. split; [|done]. rewrite Hl. destruct (decide (Bs = [])) as [Hd|]; [|done].
    rewrite lookup_delete_ne; [done|]. intros <-. assert (q = p) as -> by congruence.
    assert (k = ka) as -> by congruence. subst Bs.
    assert (~ (i ∈ Buckets ka /\ i ∉ L)) as Hno by (rewrite <- HBs; apply not_elem_of_nil).
    destruct (decide (i ∈ L)); [|tauto]. rewrite decide_True in Hb by done. by rewrite lookup_delete_eq in Hb.
  - by rewrite Hn, (inv_new _ Ha), Hcount.
  - by rewrite Ho, (inv_old _ Ha), Hcount.
  - intros t i. rewrite Hat. pose proof (inv_size _ Ha t i). goal_decide; [|done].
    pose proof (map_size_delete s (bucket_at a t i)). destruct (bucket_at a t i !! s); cbn in *; lia.
Qed.

(** ** Putting an address into a bucket *)
(** The record that is put there is known afterwards. *)
Lemma known_attach a b p ka t i s : Inv a -> heap a !! p = Some ka -> BucketType ka = t -> in_range t i ->
  bucket_at a t i !! s = None -> ka_String ka = s ->
  (addrLookup a !! s = Some p /\ t = bucketTypeNew /\ #(Buckets ka) <= 3) \/
  (addrLookup a !! s = None /\ Buckets ka = []) ->
  (forall j, j ∈ Buckets ka <-> bucket_at a t j !! s = Some p) ->
  (forall t' i', bucket_at b t' i' =
     if decide (t' = t /\ i' = i) then <[s := p]> (bucket_at a t i) else bucket_at a t' i') ->
  known b s p (set_Buckets (Buckets ka ++ [i]) ka).
Proof.
  intros Ha Hp Ht Hr Hnot Hks Hcase Hmem Hat.
  split; [done|]. cbn [BucketType Buckets set_Buckets]. rewrite Ht. autorewrite with zlen.
  split; [|split].
  * destruct Hcase as [(Hs & -> & Hle)|(Hs & ->)]; [left|].
    -- unfold maxNewBucketsPerAddress. pose proof (zlen_nonneg (Buckets ka)). split; [done|lia].
    -- unfold maxNewBucketsPerAddress. cbn. destruct Hr as [[-> _]|[-> _]]; [left|right]; done.
  * apply list.NoDup_app. split; [|split; [|apply NoDup_singleton]].
    -- destruct Hcase as [(Hs & _)|(_ & ->)]; [|constructor].
       destruct (inv_lookup _ Ha _ _ Hs) as (k & E & _ & _ & Hd & _). by assert (k = ka) as -> by congruence.
    -- intros j Hj ->%list_elem_of_singleton. apply Hmem in Hj. congruence.
  * intros j. rewrite elem_of_app, list_elem_of_singleton, Hat, Hmem.
    destruct (decide (j = i)) as [->|].
    -- rewrite decide_True, lookup_insert_eq by done. tauto.
    -- rewrite decide_False by tauto. tauto.
Qed.

Lemma Inv_attach a b p ka t i : let s := ka_String ka in
  Inv a -> heap a !! p = Some ka -> BucketType ka = t -> in_range t i ->
  bucket_at a t i !! s = None -> (size (bucket_at a t i) <= 64)%nat ->
  (addrLookup a !! s = Some p /\ t = bucketTypeNew /\ #(Buckets ka) <= 3) \/
  (addrLookup a !! s = None /\ Buckets ka = []) ->
  wf_len b ->
  (forall t' i', bucket_at b t' i' =
     if decide (t' = t /\ i' = i) then <[s := p]> (bucket_at a t i) else bucket_at a t' i') ->
  heap b = <[p := set_Buckets (Buckets ka ++ [i]) ka]> (heap a) ->
  addrLookup b = <[s := p]> (addrLookup a) ->
  nNew b = nNew a + counts (bool_decide (Buckets ka = [] /\ t = bucketTypeNew)) ->
  nOld b = nOld a + counts (bool_decide (Buckets ka = [] /\ t = bucketTypeOld)) ->
  Inv b.
Proof.
  intros s Ha Hp Ht Hr Hnot Hsz Hcase Hw Hat Hh Hl Hn Ho.
  pose proof (eq_refl : ka_String ka = s) as Hks. clearbody s.
  pose proof (typ_set_Buckets a b p ka _ Hp Hh) as Htyp.
  assert (typ a p = Some t) as Htp by (unfold typ; by rewrite Hp, <- Ht).
  assert (forall t', count b t' = count a t' + counts (bool_decide (Buckets ka = [] /\ t = t'))) as Hcount.
  { apply (count_attached a b s p); [done|done| |done]. destruct Hcase as [(Hs & _)|?]; [left|by right]. split; [done|].
    intros Hnil. destruct (inv_lookup _ Ha _ _ Hs) as (k & E & _ & Hty & _). assert (k = ka) as -> by congruence.
    rewrite Hnil in Hty. cbn in Hty. destruct Hty as [[_ [? _]]|[_ ?]]; done. }
  assert (forall s', s' <> s -> addrLookup a !! s' <> Some p) as Hother.
  { intros s' Hne Hs'. destruct (inv_lookup _ Ha _ _ Hs') as (k & E & Hstr & _). congruence. }
  assert (forall j, j ∈ Buckets ka <-> bucket_at a t j !! s = Some p) as Hmem.
  { intros j. destruct Hcase as [(Hs & _)|(Hs & Hnil)].
    - destruct (inv_lookup _ Ha _ _ Hs) as (k & E & _ & _ & _ & Hk). assert (k = ka) as -> by congruence.
      by rewrite Hk, Ht.
    - rewrite Hnil. split; [by intros ?%not_elem_of_nil|]. intros Hb.
      destruct (inv_bucket _ Ha _ _ _ _ Hb) as (Hs' & _). congruence. }
  split; [done|..].
  - intros s' q. rewrite Hl. destruct (decide (s' = s)) as [->|Hne].
    + rewrite lookup_insert_eq. intros [= <-]. eexists. rewrite Hh, lookup_insert_eq. split; [done|].
      by apply (known_attach a b p ka t i).
    + rewrite lookup_insert_ne by done. intros Hq.
      destruct (inv_lookup _ Ha _ _ Hq) as (k & E & Hstr & Hty & Hd & Hi).
      assert (q <> p) by (intros ->; by apply (Hother s' Hne)).
      exists k. rewrite Hh, lookup_insert_ne by done. split; [done|]. split_and!; try done.
      intros j. rewrite Hi, Hat. destruct (decide (BucketType k = t /\ j = i)) as [[-> ->]|]; [|done].
      by rewrite lookup_insert_ne.
  - intros t' i' s' q Hb. rewrite Hat in Hb.
    assert ((s' = s /\ q = p /\ t' = t) \/ bucket_at a t' i' !! s' = Some q) as [(-> & -> & ->)|Hb'].
    { destruct (decide (t' = t /\ i' = i)) as [[-> ->]|]; [|by right].
      apply lookup_insert_Some in Hb as [[<- <-]|[_ Hb]]; [by left|by right]. }
    + rewrite Hl, lookup_insert_eq, Hh, lookup_insert_eq. split; [done|]. eexists. split; [done|]. done.
    + destruct (inv_bucket _ Ha _ _ _ _ Hb') as (Hlk & k & E & Hk). split.
      * rewrite Hl. destruct (decide (s' = s)) as [->|]; [|by rewrite lookup_insert_ne].
        rewrite lookup_insert_eq. destruct Hcase as [(Hs & _)|(Hs & _)]; congruence.
      * rewrite <- Hk. exact (typ_heap _ _ _ _ (Htyp q) E).
  - by rewrite Hn, (inv_new _ Ha), Hcount.
  - by rewrite Ho, (inv_old _ Ha), Hcount.
  - intros t' i'. rewrite Hat. destruct (decide (t' = t /\ i' = i)) as [[-> ->]|]; [|apply Ha].
    rewrite map_size_insert_None by done. lia.
Qed.

(** ** The operations *)
Lemma filter_remove_one (l : list Z) i : NoDup l -> i ∈ l ->
  S (length (List.filter (fun b => negb (b =? i)) l)) = length l.
Proof.
  intros Hd. induction Hd as [|x l Hx Hd IH]; intros Hi; [by apply not_elem_of_nil in Hi|].
  cbn. destruct (Z.eqb_spec x i) as [->|Hne]; cbn.
  - f_equal. assert (forall k, i ∉ k -> List.filter (fun b => negb (b =? i)) k = k) as Hf; [|by rewrite Hf].
    induction k as [|y k IHk]; intros Hk; [done|]. apply not_elem_of_cons in Hk as [? ?]. cbn.
    rewrite (proj2 (Z.eqb_neq y i)) by done. cbn. by rewrite IHk.
  - f_equal. apply elem_of_cons in Hi as [->|Hi]; [done|]. by apply IH.
Qed.

Lemma elem_filter_remove (l : list Z) i j :
  j ∈ List.filter (fun b => negb (b =? i)) l <-> j ∈ l /\ j ∉ [i].
Proof.
  rewrite !list_elem_of_In, filter_In, negb_true_iff, Z.eqb_neq. split; intros [? H]; split; try done.
  - by intros ->%list_elem_of_In%list_elem_of_singleton.
  - intros ->. apply H. by apply list_elem_of_In; left.
Qed.

(** What removing an address from a bucket leaves alone. *)
Definition removed_at (a b : AddrBook) (s : gostring) (p : nat) (t i : Z) : Prop :=
  routabilityStrict b = routabilityStrict a /\ key b = key a /\ ourAddrs b = ourAddrs a /\
  (forall s', s' <> s -> addrLookup b !! s' = addrLookup a !! s') /\
  (forall q, q <> p -> heap b !! q = heap a !! q) /\
  bucket_at b t i = delete s (bucket_at a t i).

Lemma NoDup_filter_b (l : list Z) i : NoDup l -> NoDup (List.filter (fun b => negb (b =? i)) l).
Proof. rewrite !NoDup_ListNoDup. apply List.NoDup_filter. Qed.

(** The end of [removeFromBucket] once the bucket is updated: [b0] is the book with the
    bucket changed and [Bs] the buckets left. *)
Lemma drop_out a b0 p ka s Bs : same_rest a b0 -> wf_len b0 -> ka_String ka = s ->
  ((BucketType ka = bucketTypeNew /\ 1 <= #(Buckets ka) <= maxNewBucketsPerAddress) \/
   (BucketType ka = bucketTypeOld /\ #(Buckets ka) = 1)) ->
  exists b, (if #Bs =? 0
    then Some (count_out (BucketType (set_Buckets Bs ka))
      (with_lookup (delete (ka_String (set_Buckets Bs ka))
                      (addrLookup (with_heap (<[p:=set_Buckets Bs ka]> (heap b0)) b0)))
         (with_heap (<[p:=set_Buckets Bs ka]> (heap b0)) b0)))
    else Some (with_heap (<[p:=set_Buckets Bs ka]> (heap b0)) b0)) = Some b /\
    wf_len b /\ (forall t i, bucket_at b t i = bucket_at b0 t i) /\
    heap b = <[p:=set_Buckets Bs ka]> (heap a) /\
    addrLookup b = (if decide (Bs = []) then delete s (addrLookup a) else addrLookup a) /\
    nNew b = nNew a - counts (bool_decide (Bs = [] /\ BucketType ka = bucketTypeNew)) /\
    nOld b = nOld a - counts (bool_decide (Bs = [] /\ BucketType ka = bucketTypeOld)) /\
    routabilityStrict b = routabilityStrict a /\ key b = key a /\ ourAddrs b = ourAddrs a.
Proof.
  intros (R1 & R2 & R3 & R4 & R5 & R6 & R7) Hw Hstr Ht.
  destruct (decide (Bs = [])) as [->|Hne].
  - change (zlen (@nil Z) =? 0) with true. cbv iota. eexists. split; [done|]. unfold count_out.
    change (ka_String (set_Buckets [] ka)) with (ka_String ka). rewrite Hstr.
    cbn [BucketType set_Buckets]. unfold bucketTypeNew, bucketTypeOld in *.
    destruct Ht as [[-> _]|[-> _]]; cbn; rewrite ?bool_decide_true, ?bool_decide_false by (done || by intros []);
      cbn; rewrite ?R1, ?R2, ?R3, ?R4, ?R5, ?R6, ?R7; split_and!; done || lia.
  - rewrite (proj2 (Z.eqb_neq #Bs 0)) by (by rewrite zlen_0). eexists. split; [done|]. cbn.
    rewrite !bool_decide_false by (by intros []). cbn.
    rewrite ?R1, ?R2, ?R3, ?R4, ?R5, ?R6, ?R7. split_and!; done || lia.
Qed.

Lemma removeFromBucket_inv a t i s p : Inv a -> bucket_at a t i !! s = Some p ->
  exists b, removeFromBucket a p i = Some b /\ Inv b /\ removed_at a b s p t i.
Proof.
  intros Ha Hb. destruct (bucket_known _ _ _ _ _ Ha Hb) as (ka & Hh & Hk & <- & Hi).
  destruct (inv_bucket _ Ha _ _ _ _ Hb) as (Hs & _). pose proof (inv_len _ Ha) as Hw.
  pose proof (known_in_range _ _ _ _ _ Hw Hk Hi) as Hr. pose proof Hk as (Hstr & Ht & Hd & _).
  pose proof (filter_remove_one _ _ Hd Hi) as Hf.
  unfold removeFromBucket. rewrite Hh. cbn [mbind option_bind].
  destruct (delete_from_buckets_spec (BucketType ka) (ka_String ka) [i] a Hw) as (b0 & Hb0 & Hs0 & Hw0 & Hat0);
    [by constructor|].
  cbn [delete_from_buckets] in Hb0. destruct (bucket_delete _ _ _ _) as [b1|]; [|done].
  cbn [mbind option_bind] in *. injection Hb0 as ->. destruct Hs0 as (R1 & R2 & R3 & R4 & R5 & R6 & R7).
  unfold removeBucketRef. cbv zeta.
  rewrite (proj2 (Z.eqb_eq #(List.filter (fun b => negb (b =? i)) (Buckets ka)) (#(Buckets ka) - 1))) by zlia.
  cbn [negb]. set (Bs := List.filter _ _) in *.
  destruct (drop_out a b0 p ka s Bs (conj R1 (conj R2 (conj R3 (conj R4 (conj R5 (conj R6 R7))))))
    Hw0 Hstr Ht) as (b & -> & Hwb & Hatb & Hhb & Hlb & Hnb & Hob & Q1 & Q2 & Q3).
  exists b. split; [done|]. split.
  - apply (Inv_detach a b p ka s [i] Bs); try done.
    + intros t j. rewrite Hatb, Hat0, Hstr. done.
    + intros j. apply elem_filter_remove.
    + by apply NoDup_filter_b.
    + zlia.
  - split_and!; try done.
    + intros s' Hne. rewrite Hlb. goal_decide; [by rewrite lookup_delete_ne|done].
    + intros q Hne. by rewrite Hhb, lookup_insert_ne.
    + rewrite Hatb, Hat0, Hstr, decide_True; [done|]. split; [done|left].
Qed.

Lemma removeFromAllBuckets_inv a s p : Inv a -> addrLookup a !! s = Some p ->
  exists b ka, heap a !! p = Some ka /\ ka_String ka = s /\ removeFromAllBuckets a p = Some b /\ Inv b /\
    heap b = <[p := set_Buckets [] ka]> (heap a) /\ addrLookup b = delete s (addrLookup a) /\
    routabilityStrict b = routabilityStrict a /\ key b = key a /\ ourAddrs b = ourAddrs a /\
    (forall t i, bucket_at b t i = if decide (t = BucketType ka /\ i ∈ Buckets ka)
                                   then delete s (bucket_at a t i) else bucket_at a t i).
Proof.
  intros Ha Hs. destruct (inv_lookup _ Ha _ _ Hs) as (ka & Hh & Hk). pose proof (inv_len _ Ha) as Hw.
  pose proof Hk as (Hstr & Ht & Hd & Hi). unfold removeFromAllBuckets. rewrite Hh. cbn [mbind option_bind].
  destruct (delete_from_buckets_spec (BucketType ka) (ka_String ka) (Buckets ka)
    (with_lookup (delete (ka_String ka) (addrLookup a)) a)) as (b0 & -> & Hs0 & Hw0 & Hat0); [done| |].
  { apply List.Forall_forall. intros i Hin%list_elem_of_In. by eapply known_in_range. }
  destruct Hs0 as (R1 & R2 & R3 & R4 & R5 & R6 & R7). cbn [mbind option_bind with_lookup addrLookup] in *.
  set (b := count_out (BucketType ka) (with_heap (<[p:=set_Buckets [] ka]> (heap b0)) b0)).
  assert (heap b = <[p := set_Buckets [] ka]> (heap a) /\ addrLookup b = delete s (addrLookup a) /\
    routabilityStrict b = routabilityStrict a /\ key b = key a /\ ourAddrs b = ourAddrs a /\ wf_len b /\
    (forall t i, bucket_at b t i = bucket_at b0 t i) /\
    nNew b = nNew a - counts (bool_decide (([] : list Z) = [] /\ BucketType ka = bucketTypeNew)) /\
    nOld b = nOld a - counts (bool_decide (([] : list Z) = [] /\ BucketType ka = bucketTypeOld)))
    as (Q1 & Q2 & Q3 & Q4 & Q5 & Q6 & Q7 & Q8 & Q9).
  { unfold b, count_out. unfold bucketTypeNew, bucketTypeOld in *. rewrite <- Hstr.
    destruct Ht as [[-> _]|[-> _]]; cbn; rewrite ?bool_decide_true, ?bool_decide_false by (done || by intros []);
      cbn; cbn in R1, R2, R3, R4, R5, R6, R7; rewrite ?R1, ?R2, ?R3, ?R4, ?R5, ?R6, ?R7; split_and!; done || lia. }
  assert (forall t i, bucket_at b t i = if decide (t = BucketType ka /\ i ∈ Buckets ka)
    then delete s (bucket_at a t i) else bucket_at a t i) as Hat.
  { intros t i. by rewrite Q7, Hat0, Hstr. }
  exists b, ka. split_and!; try done. apply (Inv_detach a b p ka s (Buckets ka) []); try done.
  - intros i. split; [by intros ?%not_elem_of_nil|tauto].
  - constructor.
  - apply zlen_nonneg.
Qed.

Lemma put_in_bucket_inv a p ka t i : let s := ka_String ka in
  Inv a -> heap a !! p = Some ka -> BucketType ka = t -> in_range t i ->
  bucket_at a t i !! s = None -> (size (bucket_at a t i) <= 64)%nat ->
  (addrLookup a !! s = Some p /\ t = bucketTypeNew /\ #(Buckets ka) <= 3) \/
  (addrLookup a !! s = None /\ Buckets ka = []) ->
  let b := put_in_bucket a p ka t i (bucket_at a t i) in
  Inv b /\ routabilityStrict b = routabilityStrict a /\ key b = key a /\ ourAddrs b = ourAddrs a /\
  addrLookup b = <[s := p]> (addrLookup a) /\ bucket_at b t i !! s = Some p.
Proof.
  intros s Ha Hp Ht Hr Hnot Hsz Hcase b.
  pose proof (inv_len _ Ha) as Hw.
  destruct (putBucket_fields a t i (<[s := p]> (bucket_at a t i))) as (F1 & F2 & F3 & F4 & F5 & F6 & F7 & F8).
  specialize (F8 Hw). pose proof (bucket_at_put a t i (<[s := p]> (bucket_at a t i))) as Hat.
  assert (i ∉ Buckets ka) as Hni.
  { destruct Hcase as [(Hs & _)|(_ & ->)]; [|apply not_elem_of_nil].
    destruct (inv_lookup _ Ha _ _ Hs) as (k & E & _ & _ & _ & Hk). assert (k = ka) as -> by congruence.
    intros Hi%Hk. rewrite Ht in Hi. by rewrite Hi in Hnot. }
  assert (existsb (Z.eqb i) (Buckets ka) = false) as Hex.
  { apply not_true_iff_false. intros (x & Hx & E)%existsb_exists. apply Z.eqb_eq in E as <-.
    by apply list_elem_of_In in Hx. }
  assert (heap b = <[p := set_Buckets (Buckets ka ++ [i]) ka]> (heap a) /\
    addrLookup b = <[s := p]> (addrLookup a) /\ routabilityStrict b = routabilityStrict a /\
    key b = key a /\ ourAddrs b = ourAddrs a /\ wf_len b /\
    (forall t' i', bucket_at b t' i' = bucket_at (putBucket a t i (<[s := p]> (bucket_at a t i))) t' i') /\
    nNew b = nNew a + counts (bool_decide (Buckets ka = [] /\ t = bucketTypeNew)) /\
    nOld b = nOld a + counts (bool_decide (Buckets ka = [] /\ t = bucketTypeOld)))
    as (Q1 & Q2 & Q3 & Q4 & Q5 & Q6 & Q7 & Q8 & Q9).
  { unfold b, put_in_bucket, addBucketRef. rewrite Hex. cbv zeta. cbn [Buckets set_Buckets].
    fold s. autorewrite with zlen. unfold in_range, bucketTypeNew, bucketTypeOld in *.
    destruct (decide (Buckets ka = [])) as [E|E].
    - rewrite E. change (zlen (@nil Z) + (0 + 1) =? 1) with true.
      destruct Hr as [[-> _]|[-> _]]; cbn; rewrite ?bool_decide_true, ?bool_decide_false by (done || by intros []);
        cbn in *; rewrite ?F1, ?F2, ?F3, ?F4, ?F5, ?F6, ?F7; split_and!; done || lia.
    - rewrite !bool_decide_false by (by intros []).
      assert (#(Buckets ka) <> 0) by (by rewrite zlen_0).
      rewrite (proj2 (Z.eqb_neq (#(Buckets ka) + (0 + 1)) 1)) by lia. cbn.
      cbn in *; rewrite ?F1, ?F2, ?F3, ?F4, ?F5, ?F6, ?F7; split_and!; done || lia. }
  split_and!; try done; [|by rewrite Q7, Hat, decide_True, lookup_insert_eq by done].
  apply (Inv_attach a b p ka t i); try done.
  intros t' i'. by rewrite Q7, Hat.
Qed.

Section operations.
Context `{Sha3} `{MapOrderLaws}.

Lemma first_bad_ok a now l : Forall (fun e => is_Some (heap a !! e.2)) l ->
  exists r, first_bad a now l = Some r /\ forall p, r = Some p -> exists s, (s, p) ∈ l.
Proof.
  induction 1 as [|[s p] l [ka Hk] Hl (r & Hr & Hin)]; cbn [first_bad]; [by exists None|].
  cbn in Hk. rewrite Hk. cbn [mbind option_bind]. case_on.
  - exists (Some p). split; [done|]. intros ? [= <-]. exists s. left.
  - exists r. split; [done|]. intros q Hq. destruct (Hin q Hq) as [s' ?]. exists s'. by right.
Qed.

Lemma oldest_of_ok a l : forall o, Forall (fun e => is_Some (heap a !! e.2)) l ->
  (forall p, o = Some p -> is_Some (heap a !! p)) -> (o = None -> l <> []) ->
  exists p, oldest_of a o l = Some (Some p) /\ (o = Some p \/ exists s, (s, p) ∈ l).
Proof.
  induction l as [|[s p] l IH]; intros o Hl Ho Hne; cbn [oldest_of].
  { destruct o as [p|]; [|by destruct Hne]. exists p. by split; [|left]. }
  apply Forall_cons_1 in Hl as [[ka Hk] Hl]. cbn in Hk. rewrite Hk. cbn [mbind option_bind].
  destruct o as [q|].
  - destruct (Ho q eq_refl) as [kq Hq]. rewrite Hq. cbn [mbind option_bind]. case_on.
    + destruct (IH (Some p) Hl) as (x & -> & Hx); [by intros ? [= <-]|done|]. exists x. split; [done|right].
      destruct Hx as [[= <-]|[s' ?]]; [exists s; left|exists s'; by right].
    + destruct (IH (Some q) Hl) as (x & -> & Hx); [by intros ? [= <-]|done|]. exists x. split; [done|].
      destruct Hx as [?|[s' ?]]; [by left|right; exists s'; by right].
  - destruct (IH (Some p) Hl) as (x & -> & Hx); [by intros ? [= <-]|done|]. exists x. split; [done|right].
    destruct Hx as [[= <-]|[s' ?]]; [exists s; left|exists s'; by right].
Qed.

Lemma bucket_entries a t i n : Inv a -> 
  Forall (fun e => is_Some (heap a !! e.2)) (iter nat n (bucket_at a t i)) /\
  forall s p, (s, p) ∈ iter nat n (bucket_at a t i) <-> bucket_at a t i !! s = Some p.
Proof using Type*.
  intros Ha.
  assert (forall s p, (s, p) ∈ iter nat n (bucket_at a t i) <-> bucket_at a t i !! s = Some p) as Hin.
  { intros s p. rewrite iter_perm. apply elem_of_map_to_list. }
  split; [|done]. apply List.Forall_forall. intros [s p] Hsp%list_elem_of_In%Hin. cbn.
  destruct (bucket_known _ _ _ _ _ Ha Hsp) as (ka & E & _). by exists ka.
Qed.

Lemma expireNew_inv a now i : Inv a -> in_range bucketTypeNew i -> (0 < size (bucket_at a bucketTypeNew i))%nat ->
  exists b s p, expireNew a now i = Some b /\ bucket_at a bucketTypeNew i !! s = Some p /\
    Inv b /\ removed_at a b s p bucketTypeNew i.
Proof using Type*.
  intros Ha Hr Hsz. pose proof (getBucket_at _ _ _ (inv_len _ Ha) Hr) as Hg.
  unfold expireNew. unfold getBucket in Hg. cbn [Z.eqb Pos.eqb bucketTypeNew] in Hg.
  destruct (index (bucketsNew a) i) as [m|] eqn:Hm; [|done]. injection Hg as Hg. subst m.
  cbn [mbind option_bind].
  destruct (bucket_entries a bucketTypeNew i 0 Ha) as [Hf Hin].
  destruct (first_bad_ok a now _ Hf) as (r & -> & Hbad). cbn [mbind option_bind].
  destruct r as [p|].
  - destruct (Hbad p eq_refl) as (s & Hsp%Hin).
    destruct (removeFromBucket_inv a bucketTypeNew i s p Ha Hsp) as (b & Hb & HI & Hrem). by exists b, s, p.
  - unfold pickOldest. rewrite getBucket_at by (done || apply Ha). cbn [mbind option_bind].
    destruct (bucket_entries a bucketTypeNew i 1 Ha) as [Hf1 Hin1].
    destruct (oldest_of_ok a _ None Hf1) as (p & -> & Hp); [done| |].
    + intros _ Hnil. assert (bucket_at a bucketTypeNew i = ∅) as E; [|by rewrite E, map_size_empty in Hsz; lia].
      apply map_empty. intros s. destruct (bucket_at a bucketTypeNew i !! s) as [q|] eqn:E; [|done].
      apply Hin1 in E. rewrite Hnil in E. by apply not_elem_of_nil in E.
    + destruct Hp as [|[s Hsp%Hin1]]; [done|]. cbn [mbind option_bind].
      destruct (removeFromBucket_inv a bucketTypeNew i s p Ha Hsp) as (b & Hb & HI & Hrem). by exists b, s, p.
Qed.

(** A book whose fixed parts are another's. *)
Definition same_setup (a b : AddrBook) : Prop :=
  routabilityStrict b = routabilityStrict a /\ key b = key a /\ ourAddrs b = ourAddrs a.

Lemma index_bucketsNew a i : Inv a -> in_range bucketTypeNew i ->
  index (bucketsNew a) i = Some (bucket_at a bucketTypeNew i).
Proof.
  intros Ha Hr. pose proof (getBucket_at _ _ _ (inv_len _ Ha) Hr) as Hg.
  unfold getBucket in Hg. cbn [Z.eqb Pos.eqb bucketTypeNew] in Hg.
  destruct (index (bucketsNew a) i) as [m|] eqn:Hm; [|done]. by injection Hg as ->.
Qed.

Lemma index_bucketsOld a i : Inv a -> in_range bucketTypeOld i ->
  index (bucketsOld a) i = Some (bucket_at a bucketTypeOld i).
Proof.
  intros Ha Hr. pose proof (getBucket_at _ _ _ (inv_len _ Ha) Hr) as Hg.
  unfold getBucket in Hg. cbn [Z.eqb Pos.eqb bucketTypeNew bucketTypeOld] in Hg.
  destruct (index (bucketsOld a) i) as [m|] eqn:Hm; [|done]. by injection Hg as ->.
Qed.

Lemma addToNewBucket_inv a now p ka i : Inv a -> heap a !! p = Some ka -> BucketType ka = bucketTypeNew ->
  in_range bucketTypeNew i ->
  (addrLookup a !! ka_String ka = Some p /\ #(Buckets ka) <= 3) \/
  (addrLookup a !! ka_String ka = None /\ Buckets ka = []) ->
  exists b, addToNewBucket a now p i = Some (None, b) /\ Inv b /\ same_setup a b /\
    (is_Some (addrLookup b !! ka_String ka)).
Proof using Type*.
  intros Ha Hp Ht Hr Hcase. unfold addToNewBucket. rewrite Hp. cbn [mbind option_bind].
  unfold isOld. rewrite Ht. change (bucketTypeNew =? bucketTypeOld) with false. cbv iota.
  rewrite index_bucketsNew by done. cbn [mbind option_bind].
  destruct (bucket_at a bucketTypeNew i !! ka_String ka) as [q|] eqn:Hq.
  { exists a. split_and!; try done. destruct (inv_bucket _ Ha _ _ _ _ Hq) as (Hl & _). by exists q. }
  destruct (Z.ltb_spec newBucketSize (Z.of_nat (size (bucket_at a bucketTypeNew i)))) as [Hfull|Hroom].
  - destruct (expireNew_inv a now i Ha Hr) as (b & s & q & -> & Hsq & Hb & Hrem); [unfold newBucketSize in *; lia|].
    destruct Hrem as (R1 & R2 & R3 & R4 & R5 & R6).
    assert (s <> ka_String ka) as Hne by (intros ->; congruence).
    assert (p <> q) as Hpq.
    { intros ->. destruct (bucket_known _ _ _ _ _ Ha Hsq) as (k & E & [Hstr _] & _). congruence. }
    cbn [mbind option_bind]. rewrite index_bucketsNew by done. cbn [mbind option_bind].
    rewrite R5, Hp by done. cbn [mbind option_bind].
    destruct (put_in_bucket_inv b p ka bucketTypeNew i Hb) as (Q1 & Q2 & Q3 & Q4 & Q5 & Q6); try done.
    + by rewrite R5.
    + rewrite R6. by rewrite lookup_delete_ne.
    + rewrite R6, map_size_delete, Hsq. pose proof (inv_size _ Ha bucketTypeNew i). cbn. lia.
    + rewrite R4 by done. destruct Hcase as [[? ?]|?]; [left|right]; done.
    + eexists. split; [done|]. split; [done|]. split; [unfold same_setup; by rewrite Q2, Q3, Q4|].
      rewrite Q5, lookup_insert_eq. eauto.
  - cbn [mbind option_bind]. rewrite index_bucketsNew by done. cbn [mbind option_bind]. rewrite Hp.
    cbn [mbind option_bind].
    destruct (put_in_bucket_inv a p ka bucketTypeNew i Ha) as (Q1 & Q2 & Q3 & Q4 & Q5 & Q6); try done.
    + unfold newBucketSize in *. lia.
    + destruct Hcase as [[? ?]|?]; [left|right]; done.
    + eexists. split; [done|]. split; [done|]. split; [done|]. rewrite Q5, lookup_insert_eq. eauto.
Qed.

Lemma calcNewBucket_range a addr src : exists i, calcNewBucket a addr src = Some i /\ in_range bucketTypeNew i.
Proof.
  unfold calcNewBucket, bookGroupKey.
  destruct (groupKey_total (routabilityStrict a) addr) as [g1 ->], (groupKey_total (routabilityStrict a) src) as [g2 ->].
  cbn [mbind option_bind]. eexists. split; [done|]. left. split; [done|].
  apply Z.mod_pos_bound. done.
Qed.

Lemma calcOldBucket_range a addr : exists i, calcOldBucket a addr = Some i /\ in_range bucketTypeOld i.
Proof.
  unfold calcOldBucket, bookGroupKey.
  destruct (groupKey_total (routabilityStrict a) addr) as [g1 ->].
  cbn [mbind option_bind]. eexists. split; [done|]. right. split; [done|].
  apply Z.mod_pos_bound. done.
Qed.

Lemma addAddress_inv a now draw addr src : Inv a ->
  exists err b, addAddress a now draw addr src = Some (err, b) /\ Inv b /\ same_setup a b.
Proof using Type*.
  intros Ha. unfold addAddress.
  destruct addr as [addr|]; [|by eexists _, a]. destruct src as [src|]; [|by eexists _, a].
  destruct (ourAddrs a !! NetAddress_String addr); [by eexists _, a|].
  case_on; [by eexists _, a|]. cbv zeta.
  destruct (addrLookup a !! NetAddress_String addr) as [p|] eqn:Hl.
  - destruct (inv_lookup _ Ha _ _ Hl) as (ka & Hp & Hstr & Ht & _). rewrite Hp. cbn [mbind option_bind].
    destruct Ht as [[Ht Hn]|[Ht _]]; unfold isOld; rewrite Ht; [|by eexists _, a].
    change (bucketTypeNew =? bucketTypeOld) with false. cbv iota.
    destruct (Z.eqb_spec #(Buckets ka) maxNewBucketsPerAddress); [by eexists _, a|].
    unfold maxNewBucketsPerAddress in *. rewrite (swrap_small 32) by lia. unfold Intn.
    rewrite (proj2 (Z.leb_gt _ 0)) by lia. cbn [mbind option_bind]. case_on; [by eexists _, a|].
    destruct (calcNewBucket_range a addr src) as (i & -> & Hr). cbn [mbind option_bind].
    destruct (addToNewBucket_inv a now p ka i) as (b & Hb & HI & Hsm & _); try done.
    + left. split; [by rewrite Hstr|lia].
    + by eexists _, b.
  - set (p := fresh (dom (heap a))). set (a1 := with_heap _ a).
    assert (heap a !! p = None) as Hfr by apply not_elem_of_dom, is_fresh.
    assert (Inv a1) as Ha1.
    { apply Inv_heap_free; [done|]. intros s Hs. destruct (inv_lookup _ Ha _ _ Hs) as (k & E & _). congruence. }
    destruct (calcNewBucket_range a1 addr src) as (i & -> & Hr). cbn [mbind option_bind].
    destruct (addToNewBucket_inv a1 now p (newKnownAddress now addr src) i) as (b & Hb & HI & Hsm & _); try done.
    + unfold a1. cbn. by rewrite lookup_insert_eq.
    + right. by split.
    + by eexists _, b.
Qed.

Lemma moveToOld_inv a p s ka : Inv a -> addrLookup a !! s = Some p -> heap a !! p = Some ka ->
  BucketType ka = bucketTypeNew ->
  exists err b i, calcOldBucket a (Addr ka) = Some i /\ moveToOld a p = Some (err, b) /\ Inv b /\ same_setup a b /\
    (forall s', s' <> s -> addrLookup b !! s' = addrLookup a !! s') /\
    (if oldBucketSize <? Z.of_nat (size (bucket_at a bucketTypeOld i))
     then err = New (str "old bucket is full") /\ addrLookup b !! s = None
     else err = None /\ addrLookup b !! s = Some p /\ bucket_at b bucketTypeOld i !! s = Some p).
Proof using Type*.
  intros Ha Hs Hp Ht. unfold moveToOld. rewrite Hp. cbn [mbind option_bind]. unfold isOld. rewrite Ht.
  change (bucketTypeNew =? bucketTypeOld) with false. cbv iota.
  destruct (inv_lookup _ Ha _ _ Hs) as (ka0 & E & Hstr0 & Ht0 & _). assert (ka0 = ka) as -> by congruence.
  rewrite (proj2 (Z.eqb_neq _ 0)) by (destruct Ht0 as [[_ ?]|[_ ?]]; lia). clear E.
  destruct (removeFromAllBuckets_inv a s p Ha Hs) as (b & k & E & Hstr & -> & Hb & Hhb & Hlb & R1 & R2 & R3 & Hat).
  assert (k = ka) as -> by congruence. cbn [mbind option_bind]. rewrite Hhb, lookup_insert_eq. cbn [mbind option_bind].
  set (b1 := with_heap _ b).
  assert (Inv b1) as Hb1.
  { unfold b1. rewrite <- Hhb. apply Inv_heap_free; [done|]. intros s' Hs'.
    rewrite Hlb in Hs'. apply lookup_delete_Some in Hs' as [Hne Hs']. apply Hne. exact (lookup_inj _ _ _ _ Ha Hs Hs'). }
  assert (calcOldBucket b1 (Addr (set_Buckets [] ka)) = calcOldBucket a (Addr ka)) as ->.
  { unfold calcOldBucket, bookGroupKey, b1. cbn. by rewrite R1, R2. }
  destruct (calcOldBucket_range a (Addr ka)) as (i & -> & Hr). cbn [mbind option_bind].
  assert (heap b1 !! p = Some (set_BucketType bucketTypeOld (set_Buckets [] ka))) as Hb1p
    by (unfold b1; cbn [heap with_heap]; apply lookup_insert_eq).
  unfold addToOldBucket. rewrite Hb1p. cbn [mbind option_bind].
  change (isNew (set_BucketType bucketTypeOld (set_Buckets [] ka))) with false. cbv iota.
  change (#(Buckets (set_BucketType bucketTypeOld (set_Buckets [] ka))) =? 0) with true. cbn [negb].
  rewrite index_bucketsOld by done. cbn [mbind option_bind].
  assert (bucket_at b1 bucketTypeOld i = bucket_at a bucketTypeOld i) as Eb.
  { change (bucket_at b1 bucketTypeOld i) with (bucket_at b bucketTypeOld i). rewrite Hat, decide_False; [done|].
    rewrite Ht. by intros []. }
  rewrite Eb. destruct (Z.ltb_spec oldBucketSize (Z.of_nat (size (bucket_at a bucketTypeOld i)))) as [Hfull|Hroom].
  - eexists _, b1, i. split; [done|]. split; [done|]. split; [done|]. split; [done|]. cbn. rewrite Hlb.
    split; [intros s' Hne; by rewrite lookup_delete_ne|].
    rewrite (proj2 (Z.ltb_lt _ _)) by exact Hfull. by rewrite lookup_delete_eq.
  - destruct (put_in_bucket_inv b1 p (set_BucketType bucketTypeOld (set_Buckets [] ka)) bucketTypeOld i Hb1)
      as (Q1 & Q2 & Q3 & Q4 & Q5 & Q6); try done.
    + rewrite Eb. destruct (bucket_at a bucketTypeOld i !! _) as [q|] eqn:Hq; [|done].
      change (ka_String _) with (ka_String ka) in Hq. rewrite Hstr in Hq.
      destruct (inv_bucket _ Ha _ _ _ _ Hq) as (Hl & k & E1 & E2).
      assert (q = p) as -> by congruence. assert (k = ka) as -> by congruence. by rewrite Ht in E2.
    + rewrite Eb. unfold oldBucketSize in *. lia.
    + right. split; [|done]. change (ka_String _) with (ka_String ka). rewrite Hstr. cbn. rewrite Hlb.
      by rewrite lookup_delete_eq.
    + rewrite Eb in *. change (ka_String (set_BucketType _ _)) with (ka_String ka) in *. rewrite Hstr in *.
      eexists _, _, i. split; [done|]. split; [done|]. split; [exact Q1|].
      split; [unfold same_setup; rewrite Q2, Q3, Q4; by cbn|].
      change (addrLookup b1) with (addrLookup b) in Q5. rewrite Hlb in Q5.
      split; [intros s' Hne; by rewrite Q5, lookup_insert_ne, lookup_delete_ne|].
      rewrite (proj2 (Z.ltb_ge _ _)) by exact Hroom.
      split; [done|]. rewrite Q5, lookup_insert_eq. split; [done|].
      exact Q6.
Qed.

(** A record may change except for its address, its type and its buckets. *)
Lemma Inv_touch a s p ka ka' : Inv a -> addrLookup a !! s = Some p -> heap a !! p = Some ka ->
  BucketType ka' = BucketType ka -> Buckets ka' = Buckets ka -> ka_String ka' = ka_String ka ->
  Inv (with_heap (<[p := ka']> (heap a)) a).
Proof.
  intros Ha Hs Hp Ht Hb Hk. apply Inv_heap; [done|]. intros s' q k Hl E.
  destruct (decide (q = p)) as [->|Hne]; [|exists k; by rewrite lookup_insert_ne].
  exists ka'. rewrite lookup_insert_eq. assert (k = ka) as -> by congruence. by split_and!.
Qed.

(** ** Sequences of calls *)
Inductive book_op :=
| op_AddAddress (now draw : Z) (addr src : option NetAddress)
| op_AddOurAddress (addr : NetAddress)
| op_MarkGood (now : Z) (addr : NetAddress)
| op_MarkAttempt (now : Z) (addr : NetAddress)
| op_RemoveAddress (addr : NetAddress).

Definition book_step (a : AddrBook) (o : book_op) : option AddrBook :=
  match o with
  | op_AddAddress now draw addr src => snd <$> AddAddress a now draw addr src
  | op_AddOurAddress addr => Some (AddOurAddress a addr)
  | op_MarkGood now addr => MarkGood a now addr
  | op_MarkAttempt now addr => MarkAttempt a now addr
  | op_RemoveAddress addr => RemoveAddress a addr
  end.

Fixpoint book_run (a : AddrBook) (l : list book_op) : option AddrBook :=
  match l with
  | [] => Some a
  | o :: l => b ← book_step a o; book_run b l
  end.

(** What [MarkGood] does to a book that satisfies the invariant: [full] says whether the old
    bucket the address belongs to has no room. *)
Lemma MarkGood_inv a now addr p ka : Inv a -> addrLookup a !! NetAddress_String addr = Some p ->
  heap a !! p = Some ka ->
  exists b i, MarkGood a now addr = Some b /\ Inv b /\ same_setup a b /\
    calcOldBucket a (Addr ka) = Some i /\
    (forall s', s' <> NetAddress_String addr -> addrLookup b !! s' = addrLookup a !! s') /\
    (if isOld ka then addrLookup b !! NetAddress_String addr = Some p
     else if oldBucketSize <? Z.of_nat (size (bucket_at a bucketTypeOld i))
     then addrLookup b !! NetAddress_String addr = None
     else addrLookup b !! NetAddress_String addr = Some p /\
          bucket_at b bucketTypeOld i !! NetAddress_String addr = Some p).
Proof using Type*.
  intros Ha Hs Hp. set (s := NetAddress_String addr) in *. unfold MarkGood. fold s. rewrite Hs, Hp.
  cbn [mbind option_bind]. set (a1 := with_heap _ a).
  assert (Inv a1) as Ha1 by (by apply (Inv_touch a s p ka)).
  assert (heap a1 !! p = Some (markGood now ka)) as Hp1 by apply lookup_insert_eq.
  destruct (inv_lookup _ Ha _ _ Hs) as (k & E & _ & Ht & _). assert (k = ka) as -> by congruence.
  unfold isNew, isOld. cbn [BucketType markGood]. destruct Ht as [[Ht _]|[Ht _]]; rewrite Ht.
  - change (bucketTypeNew =? bucketTypeNew) with true. change (bucketTypeNew =? bucketTypeOld) with false.
    cbv iota.
    destruct (moveToOld_inv a1 p s _ Ha1 Hs Hp1 Ht) as (err & b & i & Hi & -> & Hb & Hsm & Hoth & Hif).
    exists b, i. split; [done|]. split; [done|]. split; [done|]. split; [exact Hi|]. split; [exact Hoth|].
    change (bucket_at a1 bucketTypeOld i) with (bucket_at a bucketTypeOld i) in Hif.
    case_on; tauto.
  - change (bucketTypeOld =? bucketTypeNew) with false. change (bucketTypeOld =? bucketTypeOld) with true.
    cbv iota. destruct (calcOldBucket_range a (Addr ka)) as (i & Hi & _).
    exists a1, i. by split_and!.
Qed.

Lemma book_step_inv a o : Inv a -> exists b, book_step a o = Some b /\ Inv b.
Proof using Type*.
  intros Ha. destruct o as [now draw addr src|addr|now addr|now addr|addr]; cbn [book_step].
  - destruct (addAddress_inv a now draw addr src Ha) as (err & b & Hb & HI & _).
    exists b. unfold AddAddress. by rewrite Hb.
  - exists (AddOurAddress a addr). split; [done|]. by destruct Ha.
  - unfold MarkGood. destruct (addrLookup a !! NetAddress_String addr) as [p|] eqn:Hs; [|by exists a].
    destruct (inv_lookup _ Ha _ _ Hs) as (ka & Hp & _).
    destruct (MarkGood_inv a now addr p ka Ha Hs Hp) as (b & i & Hb & HI & _). exists b.
    split; [|done]. unfold MarkGood in Hb. by rewrite Hs in Hb.
  - unfold MarkAttempt. destruct (addrLookup a !! NetAddress_String addr) as [p|] eqn:Hs; [|by exists a].
    destruct (inv_lookup _ Ha _ _ Hs) as (ka & Hp & _). rewrite Hp. cbn [mbind option_bind].
    eexists. split; [done|]. exact (Inv_touch _ _ _ _ (markAttempt now ka) Ha Hs Hp eq_refl eq_refl eq_refl).
  - unfold RemoveAddress. destruct (addrLookup a !! NetAddress_String addr) as [p|] eqn:Hs; [|by exists a].
    destruct (removeFromAllBuckets_inv a _ p Ha Hs) as (b & ka & _ & _ & -> & HI & _). by exists b.
Qed.

Lemma book_run_inv l : forall a, Inv a -> exists b, book_run a l = Some b /\ Inv b.
Proof using Type*.
  induction l as [|o l IH]; intros a Ha; cbn [book_run]; [by exists a|].
  destruct (book_step_inv a o Ha) as (b & -> & Hb). cbn [mbind option_bind]. by apply IH.
Qed.

Lemma reachable_inv strict k l a : book_run (NewAddrBook strict k) l = Some a -> Inv a.
Proof using Type*.
  intros Hl. destruct (book_run_inv l _ (Inv_NewAddrBook strict k)) as (b & Hb & Hi). by simplify_eq.
Qed.

(** ** The selection *)
Lemma deref_all_ok a l : Inv a -> (forall s p, (s, p) ∈ l -> addrLookup a !! s = Some p) ->
  exists r, deref_all a l = Some r /\ map NetAddress_String r = map fst l /\
    Forall (fun na => exists p ka, addrLookup a !! NetAddress_String na = Some p /\
                                   heap a !! p = Some ka /\ Addr ka = na) r.
Proof.
  intros Ha. induction l as [|[s p] l IH]; intros Hl; cbn [deref_all]; [by exists []|].
  destruct (inv_lookup _ Ha s p) as (ka & E & Hs & _); [apply Hl; left|]. rewrite E. cbn [mbind option_bind].
  destruct IH as (r & -> & Hm & Hr); [intros; apply Hl; by right|]. cbn [mbind option_bind].
  exists (Addr ka :: r). split; [done|]. split; [cbn; by rewrite Hm, <- Hs|]. constructor; [|done].
  exists p, ka. split_and!; try done. change (NetAddress_String (Addr ka)) with (ka_String ka). rewrite Hs.
  apply Hl. left.
Qed.

Lemma insert_swap_perm {A} (l : list A) i j x y : l !! i = Some x -> l !! j = Some y ->
  <[j := x]> (<[i := y]> l) ≡ₚ l.
Proof.
  intros Hi Hj. apply Permutation_inj. rewrite !length_insert. split; [done|].
  pose proof (lookup_lt_Some _ _ _ Hi). pose proof (lookup_lt_Some _ _ _ Hj).
  exists (fun k => if decide (k = i) then j else if decide (k = j) then i else k). split.
  - intros k1 k2. repeat case_decide; intros; subst; congruence.
  - intros k. destruct (decide (k = j)) as [->|Hkj].
    + rewrite list_lookup_insert_eq by (by rewrite length_insert). case_decide; congruence.
    + rewrite list_lookup_insert_ne by done. case_decide as Hki; [subst; by rewrite list_lookup_insert_eq|].
      by rewrite list_lookup_insert_ne.
Qed.

Lemma shuffle_perm {A} n : forall i draw (l : list A), 0 <= i -> i + Z.of_nat n <= #l ->
  exists k, shuffle n i draw l = Some k /\ k ≡ₚ l.
Proof.
  induction n as [|n IH]; intros i draw l Hi Hn; cbn [shuffle]; [by exists l|].
  unfold Intn. rewrite (proj2 (Z.leb_gt _ 0)) by lia. cbn [mbind option_bind].
  pose proof (Z.mod_pos_bound (draw i) (#l - i)) as Hr. unfold swap.
  destruct (index_some l i) as [x Hx]; [lia|].
  destruct (index_some l (draw i mod (#l - i) + i)) as [y Hy]; [lia|]. rewrite Hx, Hy. cbn [mbind option_bind].
  unfold index in Hx, Hy. case_in Hx; [done|]. case_in Hy; [done|].
  pose proof (insert_swap_perm _ _ _ _ _ Hx Hy) as Hp.
  match goal with |- context [ shuffle n (i + 1) draw ?k ] => set (l' := k) in * end.
  destruct (IH (i + 1) draw l') as (k & -> & Hk); [lia| |].
  { unfold zlen. rewrite Hp. fold (zlen l). lia. }
  exists k. split; [done|]. by rewrite Hk.
Qed.

Lemma GetSelection_inv a draw : Inv a ->
  exists r, GetSelection a draw = Some r /\ NoDup (map NetAddress_String r) /\
    #r = Z.min maxGetSelection (Z.max (Z.min minGetSelection (Size a)) (Z.quot (Size a * getSelectionPercent) 100)) /\
    Forall (fun na => exists p ka, addrLookup a !! NetAddress_String na = Some p /\
                                   heap a !! p = Some ka /\ Addr ka = na) r.
Proof using Type*.
  intros Ha. unfold GetSelection. fold (Size a). pose proof (Size_lookup _ Ha) as Hsz.
  unfold maxGetSelection, minGetSelection, getSelectionPercent in *.
  destruct (Z.eqb_spec (Size a) 0) as [->|Hne]; [exists []; split_and!; done || constructor|]. cbv zeta.
  set (n := Z.min 250 _).
  assert (0 < n <= Size a) as Hn.
  { unfold n. rewrite Z.quot_div_nonneg by lia.
    pose proof (Z.div_le_upper_bound (Size a * 23) 100 (Size a)). lia. }
  destruct (deref_all_ok a (iter nat 2 (addrLookup a)) Ha) as (r & -> & Hm & Hr).
  { intros s p. rewrite iter_perm. apply elem_of_map_to_list. }
  cbn [mbind option_bind].
  assert (NoDup (map NetAddress_String r)) as Hnd.
  { rewrite Hm. change (NoDup ((iter nat 2 (addrLookup a)).*1)). rewrite iter_perm. apply NoDup_fst_map_to_list. }
  assert (#r = Size a) as Hlen.
  { rewrite Hsz. unfold zlen. rewrite <- (length_map NetAddress_String), Hm, length_map, iter_perm.
    by rewrite length_map_to_list. }
  destruct (shuffle_perm (Z.to_nat n) 0 draw r) as (k & -> & Hk); [lia..|]. cbn [mbind option_bind].
  assert (#k = Size a) as Hlk by (unfold zlen; by rewrite Hk).
  rewrite (proj2 (Z.ltb_ge n 0)), (proj2 (Z.ltb_ge #k n)) by lia. cbn [orb].
  exists (take (Z.to_nat n) k). split; [done|]. split.
  { rewrite <- Hk, <- (take_drop (Z.to_nat n) k), map_app in Hnd. by apply list.NoDup_app in Hnd as [Hnd _]. }
  split; [rewrite zlen_take; lia|]. apply Forall_take. by rewrite Hk.
Qed.
End operations.

(** ** Properties *)

(** C3: From a fresh book every sequence of calls runs without a panic, whatever the clock, the
    random draws and the order of map iteration, and the book it leaves satisfies the
    invariant, so that its size is the number of addresses it knows. *)
Theorem book_invariant `{Sha3} `{MapOrderLaws} (strict : bool) (k : gostring) (l : list book_op) :
  exists b, book_run (NewAddrBook strict k) l = Some b /\ Inv b /\
    Size b = Z.of_nat (size (addrLookup b)) /\
    forall addr : NetAddress, match addrLookup b !! NetAddress_String addr with
    | None => forall t i, bucket_at b t i !! NetAddress_String addr = None
    | Some p => exists t i, bucket_at b t i !! NetAddress_String addr = Some p
    end.
Proof.
  destruct (book_run_inv l _ (Inv_NewAddrBook strict k)) as (b & Hb & Hi). exists b.
  split; [done|]. split; [done|]. split; [by apply Size_lookup|].
  intros addr. destruct (addrLookup b !! NetAddress_String addr) as [p|] eqn:E.
  - destruct (inv_lookup _ Hi _ _ E) as (ka & _ & _ & Ht & _ & Hin).
    destruct (Buckets ka) as [|i bs] eqn:Eb; [rewrite zlen_nil in Ht; lia|].
    exists (BucketType ka), i. apply Hin. left.
  - intros t i. destruct (bucket_at b t i !! NetAddress_String addr) as [p|] eqn:E'; [|done].
    destruct (inv_bucket _ Hi _ _ _ _ E') as [? _]. congruence.
Qed.

Definition key_order : MapOrder := fun A _ m => map_to_list m.
Lemma key_order_laws : @MapOrderLaws key_order.
Proof. by intros A n m. Qed.

Definition sample_src : NetAddress := mkNetAddress (IPv4 8 8 8 8) 80.
Definition sample_addr (n : Z) : NetAddress := mkNetAddress (IPv4 9 9 (n / 256) (n mod 256)) 80.
Definition sample_ops (n : Z) : list book_op :=
  mjoin (map (fun i => [op_AddAddress 0 0 (Some (sample_addr i)) (Some sample_src);
                        op_MarkGood 0 (sample_addr i)]) (seqZ 0 n)).

Lemma book_invariant_witness : exists b,
  @book_run pad32 key_order (NewAddrBook true []) (sample_ops 3) = Some b /\ Inv b /\ Size b = 3.
Proof.
  destruct (@book_invariant pad32 key_order key_order_laws true [] (sample_ops 3)) as (b & Hb & Hi & _).
  exists b. split; [exact Hb|]. split; [exact Hi|].
  assert (Size <$> @book_run pad32 key_order (NewAddrBook true []) (sample_ops 3) = Some 3) as Hs
    by (vm_compute; reflexivity).
  rewrite Hb in Hs. injection Hs as Hs. exact Hs.
Defined.

(** Promotion of a new address: it leaves its new buckets, and if the old bucket it belongs to
    holds at most 64 addresses it enters that one, as an old address.  If the bucket holds 65 the book
    forgets the address: marking a peer good then removes it.  No other address is affected. *)
Theorem MarkGood_promotes `{Sha3} `{MapOrderLaws} (strict : bool) (k : gostring) (l : list book_op)
    (a : AddrBook) (now : Z) (addr : NetAddress) (p : nat) (ka : knownAddress) :
  book_run (NewAddrBook strict k) l = Some a ->
  addrLookup a !! NetAddress_String addr = Some p -> heap a !! p = Some ka -> isNew ka = true ->
  exists b i, MarkGood a now addr = Some b /\ calcOldBucket a (Addr ka) = Some i /\
    (forall s, s <> NetAddress_String addr -> addrLookup b !! s = addrLookup a !! s) /\
    if oldBucketSize <? Z.of_nat (size (bucket_at a bucketTypeOld i))
    then addrLookup b !! NetAddress_String addr = None /\
         (forall t j, bucket_at b t j !! NetAddress_String addr = None)
    else bucket_at b bucketTypeOld i !! NetAddress_String addr = Some p /\
         (forall j, bucket_at b bucketTypeNew j !! NetAddress_String addr = None).
Proof.
  intros Hrun Hs Hp Hnew. pose proof (reachable_inv _ _ _ _ Hrun) as Ha.
  destruct (MarkGood_inv a now addr p ka Ha Hs Hp) as (b & i & Hb & Hi & _ & Hc & Hoth & Hif).
  exists b, i. split; [done|]. split; [done|]. split; [done|].
  unfold isNew, isOld in *. zbool. rewrite Hnew in Hif. change (bucketTypeNew =? bucketTypeOld) with false in Hif.
  case_on.
  - split; [done|]. intros t j. destruct (bucket_at b t j !! _) as [q|] eqn:E; [|done].
    apply (inv_bucket _ Hi) in E as [E _]. congruence.
  - destruct Hif as [_ Hold]. split; [done|]. intros j. destruct (bucket_at b bucketTypeNew j !! _) as [q|] eqn:E; [|done].
    apply (inv_bucket _ Hi) in E as (E & k1 & E1 & T1). apply (inv_bucket _ Hi) in Hold as (E2 & k2 & E3 & T2).
    assert (k1 = k2) as -> by congruence. by rewrite T1 in T2.
Qed.

(** The 66th address that hashes to one old bucket is lost. *)
Definition const32 : Sha3 := fun _ => replicate 32 0.

Lemma MarkGood_promotes_witness :
  let s := NetAddress_String (sample_addr 65) in
  exists a b, @book_run const32 key_order (NewAddrBook true [])
      (sample_ops 65 ++ [op_AddAddress 0 0 (Some (sample_addr 65)) (Some sample_src)]) = Some a /\
    is_Some (addrLookup a !! s) /\
    @MarkGood const32 a 0 (sample_addr 65) = Some b /\ addrLookup b !! s = None.
Proof.
  intros s.
  assert (match @book_run const32 key_order (NewAddrBook true [])
      (sample_ops 65 ++ [op_AddAddress 0 0 (Some (sample_addr 65)) (Some sample_src)]) with
    | None => false
    | Some a => match addrLookup a !! s with
      | None => false
      | Some p => match heap a !! p with
        | None => false
        | Some ka => isNew ka && match @calcOldBucket const32 a (Addr ka) with
                                 | Some i => oldBucketSize <? Z.of_nat (size (bucket_at a bucketTypeOld i))
                                 | None => false
                                 end
        end
      end
    end = true) as Hc by (vm_compute; reflexivity).
  destruct (@book_run const32 key_order _ _) as [a|] eqn:Hrun; [|discriminate Hc].
  destruct (addrLookup a !! s) as [p|] eqn:Hs; [|discriminate Hc].
  destruct (heap a !! p) as [ka|] eqn:Hp; [|discriminate Hc].
  apply andb_true_iff in Hc as [Hnew Hfull].
  destruct (@MarkGood_promotes const32 key_order key_order_laws _ _ _ a 0 (sample_addr 65) p ka Hrun Hs Hp Hnew)
    as (b & i & Hb & Hi & _ & Hif).
  rewrite Hi in Hfull. rewrite Hfull in Hif.
  exists a, b. split; [reflexivity|]. split; [exists p; exact Hs|]. split; [exact Hb|]. exact (proj1 Hif).
Defined.

(** A selection for a peer holds known addresses, none twice, and its length depends only on
    the size of the book: at least 32 or all there are, 23 percent, at most 250. *)
Theorem GetSelection_spec `{Sha3} `{MapOrderLaws} (strict : bool) (k : gostring) (l : list book_op)
    (a : AddrBook) (draw : Z -> Z) :
  book_run (NewAddrBook strict k) l = Some a ->
  exists r, GetSelection a draw = Some r /\ NoDup (map NetAddress_String r) /\
    #r = Z.min maxGetSelection (Z.max (Z.min minGetSelection (Size a)) (Z.quot (Size a * getSelectionPercent) 100)) /\
    Forall (fun na => exists p ka, addrLookup a !! NetAddress_String na = Some p /\
                                   heap a !! p = Some ka /\ Addr ka = na) r.
Proof. intros Hl. apply GetSelection_inv. by eapply reachable_inv. Qed.

Lemma GetSelection_spec_witness :
  exists a r, @book_run pad32 key_order (NewAddrBook true []) (sample_ops 40) = Some a /\
    @GetSelection key_order a (fun i => 7 * i) = Some r /\ #r = 32.
Proof.
  assert ((Size <$> @book_run pad32 key_order (NewAddrBook true []) (sample_ops 40)) = Some 40) as Hc
    by (vm_compute; reflexivity).
  destruct (@book_run pad32 key_order _ _) as [a|] eqn:Hrun; [|discriminate Hc]. injection Hc as Hc.
  destruct (@GetSelection_spec pad32 key_order key_order_laws _ _ _ a (fun i => 7 * i) Hrun) as (r & Hr & _ & Hn & _).
  exists a, r. split; [reflexivity|]. split; [exact Hr|]. rewrite Hn, Hc. reflexivity.
Defined.
