(* ===== verification/AddrBookFile.v ===== *)
(** * The saved address book

    [SaveToFile] writes the records and drops the tables; [loadFromFile] rebuilds the lookup
    table, the buckets and the counters from what the records say.  Pointers differ after a
    restart, so that books are compared through [table] and [bucket_table], in which every
    pointer is replaced by the record it refers to. *)
From S2P Require Import Prelude Errors GoLib Hash NetAddress AddrBook AddrBookInv.

(** ** A book without its pointers *)
Definition deref (a : AddrBook) (m : gmap gostring nat) : gmap gostring knownAddress :=
  omap (fun p => heap a !! p) m.
Definition table (a : AddrBook) : gmap gostring knownAddress := deref a (addrLookup a).
Definition bucket_table (a : AddrBook) (t i : Z) : gmap gostring knownAddress := deref a (bucket_at a t i).

(** A record as the invariant wants it. *)
Definition ka_ok (ka : knownAddress) : Prop :=
  ((BucketType ka = bucketTypeNew /\ 1 <= #(Buckets ka) <= maxNewBucketsPerAddress) \/
   (BucketType ka = bucketTypeOld /\ #(Buckets ka) = 1)) /\
  NoDup (Buckets ka) /\ Forall (in_range (BucketType ka)) (Buckets ka).

(** The tables say what the records say. *)
Record described (a : AddrBook) : Prop := {
  d_len : wf_len a;
  d_live s p : addrLookup a !! s = Some p -> exists ka, heap a !! p = Some ka /\ ka_String ka = s;
  d_bucket t i s p : bucket_at a t i !! s = Some p <->
    addrLookup a !! s = Some p /\ exists ka, heap a !! p = Some ka /\ BucketType ka = t /\ i ∈ Buckets ka;
}.

Lemma Inv_described a : Inv a -> described a.
Proof.
  intros Ha. split; [apply Ha|..].
  - intros s p Hl. destruct (inv_lookup _ Ha _ _ Hl) as (ka & E & Hs & _). by exists ka.
  - intros t i s p. split.
    + intros Hb. destruct (bucket_known _ _ _ _ _ Ha Hb) as (ka & E & _ & Ht & Hi).
      split; [by apply (inv_bucket _ Ha) in Hb as [? _]|by exists ka].
    + intros (Hl & ka & E & <- & Hi). destruct (inv_lookup _ Ha _ _ Hl) as (ka' & E' & Hk).
      assert (ka' = ka) as -> by congruence. by apply Hk.
Qed.

Lemma deref_lookup a m s ka : deref a m !! s = Some ka <-> exists p, m !! s = Some p /\ heap a !! p = Some ka.
Proof. unfold deref. rewrite lookup_omap, bind_Some. done. Qed.

Lemma table_lookup a s ka : table a !! s = Some ka <-> exists p, addrLookup a !! s = Some p /\ heap a !! p = Some ka.
Proof. apply deref_lookup. Qed.

Lemma Inv_table a s ka : Inv a -> table a !! s = Some ka -> ka_String ka = s /\ ka_ok ka.
Proof.
  intros Ha (p & Hl & Hp)%table_lookup. destruct (inv_lookup _ Ha _ _ Hl) as (ka' & E & Hk).
  assert (ka' = ka) as -> by congruence. destruct (Hk) as (Hs & Ht & Hd & _). unfold ka_ok. split_and!; try done.
  apply list.Forall_forall. intros i Hi. by eapply known_in_range; [apply Ha|..].
Qed.

(** The buckets of a described book are selections from its table. *)
Lemma bucket_table_filter a t i : described a ->
  bucket_table a t i = filter (fun ska => BucketType ska.2 = t /\ i ∈ Buckets ska.2) (table a).
Proof.
  intros Hd. apply map_eq. intros s. apply option_eq. intros ka.
  unfold bucket_table. rewrite deref_lookup, map_lookup_filter_Some, table_lookup. cbn [snd].
  setoid_rewrite (d_bucket _ Hd). split.
  - intros (p & (Hl & ka' & E & Ht & Hi) & Hp). assert (ka' = ka) as -> by congruence. eauto.
  - intros ((p & Hl & Hp) & Ht & Hi). exists p. split; [|done]. split; [done|]. by exists ka.
Qed.

Lemma size_deref a m : (forall s p, m !! s = Some p -> is_Some (heap a !! p)) -> size (deref a m) = size m.
Proof.
  intros Hm. rewrite <- !size_dom. f_equal. apply set_eq. intros s.
  rewrite !elem_of_dom. unfold is_Some. setoid_rewrite deref_lookup. split.
  - intros (ka & p & Hp & _). by exists p.
  - intros (p & Hp). destruct (Hm _ _ Hp) as [ka Hka]. by exists ka, p.
Qed.

Lemma count_table a t : described a ->
  count a t = Z.of_nat (size (filter (fun ska => BucketType ska.2 = t) (table a))).
Proof.
  intros Hd. unfold count. f_equal. rewrite <- (size_deref a).
  2:{ intros s p (Hl & _)%map_lookup_filter_Some. destruct (d_live _ Hd _ _ Hl) as (ka & E & _). by exists ka. }
  f_equal. apply map_eq. intros s. apply option_eq. intros ka.
  rewrite deref_lookup. setoid_rewrite map_lookup_filter_Some. rewrite table_lookup. cbn [snd].
  unfold typ. split.
  - intros (p & (Hl & Ht) & Hp). rewrite Hp in Ht. injection Ht as Ht. split; [by exists p|done].
  - intros ((p & Hl & Hp) & Ht). exists p. rewrite Hp. cbn. by rewrite Ht.
Qed.

(** ** Loading *)

(** Without [in_range] the code indexes a slice out of range or writes to a nil map. *)
Definition ka_loads (ka : knownAddress) : Prop := Forall (in_range (BucketType ka)) (Buckets ka).

#[export] Instance ka_loads_dec ka : Decision (ka_loads ka).
Proof. unfold ka_loads. apply _. Defined.

Lemma load_buckets_ok t s p idxs : forall a, wf_len a -> Forall (in_range t) idxs ->
  exists b, load_buckets t s p idxs a = Some b /\ updated (insert s p) t idxs a b.
Proof.
  induction idxs as [|i idxs IH]; intros a Hw Hr; cbn [load_buckets].
  { exists a. split; [done|by apply updated_nil]. }
  apply Forall_cons_1 in Hr as [Hi Hr]. rewrite getBucket_at by done. cbn [mbind option_bind].
  destruct (IH (putBucket a t i (<[s := p]> (bucket_at a t i)))) as (b & Hb & Hu); [by apply putBucket_fields|done|].
  exists b. split; [done|]. apply updated_cons; [intros m; apply insert_insert_eq|done..].
Qed.

Lemma getBucket_out a t i : wf_len a -> ~ in_range t i -> (m ← getBucket a t i; m) = None.
Proof.
  intros Hw Hr. apply wf_len_z in Hw as [Hn Ho]. unfold getBucket.
  destruct (Z.eqb_spec t bucketTypeNew) as [->|]; [|destruct (Z.eqb_spec t bucketTypeOld) as [->|]; [|done]].
  - rewrite index_none; [done|]. rewrite Hn. intros Hi. apply Hr. by left.
  - rewrite index_none; [done|]. rewrite Ho. intros Hi. apply Hr. by right.
Qed.

Lemma load_buckets_panics t s p idxs : forall a, wf_len a -> ~ Forall (in_range t) idxs ->
  load_buckets t s p idxs a = None.
Proof.
  induction idxs as [|i idxs IH]; intros a Hw Hr; cbn [load_buckets]; [by destruct Hr|].
  destruct (decide (in_range t i)) as [Hi|Hi].
  - rewrite getBucket_at by done. cbn [mbind option_bind]. apply IH; [by apply putBucket_fields|].
    intros Hf. apply Hr. by constructor.
  - pose proof (getBucket_out a t i Hw Hi) as E. by destruct (getBucket a t i) as [[m|]|].
Qed.

(** One record: the state before its buckets and the one after its count. *)
Definition load_entry (a : AddrBook) (ka : knownAddress) : AddrBook :=
  let p := fresh (dom (heap a)) in
  with_lookup (<[ka_String ka := p]> (addrLookup a)) (with_heap (<[p := ka]> (heap a)) a).
Definition count_in (t : Z) (a : AddrBook) : AddrBook :=
  if t =? bucketTypeNew then with_counts (nOld a) (nNew a + 1) a else with_counts (nOld a + 1) (nNew a) a.

Lemma load_addrs_cons ka l a :
  load_addrs (ka :: l) a =
    b ← load_buckets (BucketType ka) (ka_String ka) (fresh (dom (heap a))) (Buckets ka) (load_entry a ka);
    load_addrs l (count_in (BucketType ka) b).
Proof. done. Qed.

Lemma count_in_fields t a : let b := count_in t a in
  routabilityStrict b = routabilityStrict a /\ key b = key a /\ ourAddrs b = ourAddrs a /\
  addrLookup b = addrLookup a /\ heap b = heap a /\ bucketsNew b = bucketsNew a /\ bucketsOld b = bucketsOld a /\
  nNew b = nNew a + counts (bool_decide (t = bucketTypeNew)) /\
  nOld b = nOld a + counts (bool_decide (t <> bucketTypeNew)).
Proof. cbv zeta. unfold count_in. destruct (Z.eqb_spec t bucketTypeNew); repeat case_bool_decide; cbn; split_and!; done || lia. Qed.

Lemma load_addrs_panics l : forall a, wf_len a -> load_addrs l a = None <-> ~ Forall ka_loads l.
Proof.
  induction l as [|ka l IH]; intros a Hw; [split; [done|intros []; constructor]|].
  rewrite load_addrs_cons, list.Forall_cons. destruct (decide (ka_loads ka)) as [Hk|Hk].
  - destruct (load_buckets_ok (BucketType ka) (ka_String ka) (fresh (dom (heap a))) (Buckets ka) (load_entry a ka))
      as (b & -> & _ & Hwb & _); [done..|]. cbn [mbind option_bind].
    destruct (count_in_fields (BucketType ka) b) as (_ & _ & _ & _ & _ & En & Eo & _).
    rewrite IH; [tauto|]. unfold wf_len. by rewrite En, Eo.
  - rewrite load_buckets_panics by done. cbn. tauto.
Qed.

Lemma and_iff_l (A B C : Prop) : (A -> (B <-> C)) -> A /\ B <-> A /\ C.
Proof. tauto. Qed.

(** A described book whose counters count. *)
Record tracked (a : AddrBook) : Prop := {
  t_described : described a;
  t_new : nNew a = count a bucketTypeNew;
  t_old : nOld a = count a bucketTypeOld;
}.

Definition same_owner (a b : AddrBook) : Prop :=
  routabilityStrict b = routabilityStrict a /\ key b = key a /\ ourAddrs b = ourAddrs a.

Lemma fresh_heap a : heap a !! fresh (dom (heap a)) = None.
Proof. apply not_elem_of_dom. apply is_fresh. Qed.

(** A record with a new address, added to a book whose other parts agree. *)
Lemma described_add b c p ka : let s := ka_String ka in
  described b -> heap b !! p = None -> addrLookup b !! s = None -> wf_len c ->
  addrLookup c = <[s := p]> (addrLookup b) -> heap c = <[p := ka]> (heap b) ->
  (forall t i, bucket_at c t i =
     if decide (t = BucketType ka /\ i ∈ Buckets ka) then <[s := p]> (bucket_at b t i) else bucket_at b t i) ->
  described c.
Proof.
  intros s Hb Hp Hs Hw Hl Hh Hat. split; [done|..].
  - intros s' q. rewrite Hl, Hh, lookup_insert_Some. intros [[<- <-]|[_ Hq]].
    + exists ka. by rewrite lookup_insert_eq.
    + destruct (d_live _ Hb _ _ Hq) as (k & E & Hk). exists k. rewrite lookup_insert_ne; [done|congruence].
  - intros t i s' q. rewrite Hat, Hl, Hh. destruct (decide (s' = s)) as [->|Hne].
    + assert (bucket_at b t i !! s = None) as Hno.
      { destruct (bucket_at b t i !! s) eqn:E; [|done]. apply (d_bucket _ Hb) in E as [E _]. congruence. }
      rewrite lookup_insert_eq. case_decide as Hd.
      * rewrite lookup_insert_eq. destruct Hd as [-> Hi]. split; [intros [= <-]|by intros [? _]].
        split; [done|]. exists ka. by rewrite lookup_insert_eq.
      * rewrite Hno. split; [done|]. intros [[= <-] (k & E & Ht & Hi)]. rewrite lookup_insert_eq in E.
        injection E as ->. destruct Hd. done.
    + rewrite (lookup_insert_ne (addrLookup b)) by done.
      transitivity (bucket_at b t i !! s' = Some q); [case_decide; [by rewrite lookup_insert_ne|done]|].
      rewrite (d_bucket _ Hb). apply and_iff_l. intros Hq.
      destruct (d_live _ Hb _ _ Hq) as (k & E & _). rewrite lookup_insert_ne; [done|congruence].
Qed.

Lemma table_add b c p ka : described b -> heap b !! p = None ->
  addrLookup c = <[ka_String ka := p]> (addrLookup b) -> heap c = <[p := ka]> (heap b) ->
  table c = <[ka_String ka := ka]> (table b).
Proof.
  intros Hb Hp Hl Hh. unfold table, deref. rewrite Hl, Hh.
  rewrite (omap_insert_Some _ _ _ p ka) by apply lookup_insert_eq. f_equal.
  apply omap_ext. intros s q Hq. destruct (d_live _ Hb _ _ Hq) as (k & E & _).
  rewrite lookup_insert_ne; [done|congruence].
Qed.

Lemma table_none a s : described a -> table a !! s = None -> addrLookup a !! s = None.
Proof.
  intros Ha Ht. destruct (addrLookup a !! s) as [p|] eqn:E; [|done].
  destruct (d_live _ Ha _ _ E) as (ka & Hp & _).
  assert (table a !! s = Some ka) by (apply table_lookup; by exists p). congruence.
Qed.

Lemma load_step b ka : tracked b -> ka_ok ka -> table b !! ka_String ka = None ->
  exists c, load_buckets (BucketType ka) (ka_String ka) (fresh (dom (heap b))) (Buckets ka) (load_entry b ka) = Some c /\
    let d := count_in (BucketType ka) c in
    tracked d /\ table d = <[ka_String ka := ka]> (table b) /\ same_owner b d.
Proof.
  intros [Hb Hn Ho] (Hty & _ & Hr) Hs%table_none; [|done]. set (p := fresh _).
  pose proof (fresh_heap b) as Hp. fold p in Hp.
  destruct (load_buckets_ok (BucketType ka) (ka_String ka) p (Buckets ka) (load_entry b ka))
    as (c & Hc & (G1 & G2 & G3 & G4 & G5 & G6 & G7) & Hw & Hat); [apply Hb|done|]. exists c. split; [done|].
  set (d := count_in _ c). destruct (count_in_fields (BucketType ka) c) as (C1 & C2 & C3 & C4 & C5 & C6 & C7 & C8 & C9).
  fold d in C1, C2, C3, C4, C5, C6, C7, C8, C9.
  assert (addrLookup d = <[ka_String ka := p]> (addrLookup b)) as Hl by (by rewrite C4, G4).
  assert (heap d = <[p := ka]> (heap b)) as Hh by (by rewrite C5, G7).
  assert (described d) as Hd.
  { apply (described_add b d p ka); try done.
    - unfold wf_len. by rewrite C6, C7.
    - intros t i. transitivity (bucket_at c t i); [unfold bucket_at, getBucket; by rewrite C6, C7|apply Hat]. }
  assert (forall t, count d t = count b t + counts (bool_decide (BucketType ka = t))) as Hcount.
  { intros t. rewrite (count_insert b d (ka_String ka) p Hs Hl).
    - do 2 f_equal. unfold typ. rewrite Hh, lookup_insert_eq. apply bool_decide_ext. cbn. split; congruence.
    - intros s q Hq. destruct (d_live _ Hb _ _ Hq) as (k & E & _). unfold typ.
      rewrite Hh, lookup_insert_ne by congruence. done. }
  split; [split; [done|..]|split; [by apply (table_add b d p ka)|]].
  - rewrite Hcount, C8, G6, <- Hn. done.
  - rewrite Hcount, C9, G5, <- Ho. do 2 f_equal. apply bool_decide_ext.
    unfold bucketTypeNew, bucketTypeOld in *. lia.
  - unfold same_owner. by rewrite C1, C2, C3, G1, G2, G3.
Qed.

Definition by_address (l : list knownAddress) : gmap gostring knownAddress :=
  list_to_map (map (fun ka => (ka_String ka, ka)) l).

Lemma load_addrs_spec l : forall b, tracked b -> Forall ka_ok l -> NoDup (map ka_String l) ->
  (forall ka, ka ∈ l -> table b !! ka_String ka = None) ->
  exists c, load_addrs l b = Some c /\ tracked c /\ table c = by_address l ∪ table b /\ same_owner b c.
Proof.
  induction l as [|ka l IH]; intros b Hb Hok Hnd Hnew.
  { exists b. split_and!; try done. unfold by_address. cbn. by rewrite map_empty_union. }
  apply Forall_cons_1 in Hok as [Hka Hok]. apply list.NoDup_cons in Hnd as [Hni Hnd].
  rewrite load_addrs_cons.
  destruct (load_step b ka Hb Hka) as (c & -> & Hd & Ht & Ho); [apply Hnew; left|]. cbn [mbind option_bind].
  destruct (IH _ Hd Hok Hnd) as (e & -> & He & Hte & Hoe).
  { intros k Hk. rewrite Ht, lookup_insert_ne; [apply Hnew; by right|].
    intros E. apply Hni. rewrite E. by apply list_elem_of_fmap_2. }
  exists e. split; [done|]. split; [done|]. split.
  - rewrite Hte, Ht. unfold by_address. cbn. rewrite <- insert_union_r; [by rewrite insert_union_l|].
    apply not_elem_of_list_to_map. intros Hin. apply Hni. revert Hin. rewrite <- list_fmap_compose. done.
  - destruct Ho as (?&?&?), Hoe as (?&?&?). unfold same_owner. split_and!; congruence.
Qed.

(** ** Saving *)
Lemma deref_kas_ok a l : Inv a -> (forall s p, (s, p) ∈ l -> addrLookup a !! s = Some p) ->
  exists r, deref_kas a l = Some r /\ map ka_String r = map fst l /\
    (forall ka, ka ∈ r <-> exists s p, (s, p) ∈ l /\ heap a !! p = Some ka).
Proof.
  intros Ha. induction l as [|[s p] l IH]; intros Hl; cbn [deref_kas].
  { exists []. split_and!; try done. intros ka. split; [by intros ?%not_elem_of_nil|].
    intros (s & p & []%not_elem_of_nil & _). }
  destruct (inv_lookup _ Ha s p) as (ka & E & Hs & _); [apply Hl; left|]. rewrite E. cbn [mbind option_bind].
  destruct IH as (r & -> & Hm & Hr); [intros; apply Hl; by right|]. cbn [mbind option_bind].
  exists (ka :: r). split; [done|]. split; [cbn; by rewrite Hm, <- Hs|].
  intros k. rewrite elem_of_cons, Hr. setoid_rewrite elem_of_cons. split.
  - intros [->|(s' & p' & Hin & Hp)]; [exists s, p; by split; [left|]|exists s', p'; by split; [right|]].
  - intros (s' & p' & [[= -> ->]|Hin] & Hp); [left; congruence|right; by exists s', p'].
Qed.

Lemma save_ok `{MapOrderLaws} a : Inv a -> exists r, SaveToFile a = Some (mkBookJSON (key a) r) /\
  by_address r = table a /\ NoDup (map ka_String r) /\ Forall ka_ok r.
Proof.
  intros Ha. unfold SaveToFile. destruct (deref_kas_ok a (iter nat 4 (addrLookup a)) Ha) as (r & -> & Hm & Hr).
  { intros s p. rewrite iter_perm. apply elem_of_map_to_list. }
  setoid_rewrite iter_perm in Hr. setoid_rewrite elem_of_map_to_list in Hr.
  assert (forall ka, ka ∈ r <-> table a !! ka_String ka = Some ka) as Hin.
  { intros ka. rewrite Hr, table_lookup. split; [|by intros (p & ?); exists (ka_String ka), p].
    intros (s & p & Hl & Hp). exists p. split; [|done].
    destruct (inv_lookup _ Ha _ _ Hl) as (k & E & <- & _). congruence. }
  assert (NoDup (map ka_String r)) as Hnd.
  { rewrite Hm. change (NoDup ((iter nat 4 (addrLookup a)).*1)). rewrite iter_perm. apply NoDup_fst_map_to_list. }
  exists r. split_and!; try done.
  - apply map_eq. intros s. apply option_eq. intros ka. unfold by_address.
    rewrite <- elem_of_list_to_map by (rewrite <- list_fmap_compose; apply Hnd).
    rewrite list_elem_of_fmap. split.
    + intros (k & [= -> ->] & Hk). by apply Hin.
    + intros Ht. destruct (Inv_table _ _ _ Ha Ht) as [<- _]. exists ka. split; [done|by apply Hin].
  - apply list.Forall_forall. intros ka Hk. apply Hin in Hk. by apply (Inv_table _ _ _ Ha) in Hk as [_ ?].
Qed.

(** Books with the same records are alike. *)
Lemma tracked_like a b : Inv a -> tracked b -> table b = table a ->
  Inv b /\ nNew b = nNew a /\ nOld b = nOld a /\ forall t i, bucket_table b t i = bucket_table a t i.
Proof.
  intros Ha [Hb Hn Ho] Ht. pose proof (Inv_described _ Ha) as Hd.
  assert (forall t, count b t = count a t) as Hc by (intros t; by rewrite !count_table, Ht).
  assert (forall t i, bucket_table b t i = bucket_table a t i) as Hbt
    by (intros t i; by rewrite !bucket_table_filter, Ht).
  assert (forall x t i, described x -> size (bucket_table x t i) = size (bucket_at x t i)) as Hsz.
  { intros x t i Hx. apply size_deref. intros s p (Hl & _)%(d_bucket _ Hx).
    destruct (d_live _ Hx _ _ Hl) as (ka & E & _). by exists ka. }
  split; [|split_and!; [by rewrite Hn, Hc, <- (inv_new _ Ha)|by rewrite Ho, Hc, <- (inv_old _ Ha)|done]].
  split; try done; [apply Hb|..].
  - intros s p Hl. destruct (d_live _ Hb _ _ Hl) as (ka & E & Hs). exists ka. split; [done|].
    assert (table a !! s = Some ka) as Hk by (rewrite <- Ht; apply table_lookup; by exists p).
    destruct (Inv_table _ _ _ Ha Hk) as (_ & Hty & Hnd & _). split_and!; try done.
    intros i. rewrite (d_bucket _ Hb). split; [|by intros (_ & k & E' & _ & Hi); simplify_eq].
    intros Hi. split; [done|]. by exists ka.
  - intros t i s p (Hl & ka & E & Hty & _)%(d_bucket _ Hb). split; [done|]. by exists ka.
  - intros t i. rewrite <- Hsz, Hbt, Hsz by done. apply Ha.
Qed.

Lemma tracked_NewAddrBook strict k : tracked (NewAddrBook strict k).
Proof. pose proof (Inv_NewAddrBook strict k) as Hi. split; [by apply Inv_described|apply Hi..]. Qed.

(** A file that holds a saved book. *)
Definition saved_as (f : addrBookJSON) (k : gostring) (t : gmap gostring knownAddress) : Prop :=
  json_Key f = k /\ by_address (json_Addrs f) = t /\
  NoDup (map ka_String (json_Addrs f)) /\ Forall ka_ok (json_Addrs f).

(** The book [b] is [a] again, as far as the file goes. *)
Definition restored (a b : AddrBook) : Prop :=
  Inv b /\ key b = key a /\ ourAddrs b = ∅ /\ table b = table a /\
  (forall t i, bucket_table b t i = bucket_table a t i) /\ nNew b = nNew a /\ nOld b = nOld a.

Lemma save_saved `{MapOrderLaws} a : Inv a -> exists f, SaveToFile a = Some f /\ saved_as f (key a) (table a).
Proof. intros Ha. destruct (save_ok a Ha) as (r & -> & ? & ? & ?). by exists (mkBookJSON (key a) r). Qed.

Lemma load_saved a f strict k' : Inv a -> saved_as f (key a) (table a) ->
  exists b, loadFromFile (NewAddrBook strict k') (Some (Ok f)) = Some (None, b) /\
    restored a b /\ routabilityStrict b = strict.
Proof.
  intros Ha (Hk & Hr & Hnd & Hok). unfold loadFromFile. rewrite Hk.
  destruct (load_addrs_spec (json_Addrs f) (NewAddrBook strict (key a)) (tracked_NewAddrBook _ _) Hok Hnd)
    as (b & Hb & Htr & Htab & Hs & Hkb & Ho); [done|].
  exists b. change (with_key _ _) with (NewAddrBook strict (key a)). rewrite Hb. split; [done|].
  assert (table b = table a) as Ht.
  { rewrite Htab, Hr. change (table (NewAddrBook strict (key a))) with (∅ : gmap gostring knownAddress).
    apply map_union_empty. }
  destruct (tracked_like a b Ha Htr Ht) as (Hi & Hn & Hol & Hbt). by split.
Qed.

(** ** The book through starts, saves and crashes *)

(** [OnStart] of the book: what [loadFromFile] makes of the file, and whether [saveRoutine] runs. *)
Definition Book_OnStart (a : AddrBook) (file : option (res error addrBookJSON))
    : option (option error * AddrBook * bool) :=
  '(err, a) ← loadFromFile a file;
  Some (match err with Some e => (Some e, a, false) | None => (None, a, true) end).

(** A node on its disk: the book in memory, the file as it decodes, and whether [saveRoutine] runs. *)
Record host := mkHost { h_book : AddrBook; h_file : option addrBookJSON; h_saving : bool }.

(** What happens: a call of the book, the ticker, the end ([Quit]), the save that the peer
    exchange makes after it has asked the seeds, and a stop of the program, orderly or not, with
    the start that follows.  [werr] is the error of [WriteFileAtomic], which leaves the file as it
    was; [k] the key a new book draws. *)
Inductive host_event :=
| ev_call (o : book_op)
| ev_tick (werr : option error)
| ev_quit (werr : option error)
| ev_save (werr : option error)
| ev_restart (k : gostring).

(** [SaveToFile] with its write. *)
Definition save_to `{MapOrder} (h : host) (werr : option error) : option host :=
  f ← SaveToFile (h_book h);
  Some (match werr with None => mkHost (h_book h) (Some f) (h_saving h) | Some _ => h end).

(** One round of the loop of [saveRoutine]: it logs an error of the ticker's save and goes on, and
    ignores the one of the last save. *)
Definition saveRoutine `{MapOrder} (h : host) (quit : bool) (werr : option error) : option host :=
  if h_saving h then
    h ← save_to h werr;
    Some (if quit then mkHost (h_book h) (h_file h) false else h)
  else Some h.

Definition host_step `{Sha3} `{MapOrder} (strict : bool) (h : host) (e : host_event) : option host :=
  match e with
  | ev_call o => a ← book_step (h_book h) o; Some (mkHost a (h_file h) (h_saving h))
  | ev_tick werr => saveRoutine h false werr
  | ev_quit werr => saveRoutine h true werr
  | ev_save werr => save_to h werr
  | ev_restart k =>
      '(_, a, saving) ← Book_OnStart (NewAddrBook strict k) (Ok <$> h_file h);
      Some (mkHost a (h_file h) saving)
  end.

Fixpoint host_run `{Sha3} `{MapOrder} (strict : bool) (h : host) (l : list host_event) : option host :=
  match l with
  | [] => Some h
  | e :: l => h ← host_step strict h e; host_run strict h l
  end.

(** The first start of a node, without a file. *)
Definition first_start (strict : bool) (k : gostring) : host := mkHost (NewAddrBook strict k) None true.

(** The event writes the book to the file. *)
Definition writes (e : host_event) : bool :=
  match e with ev_tick None | ev_quit None | ev_save None => true | _ => false end.

(** The file holds a book that had the invariant. *)
Definition file_of (f : option addrBookJSON) (o : option AddrBook) : Prop :=
  match f, o with
  | None, None => True
  | Some f, Some a => Inv a /\ saved_as f (key a) (table a)
  | _, _ => False
  end.

Record host_inv (h : host) (o : option AddrBook) : Prop := {
  hi_book : Inv (h_book h);
  hi_file : file_of (h_file h) o;
}.

Section Host.
Context `{Sha3} `{MapOrderLaws} (strict : bool).

Lemma save_to_inv h o werr : host_inv h o -> exists h', save_to h werr = Some h' /\
  host_inv h' (if werr is Some _ then o else Some (h_book h)) /\ h_saving h' = h_saving h /\ h_book h' = h_book h.
Proof using Type*.
  intros [Hb Hf]. unfold save_to. destruct (save_saved _ Hb) as (f & -> & Hs). cbn [mbind option_bind].
  eexists. split; [done|]. by destruct werr.
Qed.

(** A start restores the book whose records the file holds. *)
Lemma restart_restores h o k : host_inv h o ->
  exists b, Book_OnStart (NewAddrBook strict k) (Ok <$> h_file h) = Some (None, b, true) /\
    match o with None => b = NewAddrBook strict k | Some a => restored a b end.
Proof using Type*.
  intros [_ Hf]. unfold Book_OnStart. destruct (h_file h) as [f|], o as [a|]; try done; cbn [fmap option_fmap option_map].
  - destruct Hf as [Ha Hs]. destruct (load_saved a f strict k Ha Hs) as (b & -> & Hr & _). by exists b.
  - by eexists.
Qed.

Lemma host_step_inv h o e : host_inv h o -> exists h', host_step strict h e = Some h' /\
  host_inv h' (if writes e && (h_saving h || match e with ev_save _ => true | _ => false end)
               then Some (h_book h) else o).
Proof using Type*.
  intros Hh. destruct e as [op|werr|werr|werr|k]; cbn [host_step writes].
  - destruct (book_step_inv _ op (hi_book _ _ Hh)) as (b & -> & Hb). eexists. split; [done|]. split; [done|apply Hh].
  - unfold saveRoutine. destruct (save_to_inv h o werr Hh) as (h' & E & Hi & _).
    destruct (h_saving h); [rewrite E; eexists; split; [done|by destruct werr]|]. exists h. by destruct werr.
  - unfold saveRoutine. destruct (save_to_inv h o werr Hh) as (h' & E & [Hb Hf] & _).
    destruct (h_saving h); [rewrite E; eexists; split; [done|by destruct werr]|]. exists h. by destruct werr.
  - destruct (save_to_inv h o werr Hh) as (h' & E & Hi & _). exists h'. split; [done|].
    rewrite orb_true_r. by destruct werr.
  - destruct (restart_restores h o k Hh) as (b & E & Hb). rewrite E. eexists. split; [done|]. split; [|apply Hh].
    cbn. destruct o; [apply Hb|subst b; apply Inv_NewAddrBook].
Qed.

Lemma host_run_quiet l : forall h o, host_inv h o -> Forall (fun e => writes e = false) l ->
  exists h', host_run strict h l = Some h' /\ host_inv h' o.
Proof using Type*.
  induction l as [|e l IH]; intros h o Hh Hl; cbn [host_run]; [by exists h|].
  apply Forall_cons_1 in Hl as [He Hl]. destruct (host_step_inv h o e Hh) as (h' & -> & Hi).
  rewrite He in Hi. by apply IH.
Qed.

Lemma host_run_inv l : forall h o, host_inv h o -> exists h' o', host_run strict h l = Some h' /\ host_inv h' o'.
Proof using Type*.
  induction l as [|e l IH]; intros h o Hh; cbn [host_run]; [by exists h, o|].
  destruct (host_step_inv h o e Hh) as (h' & -> & Hi). by eapply IH.
Qed.

Lemma host_run_app l1 l2 h : host_run strict h (l1 ++ l2) = host_run strict h l1 ≫= fun h' => host_run strict h' l2.
Proof using Type*.
  revert h. induction l1 as [|e l1 IH]; intros h; cbn [host_run app]; [done|].
  destruct (host_step strict h e); [apply IH|done].
Qed.

Lemma first_start_inv k : host_inv (first_start strict k) None.
Proof using Type*. split; [apply Inv_NewAddrBook|done]. Qed.
End Host.

(** ** Properties *)

(** C27: The book outlives the program.  After any history of calls, saves, failed writes, stops,
    crashes and starts nothing has panicked and the book in memory is consistent; a start
    then gives, without error and with the save routine running, a book with the key, the records,
    the buckets and the counters that the book had at the last save that was written, or, when
    none was, an empty book. *)
Theorem book_recovers `{Sha3} `{MapOrderLaws} (strict : bool) (k0 k : gostring) (l1 l2 : list host_event)
    (e : host_event) :
  writes e = true -> Forall (fun e' => writes e' = false) l2 ->
  (exists h b, host_run strict (first_start strict k0) l2 = Some h /\ Inv (h_book h) /\
     Book_OnStart (NewAddrBook strict k) (Ok <$> h_file h) = Some (None, b, true) /\ b = NewAddrBook strict k) /\
  (exists h1, host_run strict (first_start strict k0) l1 = Some h1 /\ Inv (h_book h1) /\
     (h_saving h1 = true ->
      exists h b, host_run strict (first_start strict k0) (l1 ++ e :: l2) = Some h /\ Inv (h_book h) /\
        Book_OnStart (NewAddrBook strict k) (Ok <$> h_file h) = Some (None, b, true) /\ restored (h_book h1) b)).
Proof.
  intros He Hl. pose proof (first_start_inv strict k0) as Hst. split.
  - destruct (host_run_quiet strict l2 _ _ Hst Hl) as (h & Hr & Hh).
    destruct (restart_restores strict h _ k Hh) as (b & Hb & Hn). exists h, b. split_and!; try done. apply Hh.
  - destruct (host_run_inv strict l1 _ _ Hst) as (h1 & o & Hr & Hh). exists h1. split; [done|]. split; [apply Hh|].
    intros Hs. destruct (host_step_inv strict h1 o e Hh) as (h2 & E & Hh2). rewrite He, Hs in Hh2.
    destruct (host_run_quiet strict l2 _ _ Hh2 Hl) as (h & Hr2 & Hh3).
    destruct (restart_restores strict h _ k Hh3) as (b & Hb & Hn). exists h, b. split_and!; try done; [|apply Hh3].
    rewrite host_run_app, Hr. cbn [mbind option_bind host_run]. by rewrite E.
Qed.

(** Three peers are promoted and saved; another call and a crash while the disk is full lose
    nothing that was saved. *)
Lemma book_recovers_witness :
  let l1 := map ev_call (sample_ops 3) in
  let l2 := [ev_call (op_RemoveAddress (sample_addr 1)); ev_tick (Some (EMsg (str "disk full"))); ev_restart (str "k2")] in
  exists h1 h b, @host_run pad32 key_order true (first_start true []) l1 = Some h1 /\
    @host_run pad32 key_order true (first_start true []) (l1 ++ ev_tick None :: l2) = Some h /\
    Book_OnStart (NewAddrBook true []) (Ok <$> h_file h) = Some (None, b, true) /\
    table b = table (h_book h1) /\ nOld b = 3.
Proof.
  intros l1 l2.
  assert ((fun h => (h_saving h, nOld (h_book h))) <$> @host_run pad32 key_order true (first_start true []) l1 = Some (true, 3)) as Hc
    by (vm_compute; reflexivity).
  destruct (@book_recovers pad32 key_order key_order_laws true [] [] l1 l2 (ev_tick None) eq_refl)
    as (_ & h1 & Hr1 & _ & Hrec); [repeat constructor|].
  rewrite Hr1 in Hc. injection Hc as Hs Hn.
  destruct (Hrec Hs) as (h & b & Hr & _ & Hb & Hre). destruct Hre as (_ & _ & _ & Ht & _ & _ & Ho).
  exists h1, h, b. split; [exact Hr1|]. split; [exact Hr|]. split; [exact Hb|]. split; [exact Ht|].
  rewrite Ho. exact Hn.
Defined.

(** What is saved is read back: a book, however it was used, gives after a restart a book with
    the same key, the same records in the lookup table and in every bucket, the same counters
    and the invariant; only the node's own addresses are forgotten. *)
Theorem book_restart `{Sha3} `{MapOrderLaws} (strict : bool) (k k' : gostring) (l : list book_op) (a : AddrBook) :
  book_run (NewAddrBook strict k) l = Some a ->
  exists file b, SaveToFile a = Some file /\
    loadFromFile (NewAddrBook strict k') (Some (Ok file)) = Some (None, b) /\
    restored a b /\ routabilityStrict b = strict.
Proof.
  intros Hrun. pose proof (reachable_inv _ _ _ _ Hrun) as Ha.
  destruct (save_saved a Ha) as (f & Hf & Hs). destruct (load_saved a f strict k' Ha Hs) as (b & Hb & Hr & Ho).
  by exists f, b.
Qed.

(** A file is trusted: one record that names a bucket that does not exist, or any bucket with an
    unknown type, stops the program.  If every entry of the file is a record with an address
    (which a list of [knownAddress] says), nothing else does. *)
Theorem load_panics (strict : bool) (k : gostring) (file : addrBookJSON) :
  loadFromFile (NewAddrBook strict k) (Some (Ok file)) = None <-> ~ Forall ka_loads (json_Addrs file).
Proof.
  unfold loadFromFile. rewrite <- (load_addrs_panics _ (NewAddrBook strict (json_Key file))) by done.
  change (with_key _ _) with (NewAddrBook strict (json_Key file)). by destruct (load_addrs _ _).
Qed.
