(* ===== verification/Consensus.v ===== *)
(** * Consensus parameters

    Models [consensus/general.go]: the constants of the protocol, the coinbase subsidy of
    a block, and the parameters of the three networks.  [IsBech32SegwitPrefix] is in
    [Node]. *)
From S2P Require Import Prelude Errors GoLib Hash.

(** ** general.go *)
Definition MaxBlockGas : Z := 10000000.
Definition VMGasRate : Z := 200.
Definition StorageGasRate : Z := 1.
Definition MaxGasAmount : Z := 200000.
Definition DefaultGasCredit : Z := 30000.

Definition CoinbasePendingBlockNumber : Z := 100.
Definition subsidyReductionInterval : Z := 840000.
Definition baseSubsidy : Z := 41250000000.
Definition InitialBlockSubsidy : Z := 140700041250000000.

Definition BlocksPerRetarget : Z := 2016.
Definition TargetSecondsPerBlock : Z := 150.
Definition SeedPerRetarget : Z := 256.

Definition MaxTimeOffsetSeconds : Z := 60 * 60.
Definition MedianTimeBlocks : Z := 11.

Definition PayToWitnessPubKeyHashDataSize : Z := 20.
Definition PayToWitnessScriptHashDataSize : Z := 32.
Definition CoinbaseArbitrarySizeLimit : Z := 128.

Definition BTMAlias : gostring := str "BTM".

(** A shift of a uint64 by any count: bits shifted past the width are lost. *)
Definition BlockSubsidy (height : Z) : Z :=
  if height =? 0 then InitialBlockSubsidy
  else Z.shiftr baseSubsidy (height / subsidyReductionInterval).

Record Params := mkParams { Name : gostring; Bech32HRPSegwit : gostring }.

Definition MainNetParams := mkParams (str "main") (str "bm").
Definition TestNetParams := mkParams (str "test") (str "tm").
Definition SoloNetParams := mkParams (str "solo") (str "sm").
Definition ActiveNetParams := MainNetParams.

(** BTM's asset identifier and the hash of 32 zero bytes. *)
Definition BTMAssetID : AssetID :=
  mkHash 18446744073709551615 18446744073709551615 18446744073709551615 18446744073709551615.
Definition InitialSeed : Hash :=
  mkHash 11412844483649490393 4614157290180302959 1780246333311066183 9357197556716379726.

(** The map from chain identifiers. *)
Definition NetParams (chain_id : gostring) : option Params :=
  if bool_decide (chain_id = str "mainnet") then Some MainNetParams
  else if bool_decide (chain_id = str "testnet") then Some TestNetParams
  else if bool_decide (chain_id = str "solonet") then Some SoloNetParams
  else None.

(** ** The supply *)
(** What the coinbases of the first [n] blocks may create. *)
Fixpoint supply (n : nat) : Z :=
  match n with
  | O => 0
  | S n => supply n + BlockSubsidy (Z.of_nat n)
  end.

(** What the blocks from height [h] on can still create. *)
Definition potential (h : Z) : Z :=
  Z.shiftr baseSubsidy (h / subsidyReductionInterval)
    * (2 * subsidyReductionInterval - h mod subsidyReductionInterval).

Lemma potential_nonneg h : 0 <= potential h.
Proof.
  unfold potential, subsidyReductionInterval. pose proof (Z.mod_pos_bound h 840000).
  assert (0 <= Z.shiftr baseSubsidy (h / 840000)) by (apply Z.shiftr_nonneg; done). nia.
Qed.

Lemma shiftr_succ x k : 0 <= x -> 0 <= k -> 2 * Z.shiftr x (k + 1) <= Z.shiftr x k.
Proof.
  intros Hx Hk. rewrite <- Z.shiftr_shiftr by lia.
  assert (0 <= Z.shiftr x k) by (by apply Z.shiftr_nonneg).
  rewrite (Z.shiftr_div_pow2 (Z.shiftr x k) 1) by lia.
  change (2 ^ 1) with 2. pose proof (Z.mul_div_le (Z.shiftr x k) 2). lia.
Qed.

(** A height and its successor lie in one era, or the era ends between them. *)
Lemma era_step h : 0 <= h ->
  ((h + 1) / 840000 = h / 840000 /\ (h + 1) mod 840000 = h mod 840000 + 1)
  \/ (h mod 840000 = 839999 /\ (h + 1) / 840000 = h / 840000 + 1 /\ (h + 1) mod 840000 = 0).
Proof.
  intros Hh. pose proof (Z.div_mod h 840000 ltac:(lia)). pose proof (Z.mod_pos_bound h 840000 ltac:(lia)).
  destruct (decide (h mod 840000 = 839999)) as [E|E].
  - right. split; [done|]. split; symmetry.
    + apply (Z.div_unique _ _ _ 0); lia.
    + apply (Z.mod_unique _ _ (h / 840000 + 1)); lia.
  - left. split; symmetry.
    + apply (Z.div_unique _ _ _ (h mod 840000 + 1)); lia.
    + apply (Z.mod_unique _ _ (h / 840000)); lia.
Qed.

Lemma potential_step h : 0 < h -> BlockSubsidy h + potential (h + 1) <= potential h.
Proof.
  intros Hh. unfold BlockSubsidy, potential, subsidyReductionInterval.
  destruct (Z.eqb_spec h 0); [lia|].
  assert (0 <= h / 840000) by (apply Z.div_pos; lia).
  assert (0 <= Z.shiftr baseSubsidy (h / 840000)) by (apply Z.shiftr_nonneg; done).
  destruct (era_step h) as [[-> ->]|(-> & -> & ->)]; [lia|lia|].
  pose proof (shiftr_succ baseSubsidy (h / 840000) ltac:(done) ltac:(done)). lia.
Qed.

Lemma supply_potential n : (0 < n)%nat ->
  supply n + potential (Z.of_nat n) <= InitialBlockSubsidy + potential 1.
Proof.
  intros Hn. induction n as [|n IH]; [lia|]. destruct (decide (n = 0%nat)) as [->|].
  { cbn [supply]. change (Z.of_nat 1) with 1. change (BlockSubsidy (Z.of_nat 0)) with InitialBlockSubsidy. lia. }
  cbn [supply]. rewrite Nat2Z.inj_succ, <- Z.add_1_r.
  pose proof (potential_step (Z.of_nat n) ltac:(lia)). lia.
Qed.

Lemma BlockSubsidy_nonneg h : 0 <= BlockSubsidy h.
Proof. unfold BlockSubsidy. case_on; [done|]. by apply Z.shiftr_nonneg. Qed.

Lemma BlockSubsidy_zero h : 0 < h -> BlockSubsidy h = 0 <-> 36 * 840000 <= h.
Proof.
  intros Hh. unfold BlockSubsidy, subsidyReductionInterval. destruct (Z.eqb_spec h 0); [lia|].
  rewrite Z.shiftr_eq_0_iff. change (Z.log2 baseSubsidy) with 35.
  assert (baseSubsidy = 41250000000) by done.
  split; [intros [?|[_ H']]; [lia|] | intros; right; split; [lia|]].
  - pose proof (Z.mul_div_le h 840000). lia.
  - assert (36 <= h / 840000) by (apply Z.div_le_lower_bound; lia). lia.
Qed.

(** C28: However many blocks a chain has, the subsidies of their coinbases stay below 2^63 in
    sum, so that no total of them overflows a uint64 or the 63-bit amounts of the wire
    format; the subsidy never increases from block 1 on, halves with every interval of 840000 blocks,
    and is zero exactly from the thirty-sixth on. *)
Theorem supply_bound :
  (forall n, 0 <= supply n <= 210000000000000000 /\ supply n < 2 ^ 63)
  /\ (forall h h', 0 < h <= h' -> BlockSubsidy h' <= BlockSubsidy h)
  /\ (forall h, 0 < h -> BlockSubsidy (h + subsidyReductionInterval) = BlockSubsidy h / 2)
  /\ (forall h, 0 < h -> BlockSubsidy h = 0 <-> 36 * subsidyReductionInterval <= h).
Proof.
  split_and!.
  - intros n. assert (0 <= supply n).
    { induction n; cbn [supply]; [lia|]. pose proof (BlockSubsidy_nonneg (Z.of_nat n)). lia. }
    destruct (decide (n = 0%nat)) as [->|]; [cbn; lia|].
    pose proof (supply_potential n ltac:(lia)). pose proof (potential_nonneg (Z.of_nat n)).
    assert (InitialBlockSubsidy + potential 1 <= 210000000000000000) by (vm_compute; discriminate).
    lia.
  - intros h h' Hh. unfold BlockSubsidy.
    destruct (Z.eqb_spec h 0), (Z.eqb_spec h' 0); try lia.
    unfold subsidyReductionInterval.
    assert (0 <= h / 840000 <= h' / 840000) by (split; [apply Z.div_pos|apply Z.div_le_mono]; lia).
    rewrite !Z.shiftr_div_pow2 by lia.
    apply Z.div_le_compat_l; [done|]. split; [lia|]. apply Z.pow_le_mono_r; lia.
  - intros h Hh. unfold BlockSubsidy.
    destruct (Z.eqb_spec h 0), (Z.eqb_spec (h + subsidyReductionInterval) 0);
      unfold subsidyReductionInterval in *; try lia.
    replace (h + 840000) with (h + 1 * 840000) by lia. rewrite Z.div_add by lia.
    assert (0 <= h / 840000) by (apply Z.div_pos; lia).
    rewrite <- Z.shiftr_shiftr by lia. rewrite (Z.shiftr_div_pow2 _ 1) by lia. done.
  - intros h Hh. by apply BlockSubsidy_zero.
Qed.
