(* ===== verification/NodeInfo.v ===== *)
(** * Node information

    Models [p2p/node_info.go]: what a peer tells of itself in the handshake, and when two
    nodes talk to each other.  [strings.Split] at a one-byte separator, [net.SplitHostPort]
    and [strconv.Atoi] are the Go standard library's. *)
From S2P Require Import Prelude Errors GoLib NetAddress.

(** ** Go's standard library *)
(** [strings.Split(s, sep)] for a separator of one byte. *)
Fixpoint Split (sep : Z) (s : gostring) : list gostring :=
  match s with
  | [] => [[]]
  | c :: s =>
      let r := Split sep s in
      if c =? sep then [] :: r
      else match r with w :: r => (c :: w) :: r | [] => [[c]] end
  end.

(** [strings.IndexByte] and [strings.LastIndexByte]; -1 is [None]. *)
Definition index_of (c : Z) (s : gostring) : option nat :=
  fst <$> list_find (fun x => x = c) s.
Definition last_index_of (c : Z) (s : gostring) : option nat :=
  (fun i => length s - 1 - i)%nat <$> index_of c (reverse s).

Definition contains (c : Z) (s : gostring) : bool := bool_decide (c ∈ s).

Definition addrErr (addr : gostring) (why : string) : error :=
  EMsg (str "address " ++ addr ++ str ": " ++ str why).

(** [net.SplitHostPort]; the bytes 91, 93 and 58 are the brackets and the colon. *)
Definition SplitHostPort (hostport : gostring) : res error (gostring * gostring) :=
  match last_index_of 58 hostport with
  | None => Err (addrErr hostport "missing port in address")
  | Some i =>
      let port := drop (S i) hostport in
      if bool_decide (head hostport = Some 91) then
        match index_of 93 hostport with
        | None => Err (addrErr hostport "missing ']' in address")
        | Some e =>
            if decide (S e = length hostport) then Err (addrErr hostport "missing port in address")
            else if decide (S e = i) then
              let host := drop 1 (take e hostport) in
              if contains 91 (drop 1 hostport) then Err (addrErr hostport "unexpected '[' in address")
              else if contains 93 (drop (S e) hostport) then Err (addrErr hostport "unexpected ']' in address")
              else Ok (host, port)
            else if bool_decide (hostport !! S e = Some 58)
            then Err (addrErr hostport "too many colons in address")
            else Err (addrErr hostport "missing port in address")
        end
      else
        let host := take i hostport in
        if contains 58 host then Err (addrErr hostport "too many colons in address")
        else if contains 91 hostport then Err (addrErr hostport "unexpected '[' in address")
        else if contains 93 hostport then Err (addrErr hostport "unexpected ']' in address")
        else Ok (host, port)
  end.

(** [strconv.Atoi]: an optional sign and decimal digits, within an int64. *)
Fixpoint digits_value (acc : Z) (s : gostring) : option Z :=
  match s with
  | [] => Some acc
  | c :: s => if (48 <=? c) && (c <=? 57) then digits_value (10 * acc + (c - 48)) s else None
  end.

Definition Atoi (s : gostring) : res error Z :=
  let '(neg, d) := match s with
                   | 45 :: d => (true, d)
                   | 43 :: d => (false, d)
                   | d => (false, d)
                   end in
  let bad := Err (EMsg (str "strconv.Atoi: parsing " ++ s ++ str ": invalid syntax")) in
  match d with
  | [] => bad
  | _ => match digits_value 0 d with
         | None => bad
         | Some v =>
             let v := if neg then - v else v in
             if (- 2 ^ 63 <=? v) && (v <? 2 ^ 63) then Ok v
             else Err (EMsg (str "strconv.Atoi: parsing " ++ s ++ str ": value out of range"))
         end
  end.

(** ** node_info.go *)
Definition maxNodeInfoSize : Z := 10240.

Record NodeInfo := mkNodeInfo {
  PubKey : bytes; Moniker : gostring; Network : gostring; RemoteAddr : gostring;
  ListenAddr : gostring; Version : gostring; Other : list gostring
}.

Definition splitVersion (version : gostring) : res error (gostring * gostring * gostring) :=
  match Split 46 version with
  | [a; b; c] => Ok (a, b, c)
  | _ => Err (EMsg (str "Invalid version format " ++ version))
  end.

Definition mismatch (what got expected : gostring) : error :=
  EMsg (str "Peer is on a different " ++ what ++ str ". Got " ++ got
        ++ str ", expected " ++ expected).

(** Nil is [None]. *)
Definition CompatibleWith (info other : NodeInfo) : option error :=
  match splitVersion (Version info), splitVersion (Version other) with
  | Err iErr, _ => Some iErr
  | _, Err oErr => Some oErr
  | Ok (iMajor, iMinor, _), Ok (oMajor, oMinor, _) =>
      if negb (bool_decide (iMajor = oMajor))
      then Some (mismatch (str "major version") oMajor iMajor)
      else if negb (bool_decide (iMinor = oMinor))
      then Some (mismatch (str "minor version") oMinor iMinor)
      else if negb (bool_decide (Network info = Network other))
      then Some (mismatch (str "network") (Network other) (Network info))
      else None
  end.

(** The host of an address, empty when it has none. *)
Definition ListenHost (info : NodeInfo) : gostring :=
  match SplitHostPort (ListenAddr info) with Ok (host, _) => host | Err _ => [] end.

Definition ListenPort (info : NodeInfo) : Z :=
  let port := match SplitHostPort (ListenAddr info) with Ok (_, port) => port | Err _ => [] end in
  match Atoi port with Ok portInt => portInt | Err _ => -1 end.

Definition RemoteAddrHost (info : NodeInfo) : gostring :=
  match SplitHostPort (RemoteAddr info) with Ok (host, _) => host | Err _ => [] end.

(** ** Splitting *)
Lemma not_elem_cons (x y : Z) l : x ∉ y :: l -> x <> y /\ x ∉ l.
Proof. intros H. split; intros H'; apply H, elem_of_cons; eauto. Qed.

Lemma Split_not_nil sep s : Split sep s <> [].
Proof. destruct s as [|c s]; cbn; [done|]. case_on; [done|]. by case_on. Qed.

Lemma Split_pieces sep s : Forall (fun w => sep ∉ w) (Split sep s) /\ s = joinWith [sep] (Split sep s).
Proof.
  induction s as [|c s [IH1 IH2]]; cbn [Split].
  { split; [|done]. constructor; [apply not_elem_of_nil|constructor]. }
  pose proof (Split_not_nil sep s) as Hn. destruct (Split sep s) as [|w r] eqn:E; [done|].
  destruct (Z.eqb_spec c sep) as [->|Hc].
  - split; [constructor; [apply not_elem_of_nil|done]|]. cbn [joinWith map]. rewrite mjoin_cons, IH2 at 1. cbn. destruct r; done.
  - apply Forall_cons_1 in IH1 as [Hw Hr]. split.
    + constructor; [|done]. intros Hi. apply elem_of_cons in Hi as [?|?]; [by subst|done].
    + rewrite IH2 at 1. by destruct r.
Qed.

Lemma Split_app sep w s : sep ∉ w -> Split sep (w ++ sep :: s) = w :: Split sep s.
Proof.
  intros Hw. induction w as [|c w IH]; cbn; [by rewrite Z.eqb_refl|].
  destruct (not_elem_cons _ _ _ Hw) as [Hc Hw']. rewrite (IH Hw').
  destruct (Z.eqb_spec c sep); [by subst|done].
Qed.

Lemma Split_one sep w : sep ∉ w -> Split sep w = [w].
Proof.
  intros Hw. induction w as [|c w IH]; cbn; [done|].
  destruct (not_elem_cons _ _ _ Hw) as [Hc Hw']. rewrite (IH Hw').
  destruct (Z.eqb_spec c sep); [by subst|done].
Qed.

(** The version string of three parts. *)
Definition dots (M m r : gostring) : gostring := M ++ str "." ++ m ++ str "." ++ r.

Lemma splitVersion_ok v M m r :
  splitVersion v = Ok (M, m, r) <-> (46 ∉ M) /\ (46 ∉ m) /\ (46 ∉ r) /\ v = dots M m r.
Proof.
  unfold splitVersion, dots. change (str ".") with [46]. cbn [app]. split.
  - destruct (Split_pieces 46 v) as [Hf Hv]. destruct (Split 46 v) as [|a [|b [|c [|? ?]]]]; try done.
    intros [= -> -> ->]. rewrite !list.Forall_cons in Hf. destruct Hf as (? & ? & ? & _). split_and!; [done..|]. rewrite Hv. cbn. by rewrite app_nil_r.
  - intros (HM & Hm & Hr & ->). by rewrite Split_app, Split_app, Split_one.
Qed.

Lemma splitVersion_err v e : splitVersion v = Err e -> e = EMsg (str "Invalid version format " ++ v).
Proof. unfold splitVersion. repeat case_on; congruence. Qed.

(** Two nodes are compatible exactly when both versions have three dot-separated parts, their
    first two parts agree (the minor version as well as the major one) and the networks
    agree; the check is symmetric, and channels play no part in it. *)
Theorem CompatibleWith_spec info other :
  (CompatibleWith info other = None <->
   exists M m r r', Forall (fun w => 46 ∉ w) [M; m; r; r'] /\
     Version info = dots M m r /\ Version other = dots M m r' /\ Network info = Network other)
  /\ (CompatibleWith info other = None <-> CompatibleWith other info = None).
Proof.
  assert (forall i o, CompatibleWith i o = None <->
    exists M m r r', splitVersion (Version i) = Ok (M, m, r)
      /\ splitVersion (Version o) = Ok (M, m, r') /\ Network i = Network o) as H.
  { intros i o. unfold CompatibleWith.
    destruct (splitVersion (Version i)) as [[[M m] r]|e], (splitVersion (Version o)) as [[[M' m'] r']|e'];
      try (split; [done|by intros (? & ? & ? & ? & ? & ? & ?)]).
    repeat (case_bool_decide; cbn [negb]); (split; [try done|intros (? & ? & ? & ? & ? & ? & ?); congruence]).
    intros _. subst. exists M', m', r, r'. done. }
  split.
  - rewrite H. split; intros (M & m & r & r' & Hrest); exists M, m, r, r'.
    + rewrite !splitVersion_ok in Hrest. destruct Hrest as ((? & ? & ? & ?) & (? & ? & ? & ?) & ?).
      by repeat constructor.
    + rewrite !splitVersion_ok. destruct Hrest as (Hf & ? & ? & ?).
      rewrite !list.Forall_cons in Hf. tauto.
  - rewrite !H. split; intros (M & m & r & r' & ? & ? & ?); by exists M, m, r', r.
Qed.

(** ** Ports *)
Lemma digits_value_pretty x : forall s, (0 < x)%N ->
  digits_value 0 (str (pretty_N_go x s)) = digits_value (Z.of_N x) (str s).
Proof.
  induction (N.lt_wf_0 x) as [x _ IH]. intros s Hx. rewrite pretty_N_go_step by done.
  assert (forall c, In c (seq 0 10) -> str (String (pretty_N_char (N.of_nat c)) s) = 48 + Z.of_nat c :: str s) as Hd.
  { intros c Hc. do 10 (destruct c as [|c]; [done|]). apply in_seq in Hc. lia. }
  pose proof (N.mod_lt x 10 ltac:(done)) as Hlt. pose proof (N.div_mod x 10 ltac:(done)) as Hdm.
  pose proof (N.div_lt x 10 Hx eq_refl) as Hq.
  revert Hlt Hdm Hq. generalize (x `mod` 10)%N as d, (x `div` 10)%N as q. intros d q Hlt Hdm Hq.
  specialize (Hd (N.to_nat d)). rewrite N2Nat.id in Hd. rewrite in_seq in Hd. specialize (Hd ltac:(lia)).
  assert (forall v, digits_value v (str (String (pretty_N_char d) s))
                    = digits_value (10 * v + Z.of_N d) (str s)) as Hs.
  { intros v. rewrite Hd. cbn [digits_value].
    rewrite (proj2 (Z.leb_le 48 _)), (proj2 (Z.leb_le _ 57)) by lia. cbn [andb]. f_equal. lia. }
  destruct (decide (q = 0)%N) as [->|E].
  - rewrite pretty_N_go_0, Hs. f_equal. lia.
  - rewrite IH, Hs by lia. f_equal. lia.
Qed.

Lemma itoa_pos z : 0 < z -> itoa z = str (pretty_N_go (Z.to_N z) "").
Proof.
  intros Hz. unfold itoa. destruct z as [|p|p]; try lia.
  change (pretty (Z.pos p)) with (pretty (N.pos p)). unfold pretty, pretty_N.
  by rewrite decide_False.
Qed.

Lemma digits_value_itoa z : 0 <= z -> digits_value 0 (itoa z) = Some z.
Proof.
  intros Hz. destruct (decide (z = 0)) as [->|]; [done|].
  rewrite itoa_pos, digits_value_pretty by lia. cbn. f_equal. lia.
Qed.

Lemma digits_value_digits s : forall acc v, digits_value acc s = Some v -> Forall (fun c => 48 <= c <= 57) s.
Proof.
  induction s as [|c s IH]; intros acc v H; [constructor|]. cbn in H.
  destruct ((48 <=? c) && (c <=? 57)) eqn:E; [|done]. constructor; [zlia|by eapply IH].
Qed.

Lemma itoa_digits z : 0 <= z -> Forall (fun c => 48 <= c <= 57) (itoa z).
Proof. intros Hz. by apply (digits_value_digits _ 0 z), digits_value_itoa. Qed.

Lemma itoa_not_nil z : 0 <= z -> itoa z <> [].
Proof.
  intros Hz E. assert (z = 0) as ->; [|done].
  pose proof (digits_value_itoa z Hz) as H. rewrite E in H. cbn in H. congruence.
Qed.

Lemma Atoi_itoa z : 0 <= z < 2 ^ 63 -> Atoi (itoa z) = Ok z.
Proof.
  intros Hz. unfold Atoi. pose proof (itoa_digits z ltac:(lia)) as Hd.
  pose proof (itoa_not_nil z ltac:(lia)) as Hn. pose proof (digits_value_itoa z ltac:(lia)) as Hv.
  destruct (itoa z) as [|c l]; [done|]. apply Forall_cons_1 in Hd as [Hc _].
  assert (match c with 43 => (false, l) | 45 => (true, l) | _ => (false, c :: l) end = (false, c :: l)) as E.
  { assert (c = 48 \/ c = 49 \/ c = 50 \/ c = 51 \/ c = 52 \/ c = 53 \/ c = 54 \/ c = 55 \/ c = 56 \/ c = 57)
      as Hcs by lia.
    by repeat destruct Hcs as [->|Hcs]; [..|subst c]. }
  cbv beta iota zeta. rewrite E. rewrite Hv.
  by rewrite (proj2 (Z.leb_le _ _)), (proj2 (Z.ltb_lt _ _)) by lia.
Qed.

(** ** Addresses *)
Lemma index_of_app c s t : c ∉ s -> index_of c (s ++ c :: t) = Some (length s).
Proof.
  intros H. unfold index_of. induction s as [|x s IH]; cbn.
  - by rewrite decide_True.
  - destruct (not_elem_cons _ _ _ H) as [Hx Hs]. rewrite decide_False by done.
    specialize (IH Hs). by destruct (list_find _ (s ++ c :: t)) as [[? ?]|]; simplify_eq/=.
Qed.

Lemma last_index_of_app c s t : c ∉ t -> last_index_of c (s ++ c :: t) = Some (length s).
Proof.
  intros H. unfold last_index_of. rewrite reverse_app, reverse_cons, <- app_assoc. cbn [app].
  rewrite index_of_app by (by rewrite elem_of_reverse). cbn. f_equal.
  rewrite length_app, length_reverse. cbn. lia.
Qed.

Lemma contains_false c s : c ∉ s -> contains c s = false.
Proof. intros. unfold contains. by apply bool_decide_eq_false. Qed.

Lemma digits_not_in c s : Forall (fun c => 48 <= c <= 57) s -> ~ 48 <= c <= 57 -> c ∉ s.
Proof. rewrite list.Forall_forall. intros H Hc Hi. by apply Hc, H. Qed.

Lemma JoinHostPort_split host port : (91 ∉ host) -> (93 ∉ host) -> Forall (fun c => 48 <= c <= 57) port ->
  SplitHostPort (JoinHostPort host port) = Ok (host, port).
Proof.
  intros H1 H3 Hp. pose proof (fun c => digits_not_in c port Hp) as Hd.
  pose proof (Hd 58 ltac:(lia)). pose proof (Hd 91 ltac:(lia)). pose proof (Hd 93 ltac:(lia)).
  unfold JoinHostPort, SplitHostPort. destruct (existsb _ host) eqn:E.
  - replace (str "[" ++ host ++ str "]:" ++ port) with ((91 :: host ++ [93]) ++ 58 :: port)
      by (cbn; by rewrite <- app_assoc).
    rewrite last_index_of_app by done. rewrite bool_decide_true by done.
    replace ((91 :: host ++ [93]) ++ 58 :: port) with ((91 :: host) ++ 93 :: 58 :: port)
      by (cbn; by rewrite <- app_assoc).
    rewrite index_of_app by (intros Hi; apply elem_of_cons in Hi as [?|?]; [lia|done]).
    rewrite decide_False by (rewrite length_app; cbn; lia).
    rewrite decide_True by (cbn; rewrite length_app; cbn; lia).
    rewrite !contains_false; cycle 1.
    { rewrite drop_app_ge by (cbn; lia). cbn [length]. replace (S (S (length host)) - S (length host))%nat with 1%nat by lia.
      intros Hi; apply elem_of_cons in Hi as [?|?]; [lia|done]. }
    { intros Hi. cbn in Hi. apply elem_of_app in Hi as [?|Hi]; [done|].
      apply elem_of_cons in Hi as [?|Hi]; [lia|]. apply elem_of_cons in Hi as [?|Hi]; [lia|done]. }
    rewrite take_app_length, (drop_app_ge _ (93 :: _)) by (cbn; rewrite ?length_app; cbn; lia).
    cbn [drop app]. do 2 f_equal. cbn [length]. rewrite length_app. cbn [length].
    by replace (S (S (length host + 1)) - S (length host))%nat with 2%nat by lia.
  - assert (58 ∉ host) as Hc.
    { intros Hi. apply not_true_iff_false in E. apply E, existsb_exists. exists 58.
      by rewrite <- list_elem_of_In. }
    change (str ":") with [58]. cbn [app]. rewrite last_index_of_app by done.
    rewrite bool_decide_false; cycle 1.
    { destruct host as [|x host]; cbn; intros [=]; subst. apply H1, elem_of_cons. by left. }
    rewrite take_app_length, !contains_false; [|try done..].
    + f_equal. f_equal. rewrite drop_app_ge by lia. by replace (S (length host) - length host)%nat with 1%nat by lia.
    + intros Hi. apply elem_of_app in Hi as [?|Hi]; [done|]. apply elem_of_cons in Hi as [?|Hi]; [lia|done].
    + intros Hi. apply elem_of_app in Hi as [?|Hi]; [done|]. apply elem_of_cons in Hi as [?|Hi]; [lia|done].
Qed.

(** A node that listens on the address of a host (without brackets, with or without colons: a
    name, an IPv4 or an IPv6 text) and a port is told apart by its peers into that host and
    that port. *)
Theorem ListenAddr_roundtrip info host port :
  (91 ∉ host) -> (93 ∉ host) -> 0 <= port < 2 ^ 63 ->
  ListenAddr info = JoinHostPort host (itoa port) ->
  ListenHost info = host /\ ListenPort info = port.
Proof.
  intros H1 H3 Hp Ha. unfold ListenHost, ListenPort.
  rewrite Ha, JoinHostPort_split by (try done; apply itoa_digits; lia).
  by rewrite Atoi_itoa.
Qed.

Example node_v6 : NodeInfo :=
  mkNodeInfo [] [] (str "mainnet") [] (str "[fe80::1]:46656") (str "1.0.3") [].

Lemma ListenAddr_roundtrip_witness :
  ListenAddr node_v6 = JoinHostPort (str "fe80::1") (itoa 46656) /\
  ListenHost node_v6 = str "fe80::1" /\ ListenPort node_v6 = 46656.
Proof.
  assert (ListenAddr node_v6 = JoinHostPort (str "fe80::1") (itoa 46656)) as Ha by (vm_compute; reflexivity).
  split; [exact Ha|]. apply (ListenAddr_roundtrip node_v6 (str "fe80::1") 46656).
  - by apply (bool_decide_unpack _).
  - by apply (bool_decide_unpack _).
  - split; [discriminate|reflexivity].
  - exact Ha.
Defined.

(** Without a port in the address a peer's port reads as -1, its host as empty. *)
Example no_port : ListenPort (mkNodeInfo [] [] [] [] (str "localhost") [] []) = -1.
Proof. vm_compute. reflexivity. Qed.

(** The compatibility of two concrete nodes, and its failure on the minor version. *)
Example compatible_ex :
  CompatibleWith node_v6 (mkNodeInfo [] [] (str "mainnet") [] [] (str "1.0.9") []) = None /\
  CompatibleWith node_v6 (mkNodeInfo [] [] (str "mainnet") [] [] (str "1.1.3") [])
    = Some (EMsg (str "Peer is on a different minor version. Got 1, expected 0")).
Proof. vm_compute. split; reflexivity. Qed.
