(* ===== verification/BanScore.v ===== *)
(** * Ban scores

    Models [p2p/trust/banscore.go], the score of a peer's misbehaviour with a persistent and
    a decaying part, and the use the synchronisation makes of it ([addBanScore] of
    [netsync/peer.go]).  float64 values are SpecFloat's binary64 with rounding to nearest even.
    A mutex is a boolean of the state; as the code's functions run on one goroutine, locking
    a held mutex blocks for ever. *)
From Stdlib Require Import SpecFloat.
From S2P Require Import Prelude Errors GoLib Connection.

(** The standard library's exponential, whose rounding is not specified, and the conversion to
    uint64 of a float64 that is not in its range, which the language leaves to the machine. *)
Class FloatEnv := {
  Exp : spec_float -> spec_float;
  u64_of_big : spec_float -> Z;
}.

(** What stops a goroutine. *)
Inductive stop := Panics | Deadlock.

(** ** banscore.go *)
Section BanScore.
Context `{FloatEnv}.

Definition Halflife : Z := 60.
(** The double nearest to ln 2 / 60. *)
Definition lambda : spec_float := S754_finite false 6659535752709716 (-59).
Definition Lifetime : Z := 1800.
Definition precomputedLen : Z := 64.

Definition double_add := SFadd 53 1024.
Definition double_one : spec_float := double_of_int 1.
Definition double_neg_one : spec_float := double_of_int (-1).

Definition uint64_of_double (x : spec_float) : Z :=
  match x with
  | S754_zero _ => 0
  | S754_finite false _ _ =>
      let v := int64_of_double x in if v <? 2 ^ 64 then v else u64_of_big x
  | _ => u64_of_big x
  end.

Definition factor (t : Z) : spec_float :=
  Exp (double_mul (double_mul double_neg_one (double_of_int t)) lambda).

(** The table [precomputedFactor], all zeros until [Init] has run. *)
Definition Init : list spec_float := map factor (seqZ 0 precomputedLen).

Definition decayFactor (precomputedFactor : list spec_float) (t : Z) : res stop spec_float :=
  if t <? precomputedLen then
    if t <? 0 then Err Panics
    else match precomputedFactor !! Z.to_nat t with Some x => Ok x | None => Err Panics end
  else Ok (factor t).

Record DynamicBanScore := mkBanScore {
  lastUnix : Z; transient : spec_float; persistent : Z; mtx : bool
}.

Definition zeroBanScore : DynamicBanScore := mkBanScore 0 (S754_zero false) 0 false.

Definition Lock (s : DynamicBanScore) : res stop DynamicBanScore :=
  if mtx s then Err Deadlock
  else Ok (mkBanScore (lastUnix s) (transient s) (persistent s) true).
Definition Unlock (s : DynamicBanScore) : DynamicBanScore :=
  mkBanScore (lastUnix s) (transient s) (persistent s) false.

(** [t] is the time in Unix seconds. *)
Definition int_ (pf : list spec_float) (s : DynamicBanScore) (t : Z) : res stop Z :=
  let dt := i64 (t - lastUnix s) in
  if SFltb (transient s) double_one || (dt <? 0) || (Lifetime <? dt) then Ok (persistent s)
  else
    f ← decayFactor pf dt;
    Ok (u64 (persistent s + uint64_of_double (double_mul (transient s) f))).

Definition increase (pf : list spec_float) (s : DynamicBanScore) (p tr t : Z)
    : res stop (Z * DynamicBanScore) :=
  let s := mkBanScore (lastUnix s) (transient s) (u64 (persistent s + p)) (mtx s) in
  let tu := t in
  let dt := i64 (tu - lastUnix s) in
  s ← (if 0 <? tr then
         x ← (if Lifetime <? dt then Ok (S754_zero false)
              else if SFltb double_one (transient s) && (0 <? dt) then
                f ← decayFactor pf dt; Ok (double_mul (transient s) f)
              else Ok (transient s));
         Ok (mkBanScore tu (double_add x (double_of_int tr)) (persistent s) (mtx s))
       else Ok s);
  Ok (u64 (persistent s + uint64_of_double (transient s)), s).

Definition Int (pf : list spec_float) (now : Z) (s : DynamicBanScore) : res stop (Z * DynamicBanScore) :=
  s ← Lock s; r ← int_ pf s now; Ok (r, Unlock s).

Definition Increase (pf : list spec_float) (now p tr : Z) (s : DynamicBanScore)
    : res stop (Z * DynamicBanScore) :=
  s ← Lock s; '(r, s) ← increase pf s p tr now; Ok (r, Unlock s).

Definition Reset (s : DynamicBanScore) : res stop DynamicBanScore :=
  s ← Lock s; Ok (Unlock (mkBanScore 0 (S754_zero false) 0 (mtx s))).

(** [Sprintf] is given as the function [format] of the score's fields and its value. *)
Definition String_ (format : Z -> spec_float -> Z -> Z -> gostring) (pf : list spec_float) (now : Z)
    (s : DynamicBanScore) : res stop (gostring * DynamicBanScore) :=
  s ← Lock s;
  '(r, s) ← Int pf now s;
  Ok (format (persistent s) (transient s) (lastUnix s) r, Unlock s).

(** ** netsync/peer.go *)
Definition defaultBanThreshold : Z := 100.

(** Whether the peer is to be banned, and its score; the log lines are left out. *)
Definition addBanScore (pf : list spec_float) (now p tr : Z) (s : DynamicBanScore)
    : res stop (bool * DynamicBanScore) :=
  let warnThreshold := Z.shiftr defaultBanThreshold 1 in
  if (tr =? 0) && (p =? 0) then
    '(_, s) ← Int pf now s; Ok (false, s)
  else
    '(score, s) ← Increase pf now p tr s;
    Ok ((warnThreshold <? score) && (defaultBanThreshold <? score), s).

(** ** Properties *)
Lemma Init_lookup t : 0 <= t < 64 -> Init !! Z.to_nat t = Some (factor t).
Proof.
  intros Ht. unfold Init. change (map factor (seqZ 0 precomputedLen)) with (factor <$> seqZ 0 64).
  rewrite list_lookup_fmap, lookup_seqZ_lt by lia. cbn. do 2 f_equal. lia.
Qed.

Lemma decayFactor_ok t : 0 <= t -> decayFactor Init t = Ok (factor t).
Proof.
  intros Ht. unfold decayFactor, precomputedLen. destruct (Z.ltb_spec t 64); [|done].
  rewrite (proj2 (Z.ltb_ge t 0)) by done. by rewrite Init_lookup.
Qed.

(** The score at a time: the persistent part, plus the decayed transient part while it lives. *)
Definition score_at (s : DynamicBanScore) (t : Z) : Z :=
  let dt := i64 (t - lastUnix s) in
  if SFltb (transient s) double_one || (dt <? 0) || (Lifetime <? dt) then persistent s
  else u64 (persistent s + uint64_of_double (double_mul (transient s) (factor dt))).

Lemma int_ok s t : int_ Init s t = Ok (score_at s t).
Proof.
  unfold int_, score_at. set (dt := i64 _).
  destruct (SFltb (transient s) double_one), (Z.ltb_spec dt 0), (Lifetime <? dt); cbn [orb]; try done.
  by rewrite decayFactor_ok.
Qed.

Lemma increase_ok s p tr t : exists r s', increase Init s p tr t = Ok (r, s') /\ mtx s' = mtx s
  /\ persistent s' = u64 (persistent s + p)
  /\ r = u64 (persistent s' + uint64_of_double (transient s'))
  /\ (tr <= 0 -> transient s' = transient s /\ lastUnix s' = lastUnix s)
  /\ (0 < tr -> lastUnix s' = t).
Proof.
  unfold increase. cbn [lastUnix transient persistent mtx]. set (dt := i64 _).
  destruct (Z.ltb_spec 0 tr); [|by eexists _, _; split_and!; [done..|lia]].
  destruct (Lifetime <? dt); [by eexists _, _; split_and!; [done|done|done|done|lia|done]|].
  destruct (SFltb double_one (transient s)), (Z.ltb_spec 0 dt); cbn [andb];
    rewrite ?decayFactor_ok by lia; by eexists _, _; split_and!; [done|done|done|done|lia|done].
Qed.

Lemma unlocked s : mtx s = false ->
  Unlock (mkBanScore (lastUnix s) (transient s) (persistent s) true) = s.
Proof. destruct s as [? ? ? []]; [done|]. intros _. done. Qed.

Lemma Int_ok s now : mtx s = false -> Int Init now s = Ok (score_at s now, s).
Proof.
  intros Hm. unfold Int, Lock. rewrite Hm. cbn -[int_]. rewrite int_ok. cbn -[score_at].
  unfold score_at at 1. by rewrite unlocked.
Qed.

Lemma Increase_ok s now p tr : mtx s = false -> exists r s', Increase Init now p tr s = Ok (r, s')
  /\ mtx s' = false /\ persistent s' = u64 (persistent s + p)
  /\ r = u64 (persistent s' + uint64_of_double (transient s'))
  /\ (tr <= 0 -> transient s' = transient s /\ lastUnix s' = lastUnix s).
Proof.
  intros Hm. unfold Increase, Lock. rewrite Hm. cbn -[increase].
  destruct (increase_ok (mkBanScore (lastUnix s) (transient s) (persistent s) true) p tr now)
    as (r & s' & -> & _ & Hp & Hr & Htr & _).
  exists r, (Unlock s'). split_and!; done.
Qed.

(** With the table initialised and the mutex free, reading the score, increasing it and
    resetting it never panic, return with the mutex free and, for the score, with the state
    unchanged; but the textual form of a score never returns, because it asks for the score
    while it holds the mutex. *)
Theorem banscore_returns format s now p tr : mtx s = false ->
  Int Init now s = Ok (score_at s now, s)
  /\ (exists r s', Increase Init now p tr s = Ok (r, s') /\ mtx s' = false)
  /\ (exists s', Reset s = Ok s' /\ mtx s' = false /\ score_at s' now = 0)
  /\ String_ format Init now s = Err Deadlock.
Proof.
  intros Hm. split_and!.
  - by apply Int_ok.
  - destruct (Increase_ok s now p tr Hm) as (r & s' & ? & ? & _). by exists r, s'.
  - unfold Reset, Lock. rewrite Hm. by eexists.
  - unfold String_, Lock. by rewrite Hm.
Qed.

(** The offences of a peer: the times and persistent scores of successive calls of
    [addBanScore], and what each call answers. *)
Fixpoint offences (pf : list spec_float) (l : list (Z * Z)) (s : DynamicBanScore)
    : res stop (list bool * DynamicBanScore) :=
  match l with
  | [] => Ok ([], s)
  | (now, p) :: l =>
      '(b, s) ← addBanScore pf now p 0 s;
      '(bs, s) ← offences pf l s;
      Ok (b :: bs, s)
  end.

(** Whether each prefix of a list of scores sums, with [acc], to more than the threshold. *)
Fixpoint beyond (acc : Z) (ps : list Z) : list bool :=
  match ps with
  | [] => []
  | p :: ps => (defaultBanThreshold <? acc + p) :: beyond (acc + p) ps
  end.

Lemma addBanScore_persistent s now p : mtx s = false -> transient s = S754_zero false ->
  0 < p -> 0 <= persistent s -> persistent s + p < 2 ^ 64 ->
  exists s', addBanScore Init now p 0 s = Ok (defaultBanThreshold <? persistent s + p, s')
    /\ mtx s' = false /\ transient s' = S754_zero false /\ persistent s' = persistent s + p.
Proof.
  intros Hm Ht Hp H0 Hlt. unfold addBanScore. cbn [Z.eqb andb].
  rewrite (proj2 (Z.eqb_neq p 0)) by lia.
  destruct (Increase_ok s now p 0 Hm) as (r & s' & -> & Hm' & Hp' & Hr & Htr).
  destruct (Htr ltac:(lia)) as [Ht' _]. rewrite wrap_small in Hp' by lia.
  rewrite Ht', Ht, Hp' in Hr. cbn [uint64_of_double] in Hr. rewrite Z.add_0_r, wrap_small in Hr by lia.
  exists s'. split; [|by rewrite Ht']. cbn. rewrite Hr. do 2 f_equal.
  unfold defaultBanThreshold. change (Z.shiftr 100 1) with 50.
  destruct (Z.ltb_spec 100 (persistent s + p)), (Z.ltb_spec 50 (persistent s + p)); done || lia.
Qed.

Lemma addBanScore_returns s now p tr : mtx s = false ->
  exists b s', addBanScore Init now p tr s = Ok (b, s') /\ mtx s' = false.
Proof.
  intros Hm. unfold addBanScore. case_on.
  - rewrite (Int_ok s now Hm). by eexists _, _.
  - destruct (Increase_ok s now p tr Hm) as (r & s' & -> & ? & _). by eexists _, _.
Qed.

Lemma offences_ok l : forall s, mtx s = false -> transient s = S754_zero false ->
  Forall (fun p => 0 < p) l.*2 -> 0 <= persistent s -> persistent s + foldr Z.add 0 l.*2 < 2 ^ 64 ->
  exists s', offences Init l s = Ok (beyond (persistent s) l.*2, s')
    /\ mtx s' = false /\ transient s' = S754_zero false /\ persistent s' = persistent s + foldr Z.add 0 l.*2.
Proof.
  induction l as [|[now p] l IH]; intros s Hm Ht Hf H0 Hlt; cbn [fmap list_fmap foldr snd offences beyond] in *.
  { exists s. rewrite Z.add_0_r. done. }
  apply Forall_cons_1 in Hf as [Hp Hf].
  assert (0 <= foldr Z.add 0 l.*2) as Hs.
  { clear -Hf. induction Hf; cbn; lia. }
  destruct (addBanScore_persistent s now p Hm Ht Hp H0 ltac:(lia)) as (s1 & -> & Hm1 & Ht1 & Hp1).
  destruct (IH s1 Hm1 Ht1 Hf ltac:(lia) ltac:(lia)) as (s2 & Ho & Hm2 & Ht2 & Hp2).
  exists s2. cbn -[offences]. rewrite Ho. cbn. rewrite Hp1. split_and!; [done..|]. lia.
Qed.

(** A peer's offences of blocks that fail to process (twenty points each) and transactions
    that fail to validate (ten points each) are answered with a ban exactly from the first
    call on that brings the sum of the points above the threshold of one hundred, however
    much time passes between them; no call panics or blocks. *)
Theorem ban_threshold l :
  Forall (fun p => p = 20 \/ p = 10) l.*2 -> foldr Z.add 0 l.*2 < 2 ^ 64 ->
  exists s', offences Init l zeroBanScore = Ok (beyond 0 l.*2, s')
    /\ persistent s' = foldr Z.add 0 l.*2.
Proof.
  intros Hf Hlt. destruct (offences_ok l zeroBanScore) as (s' & ? & _ & _ & ?); try done.
  - refine (List.Forall_impl _ _ Hf). intros p. lia.
  - by exists s'.
Qed.

(** Adding to the persistent part alone answers with the transient part as it was when it was
    last increased, however long ago: after its lifetime, when the score is the persistent
    part alone, the answer still counts all of it. *)
Theorem increase_ignores_decay s now p : mtx s = false ->
  Lifetime < i64 (now - lastUnix s) ->
  exists s', Increase Init now p 0 s
      = Ok (u64 (u64 (persistent s + p) + uint64_of_double (transient s)), s')
    /\ Int Init now s' = Ok (u64 (persistent s + p), s').
Proof.
  intros Hm Hdt. destruct (Increase_ok s now p 0 Hm) as (r & s' & -> & Hm' & Hp' & -> & Htr).
  destruct (Htr ltac:(lia)) as [Ht' Hl']. exists s'. split; [by rewrite Ht', Hp'|].
  rewrite (Int_ok s' now Hm'). do 2 f_equal. unfold score_at. rewrite Hl'.
  rewrite (proj2 (Z.ltb_lt _ _) Hdt), orb_true_r. done.
Qed.
End BanScore.

(** An environment for the examples: an exponential that is constantly one half. *)
Definition half_env : FloatEnv :=
  {| Exp := fun _ => S754_finite false 4503599627370496 (-53); u64_of_big := fun _ => 0 |}.

Lemma banscore_returns_witness :
  mtx zeroBanScore = false /\
  @String_ half_env (fun _ _ _ _ => []) (@Init half_env) 0 zeroBanScore = Err Deadlock.
Proof.
  split; [reflexivity|].
  apply (@banscore_returns half_env (fun _ _ _ _ => []) zeroBanScore 0 0 0). reflexivity.
Defined.

(** Five bad blocks bring the score to the threshold, a bad transaction beyond it. *)
Lemma ban_threshold_witness :
  exists s', @offences half_env (@Init half_env) [(1, 20); (2, 20); (3, 20); (4, 20); (5, 20); (600, 10)] zeroBanScore
      = Ok ([false; false; false; false; false; true], s')
    /\ persistent s' = 110.
Proof.
  apply (@ban_threshold half_env [(1, 20); (2, 20); (3, 20); (4, 20); (5, 20); (600, 10)]).
  - repeat first [apply List.Forall_nil | apply List.Forall_cons; [cbn; lia|]].
  - reflexivity.
Defined.

(** One hundred transient points of time 1000, and one persistent point at time 5000. *)
Lemma increase_ignores_decay_witness :
  exists s', @Increase half_env (@Init half_env) 5000 1 0 (mkBanScore 1000 (double_of_int 100) 0 false) = Ok (101, s')
    /\ @Int half_env (@Init half_env) 5000 s' = Ok (1, s').
Proof.
  apply (@increase_ignores_decay half_env (mkBanScore 1000 (double_of_int 100) 0 false) 5000 1); reflexivity.
Defined.
