(* ===== verification/TxSync.v ===== *)
(** * The initial transaction sync

    Models [txsyncLoop] of [netsync/sync.go], which relays the pending transactions to new
    peers, one pack at a time: its state, and the cases of its select statement as the events
    of a state machine.  The choice of the next sync by a random number over Go's unspecified
    map order is part of the event.  A background send is in flight from the step that emits
    it to the event of its result. *)
From S2P Require Import Prelude Errors GoLib.

(** What the loop uses of peers, transactions and [common.StorageSize], none of which it
    defines: a peer's key, the size of a serialised transaction, and the sums and the
    comparison of sizes. *)
Class SyncEnv := {
  peer : Type;
  Tx : Type;
  Key : peer -> gostring;
  SerializedSize : Tx -> Z;
  StorageSize : Type;
  size_of : Z -> StorageSize;
  size_add : StorageSize -> StorageSize -> StorageSize;
  size_ltb : StorageSize -> StorageSize -> bool;
}.

(** Sizes start below the target and count exactly as far as the target. *)
Class SyncEnvLaws `{SyncEnv} := {
  size_nonneg : forall t, 0 <= SerializedSize t;
  size_zero_small : forall n, 0 < n -> size_ltb (size_of 0) (size_of n) = true;
  size_sum : forall l n, Forall (fun x => 0 <= x) l -> 0 <= n <= 2 ^ 20 ->
    size_ltb (foldl (fun s x => size_add s (size_of x)) (size_of 0) l) (size_of n)
    = (foldr Z.add 0 l <? n);
}.

Section TxSync.
Context `{SyncEnv}.

Definition txsyncPackSize : Z := 100 * 1024.

Record txsync := mkTxsync { ts_p : peer; txs : list Tx }.

(** The variables of the loop; [pack] is the pack being sent, nil fields before the first. *)
Record loop := mkLoop {
  pending : gmap gostring txsync;
  sending : bool;
  pack : option txsync;
}.

Definition initial : loop := mkLoop ∅ false None.

(** Fills the pack up to the target size. *)
Fixpoint fill (size : StorageSize) (l : list Tx) : list Tx :=
  match l with
  | [] => []
  | t :: l =>
      if size_ltb size (size_of txsyncPackSize)
      then t :: fill (size_add size (size_of (SerializedSize t))) l
      else []
  end.

(** The closure [send]: the transactions sent leave the sync, which is shared with the map. *)
Definition send (st : loop) (s : txsync) : loop * list txsync :=
  let sent := fill (size_of 0) (txs s) in
  let rest := drop (length sent) (txs s) in
  let p := mkTxsync (ts_p s) sent in
  (mkLoop (if decide (rest = []) then delete (Key (ts_p s)) (pending st)
           else <[Key (ts_p s) := mkTxsync (ts_p s) rest]> (pending st))
     true (Some p),
   [p]).

(** The closure [pick]: [it] is the order of the iteration over the map, [n] the number drawn. *)
Definition pick (st : loop) (it : list (gostring * txsync)) (n : nat) : option txsync :=
  if decide (size (pending st) = 0%nat) then None else snd <$> it !! n.

Inductive event :=
| NewSync (s : txsync)
| SendDone (err : option error) (it : list (gostring * txsync)) (n : nat).

(** The map in which a finished send leaves the loop to pick from. *)
Definition after_send (st : loop) (err : option error) : loop :=
  mkLoop (match err, pack st with
          | Some _, Some p => delete (Key (ts_p p)) (pending st)
          | _, _ => pending st
          end) false (pack st).

(** The next state and the pack sent, if one is. *)
Definition step (st : loop) (e : event) : loop * list txsync :=
  match e with
  | NewSync s =>
      let st := mkLoop (<[Key (ts_p s) := s]> (pending st)) (sending st) (pack st) in
      if negb (sending st) then send st s else (st, [])
  | SendDone err it n =>
      let st := after_send st err in
      match pick st it n with
      | Some s => send st s
      | None => (st, [])
      end
  end.

Fixpoint run (st : loop) (l : list event) : loop * list txsync :=
  match l with
  | [] => (st, [])
  | e :: l =>
      let '(st, out) := step st e in
      let '(st, outs) := run st l in
      (st, out ++ outs)
  end.

(** Which events can happen: a sync with transactions arrives; a send in flight ends, the
    map is iterated in some order and the number drawn is below its size. *)
Definition enabled (st : loop) (e : event) : Prop :=
  match e with
  | NewSync s => txs s <> []
  | SendDone err it n =>
      sending st = true /\ it ≡ₚ map_to_list (pending (after_send st err))
      /\ (n < size (pending (after_send st err)) \/ size (pending (after_send st err)) = 0)%nat
  end.

Fixpoint legal (st : loop) (l : list event) : Prop :=
  match l with
  | [] => True
  | e :: l => enabled st e /\ legal (step st e).1 l
  end.

(** ** Properties *)
(** What is left to send to the peer of a key. *)
Definition remaining (st : loop) (k : gostring) : list Tx :=
  match pending st !! k with Some s => txs s | None => [] end.

(** What a list of packs sends to the peer of a key. *)
Fixpoint sent_to (k : gostring) (out : list txsync) : list Tx :=
  match out with
  | [] => []
  | p :: out => (if decide (Key (ts_p p) = k) then txs p else []) ++ sent_to k out
  end.

Definition total (st : loop) : nat := map_fold (fun _ s n => length (txs s) + n)%nat 0%nat (pending st).

Record Inv (st : loop) : Prop := {
  inv_key : forall k s, pending st !! k = Some s -> Key (ts_p s) = k /\ txs s <> [];
  inv_idle : sending st = false -> pending st = ∅;
}.

Lemma sent_to_app k l l' : sent_to k (l ++ l') = sent_to k l ++ sent_to k l'.
Proof. induction l as [|p l IH]; cbn; [done|]. by rewrite IH, app_assoc. Qed.

Lemma fill_prefix l : forall z, exists r, l = fill z l ++ r.
Proof.
  induction l as [|t l IH]; intros z; cbn; [by exists []|].
  case_on; [|by exists (t :: l)]. destruct (IH (size_add z (size_of (SerializedSize t)))) as [r Hr].
  exists r. cbn. by rewrite <- Hr.
Qed.

Lemma fill_drop l z : fill z l ++ drop (length (fill z l)) l = l.
Proof. destruct (fill_prefix l z) as [r Hr]. revert Hr. generalize (fill z l). intros f ->. by rewrite drop_app_length. Qed.

Lemma fill_not_nil `{!SyncEnvLaws} l : l <> [] -> fill (size_of 0) l <> [].
Proof. destruct l as [|t l]; cbn; [done|]. by rewrite size_zero_small by done. Qed.

(** Sending moves transactions from the sync to the pack, of its own key only. *)
Lemma send_moves st s k : let '(st', out) := send st s in
  sent_to k out ++ remaining st' k
  = if decide (Key (ts_p s) = k) then txs s else remaining st k.
Proof.
  unfold send, remaining. cbn [pending sent_to ts_p txs]. rewrite app_nil_r.
  set (sent := fill _ _). pose proof (fill_drop (txs s) (size_of 0)) as Hd. fold sent in Hd.
  destruct (decide (Key (ts_p s) = k)) as [<-|Hk], (decide (drop (length sent) (txs s) = [])) as [E|E].
  - rewrite lookup_delete_eq, app_nil_r. by rewrite E, app_nil_r in Hd.
  - by rewrite lookup_insert_eq.
  - by rewrite lookup_delete_ne.
  - by rewrite lookup_insert_ne.
Qed.

Lemma send_Inv st s : (forall k s, pending st !! k = Some s -> Key (ts_p s) = k /\ txs s <> []) ->
  Inv (send st s).1.
Proof.
  intros Hk. split; [|done]. unfold send. cbn [fst pending]. intros k s'. case_on.
  - destruct (decide (Key (ts_p s) = k)) as [<-|]; [by rewrite lookup_delete_eq|].
    rewrite lookup_delete_ne by done. apply Hk.
  - destruct (decide (Key (ts_p s) = k)) as [<-|].
    + rewrite lookup_insert_eq. by intros [= <-].
    + rewrite lookup_insert_ne by done. apply Hk.
Qed.

Lemma pick_Some st it n s : Inv st \/ (forall k s, pending st !! k = Some s -> Key (ts_p s) = k /\ txs s <> []) ->
  it ≡ₚ map_to_list (pending st) -> pick st it n = Some s ->
  pending st !! Key (ts_p s) = Some s.
Proof.
  intros Hk Hit Hp. unfold pick in Hp. case_in Hp; [done|].
  destruct (it !! n) as [[k s']|] eqn:E; [|done]. cbn in Hp. simplify_eq.
  apply list_elem_of_lookup_2 in E. rewrite Hit, elem_of_map_to_list in E.
  destruct Hk as [Hk|Hk]; [destruct (inv_key _ Hk _ _ E)|destruct (Hk _ _ E)]; congruence.
Qed.

Lemma pick_None st it n : it ≡ₚ map_to_list (pending st) ->
  (n < size (pending st) \/ size (pending st) = 0)%nat -> pick st it n = None -> pending st = ∅.
Proof.
  intros Hit Hn Hp. unfold pick in Hp. case_in Hp; [by apply map_size_empty_inv|].
  destruct Hn as [Hn|]; [|done]. rewrite fmap_None, lookup_ge_None in Hp.
  rewrite Hit, length_map_to_list in Hp. lia.
Qed.

Lemma after_send_keys st err : Inv st ->
  forall k s, pending (after_send st err) !! k = Some s -> Key (ts_p s) = k /\ txs s <> [].
Proof.
  intros Hi k s. unfold after_send. cbn [pending]. destruct err as [e|], (pack st) as [p|]; try apply Hi.
  intros Hl. apply lookup_delete_Some in Hl as [_ Hl]. by apply Hi.
Qed.

Lemma step_Inv st e : Inv st -> enabled st e -> Inv (step st e).1.
Proof.
  intros Hi He. destruct e as [s|err it n]; cbn [step enabled] in *.
  - assert (forall k s', <[Key (ts_p s) := s]> (pending st) !! k = Some s' -> Key (ts_p s') = k /\ txs s' <> []) as Hk.
    { intros k s'. destruct (decide (Key (ts_p s) = k)) as [<-|].
      - rewrite lookup_insert_eq. by intros [= <-].
      - rewrite lookup_insert_ne by done. apply Hi. }
    cbn [sending]. destruct (sending st) eqn:E; cbn [negb]; [|by apply send_Inv].
    split; [exact Hk|done].
  - destruct He as (_ & Hit & Hn). destruct (pick _ it n) as [s|] eqn:E.
    + apply send_Inv. by apply after_send_keys.
    + split; [by apply after_send_keys|]. intros _. by eapply pick_None.
Qed.

Lemma run_Inv l : forall st, Inv st -> legal st l -> Inv (run st l).1.
Proof.
  induction l as [|e l IH]; intros st Hi Hl; cbn [run legal] in *; [done|].
  destruct Hl as [He Hl]. pose proof (step_Inv st e Hi He) as Hi'.
  destruct (step st e) as [st1 out]. specialize (IH st1 Hi' Hl). by destruct (run st1 l).
Qed.

(** An event that neither replaces the sync of the key nor drops it. *)
Definition keeps (k : gostring) (st : loop) (e : event) : Prop :=
  match e with
  | NewSync s => Key (ts_p s) <> k
  | SendDone (Some _) _ _ => forall p, pack st = Some p -> Key (ts_p p) <> k
  | SendDone None _ _ => True
  end.

Fixpoint all_keep (k : gostring) (st : loop) (l : list event) : Prop :=
  match l with
  | [] => True
  | e :: l => keeps k st e /\ all_keep k (step st e).1 l
  end.

Lemma send_keeps st s k : (Key (ts_p s) = k -> pending st !! k = Some s) ->
  let '(st', out) := send st s in sent_to k out ++ remaining st' k = remaining st k.
Proof.
  intros Hs. pose proof (send_moves st s k) as Hm. destruct (send st s) as [st' out].
  rewrite Hm. case_on; [|done]. unfold remaining. by rewrite Hs.
Qed.

Lemma step_keeps st e k : Inv st -> enabled st e -> keeps k st e ->
  let '(st', out) := step st e in sent_to k out ++ remaining st' k = remaining st k.
Proof.
  intros Hi He Hk. destruct e as [s|err it n]; cbn [step enabled keeps] in *.
  - assert (forall b p, remaining (mkLoop (<[Key (ts_p s) := s]> (pending st)) b p) k = remaining st k) as Hr.
    { intros b p. unfold remaining. cbn [pending]. by rewrite lookup_insert_ne. }
    cbn [sending]. destruct (sending st); cbn [negb]; [by rewrite Hr|].
    pose proof (send_keeps (mkLoop (<[Key (ts_p s):=s]> (pending st)) false (pack st)) s k) as Hs.
    rewrite Hr in Hs. apply Hs. done.
  - destruct He as (_ & Hit & Hn).
    assert (remaining (after_send st err) k = remaining st k) as Hr.
    { unfold remaining, after_send. cbn [pending]. destruct err as [e|]; [|done].
      destruct (pack st) as [p|] eqn:Ep; [|done]. by rewrite lookup_delete_ne by (by apply Hk). }
    destruct (pick _ it n) as [s|] eqn:E; [|done]. rewrite <- Hr. apply send_keeps. intros <-.
    eapply pick_Some; [right; by apply after_send_keys|done|done].
Qed.

Lemma run_keeps k l : forall st, Inv st -> legal st l -> all_keep k st l ->
  let '(st', out) := run st l in sent_to k out ++ remaining st' k = remaining st k.
Proof.
  induction l as [|e l IH]; intros st Hi Hl Hk; cbn [run legal all_keep] in *; [done|].
  destruct Hl as [He Hl], Hk as [Hke Hk].
  pose proof (step_Inv st e Hi He) as Hi'. pose proof (step_keeps st e k Hi He Hke) as Hs.
  destruct (step st e) as [st1 out]. specialize (IH st1 Hi' Hl Hk).
  destruct (run st1 l) as [st2 out2]. by rewrite sent_to_app, <- app_assoc, IH.
Qed.

Lemma initial_Inv : Inv initial.
Proof. split; [|done]. intros k s Hl. cbn in Hl. by rewrite lookup_empty in Hl. Qed.

Lemma legal_app l1 l2 : forall st, legal st (l1 ++ l2) <-> legal st l1 /\ legal (run st l1).1 l2.
Proof.
  induction l1 as [|e l1 IH]; intros st; cbn [app legal run]; [cbn; tauto|].
  rewrite IH. destruct (step st e) as [st1 out]. cbn [fst]. destruct (run st1 l1). cbn [fst]. tauto.
Qed.

(** *** The packs *)
Definition pack_ok (p : txsync) : Prop :=
  txs p <> [] /\ foldr Z.add 0 (map SerializedSize (removelast (txs p))) < txsyncPackSize.

Lemma fill_bound `{!SyncEnvLaws} l : forall done, Forall (fun x => 0 <= x) done ->
  let z := foldl (fun s x => size_add s (size_of x)) (size_of 0) done in
  fill z l <> [] ->
  foldr Z.add 0 (done ++ map SerializedSize (removelast (fill z l))) < txsyncPackSize.
Proof.
  induction l as [|t l IH]; intros dn Hd z Hn; cbn [fill] in *; [done|].
  destruct (size_ltb z (size_of txsyncPackSize)) eqn:E; [|done].
  unfold z in E. rewrite size_sum in E by (done || unfold txsyncPackSize; lia). apply Z.ltb_lt in E.
  specialize (IH (dn ++ [SerializedSize t])). rewrite foldl_app in IH. cbn [foldl] in IH. fold z in IH.
  set (f := fill _ l) in *. destruct f as [|t' f'] eqn:Ef; [cbn; by rewrite app_nil_r|].
  replace (map SerializedSize (removelast (t :: t' :: f')))
    with ([SerializedSize t] ++ map SerializedSize (removelast (t' :: f'))) by done.
  rewrite app_assoc. apply IH; [|done]. apply Forall_app. split; [done|].
  constructor; [apply size_nonneg|constructor].
Qed.

Lemma send_pack_ok `{!SyncEnvLaws} st s : txs s <> [] -> Forall pack_ok (send st s).2.
Proof.
  intros Hs. unfold send. cbn [snd]. constructor; [|constructor]. split; cbn [txs]; [by apply fill_not_nil|].
  apply (fill_bound (txs s) []); [constructor|by apply fill_not_nil].
Qed.

Lemma step_pack_ok `{!SyncEnvLaws} st e : Inv st -> enabled st e -> Forall pack_ok (step st e).2.
Proof.
  intros Hi He. destruct e as [s|err it n]; cbn [step enabled] in *.
  - case_on; [by apply send_pack_ok|constructor].
  - destruct He as (_ & Hit & Hn). destruct (pick _ it n) as [s|] eqn:E; [|constructor].
    apply send_pack_ok. apply pick_Some in E; [|right; by apply after_send_keys|done].
    by apply after_send_keys in E as [_ ?].
Qed.

Lemma run_pack_ok `{!SyncEnvLaws} l : forall st, Inv st -> legal st l -> Forall pack_ok (run st l).2.
Proof.
  induction l as [|e l IH]; intros st Hi Hl; cbn [run legal] in *; [constructor|].
  destruct Hl as [He Hl]. pose proof (step_Inv st e Hi He) as Hi'.
  pose proof (step_pack_ok st e Hi He) as Hp. destruct (step st e) as [st1 out].
  specialize (IH st1 Hi' Hl). destruct (run st1 l). by apply Forall_app_2.
Qed.

(** *** Progress *)
Lemma total_delete st k s b p : pending st !! k = Some s ->
  total st = (length (txs s) + total (mkLoop (delete k (pending st)) b p))%nat.
Proof.
  intros Hl. unfold total. cbn [pending].
  apply (map_fold_delete_L (fun (_ : gostring) s n => (length (txs s) + n)%nat)); [|done].
  intros. lia.
Qed.

Lemma send_total `{!SyncEnvLaws} st s : pending st !! Key (ts_p s) = Some s -> txs s <> [] ->
  (total (send st s).1 < total st)%nat.
Proof.
  intros Hl Hn. rewrite (total_delete st _ s true (pack st) Hl). unfold send. cbn [fst].
  pose proof (fill_not_nil (txs s) Hn) as Hf. pose proof (fill_drop (txs s) (size_of 0)) as Hd.
  set (f := fill _ _) in *. set (r := drop (length f) (txs s)) in *.
  assert (0 < length f)%nat by (destruct f; [done|cbn; lia]).
  apply (f_equal length) in Hd. rewrite length_app in Hd.
  case_on; [unfold total; cbn [pending]; lia|].
  rewrite (total_delete _ (Key (ts_p s)) (mkTxsync (ts_p s) r) true (pack st))
    by (cbn [pending]; apply lookup_insert_eq).
  cbn [pending txs]. rewrite delete_insert_eq. lia.
Qed.

Definition success (e : event) : Prop :=
  match e with SendDone None _ _ => True | _ => False end.

Lemma dones_bounded `{!SyncEnvLaws} l : forall st, Inv st -> legal st l -> Forall success l ->
  (length l <= S (total st))%nat.
Proof.
  induction l as [|e l IH]; intros st Hi Hl Hs; cbn [length]; [lia|].
  destruct Hl as [He Hl].
  apply Forall_cons_1 in Hs as [Hse Hs]. destruct e as [|[] it n]; try done.
  pose proof (step_Inv st _ Hi He) as Hi'. cbn [step] in *. destruct He as (_ & Hit & Hn).
  destruct (pick _ it n) as [s|] eqn:E.
  - pose proof (pick_Some _ it n s (or_intror (after_send_keys st None Hi)) Hit E) as Hp.
    pose proof (after_send_keys st None Hi _ _ Hp) as [_ Hn'].
    pose proof (send_total _ s Hp Hn'). specialize (IH _ Hi' Hl Hs).
    change (total (after_send st None)) with (total st) in *. lia.
  - destruct l as [|e l]; [cbn; lia|]. destruct Hl as [He2 _].
    apply Forall_cons_1 in Hs as [Hs2 _]. destruct e as [|[] ? ?]; try done. by destruct He2.
Qed.

(** C32: After any history of the loop, the transactions of a new sync go to its peer in order and
    each exactly once, however its packs interleave with those of other peers, unless a newer
    sync of the peer replaces it or a send to the peer fails; once the loop is idle all of them
    have gone.  No pack is empty, and without its last transaction each is below 100 kB. *)
Theorem txsync_delivers `{!SyncEnvLaws} evs0 s evs :
  legal initial (evs0 ++ NewSync s :: evs) ->
  let st := (run initial evs0).1 in
  all_keep (Key (ts_p s)) (step st (NewSync s)).1 evs ->
  let '(st', out) := run st (NewSync s :: evs) in
  sent_to (Key (ts_p s)) out ++ remaining st' (Key (ts_p s)) = txs s
  /\ (sending st' = false -> sent_to (Key (ts_p s)) out = txs s)
  /\ Forall pack_ok out.
Proof.
  intros Hl st Hk. apply legal_app in Hl as [Hl0 Hl]. fold st in Hl.
  pose proof (run_Inv evs0 initial initial_Inv Hl0) as Hi. fold st in Hi.
  pose proof (run_Inv _ st Hi Hl) as Hi'. pose proof (run_pack_ok _ st Hi Hl) as Hp.
  cbn [run legal] in *. destruct Hl as [He Hl]. pose proof (step_Inv st _ Hi He) as Hi1.
  assert (let '(st1, out1) := step st (NewSync s) in
    sent_to (Key (ts_p s)) out1 ++ remaining st1 (Key (ts_p s)) = txs s) as H1.
  { cbn [step sending]. destruct (sending st); cbn [negb].
    - unfold remaining. cbn [pending]. by rewrite lookup_insert_eq.
    - pose proof (send_moves (mkLoop (<[Key (ts_p s):=s]> (pending st)) false (pack st)) s (Key (ts_p s))) as Hm.
      destruct (send _ s). by rewrite Hm, decide_True. }
  pose proof (run_keeps (Key (ts_p s)) evs _ Hi1 Hl Hk) as H2.
  destruct (step st (NewSync s)) as [st1 out1]. cbn [fst] in *.
  destruct (run st1 evs) as [st2 out2]. cbn [fst snd] in *.
  assert (sent_to (Key (ts_p s)) (out1 ++ out2) ++ remaining st2 (Key (ts_p s)) = txs s) as Hall
    by (by rewrite sent_to_app, <- app_assoc, H2).
  split_and!; [exact Hall| |exact Hp].
  intros Hidle. rewrite <- Hall. unfold remaining. rewrite (inv_idle _ Hi' Hidle), lookup_empty.
  by rewrite app_nil_r.
Qed.

(** Once no new sync arrives and no send fails the loop comes to rest: at most as many sends
    end as transactions are pending, plus the one in flight; as long as a send is in flight its
    end can be handled, and without one in flight nothing is pending. *)
Theorem txsync_rests `{!SyncEnvLaws} evs0 dones :
  legal initial (evs0 ++ dones) -> Forall success dones ->
  let st := (run initial evs0).1 in
  let st' := (run st dones).1 in
  (length dones <= S (total st))%nat
  /\ (if sending st' then exists it n, enabled st' (SendDone None it n) else pending st' = ∅).
Proof.
  intros Hl Hs st st'. apply legal_app in Hl as [Hl0 Hl]. fold st in Hl.
  pose proof (run_Inv evs0 initial initial_Inv Hl0) as Hi. fold st in Hi.
  split; [by apply dones_bounded|]. destruct (sending st') eqn:E; [|by apply (inv_idle st'), E; apply run_Inv].
  exists (map_to_list (pending st')), 0%nat. split_and!; [done|done|].
  change (pending (after_send st' None)) with (pending st'). lia.
Qed.
End TxSync.

(** *** A concrete run *)
(** Peers are their keys, transactions their sizes, sizes integers. *)
#[local] Instance sync_env : SyncEnv :=
  {| peer := gostring; Tx := N; Key := id; SerializedSize := Z.of_N; StorageSize := Z;
     size_of := id; size_add := Z.add; size_ltb := Z.ltb |}.

#[local] Instance sync_env_laws : @SyncEnvLaws sync_env.
Proof.
  split; cbn.
  - intros t. apply N2Z.is_nonneg.
  - intros n Hn. by apply Z.ltb_lt.
  - intros l n _ _. f_equal. unfold id.
    assert (forall a, foldl (fun s x => s + x) a l = a + foldr Z.add 0 l) as Hf; [|by rewrite Hf].
    induction l as [|x l IH]; intros a; cbn; [lia|]. rewrite IH. lia.
Qed.

(** Two peers: the second sync waits for the first pack of the first, which is cut after the
    transaction that reaches the target. *)
Definition ex_s1 : txsync := @mkTxsync sync_env [1] [100000; 5000; 7; 9]%N.
Definition ex_s2 : txsync := @mkTxsync sync_env [2] [300000]%N.

Definition ex_evs : list event :=
  [NewSync ex_s2; SendDone None [([1], mkTxsync [1] [7; 9]%N); ([2], ex_s2)] 1;
   SendDone None [([1], mkTxsync [1] [7; 9]%N)] 0; SendDone None [] 0].

Lemma ex_legal : legal initial ([] ++ NewSync ex_s1 :: ex_evs).
Proof.
  assert (forall st e l, enabled st e -> legal (step st e).1 l -> legal st (e :: l)) as Hc by done.
  apply Hc; [done|]. apply Hc; [done|].
  repeat (apply Hc; [split; [vm_compute; reflexivity|]; split;
    [vm_compute; first [reflexivity | apply perm_swap]
    |first [right; vm_compute; reflexivity | left; vm_compute; lia]] |]).
  exact I.
Qed.

Lemma txsync_delivers_witness :
  let '(st', out) := run initial (NewSync ex_s1 :: ex_evs) in
  sent_to [1] out ++ remaining st' [1] = txs ex_s1
  /\ (sending st' = false -> sent_to [1] out = txs ex_s1)
  /\ Forall pack_ok out.
Proof.
  apply (@txsync_delivers sync_env sync_env_laws [] ex_s1 ex_evs ex_legal).
  vm_compute. split; [discriminate|]. repeat split.
Defined.

Example ex_run : run initial (NewSync ex_s1 :: ex_evs)
  = (mkLoop ∅ false (Some (mkTxsync [1] [7; 9]%N)),
     [mkTxsync [1] [100000; 5000]%N; mkTxsync [2] [300000]%N; mkTxsync [1] [7; 9]%N]).
Proof. vm_compute. reflexivity. Qed.

Lemma txsync_rests_witness :
  let st := (run initial [NewSync ex_s1]).1 in
  let st' := (run st [SendDone None [([1], mkTxsync [1] [7; 9]%N)] 0]).1 in
  (1 <= S (total st))%nat
  /\ (if sending st' then exists it n, enabled st' (SendDone None it n) else pending st' = ∅).
Proof.
  apply (@txsync_rests sync_env sync_env_laws [NewSync ex_s1]
    [SendDone None [([1], @mkTxsync sync_env [1] [7; 9]%N)] 0]).
  - split; [discriminate|]. split; [|exact I]. split; [vm_compute; reflexivity|]. split.
    + vm_compute. reflexivity.
    + left. vm_compute. lia.
  - repeat constructor.
Defined.
