(* ===== verification/BlockKeeper.v ===== *)
(** * Block synchronisation

    Models [netsync/peer.go] (the peers of the synchronisation and the best among them),
    [netsync/block_keeper.go] (requesting blocks from a peer and handing them to the chain) and
    [synchronise] of [netsync/sync.go].  The chain is not defined here: its operations are
    parameters.  What a select statement receives is a list of events, in the order of their
    arrival; what the code does to the outside is a list of actions. *)
From Stdlib Require Import SpecFloat.
From S2P Require Import Prelude Errors GoLib Hash BanScore.

(** The chain, and the methods of the peer set that the source does not contain. *)
Class ChainEnv := {
  chain : Type;
  Block : Type;
  Height : Block -> Z;
  BestBlockHeight : chain -> Z;
  BestBlockHash : chain -> Hash;
  GetBlockByHash : chain -> Hash -> res error Block;
  (** Whether the block is an orphan. *)
  ProcessBlock : chain -> Block -> res error bool * chain;
  (** The error of asking the peer of this identifier for the block of a height. *)
  requestBlockByHeight : gostring -> Z -> option error;
  (** The peers to which the new status could not be sent. *)
  BroadcastNewStatus : Block -> res error (list gostring);
}.

Section BlockKeeper.
Context `{FloatEnv, ChainEnv}.

Definition errGetBlockTimeout : error := EMsg (str "Get block Timeout").
Definition errPeerDropped : error := EMsg (str "Peer dropped").
Definition errGetBlockByHash : error := EMsg (str "Get block by hash error").
Definition errBroadcastStatus : error := EMsg (str "Broadcast new status block error").
Definition errReqBlock : error := EMsg (str "Request block error").
Definition errPeerNotRegister : error := EMsg (str "peer is not registered").

(** ** netsync/peer.go *)
(** A peer; its [swPeer] is known by its key.  The sets of known blocks and transactions are
    used only by methods that the source does not contain. *)
Record peer := mkPeer {
  id : gostring; height : Z; hash : Hash; banScore : DynamicBanScore; swPeer : gostring
}.

Definition peerSet := gmap gostring peer.

Definition newPeerSet : peerSet := ∅.

Definition Peer (ps : peerSet) (id : gostring) : option peer := ps !! id.

Definition getPeer (p : peer) : gostring := swPeer p.

(** [it] is the order in which the map is iterated. *)
Fixpoint best_of (best : option gostring * Z) (it : list (gostring * peer)) : option gostring * Z :=
  match it with
  | [] => best
  | (_, p) :: it =>
      let '(bestPeer, bestHeight) := best in
      best_of (match bestPeer with
               | None => (Some (swPeer p), height p)
               | Some _ => if bestHeight <? height p then (Some (swPeer p), height p) else best
               end) it
  end.

Definition BestPeer (it : list (gostring * peer)) : option gostring * Z := best_of (None, 0) it.

(** ** netsync/block_keeper.go *)
Definition IsCaughtUp (c : chain) (it : list (gostring * peer)) : bool :=
  let '(_, height) := BestPeer it in
  BestBlockHeight c <? height.

(** What [BlockRequest] waits for. *)
Inductive event :=
| Pending (block : Block) (peerID : gostring)
| RetryTick
| SyncTimeout
| QuitReq (peerid : gostring).

Inductive action :=
| Request (peerID : gostring) (height : Z)
| Process (block : Block)
| AddBannedPeer (swPeer : gostring)
| StopPeerGracefully (swPeer : gostring)
| Broadcast (block : Block).

Definition blockRequest (peerID : gostring) (height : Z) : option error * list action :=
  (requestBlockByHeight peerID height, [Request peerID height]).

(** The select loop; [None] when it still waits after the events given.  The events left. *)
Fixpoint BlockRequest_loop (peerID : gostring) (height : Z) (evs : list event)
    : option (res error Block * list event) * list action :=
  match evs with
  | [] => (None, [])
  | Pending block from :: evs =>
      if negb (bool_decide (from = peerID)) then BlockRequest_loop peerID height evs
      else if negb (Height block =? height) then BlockRequest_loop peerID height evs
      else (Some (Ok block, evs), [])
  | RetryTick :: evs =>
      let '(err, acts) := blockRequest peerID height in
      match err with
      | Some _ => (Some (Err errReqBlock, evs), acts)
      | None => let '(r, acts') := BlockRequest_loop peerID height evs in (r, acts ++ acts')
      end
  | SyncTimeout :: evs => (Some (Err errGetBlockTimeout, evs), [])
  | QuitReq peerid :: evs =>
      if bool_decide (peerid = peerID) then (Some (Err errPeerDropped, evs), [])
      else BlockRequest_loop peerID height evs
  end.

Definition BlockRequest (peerID : gostring) (height : Z) (evs : list event)
    : option (res error Block * list event) * list action :=
  let '(err, acts) := blockRequest peerID height in
  match err with
  | Some _ => (Some (Err errReqBlock, evs), acts)
  | None => let '(r, acts') := BlockRequest_loop peerID height evs in (r, acts ++ acts')
  end.

(** The state of the worker: the chain, the peers, the events to come, the actions so far. *)
Record world := mkWorld {
  w_chain : chain; w_peers : peerSet; w_evs : list event; w_acts : list action
}.

Definition act (w : world) (a : list action) : world :=
  mkWorld (w_chain w) (w_peers w) (w_evs w) (w_acts w ++ a).

(** How the loop of the worker ends: it leaves the loop, it waits for an event, or its ban
    score stops it. *)
Inductive loop_end := Left | Waiting | Stopped (s : stop).

(** A bad block: twenty points, and at the threshold a ban and the end of the connection.  The
    peer is the one the set has under [key], by pointer. *)
Definition punish (now : Z) (key : gostring) (p : peer) (points : Z) (w : world) : res stop world :=
  '(ban, s) ← addBanScore Init now points 0 (banScore p);
  let w := mkWorld (w_chain w)
             (<[key := mkPeer (id p) (height p) (hash p) s (swPeer p)]> (w_peers w)) (w_evs w) (w_acts w) in
  Ok (if (ban : bool) then act w [AddBannedPeer (swPeer p); StopPeerGracefully (swPeer p)] else w).

(** The loop of [BlockRequestWorker].  Each round takes at least one event, unless it is the
    last; the fuel is the number of events and one. *)
Fixpoint worker_loop (fuel : nat) (now : Z) (bkPeer : peer) (peerID : gostring)
    (num maxPeerHeight : Z) (isOrphan : bool) (orphanNum : Z) (w : world) : loop_end * world :=
  match fuel with
  | O => (Waiting, w)
  | S fuel =>
      if (0 <? num) && (num <=? maxPeerHeight) then
        let reqNum := if isOrphan then orphanNum else num in
        let '(r, acts) := BlockRequest peerID reqNum (w_evs w) in
        let w := act w acts in
        match r with
        | None => (Waiting, mkWorld (w_chain w) (w_peers w) [] (w_acts w))
        | Some (Err _, evs) =>
            (Left, act (mkWorld (w_chain w) (w_peers w) evs (w_acts w)) [StopPeerGracefully (getPeer bkPeer)])
        | Some (Ok block, evs) =>
            let '(res, c) := ProcessBlock (w_chain w) block in
            let w := act (mkWorld c (w_peers w) evs (w_acts w)) [Process block] in
            match res with
            | Err _ =>
                match punish now peerID bkPeer 20 w with Ok w => (Left, w) | Err s => (Stopped s, w) end
            | Ok true => worker_loop fuel now bkPeer peerID num maxPeerHeight true (u64 (Height block - 1)) w
            | Ok false => worker_loop fuel now bkPeer peerID (u64 (num + 1)) maxPeerHeight false orphanNum w
            end
        end
      else (Left, w)
  end.

(** [BlockRequestWorker]; [None] is the nil error, the outer [None] a worker still waiting. *)
Definition BlockRequestWorker (now : Z) (peerID : gostring) (maxPeerHeight : Z) (w : world)
    : option (option error) * world :=
  let num := u64 (BestBlockHeight (w_chain w) + 1) in
  let currentHash := BestBlockHash (w_chain w) in
  match Peer (w_peers w) peerID with
  | None => (Some (Some errPeerNotRegister), w)
  | Some bkPeer =>
      let '(e, w) := worker_loop (S (length (w_evs w))) now bkPeer peerID num maxPeerHeight false 0 w in
      match e with
      | Left =>
          let bestHash := BestBlockHash (w_chain w) in
          if bool_decide (currentHash = bestHash) then (Some None, w)
          else
            match GetBlockByHash (w_chain w) bestHash with
            | Err _ => (Some (Some errGetBlockByHash), w)
            | Ok block =>
                let w := act w [Broadcast block] in
                match BroadcastNewStatus block with
                | Err _ => (Some (Some errBroadcastStatus), w)
                | Ok peers => (Some None, act w (map StopPeerGracefully peers))
                end
            end
      | _ => (None, w)
      end
  end.

(** ** netsync/sync.go *)
(** [synchronise]: the flag is the atomic [synchronising]; [it] is the order in which the map of
    peers is iterated, [has] the switch's set of peers.  What is queued in [dropPeerCh] is
    thrown away; the events of the world arrive after that.  The rest of the channel, the error
    of the worker if it was started, the world. *)
Definition synchronise (now : Z) (synchronising : bool) (dropPeerCh : list gostring)
    (has : gostring -> bool) (it : list (gostring * peer)) (w : world)
    : list gostring * option (option error) * world :=
  if synchronising then (dropPeerCh, Some None, w)
  else
    match BestPeer it with
    | (None, _) => ([], Some None, w)
    | (Some key, bestHeight) =>
        if negb (has key) then ([], Some None, act w [StopPeerGracefully key])
        else if BestBlockHeight (w_chain w) <? bestHeight
             then let '(r, w) := BlockRequestWorker now key bestHeight w in ([], r, w)
             else ([], Some None, w)
    end.

(** ** The best peer *)
Lemma best_of_max it : forall k h, exists k' h', best_of (Some k, h) it = (Some k', h')
  /\ h <= h' /\ (forall id p, (id, p) ∈ it -> height p <= h')
  /\ ((k', h') = (k, h) \/ exists id p, (id, p) ∈ it /\ swPeer p = k' /\ height p = h').
Proof.
  induction it as [|[i p] it IH]; intros k h; cbn [best_of].
  { exists k, h. split_and!; [done|lia| |by left]. intros ? ? Hin. by apply not_elem_of_nil in Hin. }
  destruct (Z.ltb_spec h (height p)) as [Hlt|Hge].
  - destruct (IH (swPeer p) (height p)) as (k' & h' & -> & Hle & Hall & Hor).
    exists k', h'. split_and!; [done|lia| |].
    + intros i' p' Hin. apply elem_of_cons in Hin as [[= <- <-]|Hin]; [done|by eapply Hall].
    + right. destruct Hor as [[= -> ->]|(i' & p' & Hin & ?)].
      * exists i, p. split; [|done]. apply elem_of_cons. by left.
      * exists i', p'. split; [|done]. apply elem_of_cons. by right.
  - destruct (IH k h) as (k' & h' & -> & Hle & Hall & Hor).
    exists k', h'. split_and!; [done|done| |].
    + intros i' p' Hin. apply elem_of_cons in Hin as [[= <- <-]|Hin]; [lia|by eapply Hall].
    + destruct Hor as [?|(i' & p' & Hin & ?)]; [by left|right]. exists i', p'.
      split; [|done]. apply elem_of_cons. by right.
Qed.

(** Whatever the order in which the map is iterated, the best peer is one of greatest height,
    and there is none exactly when the set is empty; and the function that should tell whether
    the chain has caught up is true exactly when some peer is still higher. *)
Theorem BestPeer_max ps it c : it ≡ₚ map_to_list ps -> 0 <= BestBlockHeight c ->
  ((BestPeer it).1 = None <-> ps = ∅)
  /\ (forall k h, BestPeer it = (Some k, h) ->
        (exists id p, ps !! id = Some p /\ swPeer p = k /\ height p = h)
        /\ forall id p, ps !! id = Some p -> height p <= h)
  /\ (IsCaughtUp c it = true <-> exists id p, ps !! id = Some p /\ BestBlockHeight c < height p).
Proof.
  intros Hit Hc. assert (forall id p, (id, p) ∈ it <-> ps !! id = Some p) as Hin.
  { intros i p. by rewrite Hit, elem_of_map_to_list. }
  destruct it as [|[i p] it].
  { apply Permutation_nil, map_to_list_empty_iff in Hit. subst ps. split_and!; [done|done|].
    unfold IsCaughtUp. cbn. split; [intros; zbool; lia|]. intros (? & ? & Hl & _). by rewrite lookup_empty in Hl. }
  unfold IsCaughtUp, BestPeer. cbn [best_of]. destruct (best_of_max it (swPeer p) (height p)) as (k & h & -> & Hle & Hall & Hor).
  assert (exists id p, ps !! id = Some p /\ swPeer p = k /\ height p = h) as Hex.
  { destruct Hor as [[= -> ->]|(i' & p' & Hi & ? & ?)].
    - exists i, p. split; [apply Hin, elem_of_cons; by left|done].
    - exists i', p'. split; [apply Hin, elem_of_cons; by right|done]. }
  assert (forall id p, ps !! id = Some p -> height p <= h) as Hmax.
  { intros i' p' Hi. apply Hin, elem_of_cons in Hi as [[= -> ->]|Hi]; [done|by eapply Hall]. }
  split_and!.
  - split; [done|]. intros ->. destruct Hex as (? & ? & Hl & _). by rewrite lookup_empty in Hl.
  - by intros ? ? [= <- <-].
  - rewrite Z.ltb_lt. split.
    + intros Hlt. destruct Hex as (i' & p' & ? & _ & ?). exists i', p'. split; [done|lia].
    + intros (i' & p' & Hi & Hlt). specialize (Hmax _ _ Hi). lia.
Qed.

(** ** Requests *)
(** An event that leaves the request of a height to a peer waiting. *)
Definition noise (peerID : gostring) (h : Z) (e : event) : Prop :=
  match e with
  | Pending b from => from <> peerID \/ Height b <> h
  | RetryTick => requestBlockByHeight peerID h = None
  | SyncTimeout => False
  | QuitReq id => id <> peerID
  end.

Definition is_request (peerID : gostring) (h : Z) (a : action) : Prop := a = Request peerID h.

Lemma BlockRequest_loop_noise peerID h pre evs : Forall (noise peerID h) pre ->
  exists acts, Forall (is_request peerID h) acts /\
    BlockRequest_loop peerID h (pre ++ evs)
    = let '(r, acts') := BlockRequest_loop peerID h evs in (r, acts ++ acts').
Proof.
  induction 1 as [|e pre He Hpre IH].
  { exists []. split; [constructor|]. cbn. by destruct (BlockRequest_loop _ _ _). }
  destruct IH as (acts & Ha & IH). cbn [app BlockRequest_loop].
  destruct e as [b from| | |i]; cbn in He; [..|done|].
  - exists acts. split; [done|]. rewrite IH. case_bool_decide; cbn [negb]; [|done].
    destruct (Z.eqb_spec (Height b) h); cbn [negb]; [|done]. by destruct He.
  - exists (Request peerID h :: acts). split; [by constructor|]. unfold blockRequest. rewrite He, IH.
    by destruct (BlockRequest_loop peerID h evs).
  - exists acts. split; [done|]. by rewrite bool_decide_false.
Qed.

Lemma BlockRequest_loop_ok peerID h evs : forall b evs' acts,
  BlockRequest_loop peerID h evs = (Some (Ok b, evs'), acts) ->
  Height b = h /\ Forall (is_request peerID h) acts /\
  exists pre, Forall (noise peerID h) pre /\ evs = pre ++ Pending b peerID :: evs'.
Proof.
  induction evs as [|e evs IH]; intros b evs' acts Hr; [done|]. cbn [BlockRequest_loop] in Hr.
  assert (forall acts', BlockRequest_loop peerID h evs = (Some (Ok b, evs'), acts') -> noise peerID h e ->
    Height b = h /\ Forall (is_request peerID h) acts' /\
    exists pre, Forall (noise peerID h) pre /\ e :: evs = pre ++ Pending b peerID :: evs') as Hskip.
  { intros acts' Hl Hn. destruct (IH _ _ _ Hl) as (? & ? & pre & Hp & ->).
    split_and!; [done..|]. exists (e :: pre). split; [by constructor|done]. }
  destruct e as [b' from| | |i].
  - case_bool_decide as Hf; cbn [negb] in Hr; [|apply Hskip; [done|by left]].
    destruct (Z.eqb_spec (Height b') h); cbn [negb] in Hr; [|apply Hskip; [done|by right]].
    simplify_eq. split_and!; [done|constructor|]. exists []. split; [constructor|done].
  - unfold blockRequest in Hr. destruct (requestBlockByHeight peerID h) eqn:E; [done|].
    destruct (BlockRequest_loop peerID h evs) as [r acts'] eqn:El. simplify_eq.
    destruct (Hskip acts' eq_refl E) as (? & ? & ?). split_and!; [done| |done]. by constructor.
  - done.
  - case_bool_decide; [done|]. by apply Hskip.
Qed.

Lemma BlockRequest_ok peerID h evs b evs' acts :
  BlockRequest peerID h evs = (Some (Ok b, evs'), acts) ->
  Height b = h /\ Forall (is_request peerID h) acts /\ acts <> [] /\
  exists pre, Forall (noise peerID h) pre /\ evs = pre ++ Pending b peerID :: evs'.
Proof.
  unfold BlockRequest, blockRequest. destruct (requestBlockByHeight peerID h); [done|].
  destruct (BlockRequest_loop peerID h evs) as [r acts'] eqn:El. intros Hr. simplify_eq.
  apply BlockRequest_loop_ok in El as (? & ? & ?). split_and!; [done| |done|done]. by constructor.
Qed.

(** Whatever the answer, the actions of a request are requests of that height. *)
Lemma BlockRequest_acts peerID h evs :
  Forall (is_request peerID h) (BlockRequest peerID h evs).2.
Proof.
  assert (Forall (is_request peerID h) (BlockRequest_loop peerID h evs).2) as Hl.
  { induction evs as [|e evs IH]; [constructor|]. cbn [BlockRequest_loop]. unfold blockRequest.
    destruct e as [b from| | |i]; repeat case_on; cbn [snd] in *; try done; by constructor. }
  unfold BlockRequest, blockRequest. destruct (requestBlockByHeight peerID h); [by repeat constructor|].
  destruct (BlockRequest_loop peerID h evs). by constructor.
Qed.

(** ** Every block processed was asked for *)
(** In a list of actions a processed block directly follows a request of its height to the
    peer, and its [Pending] event, of that peer, is one of the events. *)
Definition asked (peerID : gostring) (evs : list event) (acts : list action) : Prop :=
  forall i b, acts !! i = Some (Process b) ->
    Pending b peerID ∈ evs /\ exists j, i = S j /\ acts !! j = Some (Request peerID (Height b)).

Lemma asked_other peerID evs acts a : asked peerID evs acts -> (forall b, a <> Process b) ->
  asked peerID evs (acts ++ [a]).
Proof.
  intros Hk Ha i b Hi. apply lookup_app_Some in Hi as [Hi|[_ Hi]].
  - destruct (Hk _ _ Hi) as (? & j & -> & ?). split; [done|]. exists j. split; [done|].
    by apply lookup_app_l_Some.
  - apply list_lookup_singleton_Some in Hi as [_ ->]. by destruct (Ha b).
Qed.

Lemma asked_others peerID evs acts l : asked peerID evs acts ->
  Forall (fun a => forall b, a <> Process b) l -> asked peerID evs (acts ++ l).
Proof.
  intros Hk Hl. revert acts Hk. induction Hl as [|a l Ha Hl IH]; intros acts Hk; [by rewrite app_nil_r|].
  replace (acts ++ a :: l) with ((acts ++ [a]) ++ l) by (by rewrite <- app_assoc).
  by apply IH, asked_other.
Qed.

Lemma requests_others peerID h l : Forall (is_request peerID h) l -> Forall (fun a => forall b, a <> Process b) l.
Proof. intros Hl. refine (List.Forall_impl _ _ Hl). by intros a ->. Qed.

Lemma asked_process peerID evs acts l b : asked peerID evs acts -> l <> [] ->
  Forall (is_request peerID (Height b)) l -> Pending b peerID ∈ evs ->
  asked peerID evs ((acts ++ l) ++ [Process b]).
Proof.
  intros Hk Hn Hl He. pose proof (asked_others _ _ _ _ Hk (requests_others _ _ _ Hl)) as Hk'.
  intros i b' Hi. apply lookup_app_Some in Hi as [Hi|[Hge Hi]].
  - destruct (Hk' _ _ Hi) as (? & j & -> & ?). split; [done|]. exists j. split; [done|].
    by apply lookup_app_l_Some.
  - apply list_lookup_singleton_Some in Hi as [Hi [= ->]]. split; [done|].
    destruct (exists_last Hn) as (l' & a & ->). apply Forall_app in Hl as [_ Hl]. apply Forall_cons_1 in Hl as [Ha _].
    unfold is_request in Ha. subst a. exists (length (acts ++ l')). rewrite app_assoc in Hge, Hi |- *. rewrite length_app in Hge, Hi. cbn in Hge, Hi.
    split; [lia|]. apply lookup_app_l_Some. rewrite lookup_app_r by lia. by rewrite Nat.sub_diag.
Qed.

Lemma punish_acts now key p n w w' : punish now key p n w = Ok w' ->
  exists l, w_acts w' = w_acts w ++ l /\ Forall (fun a => forall b, a <> Process b) l.
Proof.
  unfold punish. destruct (addBanScore _ _ _ _ _) as [[ban s]|]; [|done]. cbn. intros [= <-].
  destruct ban; [|exists []; split; [by rewrite app_nil_r|constructor]].
  eexists. split; [done|]. by repeat constructor.
Qed.

(** Every score's mutex is free. *)
Definition unlocked_peers (w : world) : Prop := forall i p, w_peers w !! i = Some p -> mtx (banScore p) = false.

Lemma punish_returns now i p n w : unlocked_peers w -> w_peers w !! i = Some p ->
  exists w', punish now i p n w = Ok w' /\ unlocked_peers w'.
Proof.
  intros Hu Hp. unfold punish.
  destruct (addBanScore_returns (banScore p) now n 0 (Hu _ _ Hp)) as (b & s & -> & Hs).
  cbn. eexists. split; [done|]. assert (unlocked_peers (mkWorld (w_chain w)
    (<[i := mkPeer (id p) (height p) (hash p) s (swPeer p)]> (w_peers w)) (w_evs w) (w_acts w))) as Hu'.
  { intros j q Hj. cbn in Hj. apply lookup_insert_Some in Hj as [[_ <-]|[_ Hj]]; [done|by eapply Hu]. }
  by destruct b.
Qed.

Lemma worker_loop_asked fuel now p peerID maxPeerHeight evs : forall num isOrphan orphanNum w,
  asked peerID evs (w_acts w) -> (forall x, x ∈ w_evs w -> x ∈ evs) ->
  asked peerID evs (w_acts (worker_loop fuel now p peerID num maxPeerHeight isOrphan orphanNum w).2).
Proof.
  induction fuel as [|fuel IH]; intros num isOrphan orphanNum w Hk He; cbn [worker_loop]; [done|].
  case_on; [|done]. set (h := if isOrphan then orphanNum else num).
  pose proof (BlockRequest_acts peerID h (w_evs w)) as Ha.
  destruct (BlockRequest peerID h (w_evs w)) as [[[[b|err] evs']|] acts] eqn:E; cbn [snd] in *.
  - apply BlockRequest_ok in E as (Hh & _ & Hn & pre & _ & Hevs).
    assert (Pending b peerID ∈ evs) as Hb.
    { apply He. rewrite Hevs. apply elem_of_app. right. apply elem_of_cons. by left. }
    assert (forall x, x ∈ evs' -> x ∈ evs) as He'.
    { intros x Hx. apply He. rewrite Hevs. apply elem_of_app. right. apply elem_of_cons. by right. }
    assert (asked peerID evs ((w_acts w ++ acts) ++ [Process b])) as Hp by (apply asked_process; by rewrite ?Hh).
    cbn [act w_chain w_peers w_evs w_acts]. destruct (ProcessBlock (w_chain w) b) as [[[]|err] c].
    + by apply IH.
    + by apply IH.
    + destruct (punish _ _ _ _ _) as [w'|] eqn:Ep; [|done]. apply punish_acts in Ep as (l & Hw & Hl).
      cbn [snd]. rewrite Hw.
      by apply asked_others.
  - cbn [act w_acts w_chain w_peers w_evs]. apply asked_other; [|done]. by eapply asked_others, requests_others.
  - cbn [act w_acts w_chain w_peers w_evs]. by eapply asked_others, requests_others.
Qed.

(** C29: Whatever arrives, from whatever peers and in whatever order, every block the worker hands
    to the chain came from the worker's own peer and has the height of the request it directly
    follows: late answers and those of other peers are never processed. *)
Theorem worker_asked now peerID maxPeerHeight c ps evs :
  asked peerID evs (w_acts (BlockRequestWorker now peerID maxPeerHeight (mkWorld c ps evs [])).2).
Proof.
  assert (asked peerID evs []) as H0' by (intros i b Hi; by rewrite lookup_nil in Hi).
  unfold BlockRequestWorker. destruct (Peer _ _) as [p|]; [|done].
  match goal with |- context [worker_loop ?f ?n ?q ?i ?m ?x ?o ?y ?w] =>
    pose proof (worker_loop_asked f n q i x evs m o y w H0' (fun x H => H)) as Hl;
    destruct (worker_loop f n q i m x o y w) as [e w'] end.
  cbn [snd] in Hl. destruct e; [|done..]. case_on; [done|]. case_on; [|done].
  assert (asked peerID evs (w_acts w' ++ [Broadcast a])) as Hb by (by apply asked_other).
  case_on; [|done]. cbn [act w_acts snd]. apply asked_others; [done|].
  apply List.Forall_forall. intros x Hx. apply in_map_iff in Hx as (? & <- & _). done.
Qed.

(** ** Catching up *)
(** The events bring the blocks of the heights from [n] on in order, among noise, and the chain
    takes each of them as it comes. *)
Inductive feeds (peerID : gostring) : Z -> chain -> list event -> list Block -> chain -> Prop :=
| feeds_nil n c : feeds peerID n c [] [] c
| feeds_cons n c pre b evs bs c1 c2 :
    requestBlockByHeight peerID n = None -> Forall (noise peerID n) pre -> Height b = n ->
    ProcessBlock c b = (Ok false, c1) -> feeds peerID (n + 1) c1 evs bs c2 ->
    feeds peerID n c (pre ++ Pending b peerID :: evs) (b :: bs) c2.

Definition processed (a : action) : option Block :=
  match a with Process b => Some b | _ => None end.

Definition mild (a : action) : Prop :=
  match a with Request _ _ | Process _ | Broadcast _ => True | _ => False end.

Lemma requests_mild peerID h l : Forall (is_request peerID h) l ->
  Forall mild l /\ omap processed l = [].
Proof.
  induction 1 as [|a l Ha Hl [IH1 IH2]]; [done|]. unfold is_request in Ha. subst a.
  split; [by constructor|done].
Qed.

Lemma worker_loop_feeds now p peerID n c evs bs c' : feeds peerID n c evs bs c' ->
  forall fuel rest acts ps on, 0 < n -> n + #bs < 2 ^ 64 -> (length bs < fuel)%nat ->
  exists new, worker_loop fuel now p peerID n (n + #bs - 1) false on (mkWorld c ps (evs ++ rest) acts)
      = (Left, mkWorld c' ps rest (acts ++ new))
    /\ Forall mild new /\ omap processed new = bs.
Proof.
  induction 1 as [n c|n c pre b evs bs c1 c2 Hr Hn Hh Hp Hf IH]; intros fuel rest acts ps on H0' Hmax Hfuel.
  - destruct fuel as [|fuel]; [lia|]. exists []. cbn [worker_loop]. rewrite (proj2 (Z.leb_gt n (n + #(@nil Block) - 1))), andb_false_r by (rewrite zlen_nil; lia).
    by rewrite app_nil_r.
  - destruct fuel as [|fuel]; [lia|]. cbn [worker_loop w_evs]. rewrite zlen_cons in Hmax |- *.
    pose proof (zlen_nonneg bs).
    rewrite (proj2 (Z.ltb_lt 0 n)), (proj2 (Z.leb_le n (n + (#bs + 1) - 1))) by lia. cbn [andb].
    rewrite <- app_assoc. cbn [app].
    destruct (BlockRequest_loop_noise peerID n pre (Pending b peerID :: evs ++ rest) Hn) as (ra & Hra & Hloop).
    unfold BlockRequest, blockRequest. rewrite Hr, Hloop. cbn [BlockRequest_loop].
    rewrite bool_decide_true, Hh, Z.eqb_refl by done. cbn [negb act w_chain w_peers w_acts w_evs]. rewrite Hp.
    cbn [act w_chain w_peers w_acts w_evs]. rewrite wrap_small by lia.
    destruct (IH fuel rest ((acts ++ Request peerID n :: ra ++ []) ++ [Process b]) ps on ltac:(lia) ltac:(lia)
      ltac:(cbn in Hfuel; lia)) as (new & Hw & Hm & Hpr).
    exists (Request peerID n :: ra ++ Process b :: new).
    replace (n + (#bs + 1) - 1) with (n + 1 + #bs - 1) by lia.
    unfold act. cbn [app w_chain w_peers w_acts w_evs] in *. rewrite Hw.
    rewrite app_nil_r, <- !app_assoc. cbn [app].
    destruct (requests_mild _ _ _ Hra) as [Hm1 Hp1]. split_and!; [done| |].
    + constructor; [done|]. apply Forall_app_2; [done|]. by constructor.
    + cbn [omap list_omap processed]. rewrite omap_app, Hp1. cbn. by rewrite Hpr.
Qed.

Lemma feeds_length peerID n c evs bs c' : feeds peerID n c evs bs c' -> (length bs <= length evs)%nat.
Proof. induction 1; cbn; [done|]. rewrite length_app. cbn. lia. Qed.

(** C31: A worker whose peer answers its requests, among late answers, answers of other peers,
    retry ticks and other peers' departures, and whose blocks the chain takes as they come, each one on
    the last and none an orphan, hands every block up to the peer's height to the
    chain in the order of heights, and returns; nobody is banned for it, the peers of the
    worker and their scores stay as they are, and what arrives later is left. *)
Theorem worker_catches_up now peerID p ps c evs rest bs c' :
  ps !! peerID = Some p -> 0 <= BestBlockHeight c -> BestBlockHeight c + #bs + 1 < 2 ^ 64 ->
  feeds peerID (BestBlockHeight c + 1) c evs bs c' ->
  exists err w', BlockRequestWorker now peerID (BestBlockHeight c + #bs) (mkWorld c ps (evs ++ rest) []) = (Some err, w')
    /\ w_chain w' = c' /\ w_peers w' = ps /\ w_evs w' = rest
    /\ omap processed (w_acts w') = bs
    /\ (forall k, AddBannedPeer k ∉ w_acts w')
    /\ (BestBlockHash c' = BestBlockHash c -> err = None /\ Forall mild (w_acts w')).
Proof.
  intros Hp Hb Hmax Hf. pose proof (feeds_length _ _ _ _ _ _ Hf) as Hlen. pose proof (zlen_nonneg bs).
  unfold BlockRequestWorker, Peer. cbn [w_chain w_peers w_evs]. rewrite Hp, wrap_small by lia.
  destruct (worker_loop_feeds now p peerID _ _ _ _ _ Hf (S (length (evs ++ rest))) rest [] ps 0
    ltac:(lia) ltac:(lia) ltac:(rewrite length_app; lia)) as (new & Hw & Hm & Hpr).
  replace (BestBlockHeight c + 1 + #bs - 1) with (BestBlockHeight c + #bs) in Hw by lia.
  rewrite Hw. cbn [app w_chain w_peers w_evs w_acts].
  assert (forall k l, Forall mild l -> AddBannedPeer k ∉ l) as Hban.
  { intros k l Hl Hin. rewrite list.Forall_forall in Hl. by apply Hl in Hin. }
  case_bool_decide as Hh; [exists None; eexists; split_and!; by auto|].
  destruct (GetBlockByHash c' (BestBlockHash c')) as [b|e];
    [|eexists _, _; split_and!; first [done|by intros k; apply Hban|by intros Hh'; rewrite Hh' in Hh]].
  assert (Forall mild (new ++ [Broadcast b])) as Hm'.
  { apply Forall_app_2; [done|]. by repeat constructor. }
  destruct (BroadcastNewStatus b) as [l|e]; eexists _, _; (split; [done|]); unfold act;
    cbn [w_chain w_peers w_evs w_acts]; split_and!; try done; try (by intros Hh'; rewrite Hh' in Hh).
  - rewrite !omap_app, Hpr. cbn. assert (omap processed (map StopPeerGracefully l) = []) as ->; [|by rewrite !app_nil_r].
    by induction l.
  - intros k Hin. apply elem_of_app in Hin as [Hin|Hin]; [by eapply Hban|].
    apply list_elem_of_In, in_map_iff in Hin as (? & ? & _). done.
  - by rewrite omap_app, Hpr, app_nil_r.
  - by intros k; apply Hban.
Qed.
End BlockKeeper.

(** *** A concrete run *)
(** A chain is the list of its blocks' heights, newest first; blocks are their heights. *)
#[local] Instance ex_chain : ChainEnv :=
  {| chain := list Z; Block := Z; Height := fun b => b;
     BestBlockHeight := fun c => hd 0 c; BestBlockHash := fun c => mkHash 0 0 0 (hd 0 c);
     GetBlockByHash := fun c h => if bool_decide (V3 h ∈ c) then Ok (V3 h) else Err (EMsg []);
     ProcessBlock := fun c b => if b =? hd 0 c + 1 then (Ok false, b :: c) else (Err (EMsg []), c);
     requestBlockByHeight := fun _ _ => None;
     BroadcastNewStatus := fun _ => Ok [] |}.

Definition ex_peer : peer := mkPeer [7] 3 zeroHash zeroBanScore [7].

Lemma BestPeer_max_witness :
  BestPeer [([7], ex_peer)] = (Some [7], 3) /\
  (@IsCaughtUp ex_chain [2; 1; 0] [([7], ex_peer)] = true
   <-> exists id p, ({[ [7] := ex_peer ]} : peerSet) !! id = Some p /\ 2 < height p).
Proof.
  split; [reflexivity|].
  apply (@BestPeer_max ex_chain {[ [7] := ex_peer ]} [([7], ex_peer)] [2; 1; 0]).
  - vm_compute. reflexivity.
  - discriminate.
Defined.

Definition ex_block (b : Z) (from : gostring) : @event ex_chain := @Pending ex_chain b from.

(** Block 2 of peer [8] is noise, as is a late block 9. *)
Lemma worker_catches_up_witness :
  exists err w', @BlockRequestWorker half_env ex_chain 0 [7] 3
      (@mkWorld ex_chain [1; 0] {[ [7] := ex_peer ]}
        ([ex_block 2 [8]; ex_block 9 [7]; ex_block 2 [7]; RetryTick; ex_block 3 [7]] ++ [SyncTimeout]) [])
    = (Some err, w')
    /\ w_chain w' = [3; 2; 1; 0] /\ w_peers w' = {[ [7] := ex_peer ]} /\ w_evs w' = [SyncTimeout]
    /\ omap processed (w_acts w') = [2; 3].
Proof.
  destruct (@worker_catches_up half_env ex_chain 0 [7] ex_peer {[ [7] := ex_peer ]} [1; 0]
    [ex_block 2 [8]; ex_block 9 [7]; ex_block 2 [7]; RetryTick; ex_block 3 [7]] [SyncTimeout] [2; 3] [3; 2; 1; 0])
    as (err & w' & ? & ? & ? & ? & ? & _).
  - vm_compute. reflexivity.
  - discriminate.
  - reflexivity.
  - apply (@feeds_cons ex_chain [7] 2 [1; 0] [ex_block 2 [8]; ex_block 9 [7]] 2 [RetryTick; ex_block 3 [7]] [3] [2; 1; 0]); try reflexivity.
    + apply List.Forall_cons; [left; discriminate|]. apply List.Forall_cons; [right; discriminate|]. constructor.
    + apply (@feeds_cons ex_chain [7] 3 [2; 1; 0] [RetryTick] 3 [] [] [3; 2; 1; 0]); try reflexivity.
      * repeat constructor.
      * apply feeds_nil.
  - exists err, w'. split_and!; assumption.
Defined.
