(* ===== verification/Fetcher.v ===== *)
(** * The fetcher of mined blocks

    Models [netsync/fetcher.go]: the queue of announced blocks, its de-duplication and the
    import of the blocks that extend the chain.  The priority queue is a library's; between
    two rounds of the loop other goroutines may change the chain, so that each round is given
    the chain it finds. *)
From Stdlib Require Import SpecFloat.
From S2P Require Import Prelude Errors GoLib Hash Connection BanScore BlockKeeper.

(** What the fetcher uses of blocks, and [BroadcastMinedBlock]: the peers that could not be
    sent the block. *)
Class FetchEnv `{ChainEnv} := {
  BlockHash : Block -> Hash;
  PreviousBlockHash : Block -> Hash;
  BroadcastMinedBlock : Block -> res error (list (option gostring));
}.

(** The priority queue of cookiejar. *)
Class Prque (A : Type) := {
  prque : Type;
  prque_New : prque;
  prque_Push : A -> spec_float -> prque -> prque;
  prque_PopItem : prque -> option (A * prque);
}.


Section Fetcher.
Context `{FloatEnv, FetchEnv}.

Record blockPending := mkPending { block : Block; peerID : gostring }.

Context `{PQ : !Prque blockPending}.

Definition maxQueueDist : Z := 1024.

(** The queues; the channels are the events, and the map [queues] is never made or used. *)
Record Fetcher := mkFetcher { queue : prque; queued : gmap Hash blockPending }.

Definition NewFetcher : Fetcher := mkFetcher prque_New ∅.

(** [-float32(height)] *)
Definition priority_of (height : Z) : spec_float := SFopp (f32_of_int height).

Definition forgetBlock (h : Hash) (f : Fetcher) : Fetcher :=
  match queued f !! h with
  | Some _ => mkFetcher (queue f) (delete h (queued f))
  | None => f
  end.

(** The import of a block, on the world the fetcher shares with the other goroutines. *)
Definition insert_ (now : Z) (peerID : gostring) (block : Block) (w : world) : res stop world :=
  let '(r, c) := ProcessBlock (w_chain w) block in
  let w := act (mkWorld c (w_peers w) (w_evs w) (w_acts w)) [Process block] in
  match r with
  | Err _ =>
      match Peer (w_peers w) peerID with
      | None => Ok w
      | Some fPeer => punish now peerID fPeer 20 w
      end
  | Ok _ =>
      match BroadcastMinedBlock block with
      | Err _ => Ok w
      | Ok peers => Ok (act w (map StopPeerGracefully (omap (fun p => p) peers)))
      end
  end.

Definition enqueue (peer : gostring) (block : Block) (c : chain) (f : Fetcher) : Fetcher :=
  let h := BlockHash block in
  let dist := i64 (i64 (Height block) - i64 (BestBlockHeight c)) in
  if (dist <? 0) || (maxQueueDist <? dist) then f
  else
    match queued f !! h with
    | Some _ => f
    | None =>
        let op := mkPending block peer in
        mkFetcher (prque_Push op (priority_of (Height block)) (queue f)) (<[h := op]> (queued f))
    end.

(** The inner loop: imports queued blocks until the queue is empty or its head is too high.
    Each round takes one element from the queue: the fuel is the number of elements and one.
    The height is read once, before the loop.  Also the blocks imported, each with the chain
    that took it. *)
Fixpoint import_queued (fuel : nat) (now height : Z) (f : Fetcher) (w : world)
    : res stop (Fetcher * world * list (chain * Block)) :=
  match fuel with
  | O => Ok (f, w, [])
  | S fuel =>
      match prque_PopItem (queue f) with
      | None => Ok (f, w, [])
      | Some (op, q) =>
          let f := mkFetcher q (queued f) in
          let number := Height (block op) in
          if u64 (height + 1) <? number
          then Ok (mkFetcher (prque_Push op (priority_of number) q) (queued f), w, [])
          else
            let h := BlockHash (block op) in
            match GetBlockByHash (w_chain w) h with
            | Ok _ => import_queued fuel now height (forgetBlock h f) w
            | Err _ =>
                if negb (bool_decide (PreviousBlockHash (block op) = BestBlockHash (w_chain w)))
                then import_queued fuel now height (forgetBlock h f) w
                else
                  w' ← insert_ now (peerID op) (block op) w;
                  '(f, w'', l) ← import_queued fuel now height f w';
                  Ok (f, w'', (w_chain w, block op) :: l)
            end
      end
  end.

(** One round of [loop]: the time and the chain it finds, and the block announced after the
    import ([None]: the fetcher is stopped).  [size] bounds the elements of the queue. *)
Record round := mkRound { r_now : Z; r_chain : chain; r_chain' : chain; r_op : blockPending }.

Definition loop_round (size : nat) (r : round) (f : Fetcher) (w : world)
    : res stop (Fetcher * world * list (chain * Block)) :=
  let w := mkWorld (r_chain r) (w_peers w) (w_evs w) (w_acts w) in
  let height := BestBlockHeight (w_chain w) in
  '(f, w, l) ← import_queued (S size) (r_now r) height f w;
  Ok (enqueue (peerID (r_op r)) (block (r_op r)) (r_chain' r) f, w, l).

(** [loop]: a round adds one element to the queue at most. *)
Fixpoint loop (size : nat) (rs : list round) (f : Fetcher) (w : world)
    : res stop (Fetcher * world * list (chain * Block)) :=
  match rs with
  | [] => Ok (f, w, [])
  | r :: rs =>
      '(f, w, l) ← loop_round size r f w;
      '(f, w, l') ← loop (S size) rs f w;
      Ok (f, w, l ++ l')
  end.

(** *** Announcing a block *)
(** What [Enqueue] finds: whether the loop waits for a block, and whether [quit] is closed. *)
Record fetch_chans := mkChans { f_waiting : bool; f_quit : bool }.
Definition errTerminated : error := EMsg (str "terminated").

(** [Stop] closes [quit]; closing it twice is a panic. *)
Definition fetcher_Stop (ch : fetch_chans) : option fetch_chans :=
  if f_quit ch then go_panic else Some (mkChans (f_waiting ch) true).

(** The cases of the select of [Enqueue] that are ready, each with what it returns and what it
    hands over; it blocks while there is none. *)
Definition Enqueue (peer : gostring) (b : Block) (ch : fetch_chans) : list (option error * option blockPending) :=
  let op := mkPending b peer in
  (if f_waiting ch then [(None, Some op)] else []) ++ (if f_quit ch then [(Some errTerminated, None)] else []).

(** A block is reported as enqueued exactly if the loop gets it, and after [Stop] no caller stays blocked. *)
Lemma Enqueue_spec peer b ch r : r ∈ Enqueue peer b ch -> (r.1 = None <-> r.2 = Some (mkPending b peer)).
Proof.
  unfold Enqueue. intros [Hr|Hr]%elem_of_app; [destruct (f_waiting ch)|destruct (f_quit ch)];
    try (by apply not_elem_of_nil in Hr); apply list_elem_of_singleton in Hr as ->; done.
Qed.
Lemma Enqueue_stopped peer b ch ch' : fetcher_Stop ch = Some ch' -> Enqueue peer b ch' <> [].
Proof. unfold fetcher_Stop. destruct (f_quit ch); [done|]. intros [= <-]. unfold Enqueue. cbn. by destruct (f_waiting ch). Qed.

(** ** Properties *)
Context `{!PrqueLaws PQ}.











End Fetcher.

(** *** A concrete run *)
(** The chain of heights, and a queue as a list sorted by decreasing priority. *)
#[local] Instance ex_fetch : @FetchEnv ex_chain :=
  @Build_FetchEnv ex_chain (fun b : Z => mkHash 0 0 0 b) (fun b : Z => mkHash 0 0 0 (b - 1)) (fun _ => Ok []).

Fixpoint ex_push {A} (x : A) (p : spec_float) (l : list (A * spec_float)) : list (A * spec_float) :=
  match l with
  | [] => [(x, p)]
  | (y, r) :: l' => if SFltb r p then (x, p) :: l else (y, r) :: ex_push x p l'
  end.

#[local] Instance ex_prque A : Prque A :=
  {| prque := list (A * spec_float); prque_New := []; prque_Push := ex_push;
     prque_PopItem := fun q => match q with [] => None | (x, _) :: q => Some (x, q) end |}.


(** Blocks 3, 2, 2 again and 4 arrive on a chain of height 1: they are imported by height, once. *)
Definition ex_round (c : list Z) (b : Z) : @round ex_chain :=
  @mkRound ex_chain 0 c c (@mkPending ex_chain b [7]).

Definition ex_rounds : list (@round ex_chain) :=
  [ex_round [1; 0] 3; ex_round [1; 0] 2; ex_round [1; 0] 2; ex_round [2; 1; 0] 2; ex_round [3; 2; 1; 0] 4].

Definition ex_world : @world ex_chain := @mkWorld ex_chain [1; 0] {[ [7] := ex_peer ]} [] [].

Example ex_imports :
  match @loop half_env ex_chain ex_fetch (ex_prque _) 0 ex_rounds (@NewFetcher ex_chain (ex_prque _)) ex_world with
  | Ok (_, _, l) => map snd l
  | Err _ => []
  end = [2; 3].
Proof. vm_compute. reflexivity. Qed.

