(* ===== verification/Resolve.v ===== *)
(** * Addresses from text

    Models [NewNetAddressString] and [NewNetAddressStrings] of [p2p/netaddress.go].  Parsing
    and resolving a host are Go's [net.ParseIP] and [net.LookupIP], the latter a query of the
    network; both are the class [Resolver]. *)
From S2P Require Import Prelude Errors GoLib NetAddress NodeInfo.

Class Resolver := {
  ParseIP : gostring -> option IP;
  LookupIP : gostring -> res error (list IP);
}.

Section Resolve.
Context `{Resolver}.

(** [strconv.ParseUint(s, 10, 16)] *)
Definition ParseUint16 (s : gostring) : res error Z :=
  match s with
  | [] => Err (EMsg (str "strconv.ParseUint: parsing: invalid syntax"))
  | _ =>
      match digits_value 0 s with
      | None => Err (EMsg (str "strconv.ParseUint: parsing " ++ s ++ str ": invalid syntax"))
      | Some v => if v <? 2 ^ 16 then Ok v
                  else Err (EMsg (str "strconv.ParseUint: parsing " ++ s ++ str ": value out of range"))
      end
  end.

(** The outer [None] is the panic of indexing an empty answer. *)
Definition NewNetAddressString (addr : gostring) : option (res error NetAddress) :=
  match SplitHostPort addr with
  | Err err => Some (Err err)
  | Ok (host, portStr) =>
      let with_ip (ip : IP) :=
        Some (match ParseUint16 portStr with
              | Err err => Err err
              | Ok port => Ok (NewNetAddressIPPort ip (u16 port))
              end) in
      match ParseIP host with
      | Some ip => with_ip ip
      | None =>
          if 0 <? #host then
            match LookupIP host with
            | Err err => Some (Err err)
            | Ok [] => go_panic
            | Ok (ip :: _) => with_ip ip
            end
          else with_ip []
      end
  end.

Fixpoint NewNetAddressStrings (addrs : list gostring) : option (res (gostring * error) (list NetAddress)) :=
  match addrs with
  | [] => Some (Ok [])
  | addr :: addrs =>
      r ← NewNetAddressString addr;
      match r with
      | Err err => Some (Err (addr, err))
      | Ok netAddr =>
          rest ← NewNetAddressStrings addrs;
          Some (match rest with Ok l => Ok (netAddr :: l) | Err e => Err e end)
      end
  end.

(** ** The text of an address holds no brackets *)
Definition plain (s : gostring) : Prop := Forall (fun c => c <> 91 /\ c <> 93) s.

Lemma plain_lit s : forallb (fun c => negb (c =? 91) && negb (c =? 93)) s = true -> plain s.
Proof.
  rewrite forallb_forall. intros Hs. apply List.Forall_forall. intros c Hc. specialize (Hs c Hc). zlia.
Qed.
Lemma plain_app s t : plain s -> plain t -> plain (s ++ t).
Proof. apply Forall_app_2. Qed.
Lemma plain_digits s : Forall (fun c => 48 <= c <= 57) s -> plain s.
Proof. intros Hs. refine (List.Forall_impl _ _ Hs). cbn. lia. Qed.
Lemma plain_mjoin l : Forall plain l -> plain (mjoin l).
Proof. induction 1; [constructor|]. rewrite mjoin_cons. by apply plain_app. Qed.
Lemma plain_joinWith sep l : plain sep -> Forall plain l -> plain (joinWith sep l).
Proof.
  intros Hs. destruct 1 as [|s l Hs' Hl]; cbn; [constructor|]. apply plain_app; [done|]. apply plain_mjoin.
  apply Forall_map. refine (List.Forall_impl _ _ Hl). intros. by apply plain_app.
Qed.
Lemma plain_hexchar d : 0 <= d < 16 -> hexchar d <> 91 /\ hexchar d <> 93.
Proof. intros Hd. unfold hexchar. case_on; zlia. Qed.
Lemma plain_hex_word w : plain (hex_word w).
Proof.
  unfold hex_word. assert (forall k, hexchar (Z.shiftr w (4 * k) mod 16) <> 91 /\ hexchar (Z.shiftr w (4 * k) mod 16) <> 93) as Hd.
  { intros k. apply plain_hexchar, Z.mod_pos_bound. done. }
  repeat case_on; repeat constructor; apply Hd.
Qed.
Lemma plain_hex_encode l : bytes_ok l -> plain (hex_encode l).
Proof.
  induction 1 as [|b l Hb Hl IH]; cbn; [constructor|]. unfold byte_ok in Hb. repeat constructor; try done.
  all: apply plain_hexchar; try (apply Z.mod_pos_bound; lia).
  all: split; [apply Z.div_pos|apply Z.div_lt_upper_bound]; lia.
Qed.
Lemma plain_colons w : plain (colons w).
Proof.
  unfold colons. apply plain_joinWith; [by apply plain_lit|].
  apply Forall_map, Forall_true. intros. apply plain_hex_word.
Qed.

Lemma plain_dotted ip : bytes_ok ip -> plain (dotted ip).
Proof.
  intros Hip. unfold dotted. apply plain_joinWith; [by apply plain_lit|]. apply Forall_map.
  refine (List.Forall_impl _ _ Hip). intros b Hb. apply plain_digits, itoa_digits. unfold byte_ok in Hb. lia.
Qed.

Lemma To4_ok ip ip4 : bytes_ok ip -> To4 ip = Some ip4 -> bytes_ok ip4.
Proof. intros Hip. unfold To4. repeat case_on; intros; simplify_eq; auto with go. Qed.

Lemma plain_IP_String ip : bytes_ok ip -> plain (IP_String ip).
Proof.
  intros Hip. unfold IP_String. destruct (To4 ip) as [ip4|] eqn:E; [by apply plain_dotted, (To4_ok ip)|].
  case_on; [by apply plain_lit|]. case_on.
  - unfold v6_string. destruct (longest_run _ _ _) as [i l]. case_on; [apply plain_colons|].
    apply plain_app; [apply plain_colons|]. apply plain_app; [by apply plain_lit|apply plain_colons].
  - apply plain_app; [by apply plain_lit|by apply plain_hex_encode].
Qed.

Lemma plain_not_in s : plain s -> (91 ∉ s) /\ (93 ∉ s).
Proof. unfold plain. rewrite list.Forall_forall. intros Hs. split; intros Hin; by destruct (Hs _ Hin). Qed.

Lemma ParseUint16_itoa p : 0 <= p < 2 ^ 16 -> ParseUint16 (itoa p) = Ok p.
Proof.
  intros Hp. unfold ParseUint16. pose proof (itoa_not_nil p ltac:(lia)).
  destruct (itoa p) as [|c s] eqn:E; [done|]. rewrite <- E, digits_value_itoa by lia.
  by rewrite (proj2 (Z.ltb_lt _ _)) by lia.
Qed.

(** The text of an address of four or sixteen bytes, IPv4 or IPv6, names it again: the address
    made from the text has the port and, in the sixteen-byte form, the IP of the original,
    and the same text, provided that [net.ParseIP] reads the text of the IP. *)
Theorem NetAddress_text_roundtrip na ip16 :
  bytes_ok (na_IP na) -> To16 (na_IP na) = Some ip16 -> 0 <= Port na < 2 ^ 16 ->
  ParseIP (IP_String (na_IP na)) = Some ip16 ->
  NewNetAddressString (NetAddress_String na) = Some (Ok (mkNetAddress ip16 (Port na)))
  /\ NetAddress_String (mkNetAddress ip16 (Port na)) = NetAddress_String na.
Proof.
  intros Hip H16 Hp Hparse. destruct (plain_not_in _ (plain_IP_String _ Hip)) as [H1 H3]. split.
  - unfold NewNetAddressString, NetAddress_String.
    rewrite JoinHostPort_split by (try done; apply itoa_digits; lia).
    rewrite Hparse, ParseUint16_itoa by done.
    unfold NewNetAddressIPPort. by rewrite wrap_small.
  - unfold NetAddress_String. cbn [na_IP Port].
    assert (IP_String ip16 = IP_String (na_IP na)) as ->; [|done].
    assert (To4 ip16 = To4 (na_IP na)) as H4.
    { revert H16. unfold To16, To4. destruct (Z.eqb_spec (#(na_IP na)) 4) as [E|E].
      - intros Hs. assert (ip16 = v4InV6Prefix ++ na_IP na) as -> by congruence. clear Hs.
        assert (#(v4InV6Prefix ++ na_IP na) = 16) as -> by (rewrite zlen_app, E; done). cbn [Z.eqb andb Pos.eqb].
        by rewrite bool_decide_true.
      - destruct (Z.eqb_spec (#(na_IP na)) 16) as [E'|E']; [|done]. intros [= <-].
        by rewrite E'. }
    assert (ip16 = na_IP na \/ exists ip4, To4 (na_IP na) = Some ip4) as [->|[ip4 E]]; [|done|].
    { revert H16. unfold To16, To4. destruct (#(na_IP na) =? 4); [right; by eexists|].
      destruct (#(na_IP na) =? 16); [|done]. intros [= <-]. by left. }
    unfold IP_String. by rewrite H4, E.
Qed.
End Resolve.

(** A resolver that knows one address. *)
Definition one_resolver : Resolver :=
  {| ParseIP := fun s => if bool_decide (s = str "10.0.0.1") then Some (IPv4 10 0 0 1) else None;
     LookupIP := fun _ => Err (EMsg (str "no such host")) |}.

Lemma NetAddress_text_roundtrip_witness :
  NetAddress_String (mkNetAddress [10; 0; 0; 1] 46656) = str "10.0.0.1:46656" /\
  @NewNetAddressString one_resolver (NetAddress_String (mkNetAddress [10; 0; 0; 1] 46656))
    = Some (Ok (mkNetAddress (IPv4 10 0 0 1) 46656)).
Proof.
  split; [vm_compute; reflexivity|].
  apply (@NetAddress_text_roundtrip one_resolver (mkNetAddress [10; 0; 0; 1] 46656) (IPv4 10 0 0 1)).
  - apply bytes_okb_ok. reflexivity.
  - reflexivity.
  - split; [discriminate|reflexivity].
  - vm_compute. reflexivity.
Defined.
