(* ===== verification/Switch.v ===== *)
(** * The switch: peers, bans and reactors

    Models [p2p/switch.go] and, of [p2p/peer.go], the handshake of node informations and the
    identity of a peer.  A peer set is the finite map that [PeerSet.v] shows it to be.  Times
    are nanoseconds.  The functions are modelled whole and, for the calls that make connections at the
    same time, as the steps of the section on them.  Go-crypto's key strings, JSON of the table of bans, the address book and
    the results of connections and of the reactors' own handlers are parameters. *)
From S2P Require Import Prelude Errors GoLib NetAddress NodeInfo Resolve Connection.

(** What an address book promises to the switch. *)
Class AddrBookOps (book : Type) := {
  AddOurAddress : NetAddress -> book -> book;
  RemoveAddress : NetAddress -> book -> book;
}.

Class SwitchEnv := {
  reactor : Type;
  GetChannels : reactor -> list ChannelDescriptor;
  KeyString : bytes -> gostring;
  json_Marshal : gmap gostring Z -> res error bytes;
  json_Unmarshal : bytes -> res error (gmap gostring Z);
  (** [Wrap] of [github.com/pkg/errors]. *)
  pkg_Wrap : error -> gostring -> error;
}.

(** JSON gives a table of times back. *)
Class SwitchEnvLaws `{SwitchEnv} :=
  json_roundtrip m b : json_Marshal m = Ok b -> json_Unmarshal b = Ok m.

Section Switch.
Context `{Resolver, SwitchEnv} {book : Type} `{!AddrBookOps book}.

Definition bannedPeerKey : gostring := str "BannedPeer".
Definition defaultBanDuration : Z := 3600 * 10 ^ 9 * 1.

Definition ErrDuplicatePeer : error := EMsg (str "Duplicate peer").
Definition ErrConnectSelf : error := EMsg (str "Connect self").
Definition ErrConnectBannedPeer : error := EMsg (str "Connect banned peer").

(** ** peer.go *)
(** A connection: its direction, whether it is encrypted, the key that the encrypted
    connection has authenticated, and its remote address. *)
Record peerConn := mkPeerConn {
  outbound : bool; AuthEnc : bool; conn_RemotePubKey : bytes; conn_RemoteAddr : gostring
}.

Record Peer := mkPeer { pc : peerConn; info : NodeInfo; Key : gostring }.

Definition newPeer (pc : peerConn) (nodeInfo : NodeInfo) : Peer :=
  mkPeer pc nodeInfo (KeyString (PubKey nodeInfo)).

(** [Peer.PubKey]: without encryption it calls itself for ever ([None]). *)
Definition Peer_PubKey (p : Peer) : option bytes :=
  if AuthEnc (pc p) then Some (conn_RemotePubKey (pc p)) else None.

Definition Peer_RemoteAddrHost (p : Peer) : gostring := RemoteAddrHost (info p).

Definition IsOutbound (p : Peer) : bool := outbound (pc p).

Definition Peer_Equals (p other : Peer) : bool := bool_decide (Key p = Key other).

(** The two node informations cross: [err1] is the outcome of writing ours, [read] that of
    reading the peer's, which then gets the address of the connection. *)
Definition HandshakeTimeout (pc : peerConn) (err1 : option error) (read : res error NodeInfo)
    : res error NodeInfo :=
  match err1 with
  | Some e => Err (pkg_Wrap e (str "Error during handshake/write"))
  | None =>
      match read with
      | Err e => Err (pkg_Wrap e (str "Error during handshake/read"))
      | Ok i => Ok (mkNodeInfo (PubKey i) (Moniker i) (Network i) (conn_RemoteAddr pc)
                      (ListenAddr i) (Version i) (Other i))
      end
  end.

(** ** switch.go *)
Record Switch := mkSwitch {
  MaxNumPeers : Z;
  running : bool;
  reactors : gmap gostring reactor;
  chDescs : list ChannelDescriptor;
  reactorsByCh : gmap Z reactor;
  peers : gmap gostring Peer;
  dialing : gmap gostring NetAddress;
  nodeInfo : NodeInfo;
  addrBook : book;
  bannedPeer : gmap gostring Z;
  db : gmap gostring bytes;
}.

Definition set_peers (m : gmap gostring Peer) (sw : Switch) : Switch :=
  mkSwitch (MaxNumPeers sw) (running sw) (reactors sw) (chDescs sw) (reactorsByCh sw) m
    (dialing sw) (nodeInfo sw) (addrBook sw) (bannedPeer sw) (db sw).
Definition set_dialing (m : gmap gostring NetAddress) (sw : Switch) : Switch :=
  mkSwitch (MaxNumPeers sw) (running sw) (reactors sw) (chDescs sw) (reactorsByCh sw) (peers sw)
    m (nodeInfo sw) (addrBook sw) (bannedPeer sw) (db sw).
Definition set_addrBook (b : book) (sw : Switch) : Switch :=
  mkSwitch (MaxNumPeers sw) (running sw) (reactors sw) (chDescs sw) (reactorsByCh sw) (peers sw)
    (dialing sw) (nodeInfo sw) b (bannedPeer sw) (db sw).
Definition set_bans (m : gmap gostring Z) (d : gmap gostring bytes) (sw : Switch) : Switch :=
  mkSwitch (MaxNumPeers sw) (running sw) (reactors sw) (chDescs sw) (reactorsByCh sw) (peers sw)
    (dialing sw) (nodeInfo sw) (addrBook sw) m d.
Definition set_running (b : bool) (sw : Switch) : Switch :=
  mkSwitch (MaxNumPeers sw) b (reactors sw) (chDescs sw) (reactorsByCh sw) (peers sw)
    (dialing sw) (nodeInfo sw) (addrBook sw) (bannedPeer sw) (db sw).
Definition set_reactors (m : gmap gostring reactor) (l : list ChannelDescriptor)
    (c : gmap Z reactor) (sw : Switch) : Switch :=
  mkSwitch (MaxNumPeers sw) (running sw) m l c (peers sw)
    (dialing sw) (nodeInfo sw) (addrBook sw) (bannedPeer sw) (db sw).
Definition set_nodeInfo (i : NodeInfo) (sw : Switch) : Switch :=
  mkSwitch (MaxNumPeers sw) (running sw) (reactors sw) (chDescs sw) (reactorsByCh sw) (peers sw)
    (dialing sw) i (addrBook sw) (bannedPeer sw) (db sw).

(** [None] is the nil switch that a table of bans that is not JSON gives.  The node information
    is nil until it is set; the zero one stands for it. *)
Definition NewSwitch (maxNumPeers : Z) (b : book) (d : gmap gostring bytes) : option Switch :=
  let sw bans := mkSwitch maxNumPeers false ∅ [] ∅ ∅ ∅ (mkNodeInfo [] [] [] [] [] [] []) b bans d in
  match d !! bannedPeerKey with
  | None => Some (sw ∅)
  | Some datajson =>
      match json_Unmarshal datajson with Ok bans => Some (sw bans) | Err _ => None end
  end.

(** *** Reactors *)
(** The loop over a reactor's channels; [None] is the panic of a channel already taken. *)
Fixpoint add_channels (r : reactor) (l : list ChannelDescriptor) (sw : Switch) : option Switch :=
  match l with
  | [] => Some sw
  | chDesc :: l =>
      match reactorsByCh sw !! ID chDesc with
      | Some _ => go_panic
      | None => add_channels r l (set_reactors (reactors sw) (chDescs sw ++ [chDesc])
                                    (<[ID chDesc := r]> (reactorsByCh sw)) sw)
      end
  end.

Definition AddReactor (name : gostring) (r : reactor) (sw : Switch) : option Switch :=
  sw ← add_channels r (GetChannels r) sw;
  Some (set_reactors (<[name := r]> (reactors sw)) (chDescs sw) (reactorsByCh sw) sw).

Definition Reactor_ (name : gostring) (sw : Switch) : option reactor := reactors sw !! name.

Definition SetNodeInfo (i : NodeInfo) (sw : Switch) : Switch := set_nodeInfo i sw.

(** The reactor that gets the messages of a channel ([createMConnection]); [None]: a panic. *)
Definition onReceive (chID : Z) (sw : Switch) : option reactor := reactorsByCh sw !! chID.

(** *** Bans *)
Definition store_bans (sw : Switch) : option error * Switch :=
  match json_Marshal (bannedPeer sw) with
  | Err err => (Some err, sw)
  | Ok datajson => (None, set_bans (bannedPeer sw) (<[bannedPeerKey := datajson]> (db sw)) sw)
  end.

Definition AddBannedPeer (now : Z) (peer : Peer) (sw : Switch) : option error * Switch :=
  let key := Peer_RemoteAddrHost peer in
  store_bans (set_bans (<[key := now + defaultBanDuration]> (bannedPeer sw)) (db sw) sw).

Definition delBannedPeer (addr : gostring) (sw : Switch) : option error * Switch :=
  store_bans (set_bans (delete addr (bannedPeer sw)) (db sw) sw).

Definition checkBannedPeer (now : Z) (peer : gostring) (sw : Switch) : option error * Switch :=
  match bannedPeer sw !! peer with
  | Some banEnd =>
      if now <? banEnd then (Some ErrConnectBannedPeer, sw)
      else (None, (delBannedPeer peer sw).2)
  | None => (None, sw)
  end.

(** *** Filters *)
(** The inner [None] of the outcomes below is the nil error, the outer one a panic. *)
Definition addrBookDelSelf (sw : Switch) : option (option error * Switch) :=
  r ← NewNetAddressString (ListenAddr (nodeInfo sw));
  Some (match r with
        | Err err => (Some err, sw)
        | Ok addr => (None, set_addrBook (AddOurAddress addr (RemoveAddress addr (addrBook sw))) sw)
        end).

(** The filters after their check of the bans. *)
Definition filter_own_host (ip : gostring) (sw : Switch) : option (option error * Switch) :=
  if bool_decide (ip = ListenHost (nodeInfo sw)) then
    '(_, sw) ← addrBookDelSelf sw; Some (Some ErrConnectSelf, sw)
  else Some (None, sw).

Definition filterConnByIP (now : Z) (ip : gostring) (sw : Switch) : option (option error * Switch) :=
  match checkBannedPeer now ip sw with
  | (Some _, sw) => Some (Some ErrConnectBannedPeer, sw)
  | (None, sw) => filter_own_host ip sw
  end.

Definition filter_key (peer : Peer) (sw : Switch) : option (option error * Switch) :=
  key ← Peer_PubKey peer;
  if bool_decide (PubKey (nodeInfo sw) = key) then
    '(_, sw) ← addrBookDelSelf sw; Some (Some ErrConnectSelf, sw)
  else if bool_decide (is_Some (peers sw !! Key peer)) then Some (Some ErrDuplicatePeer, sw)
  else Some (None, sw).

Definition filterConnByPeer (now : Z) (peer : Peer) (sw : Switch) : option (option error * Switch) :=
  match checkBannedPeer now (Peer_RemoteAddrHost peer) sw with
  | (Some _, sw) => Some (Some ErrConnectBannedPeer, sw)
  | (None, sw) => filter_key peer sw
  end.

(** *** Peers *)
Inductive action :=
| StartPeer (p : Peer)
| ReactorAddPeer (name : gostring) (p : Peer)
| ReactorRemovePeer (name : gostring) (p : Peer)
| StopPeer (p : Peer)
| CloseConn (pc : peerConn).

(** The reactors in the order of the iteration over their map, with the outcome of each one's
    [AddPeer]; the first error ends the loop. *)
Fixpoint reactors_add (it : list (gostring * option error)) (p : Peer) : option error * list action :=
  match it with
  | [] => (None, [])
  | (name, r) :: it =>
      match r with
      | Some err => (Some err, [ReactorAddPeer name p])
      | None => let '(e, l) := reactors_add it p in (e, ReactorAddPeer name p :: l)
      end
  end.

Definition startInitPeer (it : list (gostring * option error)) (p : Peer) : option error * list action :=
  let '(e, l) := reactors_add it p in (e, StartPeer p :: l).

(** [PeerSet.Add] *)
Definition peers_Add (p : Peer) (sw : Switch) : option error * Switch :=
  if bool_decide (is_Some (peers sw !! Key p)) then (Some ErrDuplicatePeer, sw)
  else (None, set_peers (<[Key p := p]> (peers sw)) sw).

Definition outcome : Type := option (option error * Switch * list action).

Definition AddPeer (now : Z) (pc : peerConn) (err1 : option error) (read : res error NodeInfo)
    (it : list (gostring * option error)) (sw : Switch) : outcome :=
  match HandshakeTimeout pc err1 read with
  | Err err => Some (Some err, sw, [])
  | Ok peerNodeInfo =>
      match CompatibleWith (nodeInfo sw) peerNodeInfo with
      | Some err => Some (Some err, sw, [])
      | None =>
          let peer := newPeer pc peerNodeInfo in
          '(err, sw) ← filterConnByPeer now peer sw;
          match err with
          | Some err => Some (Some err, sw, [])
          | None =>
              let '(err, acts) := if running sw then startInitPeer it peer else (None, []) in
              match err with
              | Some err => Some (Some err, sw, acts)
              | None => let '(err, sw) := peers_Add peer sw in Some (err, sw, acts)
              end
          end
      end
  end.

(** [conn] is the outcome of dialing and of the encrypted connection. *)
Definition DialPeerWithAddress (now : Z) (addr : NetAddress) (conn : res error peerConn)
    (err1 : option error) (read : res error NodeInfo) (it : list (gostring * option error))
    (sw : Switch) : outcome :=
  let ip := IP_String (na_IP addr) in
  '(err, sw) ← filterConnByIP now ip sw;
  match err with
  | Some err => Some (Some err, sw, [])
  | None =>
      let sw := set_dialing (<[ip := addr]> (dialing sw)) sw in
      let undial sw := set_dialing (delete ip (dialing sw)) sw in
      match conn with
      | Err err => Some (Some err, undial sw, [])
      | Ok pc =>
          '(err, sw, acts) ← AddPeer now pc err1 read it sw;
          Some (err, undial sw, match err with Some _ => acts ++ [CloseConn pc] | None => acts end)
      end
  end.

Definition IsDialing (addr : NetAddress) (sw : Switch) : bool :=
  bool_decide (is_Some (dialing sw !! IP_String (na_IP addr))).

(** Outbound, inbound and dialing. *)
Definition NumPeers (sw : Switch) : Z * Z * Z :=
  let l := map snd (map_to_list (peers sw)) in
  (#(filter (fun p => outbound (pc p) = true) l), #(filter (fun p => outbound (pc p) = false) l),
   Z.of_nat (size (dialing sw))).

(** The reactors in the order of the iteration; the peer set forgets the peer's key. *)
Definition stopAndRemovePeer (it : list gostring) (p : Peer) (sw : Switch) : Switch * list action :=
  (set_peers (delete (Key p) (peers sw)) sw,
   map (fun name => ReactorRemovePeer name p) it ++ [StopPeer p]).

Definition StopPeerGracefully := stopAndRemovePeer.
Definition StopPeerForError := stopAndRemovePeer.

Definition addPeerWithConnection (now : Z) (raw : peerConn) (conn : res error peerConn)
    (err1 : option error) (read : res error NodeInfo) (it : list (gostring * option error))
    (sw : Switch) : outcome :=
  match conn with
  | Err err => Some (Some err, sw, [CloseConn raw])
  | Ok pc =>
      '(err, sw, acts) ← AddPeer now pc err1 read it sw;
      Some (err, sw, match err with Some _ => acts ++ [CloseConn raw] | None => acts end)
  end.

(** One inbound connection of [listenerRoutine]. *)
Definition listener_accept (now : Z) (raw : peerConn) (conn : res error peerConn)
    (err1 : option error) (read : res error NodeInfo) (it : list (gostring * option error))
    (sw : Switch) : option (Switch * list action) :=
  if i64 (MaxNumPeers sw * 2) <=? Z.of_nat (size (peers sw)) then Some (sw, [CloseConn raw])
  else
    '(_, sw, acts) ← addPeerWithConnection now raw conn err1 read it sw;
    Some (sw, acts).

(** ** Connections that are made at the same time *)
(** The switch holds its mutex only while it reads or writes the bans: between any two of the
    steps of a call of [DialPeerWithAddress] or [addPeerWithConnection] other goroutines may ban,
    stop or add peers.  Where a call is: past the check of the ban of a dialed address; making
    its connection; with the connection before the handshake; with the peer that the handshake has given,
    before the check of the peer's ban, before the rest of the filter, before the start, and
    before the entry into the set; or returned. *)
Inductive stage :=
| Unbanned (addr : NetAddress)
| Connecting
| Connected (pc : peerConn)
| Checking (p : Peer)
| Filtering (p : Peer)
| Starting (p : Peer)
| Entering (p : Peer)
| Returned (err : option error).

(** A call: the address that it dials, if it does, and where it is. *)
Record call := mkCall { c_dial : option NetAddress; c_stage : stage }.

(** The switch and the calls so far. *)
Record conc := mkConc { c_sw : Switch; c_calls : gmap nat call }.

Definition go_on (i : nat) (d : option NetAddress) (st : stage) (sw : Switch) (s : conc) : conc :=
  mkConc sw (<[i := mkCall d st]> (c_calls s)).

(** A dialing that returns forgets the address it was dialing. *)
Definition finish (i : nat) (d : option NetAddress) (err : option error) (sw : Switch) (s : conc) : conc :=
  go_on i d (Returned err)
    (match d with Some addr => set_dialing (delete (IP_String (na_IP addr)) (dialing sw)) sw | None => sw end) s.

(** An error ends the call, otherwise it goes on. *)
Definition go_or_finish (i : nat) (d : option NetAddress) (err : option error) (st : stage) (sw : Switch) (s : conc) : conc :=
  match err with Some err => finish i d (Some err) sw s | None => go_on i d st sw s end.

(** What the goroutines of the node do with the switch: a ban; a removal; the switch
    is started or stopped; a call begins, by
    dialing or with a connection from a listener; and a call takes its next step, for which
    [OpStep] has what the step waits for. *)
Inductive input :=
| InNone
| InConn (conn : res error peerConn)
| InInfo (err1 : option error) (read : res error NodeInfo)
| InReactors (it : list (gostring * option error)).

Inductive op :=
| OpBan (p : Peer)
| OpStop (it : list gostring) (p : Peer)
| OpRunning (b : bool)
| OpDial (i : nat) (addr : NetAddress)
| OpAccept (i : nat)
| OpStep (i : nat) (inp : input).

(** The next step of a call at a time.  [None]: it cannot be taken, or it panics. *)
Definition call_step (now : Z) (i : nat) (c : call) (inp : input) (s : conc) : option conc :=
  let sw := c_sw s in
  let d := c_dial c in
  match c_stage c, inp with
  | Unbanned addr, InNone =>
      '(err, sw) ← filter_own_host (IP_String (na_IP addr)) sw;
      Some (match err with
            | Some err => go_on i d (Returned (Some err)) sw s
            | None => go_on i d Connecting (set_dialing (<[IP_String (na_IP addr) := addr]> (dialing sw)) sw) s
            end)
  | Connecting, InConn (Err err) => Some (finish i d (Some err) sw s)
  | Connecting, InConn (Ok pc) => Some (go_on i d (Connected pc) sw s)
  | Connected pc, InInfo err1 read =>
      match HandshakeTimeout pc err1 read with
      | Err err => Some (finish i d (Some err) sw s)
      | Ok info => Some (go_or_finish i d (CompatibleWith (nodeInfo sw) info) (Checking (newPeer pc info)) sw s)
      end
  | Checking p, InNone =>
      let '(err, sw) := checkBannedPeer now (Peer_RemoteAddrHost p) sw in
      Some (go_or_finish i d err (Filtering p) sw s)
  | Filtering p, InNone =>
      '(err, sw) ← filter_key p sw;
      Some (go_or_finish i d err (Starting p) sw s)
  | Starting p, InReactors it =>
      let '(err, _) := if running sw then startInitPeer it p else (None, []) in
      Some (go_or_finish i d err (Entering p) sw s)
  | Entering p, InNone => let '(err, sw) := peers_Add p sw in Some (finish i d err sw s)
  | _, _ => None
  end.

(** [OpDial] is the check of [filterConnByIP]; [OpAccept] the test of the number of peers. *)
Definition step (now : Z) (o : op) (s : conc) : option conc :=
  match o with
  | OpBan p => Some (mkConc (AddBannedPeer now p (c_sw s)).2 (c_calls s))
  | OpStop it p => Some (mkConc (stopAndRemovePeer it p (c_sw s)).1 (c_calls s))
  | OpRunning b => Some (mkConc (set_running b (c_sw s)) (c_calls s))
  | OpDial i addr =>
      match c_calls s !! i with
      | Some _ => None
      | None =>
          let '(err, sw) := checkBannedPeer now (IP_String (na_IP addr)) (c_sw s) in
          Some (go_on i (Some addr) (match err with Some err => Returned (Some err) | None => Unbanned addr end) sw s)
      end
  | OpAccept i =>
      match c_calls s !! i with
      | Some _ => None
      | None =>
          Some (if i64 (MaxNumPeers (c_sw s) * 2) <=? Z.of_nat (size (peers (c_sw s)))
                then go_on i None (Returned None) (c_sw s) s else go_on i None Connecting (c_sw s) s)
      end
  | OpStep i inp => c ← c_calls s !! i; call_step now i c inp s
  end.

Fixpoint run (l : list (Z * op)) (s : conc) : option conc :=
  match l with
  | [] => Some s
  | (now, o) :: l => s ← step now o s; run l s
  end.

(** The steps of a call in their order, with nothing between them. *)
Definition steps (now : Z) (i : nat) (inps : list input) : list (Z * op) := map (fun inp => (now, OpStep i inp)) inps.

(** A peer that a call has past the check of its ban and not yet in the set. *)
Definition passed (s : conc) (q : Peer) : Prop :=
  exists i c, c_calls s !! i = Some c /\ (c_stage c = Filtering q \/ c_stage c = Starting q \/ c_stage c = Entering q).

(** *** A call that is alone *)
Lemma go_on_sw i d st sw s : c_sw (go_on i d st sw s) = sw.
Proof. done. Qed.
Lemma go_on_calls i d st sw s : c_calls (go_on i d st sw s) !! i = Some (mkCall d st).
Proof. cbn. apply lookup_insert_eq. Qed.

(** One step of a run that is of the call itself. *)
Lemma run_step now i inp l c s : c_calls s !! i = Some c -> run ((now, OpStep i inp) :: l) s = s' ← call_step now i c inp s; run l s'.
Proof. intros Hc. cbn [run step]. by rewrite Hc. Qed.

Definition undial (d : option NetAddress) (sw : Switch) : Switch :=
  match d with Some addr => set_dialing (delete (IP_String (na_IP addr)) (dialing sw)) sw | None => sw end.

(** The end of a call: what it returns and the switch. *)
Definition ends (i : nat) (d : option NetAddress) (r : option (option error * Switch)) (s : option conc) : Prop :=
  match r, s with
  | None, None => True
  | Some (err, sw), Some s => c_calls s !! i = Some (mkCall d (Returned err)) /\ c_sw s = sw
  | _, _ => False
  end.

(** The steps of a call that have been taken when one of them returns an error. *)
Fixpoint run_until (now : Z) (i : nat) (inps : list input) (s : conc) : option conc :=
  match inps with
  | [] => Some s
  | inp :: inps =>
      c ← c_calls s !! i;
      match c_stage c with
      | Returned _ => Some s
      | _ => s ← call_step now i c inp s; run_until now i inps s
      end
  end.

Lemma run_until_run now i inps : forall s s', run_until now i inps s = Some s' ->
  exists inps', inps' `prefix_of` inps /\ run (steps now i inps') s = Some s'.
Proof.
  induction inps as [|inp inps IH]; intros s s'; cbn [run_until].
  { intros [= <-]. by exists []. }
  destruct (c_calls s !! i) as [c|] eqn:Ec; [|done]. cbn [mbind option_bind].
  destruct (c_stage c) eqn:Est; try (destruct (call_step now i c inp s) as [s1|] eqn:E1; [|done]; cbn [mbind option_bind];
    intros Hr; destruct (IH _ _ Hr) as (inps' & Hp & Hr'); exists (inp :: inps'); split; [by apply prefix_cons|];
    cbn [steps map]; rewrite (run_step _ _ _ _ c) by done; rewrite E1; exact Hr').
  intros [= <-]. exists []. split; [apply prefix_nil|done].
Qed.

(** Evaluates the end of a step and the beginning of the next. *)
Local Ltac next_stage :=
  cbn [go_or_finish mbind option_bind finish go_on c_calls c_sw]; rewrite lookup_insert_eq;
  cbn [mbind option_bind c_stage call_step c_dial c_sw go_on].
Local Ltac call_ends := cbn; split; [apply lookup_insert_eq|done].

Lemma checkBannedPeer_err now host sw err sw' : checkBannedPeer now host sw = (Some err, sw') -> err = ErrConnectBannedPeer.
Proof. unfold checkBannedPeer. intros Hc. repeat case_in Hc; by simplify_eq. Qed.

(** The steps are those of [AddPeer]: when nothing comes between them the call returns what the
    function does, and leaves the same switch. *)
Lemma run_until_AddPeer now i d pc err1 read it s sw : c_calls s !! i = Some (mkCall d (Connected pc)) -> c_sw s = sw ->
  ends i d ((fun x => (x.1.1, undial d x.1.2)) <$> AddPeer now pc err1 read it sw)
    (run_until now i [InInfo err1 read; InNone; InNone; InReactors it; InNone] s).
Proof.
  intros Hc <-. unfold AddPeer. cbn [run_until]. rewrite Hc. cbn [mbind option_bind c_stage call_step c_dial].
  destruct (HandshakeTimeout pc err1 read) as [info|err]; [|next_stage; call_ends].
  destruct (CompatibleWith _ info) as [err|]; next_stage; [call_ends|].
  unfold filterConnByPeer. destruct (checkBannedPeer _ _ _) as [[err|] sw1] eqn:Eb; next_stage.
  { rewrite (checkBannedPeer_err _ _ _ _ _ Eb). call_ends. }
  destruct (filter_key _ sw1) as [[[err|] sw2]|]; [next_stage; call_ends|next_stage|exact I].
  destruct (if running sw2 then _ else _) as [[err|] acts]; next_stage; [call_ends|].
  destruct (peers_Add _ sw2) as [err sw3]. call_ends.
Qed.

Lemma run_until_app_connected now i inps s c : c_calls s !! i = Some c ->
  (forall e, c_stage c <> Returned e) -> forall inp, run_until now i (inp :: inps) s = s' ← call_step now i c inp s; run_until now i inps s'.
Proof. intros Hc Hne inp. cbn [run_until]. rewrite Hc. cbn [mbind option_bind]. destruct (c_stage c); try done. by destruct (Hne err). Qed.

Lemma run_until_returned now i inps s d e : c_calls s !! i = Some (mkCall d (Returned e)) -> run_until now i inps s = Some s.
Proof. intros Hc. destruct inps; cbn [run_until]; [done|]. by rewrite Hc. Qed.

(** Dialing, likewise. *)
Lemma run_until_Dial now i addr conn err1 read it s sw : c_calls s !! i = None -> c_sw s = sw ->
  ends i (Some addr) (fst <$> DialPeerWithAddress now addr conn err1 read it sw)
    (s1 ← step now (OpDial i addr) s;
     run_until now i [InNone; InConn conn; InInfo err1 read; InNone; InNone; InReactors it; InNone] s1).
Proof.
  intros Hc <-. cbn [step]. rewrite Hc. unfold DialPeerWithAddress, filterConnByIP.
  destruct (checkBannedPeer _ _ _) as [[err|] sw1] eqn:Eb; cbn [mbind option_bind].
  { rewrite (checkBannedPeer_err _ _ _ _ _ Eb). rewrite (run_until_returned _ _ _ _ (Some addr) (Some ErrConnectBannedPeer)) by apply go_on_calls. call_ends. }
  set (s1 := go_on _ _ _ _ _). assert (c_calls s1 !! i = Some (mkCall (Some addr) (Unbanned addr))) as Hc1 by apply go_on_calls.
  rewrite (run_until_app_connected _ _ _ _ _ Hc1) by done. cbn [call_step c_stage c_dial]. change (c_sw s1) with sw1.
  destruct (filter_own_host _ sw1) as [[[err|] sw2]|]; cbn [mbind option_bind fmap option_fmap option_map]; [| |done].
  { rewrite (run_until_returned _ _ _ _ (Some addr) (Some err)) by apply go_on_calls. call_ends. }
  set (s2 := go_on _ _ _ _ _). assert (c_calls s2 !! i = Some (mkCall (Some addr) Connecting)) as Hc2 by apply go_on_calls.
  rewrite (run_until_app_connected _ _ _ _ _ Hc2) by done. cbn [call_step c_stage c_dial]. destruct conn as [pc|err]; cbn [mbind option_bind].
  2: { rewrite (run_until_returned _ _ _ _ (Some addr) (Some err)) by apply go_on_calls. call_ends. }
  set (s3 := go_on _ _ _ _ _). assert (c_calls s3 !! i = Some (mkCall (Some addr) (Connected pc))) as Hc3 by apply go_on_calls.
  pose proof (run_until_AddPeer now i (Some addr) pc err1 read it s3 _ Hc3 eq_refl) as He. unfold s3 in He at 1. cbn [go_on c_sw] in He.
  unfold s2 in He. cbn [go_on c_sw] in He. revert He. fold s2. destruct (AddPeer _ _ _ _ _ _) as [[[err sw4] acts]|]; done.
Qed.

(** ** Bans hold *)
Lemma store_bans_spec sw : bannedPeer (store_bans sw).2 = bannedPeer sw /\ peers (store_bans sw).2 = peers sw
  /\ nodeInfo (store_bans sw).2 = nodeInfo sw.
Proof. unfold store_bans. by destruct (json_Marshal _). Qed.

Section Banned.
(** A host is banned until [e]; [old] are the peers of that host from before, and [may_join] those
    that may still come. *)
Context (host : gostring) (e : Z) (old : gmap gostring Peer) (may_join : Peer -> Prop).

Record Banned (sw : Switch) : Prop := {
  banned_until : exists e', bannedPeer sw !! host = Some e' /\ e <= e';
  banned_peers : forall k q, peers sw !! k = Some q -> Peer_RemoteAddrHost q = host -> old !! k = Some q \/ may_join q;
}.

Lemma Banned_same sw sw' : Banned sw -> bannedPeer sw' = bannedPeer sw -> peers sw' = peers sw -> Banned sw'.
Proof. intros [Hu Hp] Hb Hps. split; [by rewrite Hb|]. by rewrite Hps. Qed.

Lemma checkBannedPeer_host now sw : Banned sw -> now < e ->
  checkBannedPeer now host sw = (Some ErrConnectBannedPeer, sw).
Proof.
  intros [(e' & Hl & Hle) _] Hn. unfold checkBannedPeer. rewrite Hl.
  by rewrite (proj2 (Z.ltb_lt now e')) by lia.
Qed.

Lemma checkBannedPeer_keeps now ip sw : Banned sw -> now < e -> Banned (checkBannedPeer now ip sw).2.
Proof.
  intros Hb Hn. destruct (decide (ip = host)) as [->|Hne]; [by rewrite checkBannedPeer_host|].
  unfold checkBannedPeer. destruct (bannedPeer sw !! ip); [|done]. case_on; [done|]. cbn [snd].
  unfold delBannedPeer. destruct (store_bans_spec (set_bans (delete ip (bannedPeer sw)) (db sw) sw)) as (H1 & H2 & _).
  destruct Hb as [Hu Hp]. split; rewrite ?H1, ?H2; cbn [set_bans bannedPeer peers]; [|done].
  by rewrite lookup_delete_ne.
Qed.

Lemma addrBookDelSelf_keeps sw r sw' : Banned sw -> addrBookDelSelf sw = Some (r, sw') -> Banned sw'.
Proof.
  unfold addrBookDelSelf. intros Hb Hs. destruct (NewNetAddressString _) as [[?|?]|]; cbn in Hs; simplify_eq; [|done].
  by eapply Banned_same.
Qed.

Lemma filter_own_host_keeps ip sw r sw' : Banned sw -> filter_own_host ip sw = Some (r, sw') -> Banned sw'.
Proof.
  unfold filter_own_host. intros Hb Hf. case_in Hf; simplify_eq; [|done].
  destruct (addrBookDelSelf sw) as [[r' sw2]|] eqn:E; [|done]. cbn in Hf. simplify_eq. by eapply addrBookDelSelf_keeps.
Qed.

Lemma filter_key_keeps p sw r sw' : Banned sw -> filter_key p sw = Some (r, sw') -> Banned sw'.
Proof.
  unfold filter_key. intros Hb Hf. destruct (Peer_PubKey p); [|done]. cbn in Hf. case_in Hf.
  - destruct (addrBookDelSelf sw) as [[r' sw2]|] eqn:E; [|done]. cbn in Hf. simplify_eq. by eapply addrBookDelSelf_keeps.
  - case_in Hf; by simplify_eq.
Qed.

(** Only a peer that is past the check can enter the set. *)
Lemma Banned_entry p sw : Banned sw -> (Peer_RemoteAddrHost p = host -> may_join p) -> Banned (peers_Add p sw).2.
Proof.
  intros [Hu Hp] Hj. unfold peers_Add. case_bool_decide; [done|]. split; [done|]. cbn. intros k q Hk Hq.
  apply lookup_insert_Some in Hk as [[_ <-]|[_ Hk]]; [right; by apply Hj|by eapply Hp].
Qed.

(** The calls: none has a peer of the host past the check but those that had it before the ban. *)
Record Held (s : conc) : Prop := {
  held_sw : Banned (c_sw s);
  held_calls : forall q, passed s q -> Peer_RemoteAddrHost q = host -> may_join q;
}.

Lemma Held_go i d st sw s : Held s -> Banned sw ->
  (forall q, st = Filtering q \/ st = Starting q \/ st = Entering q -> Peer_RemoteAddrHost q = host -> may_join q) -> Held (go_on i d st sw s).
Proof.
  intros [Hb Hc] Hsw Hst. split; [done|]. intros q (j & c & Hj & Hor). cbn in Hj.
  apply lookup_insert_Some in Hj as [[_ <-]|[_ Hj]]; [by apply Hst|]. apply Hc. by exists j, c.
Qed.

Lemma Banned_undial d sw : Banned sw -> Banned (undial d sw).
Proof. intros Hb. destruct d; [|done]. by apply (Banned_same sw). Qed.

Lemma Held_finish i d err sw s : Held s -> Banned sw -> Held (finish i d err sw s).
Proof.
  intros Hh Hb. apply Held_go; [done|by apply (Banned_undial d)|]. by intros q [?|[?|?]].
Qed.

Lemma Held_or i d err st sw s : Held s -> Banned sw ->
  (err = None -> forall q, st = Filtering q \/ st = Starting q \/ st = Entering q -> Peer_RemoteAddrHost q = host -> may_join q) ->
  Held (go_or_finish i d err st sw s).
Proof. intros Hh Hb Hst. destruct err; [by apply Held_finish|apply Held_go; auto]. Qed.

Lemma call_step_Held now i c inp s s' : Held s -> now < e -> c_calls s !! i = Some c -> call_step now i c inp s = Some s' -> Held s'.
Proof.
  intros Hh Hn Hc Hs. pose proof Hh as [Hb Hp]. unfold call_step in Hs.
  assert (forall q, c_stage c = Filtering q \/ c_stage c = Starting q \/ c_stage c = Entering q -> Peer_RemoteAddrHost q = host -> may_join q) as Hpass.
  { intros q Hor. apply Hp. by exists i, c. }
  destruct (c_stage c) as [addr| |pc|p|p|p|p|err] eqn:Est, inp as [|conn|err1 read|it]; try done.
  - destruct (filter_own_host _ _) as [[r sw1]|] eqn:Ef; [|done]. cbn in Hs. injection Hs as <-.
    apply filter_own_host_keeps in Ef; [|done]. destruct r; (apply Held_go; [done| |by intros q [?|[?|?]]]); [done|by apply (Banned_same sw1)].
  - destruct conn; injection Hs as <-; [apply Held_go; try done; by intros q [?|[?|?]]|by apply Held_finish].
  - destruct (HandshakeTimeout pc err1 read); injection Hs as <-; [|by apply Held_finish]. apply Held_or; try done. by intros _ q [?|[?|?]].
  - pose proof (checkBannedPeer_keeps now (Peer_RemoteAddrHost p) (c_sw s) Hb Hn) as Hk.
    destruct (checkBannedPeer _ _ _) as [r sw1] eqn:Ec. injection Hs as <-. apply Held_or; [done|done|].
    intros -> q Hq Hhost. assert (q = p) as -> by (destruct Hq as [[= ->]|[?|?]]; done).
    rewrite Hhost, (checkBannedPeer_host now (c_sw s)) in Ec by done. done.
  - destruct (filter_key _ _) as [[r sw1]|] eqn:Ef; [|done]. cbn in Hs. injection Hs as <-. apply filter_key_keeps in Ef; [|done].
    apply Held_or; [done|done|]. intros _ q [?|[[= ->]|?]]; try done. apply Hpass. by left.
  - destruct (if running (c_sw s) then _ else _) as [r acts]. injection Hs as <-. apply Held_or; [done|done|].
    intros _ q [?|[?|[= ->]]]; try done. apply Hpass. auto.
  - destruct (peers_Add p (c_sw s)) as [r sw1] eqn:Ea. injection Hs as <-. apply Held_finish; [done|].
    change sw1 with (r, sw1).2. rewrite <- Ea. apply Banned_entry; [done|]. apply Hpass. auto.
Qed.

Lemma ban_step_keeps now o s s' : Held s -> e - defaultBanDuration <= now < e -> step now o s = Some s' -> Held s'.
Proof.
  intros Hh Hn Hs. pose proof Hh as [Hb Hp]. destruct o as [p|it p|b|i addr|i|i inp]; cbn [step] in Hs.
  - injection Hs as <-. split; [|exact Hp]. cbn. unfold AddBannedPeer.
    destruct (store_bans_spec (set_bans (<[Peer_RemoteAddrHost p:=now + defaultBanDuration]> (bannedPeer (c_sw s))) (db (c_sw s)) (c_sw s))) as (H1 & H2 & _).
    destruct Hb as [(e' & Hl & Hle) Hq]. split; rewrite ?H1, ?H2; cbn [set_bans bannedPeer peers]; [|done].
    destruct (decide (Peer_RemoteAddrHost p = host)) as [->|]; [rewrite lookup_insert_eq|rewrite lookup_insert_ne by done].
    + eexists. split; [done|]. lia.
    + by exists e'.
  - injection Hs as <-. split; [|exact Hp]. destruct Hb as [Hu Hq]. split; [done|]. cbn. intros k q Hk.
    apply lookup_delete_Some in Hk as [_ Hk]. by apply Hq.
  - injection Hs as <-. split; [|exact Hp]. by apply (Banned_same (c_sw s)).
  - destruct (c_calls s !! i); [done|].
    pose proof (checkBannedPeer_keeps now (IP_String (na_IP addr)) (c_sw s) Hb ltac:(lia)) as Hk.
    destruct (checkBannedPeer _ _ _) as [r sw1]. injection Hs as <-. apply Held_go; [done|done|]. by destruct r; intros q [?|[?|?]].
  - destruct (c_calls s !! i); [done|]. injection Hs as <-. case_on; (apply Held_go; [done|done|]; by intros q [?|[?|?]]).
  - destruct (c_calls s !! i) as [c|] eqn:Ec; [|done]. cbn in Hs. eapply call_step_Held; [done|apply Hn|done|done].
Qed.

Lemma ban_run_keeps l : forall s s', Held s -> Forall (fun x => e - defaultBanDuration <= x.1 < e) l ->
  run l s = Some s' -> Held s'.
Proof.
  induction l as [|[now o] l IH]; intros s s' Hb Hl Hr; cbn [run] in Hr; [by simplify_eq|].
  apply Forall_cons_1 in Hl as [Hn Hl]. destruct (step now o s) as [s1|] eqn:Es; [|done]. cbn in Hr.
  eapply IH; [|done|exact Hr]. by eapply ban_step_keeps.
Qed.
End Banned.

(** C6: From the moment a peer is banned and for an hour, whatever else the goroutines of the node ask of
    the switch meanwhile, in any interleaving of their steps (further bans, inbound and outbound
    connections, disconnections, starting and stopping): every dialing of the peer's host and every connection whose
    check of the ban is still to come is refused with [ErrConnectBannedPeer], leaving the switch as it was;
    and the only peers of that host that the set has are those it had, and those that a
    call of [AddPeer] already had past the check when the ban came. *)
Theorem ban_enforced now p s l s' :
  Forall (fun x => now <= x.1 < now + defaultBanDuration) l ->
  run ((now, OpBan p) :: l) s = Some s' ->
  forall t, now <= t < now + defaultBanDuration ->
  (forall addr conn err1 read it, IP_String (na_IP addr) = Peer_RemoteAddrHost p ->
     DialPeerWithAddress t addr conn err1 read it (c_sw s') = Some (Some ErrConnectBannedPeer, c_sw s', []))
  /\ (forall c read it i, HandshakeTimeout c None read = Ok i -> CompatibleWith (nodeInfo (c_sw s')) i = None ->
        RemoteAddrHost i = Peer_RemoteAddrHost p ->
        AddPeer t c None read it (c_sw s') = Some (Some ErrConnectBannedPeer, c_sw s', []))
  /\ (forall i d q, c_calls s' !! i = Some (mkCall d (Checking q)) -> Peer_RemoteAddrHost q = Peer_RemoteAddrHost p ->
        step t (OpStep i InNone) s' = Some (finish i d (Some ErrConnectBannedPeer) (c_sw s') s'))
  /\ (forall k q, peers (c_sw s') !! k = Some q -> Peer_RemoteAddrHost q = Peer_RemoteAddrHost p ->
        peers (c_sw s) !! k = Some q \/ passed s q).
Proof.
  intros Hl Hr t Ht. cbn [run step mbind option_bind] in Hr. set (sw := c_sw s) in *.
  set (e := now + defaultBanDuration) in *. set (s1 := mkConc _ _) in Hr.
  assert (Held (Peer_RemoteAddrHost p) e (peers sw) (passed s) s1) as Hb.
  { split; [|intros q Hq _; exact Hq]. unfold s1, AddBannedPeer. cbn [c_sw].
    destruct (store_bans_spec (set_bans (<[Peer_RemoteAddrHost p:=now + defaultBanDuration]> (bannedPeer sw)) (db sw) sw))
      as (H1 & H2 & _).
    split; rewrite ?H1, ?H2; cbn [set_bans bannedPeer peers]; [|intros k q Hk _; by left].
    exists e. rewrite lookup_insert_eq. done. }
  assert (Held (Peer_RemoteAddrHost p) e (peers sw) (passed s) s') as [Hb' _].
  { eapply ban_run_keeps; [exact Hb| |exact Hr]. refine (List.Forall_impl _ _ Hl). intros x. unfold e. lia. }
  pose proof (checkBannedPeer_host _ _ _ _ t (c_sw s') Hb' (proj2 Ht)) as Hc. split_and!.
  - intros addr conn err1 read it Ha. unfold DialPeerWithAddress, filterConnByIP. by rewrite Ha, Hc.
  - intros c read it i Hh Hcomp Hi. unfold AddPeer. rewrite Hh, Hcomp. unfold filterConnByPeer.
    change (Peer_RemoteAddrHost (newPeer c i)) with (RemoteAddrHost i). by rewrite Hi, Hc.
  - intros i d q Hi Hq. cbn [step]. rewrite Hi. cbn [mbind option_bind call_step c_stage c_dial]. by rewrite Hq, Hc.
  - apply Hb'.
Qed.

(** A ban that was stored survives a restart: the switch made from the database bans the same
    hosts until the same times, refuses the peer's host for the hour, and from then on lets it
    in and forgets the ban. *)
Theorem ban_persists `{!SwitchEnvLaws} now p sw sw1 maxNumPeers b :
  AddBannedPeer now p sw = (None, sw1) ->
  exists sw2, NewSwitch maxNumPeers b (db sw1) = Some sw2 /\ bannedPeer sw2 = bannedPeer sw1
    /\ forall t, if t <? now + defaultBanDuration
                 then checkBannedPeer t (Peer_RemoteAddrHost p) sw2 = (Some ErrConnectBannedPeer, sw2)
                 else exists sw3, checkBannedPeer t (Peer_RemoteAddrHost p) sw2 = (None, sw3)
                      /\ bannedPeer sw3 !! Peer_RemoteAddrHost p = None.
Proof.
  intros Ha. unfold AddBannedPeer, store_bans in Ha. cbn [set_bans bannedPeer] in Ha.
  destruct (json_Marshal _) as [d|] eqn:Ej; [|done]. simplify_eq.
  unfold NewSwitch. cbn [set_bans db bannedPeer]. rewrite lookup_insert_eq, (json_roundtrip _ _ Ej).
  eexists. split; [done|]. split; [done|]. intros t. unfold checkBannedPeer. cbn [bannedPeer].
  rewrite lookup_insert_eq. case_on; [done|]. eexists. split; [done|]. unfold delBannedPeer.
  match goal with |- bannedPeer (store_bans ?x).2 !! _ = _ => destruct (store_bans_spec x) as (-> & _) end.
  cbn [set_bans bannedPeer]. apply lookup_delete_eq.
Qed.

(** C35: A compatible peer from a host that is not banned is added under the key it claims in its
    node information, whatever other key the encrypted connection has authenticated; after
    that the peer whose key it really is gets refused as a duplicate. *)
Theorem AddPeer_claimed_key now c i it sw :
  AuthEnc c = true -> conn_RemotePubKey c <> PubKey (nodeInfo sw) ->
  (forall i', HandshakeTimeout c None (Ok i) = Ok i' ->
     CompatibleWith (nodeInfo sw) i' = None /\ bannedPeer sw !! RemoteAddrHost i' = None) ->
  peers sw !! KeyString (PubKey i) = None -> Forall (fun x => x.2 = None) it ->
  exists sw' acts, AddPeer now c None (Ok i) it sw = Some (None, sw', acts)
    /\ (exists q, peers sw' = <[KeyString (PubKey i) := q]> (peers sw) /\ pc q = c)
    /\ forall t c2 i2 it2, AuthEnc c2 = true -> conn_RemotePubKey c2 = PubKey i2 ->
         PubKey i2 = PubKey i -> PubKey i2 <> PubKey (nodeInfo sw) ->
         (forall i', HandshakeTimeout c2 None (Ok i2) = Ok i' ->
            CompatibleWith (nodeInfo sw) i' = None /\ bannedPeer sw !! RemoteAddrHost i' = None) ->
         AddPeer t c2 None (Ok i2) it2 sw' = Some (Some ErrDuplicatePeer, sw', []).
Proof.
  intros Henc Hkey Hi Hfree Hit. destruct (Hi _ eq_refl) as [Hcomp Hban]. cbn [HandshakeTimeout] in *.
  assert (forall p, exists acts, startInitPeer it p = (None, acts)) as Hstart.
  { intros p. unfold startInitPeer. assert (exists l, reactors_add it p = (None, l)) as [l ->]; [|by eexists].
    clear -Hit. induction Hit as [|[n r] it Hr _ [l IH]]; cbn in *; [by eexists|]. subst r. rewrite IH. by eexists. }
  set (i' := mkNodeInfo _ _ _ _ _ _ _) in *. unfold AddPeer at 1. cbn [HandshakeTimeout]. fold i'. rewrite Hcomp.
  unfold filterConnByPeer, filter_key, Peer_PubKey. change (pc (newPeer c i')) with c.
  change (Peer_RemoteAddrHost (newPeer c i')) with (RemoteAddrHost i').
  change (Key (newPeer c i')) with (KeyString (PubKey i)).
  unfold checkBannedPeer. rewrite Hban, Henc. cbn [mbind option_bind].
  rewrite bool_decide_false by done. rewrite Hfree, bool_decide_false by (by intros []).
  destruct (Hstart (newPeer c i')) as [acts Hacts]. rewrite Hacts.
  assert (peers_Add (newPeer c i') sw = (None, set_peers (<[KeyString (PubKey i) := newPeer c i']> (peers sw)) sw)) as Hadd.
  { unfold peers_Add. change (Key (newPeer c i')) with (KeyString (PubKey i)).
    by rewrite Hfree, bool_decide_false by (by intros []). }
  set (sw1 := set_peers _ sw) in *. cbn [mbind option_bind]. exists sw1, (if running sw then acts else []). split.
  { destruct (running sw); cbn beta iota; by rewrite Hadd. }
  split; [by exists (newPeer c i')|]. intros t c2 i2 it2 Henc2 Hk2 Heq Hne Hi2.
  specialize (Hi2 _ eq_refl). unfold AddPeer. cbn [HandshakeTimeout].
  set (i2' := mkNodeInfo (PubKey i2) _ _ _ _ _ _) in *. destruct Hi2 as [Hcomp2 Hban2]. change (nodeInfo sw1) with (nodeInfo sw). rewrite Hcomp2.
  unfold filterConnByPeer, filter_key, Peer_PubKey, checkBannedPeer. change (pc (newPeer c2 i2')) with c2.
  change (Peer_RemoteAddrHost (newPeer c2 i2')) with (RemoteAddrHost i2').
  change (bannedPeer sw1) with (bannedPeer sw). rewrite Hban2, Henc2. cbn [mbind option_bind].
  change (nodeInfo sw1) with (nodeInfo sw). rewrite Hk2, bool_decide_false by congruence.
  change (Key (newPeer c2 i2')) with (KeyString (PubKey i2)). rewrite Heq. cbn [sw1 set_peers peers].
  by rewrite lookup_insert_eq, bool_decide_true by (by eexists).
Qed.

(** ** Channels *)
Fixpoint add_reactors (l : list (gostring * reactor)) (sw : Switch) : option Switch :=
  match l with
  | [] => Some sw
  | (name, r) :: l => sw ← AddReactor name r sw; add_reactors l sw
  end.

(** The channels registered: their descriptors' identifiers are the keys of the table, each once. *)
Definition channels_ok (sw : Switch) : Prop :=
  NoDup (map ID (chDescs sw)) /\ forall ch, is_Some (reactorsByCh sw !! ch) <-> ch ∈ map ID (chDescs sw).

Lemma add_channels_spec r l : forall sw, channels_ok sw ->
  match add_channels r l sw with
  | Some sw' => NoDup (map ID (chDescs sw ++ l)) /\ channels_ok sw' /\ chDescs sw' = chDescs sw ++ l
      /\ (forall ch, reactorsByCh sw' !! ch = if decide (ch ∈ map ID l) then Some r else reactorsByCh sw !! ch)
  | None => ~ NoDup (map ID (chDescs sw ++ l))
  end.
Proof.
  induction l as [|d l IH]; intros sw [Hn Hk]; cbn [add_channels].
  { rewrite app_nil_r. split_and!; try done. }
  assert (map ID (chDescs sw ++ d :: l) = map ID (chDescs sw) ++ ID d :: map ID l) as Hm by (by rewrite map_app).
  destruct (reactorsByCh sw !! ID d) as [r'|] eqn:E.
  { rewrite Hm. intros Hnd. apply list.NoDup_app in Hnd as (_ & Hnd & _). apply (Hnd (ID d)).
    - apply Hk. by rewrite E.
    - apply elem_of_cons. by left. }
  set (sw1 := set_reactors _ _ _ sw). assert (channels_ok sw1) as Hok1.
  { split; cbn [sw1 set_reactors chDescs reactorsByCh]; rewrite map_app; cbn [map].
    - apply list.NoDup_app. split_and!; [done| |by repeat constructor; apply not_elem_of_nil].
      intros ch Hc Hin. apply elem_of_cons in Hin as [->|Hin]; [|by apply not_elem_of_nil in Hin].
      apply Hk in Hc as [? Hc]. congruence.
    - intros ch. rewrite elem_of_app, elem_of_cons, <- Hk. destruct (decide (ch = ID d)) as [->|Hne].
      + rewrite lookup_insert_eq. split; [auto|by eexists].
      + rewrite lookup_insert_ne by done. split; [by left|]. intros [?|[?|Hin]]; [done..|by apply not_elem_of_nil in Hin]. }
  specialize (IH sw1 Hok1). assert (chDescs sw1 = chDescs sw ++ [d]) as Hc1 by done. rewrite Hc1, <- app_assoc in IH.
  cbn [app] in IH. destruct (add_channels r l sw1) as [sw'|]; [|exact IH].
  destruct IH as (H1 & H2 & H3 & H4). split_and!; try done. intros ch. rewrite H4. cbn [map].
  change (reactorsByCh sw1) with (<[ID d := r]> (reactorsByCh sw)).
  destruct (decide (ch ∈ map ID l)) as [Hl|Hl], (decide (ch ∈ ID d :: map ID l)) as [Hd|Hd]; try done.
  - destruct Hd. apply elem_of_cons. by right.
  - apply elem_of_cons in Hd as [->|]; [|done]. by rewrite lookup_insert_eq.
  - rewrite lookup_insert_ne; [done|]. intros <-. apply Hd, elem_of_cons. by left.
Qed.

Definition all_channels (l : list (gostring * reactor)) : list ChannelDescriptor :=
  mjoin (map (fun x => GetChannels x.2) l).

Lemma add_reactors_spec l : forall sw, channels_ok sw ->
  match add_reactors l sw with
  | Some sw' => NoDup (map ID (chDescs sw ++ all_channels l)) /\ chDescs sw' = chDescs sw ++ all_channels l
      /\ (forall ch, match reactorsByCh sw' !! ch with
                     | Some r => (exists name, (name, r) ∈ l /\ ch ∈ map ID (GetChannels r)) \/ reactorsByCh sw !! ch = Some r
                     | None => ch ∉ (map ID (chDescs sw ++ all_channels l))
                     end)
  | None => ~ NoDup (map ID (chDescs sw ++ all_channels l))
  end.
Proof.
  induction l as [|[name r] l IH]; intros sw Hok; cbn [add_reactors].
  { unfold all_channels. cbn [map]. change (mjoin []) with (@nil ChannelDescriptor). rewrite app_nil_r.
    split_and!; [apply Hok|done|]. intros ch. destruct (reactorsByCh sw !! ch) eqn:E; [by right|].
    intros Hin. apply Hok in Hin as [? ?]. congruence. }
  unfold AddReactor. pose proof (add_channels_spec r (GetChannels r) sw Hok) as Ha.
  assert (all_channels ((name, r) :: l) = GetChannels r ++ all_channels l) as -> by done. rewrite app_assoc.
  destruct (add_channels r (GetChannels r) sw) as [sw1|]; cbn [mbind option_bind].
  2: { intros Hn. apply Ha. rewrite map_app in Hn. by apply list.NoDup_app in Hn as (? & _). }
  destruct Ha as (H1 & H2 & H3 & H4).
  set (sw2 := set_reactors _ _ _ sw1). specialize (IH sw2 H2). change (chDescs sw2) with (chDescs sw1) in IH.
  rewrite H3 in IH. destruct (add_reactors l sw2) as [sw'|]; [|exact IH]. destruct IH as (I1 & I2 & I3).
  split_and!; try done. intros ch. specialize (I3 ch). destruct (reactorsByCh sw' !! ch) as [r'|]; [|done].
  destruct I3 as [(n & Hin & Hch)|Hold]; [left; exists n; split; [apply elem_of_cons; by right|done]|].
  change (reactorsByCh sw2) with (reactorsByCh sw1) in Hold. rewrite H4 in Hold. case_in Hold; [|by right].
  simplify_eq. left. exists name. split; [apply elem_of_cons; by left|done].
Qed.

(** The reactors can be added exactly when no two channels of them have the same identifier;
    the switch then describes their channels in the order of the reactors, and the messages of
    a channel go to a reactor that asked for it. *)
Theorem reactors_channels maxNumPeers b d sw0 l : NewSwitch maxNumPeers b d = Some sw0 ->
  (is_Some (add_reactors l sw0) <-> NoDup (map ID (all_channels l)))
  /\ forall sw, add_reactors l sw0 = Some sw ->
       chDescs sw = all_channels l
       /\ forall ch, match onReceive ch sw with
                     | Some r => exists name, (name, r) ∈ l /\ ch ∈ map ID (GetChannels r)
                     | None => ch ∉ (map ID (all_channels l))
                     end.
Proof.
  intros Hs. assert (chDescs sw0 = [] /\ reactorsByCh sw0 = ∅) as [Hc Hr].
  { unfold NewSwitch in Hs. repeat (case_in Hs; [|]); by simplify_eq. }
  assert (channels_ok sw0) as Hok.
  { split; rewrite Hc; cbn [map]; [constructor|]. intros ch. rewrite Hr, lookup_empty.
    split; [by intros []|intros Hin; by apply not_elem_of_nil in Hin]. }
  pose proof (add_reactors_spec l sw0 Hok) as Ha. rewrite Hc in Ha. cbn [app] in Ha.
  destruct (add_reactors l sw0) as [sw|]; [|split; [split; [by intros []|done]|done]].
  destruct Ha as (H1 & H2 & H3). split; [by split; [|eexists]|]. intros ? [= <-]. split; [done|].
  intros ch. specialize (H3 ch). unfold onReceive. destruct (reactorsByCh sw !! ch); [|done].
  destruct H3 as [?|H3]; [done|]. by rewrite Hr, lookup_empty in H3.
Qed.
End Switch.

(** *** A concrete switch *)
(** A book that forgets everything, reactors that are their lists of channels, and a table of
    times written as a number. *)
#[local] Instance ex_book : AddrBookOps unit :=
  {| AddOurAddress := fun _ b => b; RemoveAddress := fun _ b => b |}.

#[local] Instance ex_env : SwitchEnv :=
  {| reactor := list Z; GetChannels := map (fun i => mkDesc i 1 0 0 0); KeyString := fun b => b;
     json_Marshal := fun m => Ok [Z.pos (encode m)];
     json_Unmarshal := fun b => match b with
                                | [Z.pos p] => match decode p with Some m => Ok m | None => Err (EMsg []) end
                                | _ => Err (EMsg [])
                                end;
     pkg_Wrap := fun e _ => e |}.

#[local] Instance ex_env_laws : @SwitchEnvLaws ex_env.
Proof. intros m b [= <-]. cbn [json_Unmarshal ex_env]. by rewrite decode_encode. Qed.

#[local] Existing Instance one_resolver.

Definition ex_info (key : bytes) (addr : string) : NodeInfo :=
  mkNodeInfo key [] (str "mainnet") (str addr) (str "10.0.0.2:46656") (str "1.0.3") [].

Definition ex_sw : @Switch ex_env unit :=
  mkSwitch 25 true ∅ [] ∅ ∅ ∅ (ex_info [1] "") tt ∅ ∅.

Definition ex_conn (key : bytes) (addr : string) : peerConn := mkPeerConn false true key (str addr).

Definition ex_bad : Peer := newPeer (ex_conn [6] "10.0.0.1:99") (ex_info [6] "10.0.0.1:99").

(** An inbound connection is past the check when its host is banned, and joins; a later dialing of
    the host is refused. *)
Definition ex_conc : @conc ex_env unit :=
  mkConc ex_sw {[ 0%nat := mkCall None (Filtering ex_bad) ]}.
Definition ex_late : list (Z * op) :=
  [(101, OpDial 1 (mkNetAddress (IPv4 10 0 0 1) 99)); (102, OpStep 0 InNone);
   (103, OpStep 0 (InReactors [])); (104, OpStep 0 InNone)].

Lemma ban_enforced_witness : exists s',
  run ((100, OpBan ex_bad) :: ex_late) ex_conc = Some s' /\
  c_calls s' !! 1%nat = Some (mkCall (Some (mkNetAddress (IPv4 10 0 0 1) 99)) (Returned (Some ErrConnectBannedPeer))) /\
  peers (c_sw s') !! Key ex_bad = Some ex_bad /\ passed ex_conc ex_bad /\
  DialPeerWithAddress 200 (mkNetAddress (IPv4 10 0 0 1) 99) (Err (EMsg [])) None (Err (EMsg [])) [] (c_sw s')
    = Some (Some ErrConnectBannedPeer, c_sw s', []).
Proof.
  assert (match run ((100, OpBan ex_bad) :: ex_late) ex_conc with
          | Some s => bool_decide (is_Some (c_calls s !! 1%nat)) | None => false end = true) as Hs by (vm_compute; reflexivity).
  destruct (run ((100, OpBan ex_bad) :: ex_late) ex_conc) as [s'|] eqn:Hr; [clear Hs|discriminate Hs].
  assert (c_calls s' !! 1%nat = Some (mkCall (Some (mkNetAddress (IPv4 10 0 0 1) 99)) (Returned (Some ErrConnectBannedPeer)))) as H1
    by (transitivity (s ← run ((100, OpBan ex_bad) :: ex_late) ex_conc; c_calls s !! 1%nat); [rewrite Hr; reflexivity|vm_compute; reflexivity]).
  assert (peers (c_sw s') !! Key ex_bad = Some ex_bad) as H2
    by (transitivity (s ← run ((100, OpBan ex_bad) :: ex_late) ex_conc; peers (c_sw s) !! Key ex_bad); [rewrite Hr; reflexivity|vm_compute; reflexivity]).
  destruct (@ban_enforced one_resolver ex_env unit ex_book 100 ex_bad ex_conc ex_late s') with (t := 200) as (Hd & _ & _ & Hj).
  - repeat (apply List.Forall_cons; [split; [discriminate|reflexivity]|]). constructor.
  - exact Hr.
  - split; [discriminate|reflexivity].
  - exists s'. split; [reflexivity|]. split; [exact H1|]. split; [exact H2|]. split.
    + destruct (Hj (Key ex_bad) ex_bad H2 eq_refl) as [Hno|Hp]; [vm_compute in Hno; discriminate Hno|exact Hp].
    + apply Hd. vm_compute. reflexivity.
Defined.

Lemma ban_persists_witness :
  exists sw2, NewSwitch 25 tt (db (AddBannedPeer 100 ex_bad ex_sw).2) = Some sw2
    /\ checkBannedPeer 200 (str "10.0.0.1") sw2 = (Some ErrConnectBannedPeer, sw2).
Proof.
  destruct (@ban_persists ex_env unit ex_env_laws 100 ex_bad ex_sw (AddBannedPeer 100 ex_bad ex_sw).2 25 tt)
    as (sw2 & Hs & _ & Hc).
  - reflexivity.
  - exists sw2. split; [exact Hs|exact (Hc 200)].
Defined.

(** A peer that authenticates with key [6] claims key [9], and shuts out the holder of [9]. *)
Lemma AddPeer_claimed_key_witness :
  exists sw' acts, AddPeer 100 (ex_conn [6] "10.0.0.1:99") None (Ok (ex_info [9] "")) [(str "PEX", None)] ex_sw
      = Some (None, sw', acts)
    /\ AddPeer 101 (ex_conn [9] "10.0.0.7:99") None (Ok (ex_info [9] "")) [] sw' = Some (Some ErrDuplicatePeer, sw', []).
Proof.
  destruct (@AddPeer_claimed_key one_resolver ex_env unit ex_book 100 (ex_conn [6] "10.0.0.1:99") (ex_info [9] "")
    [(str "PEX", None)] ex_sw) as (sw' & acts & Ha & _ & Hd).
  - reflexivity.
  - discriminate.
  - intros i' [= <-]. split; vm_compute; reflexivity.
  - reflexivity.
  - apply List.Forall_cons; [reflexivity|constructor].
  - exists sw', acts. split; [exact Ha|]. apply Hd; try reflexivity; [discriminate|].
    intros i' [= <-]. split; vm_compute; reflexivity.
Defined.

Lemma reactors_channels_witness :
  NewSwitch 25 tt ∅ = Some (@mkSwitch ex_env unit 25 false ∅ [] ∅ ∅ ∅ (mkNodeInfo [] [] [] [] [] [] []) tt ∅ ∅) /\
  (is_Some (add_reactors [(str "PEX", [0]); (str "PROTOCOL", [64])]
     (@mkSwitch ex_env unit 25 false ∅ [] ∅ ∅ ∅ (mkNodeInfo [] [] [] [] [] [] []) tt ∅ ∅))
   <-> NoDup (map ID (all_channels [(str "PEX", [0]); (str "PROTOCOL", [64])]))).
Proof.
  split; [reflexivity|]. eapply (@reactors_channels ex_env unit 25 tt ∅). reflexivity.
Defined.
