(* ===== verification/Join.v ===== *)
(** * Peers that join at the same time

    [AddPeer] of [p2p/switch.go] runs for several connections at once: the check that a key is
    not in the peer set, the start of the peer with what its reactors do, and the entry into the
    set are separate steps, and the error of a started peer removes its key from the set
    whoever is there.  Switch.v has the bans and the calls around; here are the lives of the peers,
    on a switch that runs, so that each peer past the check is started, and with at most one removal
    of each.  What then holds of the peer set, and what does not, is proved for every order. *)
From S2P Require Import Prelude Errors GoLib NodeInfo Resolve Switch.

(** ** Attempts *)
(** Where the call of [AddPeer] is: before the check, past it, with a started peer before the
    entry into the set, returned without an error, or returned with one. *)
Inductive phase := Shaken | Passed | Entering | Joined | Refused.

(** What becomes of a peer that was started: it runs, its connection has failed, it was removed
    from the peer set, it was stopped. *)
Inductive fate := Up | Failed | Removed | Down.

Record attempt := mkAttempt { at_phase : phase; at_fate : option fate }.

#[export] Instance phase_dec : EqDecision phase.
Proof. solve_decision. Defined.
#[export] Instance fate_dec : EqDecision fate.
Proof. solve_decision. Defined.

Section join.
(** The peer of each attempt. *)
Context `{Resolver, SwitchEnv} {book : Type} `{!AddrBookOps book} (peer_of : nat -> Peer).
Definition key (i : nat) : gostring := Key (peer_of i).

(** The attempts so far, and the attempt whose peer is in the set under a key. *)
Record joining := mkJoining { attempts : gmap nat attempt; joined : gmap gostring nat }.

Inductive jevent :=
| JConnect (i : nat)
| JCheck (i : nat)
| JStart (i : nat)
| JEnter (i : nat) (err : option error)
| JFail (i : nat)
| JRemove (i : nat)
| JStop (i : nat).

Definition set_attempt (i : nat) (a : attempt) (s : joining) : joining :=
  mkJoining (<[i := a]> (attempts s)) (joined s).

(** [filterConnByPeer] looks for the key; [startInitPeer] starts the peer, and [err] is what the
    reactors answer; [peers.Add] refuses a key that is there; an error of the connection, or a
    reactor that stops the peer, is one call of [stopAndRemovePeer]. *)
Definition jstep (e : jevent) (s : joining) : option joining :=
  match e with
  | JConnect i =>
      match attempts s !! i with
      | None => Some (set_attempt i (mkAttempt Shaken None) s)
      | Some _ => None
      end
  | JCheck i =>
      a ← attempts s !! i;
      match at_phase a with
      | Shaken => Some (set_attempt i (mkAttempt (if bool_decide (is_Some (joined s !! key i)) then Refused else Passed) (at_fate a)) s)
      | _ => None
      end
  | JStart i =>
      a ← attempts s !! i;
      match at_phase a with
      | Passed => Some (set_attempt i (mkAttempt Entering (Some Up)) s)
      | _ => None
      end
  | JEnter i err =>
      a ← attempts s !! i;
      match at_phase a, err with
      | Entering, Some _ => Some (set_attempt i (mkAttempt Refused (at_fate a)) s)
      | Entering, None =>
          if bool_decide (is_Some (joined s !! key i)) then Some (set_attempt i (mkAttempt Refused (at_fate a)) s)
          else Some (mkJoining (<[i := mkAttempt Joined (at_fate a)]> (attempts s)) (<[key i := i]> (joined s)))
      | _, _ => None
      end
  | JFail i =>
      a ← attempts s !! i;
      match at_fate a with Some Up => Some (set_attempt i (mkAttempt (at_phase a) (Some Failed)) s) | _ => None end
  | JRemove i =>
      a ← attempts s !! i;
      match at_fate a with
      | Some Failed => Some (mkJoining (<[i := mkAttempt (at_phase a) (Some Removed)]> (attempts s)) (delete (key i) (joined s)))
      | _ => None
      end
  | JStop i =>
      a ← attempts s !! i;
      match at_fate a with Some Removed => Some (set_attempt i (mkAttempt (at_phase a) (Some Down)) s) | _ => None end
  end.

Definition jrun (es : list jevent) (s : joining) : option joining := foldl (fun s e => s ← s; jstep e s) (Some s) es.
Definition no_attempts : joining := mkJoining ∅ ∅.

(** ** The peer set of the switch *)
(** The set of the switch has the peers of these attempts. *)
Definition shows_in (s : joining) (sw : Switch (book := book)) : Prop := peers sw = peer_of <$> joined s.

Lemma shows_has s (sw : Switch (book := book)) k : shows_in s sw -> is_Some (peers sw !! k) <-> is_Some (joined s !! k).
Proof. intros ->. rewrite lookup_fmap. apply fmap_is_Some. Qed.

(** The steps that look at the set or change it do what the functions of the switch do. *)
Lemma JCheck_filter s (sw : Switch (book := book)) i now err sw' :
  shows_in s sw -> filterConnByPeer now (peer_of i) sw = Some (err, sw') ->
  err = None -> joined s !! key i = None.
Proof.
  intros Hs Hf ->. destruct (joined s !! key i) as [j|] eqn:E; [|done]. exfalso. unfold filterConnByPeer in Hf.
  destruct (checkBannedPeer _ _ _) as [[e|] sw1] eqn:Ec; [done|]. unfold filter_key in Hf. destruct (Peer_PubKey _); cbn in Hf; [|done].
  assert (peers sw1 = peers sw) as Hp.
  { revert Ec. unfold checkBannedPeer, delBannedPeer, store_bans. destruct (bannedPeer sw !! _); [|by intros [= <-]].
    destruct (now <? z); [done|]. destruct (json_Marshal _); by intros [= <-]. }
  case_bool_decide; [by destruct (addrBookDelSelf _) as [[]|]|]. rewrite bool_decide_true in Hf; [done|].
  rewrite Hp, Hs, lookup_fmap. unfold key in E. rewrite E. by eexists.
Qed.

Lemma JEnter_Add s (sw : Switch (book := book)) i a s' :
  shows_in s sw -> attempts s !! i = Some a -> at_phase a = Entering -> jstep (JEnter i None) s = Some s' ->
  let '(err, sw') := peers_Add (peer_of i) sw in
  shows_in s' sw' /\ (err = None <-> attempts s' !! i = Some (mkAttempt Joined (at_fate a))).
Proof.
  intros Hs Ha Hp. cbn [jstep]. rewrite Ha. cbn [mbind option_bind]. rewrite Hp. unfold peers_Add.
  assert (bool_decide (is_Some (peers sw !! Key (peer_of i))) = bool_decide (is_Some (joined s !! key i))) as ->
    by (apply bool_decide_ext, shows_has, Hs).
  case_bool_decide; intros [= <-].
  - split; [done|]. split; [done|]. cbn. rewrite lookup_insert_eq. done.
  - split; [|split; [|done]]; [|cbn; by rewrite lookup_insert_eq]. unfold shows_in. cbn [set_peers peers joined]. rewrite Hs. symmetry. apply fmap_insert.
Qed.

Lemma JRemove_stop s (sw : Switch (book := book)) i it s' :
  shows_in s sw -> jstep (JRemove i) s = Some s' -> shows_in s' (stopAndRemovePeer it (peer_of i) sw).1.
Proof.
  intros Hs. cbn [jstep]. destruct (attempts s !! i) as [a|]; cbn; [|done]. destruct (at_fate a) as [[]|]; try done.
  intros [= <-]. unfold shows_in. cbn. rewrite Hs. symmetry. apply fmap_delete.
Qed.

(** ** What always holds *)
(** Only a started peer enters, joins or fails. *)
Definition legal (a : attempt) : Prop :=
  match at_phase a, at_fate a with
  | (Shaken | Passed), None | Refused, _ | (Entering | Joined), Some _ => True
  | _, _ => False
  end.

(** Under each key of the set is an attempt with this key that joined. *)
Record join_inv (s : joining) : Prop := {
  ji_legal i a : attempts s !! i = Some a -> legal a;
  ji_set k i : joined s !! k = Some i -> key i = k /\ exists f, attempts s !! i = Some (mkAttempt Joined (Some f));
}.

(** How a step changes an attempt. *)
Definition advance (a a' : attempt) : Prop :=
  (at_fate a' = at_fate a /\
    match at_phase a, at_phase a' with
    | Shaken, (Refused | Passed) => True
    | Entering, (Refused | Joined) => True
    | _, _ => False
    end) \/
  (at_phase a = Passed /\ a' = mkAttempt Entering (Some Up)) \/
  (at_phase a' = at_phase a /\
    match at_fate a, at_fate a' with
    | Some Up, Some Failed | Some Failed, Some Removed | Some Removed, Some Down => True
    | _, _ => False
    end).

(** The attempt that a step is of. *)
Definition event_of (e : jevent) : nat :=
  match e with JConnect i | JCheck i | JStart i | JEnter i _ | JFail i | JRemove i | JStop i => i end.

Lemma jstep_attempts e s s' : jstep e s = Some s' ->
  (forall j, j <> event_of e -> attempts s' !! j = attempts s !! j) /\
  ((e = JConnect (event_of e) /\ attempts s !! event_of e = None /\ attempts s' !! event_of e = Some (mkAttempt Shaken None)) \/
   exists a a', attempts s !! event_of e = Some a /\ attempts s' !! event_of e = Some a' /\ advance a a').
Proof.
  destruct e as [i|i|i|i err|i|i|i]; cbn [jstep event_of].
  { destruct (attempts s !! i) eqn:E; [done|]. intros [= <-]. cbn. split; [intros j Hj; by rewrite lookup_insert_ne|]. left. by rewrite lookup_insert_eq. }
  all: destruct (attempts s !! i) as [[p f]|] eqn:E; cbn; [|done];
    (repeat match goal with
      | |- context [match ?p with Shaken => _ | _ => _ end] => destruct p
      | |- context [match ?f with Some _ => _ | None => _ end] => destruct f
      | |- context [match ?f with Up => _ | _ => _ end] => destruct f
      | |- context [if ?b then _ else _] => destruct b
      end); try done; intros [= <-]; cbn;
    (split; [intros j Hj; by rewrite lookup_insert_ne|right; eexists _, _; split; [done|]; rewrite lookup_insert_eq; split; [done|]]);
    unfold advance; cbn; tauto.
Qed.

(** How a step changes the set. *)
Lemma jstep_joined e s s' : jstep e s = Some s' ->
  joined s' = joined s \/
  (exists f, joined s !! key (event_of e) = None /\ joined s' = <[key (event_of e) := event_of e]> (joined s) /\
     attempts s !! event_of e = Some (mkAttempt Entering f) /\ attempts s' !! event_of e = Some (mkAttempt Joined f)) \/
  (exists p, joined s' = delete (key (event_of e)) (joined s) /\
     attempts s !! event_of e = Some (mkAttempt p (Some Failed)) /\ attempts s' !! event_of e = Some (mkAttempt p (Some Removed))).
Proof.
  destruct e as [i|i|i|i err|i|i|i]; cbn [jstep event_of]; destruct (attempts s !! i) as [[p f]|] eqn:E; cbn; try done.
  - intros [= <-]. by left.
  - destruct p; try done. intros [= <-]. by left.
  - destruct p; try done. intros [= <-]. by left.
  - destruct p, err; try done; [intros [= <-]; by left|]. case_bool_decide as Hb; intros [= <-]; [by left|].
    right. left. exists f. cbn. rewrite lookup_insert_eq. split_and!; try done. by apply eq_None_not_Some.
  - destruct f as [[]|]; try done. intros [= <-]. by left.
  - destruct f as [[]|]; try done. intros [= <-]. right. right. exists p. cbn. by rewrite lookup_insert_eq.
  - destruct f as [[]|]; try done. intros [= <-]. by left.
Qed.

Lemma advance_legal a a' : legal a -> advance a a' -> legal a'.
Proof.
  destruct a as [p f], a' as [p' f']. unfold legal, advance. cbn. intros Hl [[-> Ha]|[[-> [= -> ->]]|[-> Ha]]]; [| done|].
  - by destruct p, p', f.
  - destruct p, f as [[]|], f' as [[]|]; done.
Qed.

Lemma jstep_inv e s s' : join_inv s -> jstep e s = Some s' -> join_inv s'.
Proof.
  intros [Hl Hs] He. destruct (jstep_attempts _ _ _ He) as [Ho Ha]. set (i := event_of e) in *.
  assert (forall j f, attempts s !! j = Some (mkAttempt Joined f) -> exists f', attempts s' !! j = Some (mkAttempt Joined f')) as Hj.
  { intros j f Hj. destruct (decide (j = i)) as [->|Hne]; [|exists f; by rewrite Ho].
    destruct Ha as [(_ & Hn & _)|(a & a' & Ha & Ha' & Hadv)]; [congruence|]. rewrite Hj in Ha. injection Ha as <-.
    destruct a' as [p' f']. exists f'. rewrite Ha'. do 2 f_equal. unfold advance in Hadv. cbn in Hadv. destruct Hadv as [[_ []]|[[? _]|[-> _]]]; done. }
  assert (forall j a, attempts s' !! j = Some a -> legal a) as Hl'.
  { intros j a Hja. destruct (decide (j = i)) as [->|Hne]; [|rewrite Ho in Hja by done; eauto].
    destruct Ha as [(_ & _ & Hn)|(b & b' & Hb & Hb' & Hadv)]; [rewrite Hn in Hja; by injection Hja as <-|].
    rewrite Hb' in Hja. injection Hja as <-. eapply advance_legal; eauto. }
  split; [done|]. intros k j Hk. assert (joined s !! k = Some j \/ (k = key i /\ j = i /\ exists f, attempts s' !! i = Some (mkAttempt Joined f))) as [Hold|(-> & -> & f & Hf)].
  { destruct (jstep_joined _ _ _ He) as [Eq|[(f & _ & Eq & _ & Hf)|(p & Eq & _)]]; fold i in Eq; rewrite Eq in Hk.
    - by left.
    - apply lookup_insert_Some in Hk as [[<- <-]|[_ Hk]]; [|by left]. right. split_and!; try done. by exists f.
    - apply lookup_delete_Some in Hk as [_ Hk]. by left. }
  - destruct (Hs k j Hold) as (Hk' & f & Hf). split; [done|]. destruct (Hj j _ Hf) as [f' Hf'].
    specialize (Hl' _ _ Hf'). destruct f' as [f'|]; [by exists f'|done].
  - split; [done|]. specialize (Hl' _ _ Hf). destruct f as [f|]; [by exists f|done].
Qed.

Lemma jrun_cons e es s : jrun (e :: es) s = s' ← jstep e s; jrun es s'.
Proof.
  unfold jrun. cbn. destruct (jstep e s); cbn; [done|]. induction es; [done|exact IHes].
Qed.

Lemma jrun_inv es : forall s s', join_inv s -> jrun es s = Some s' -> join_inv s'.
Proof.
  induction es as [|e es IH]; intros s s' Hi Hr; [by injection Hr as <-|]. rewrite jrun_cons in Hr.
  destruct (jstep e s) as [s1|] eqn:E; [|done]. eapply IH; [by eapply jstep_inv|done].
Qed.

Lemma no_attempts_inv : join_inv no_attempts.
Proof. split; intros *; cbn; by rewrite lookup_empty. Qed.
(** ** When the set is exact *)
(** No peer's connection fails between the peer's start and its entry. *)
Fixpoint calm (es : list jevent) (s : joining) : Prop :=
  match es with
  | [] => True
  | e :: es =>
      (match e with JFail i => (at_phase <$> attempts s !! i) <> Some Entering | _ => True end) /\
      match jstep e s with Some s' => calm es s' | None => True end
  end.

(** The attempts that are made have different keys. *)
Definition keys_differ (es : list jevent) : Prop :=
  forall i j, JConnect i ∈ es -> JConnect j ∈ es -> key i = key j -> i = j.

Section exact.
Context (D : nat -> Prop) (D_inj : forall i j, D i -> D j -> key i = key j -> i = j).

Record exact (s : joining) : Prop := {
  ex_inv : join_inv s;
  ex_D i a : attempts s !! i = Some a -> D i;
  ex_entering i f : attempts s !! i = Some (mkAttempt Entering f) -> f = Some Up;
  ex_there i f : attempts s !! i = Some (mkAttempt Joined (Some f)) -> f = Up \/ f = Failed -> joined s !! key i = Some i;
  ex_gone i f : attempts s !! i = Some (mkAttempt Joined (Some f)) -> f = Removed \/ f = Down -> joined s !! key i = None;
}.

(** What a step must keep of the attempt it is of. *)
Definition in_place (s : joining) (i : nat) (a : attempt) : Prop :=
  match a with
  | mkAttempt Entering f => f = Some Up
  | mkAttempt Joined (Some (Up | Failed)) => joined s !! key i = Some i
  | mkAttempt Joined (Some (Removed | Down)) => joined s !! key i = None
  | _ => True
  end.

Lemma exact_in_place s : join_inv s -> (forall i a, attempts s !! i = Some a -> D i /\ in_place s i a) -> exact s.
Proof.
  intros Hi Ha. split; [done|intros i a Hd; apply (Ha _ _ Hd)| | |].
  - intros i f Hf. by apply Ha in Hf as [_ Hf].
  - intros i f Hf Hor. apply Ha in Hf as [_ Hf]. by destruct Hor as [-> | ->].
  - intros i f Hf Hor. apply Ha in Hf as [_ Hf]. by destruct Hor as [-> | ->].
Qed.

Lemma in_place_exact s i a : exact s -> attempts s !! i = Some a -> D i /\ in_place s i a.
Proof.
  intros [_ HD He Ht Hg] Ha. split; [eauto|]. destruct a as [[] [[]|]]; cbn; eauto; try done; by apply He in Ha.
Qed.

(** The other attempts keep their place, since their keys are others. *)
Lemma in_place_other s s' i j a : D i -> D j -> i <> j -> attempts s !! j = Some a -> in_place s j a ->
  joined s' = joined s \/ joined s' = <[key i := i]> (joined s) \/ joined s' = delete (key i) (joined s) ->
  in_place s' j a.
Proof.
  intros Hi Hj Hne Ha Hp Hs. assert (key i <> key j) as Hk by (intros Hk; apply Hne; by apply D_inj).
  assert (joined s' !! key j = joined s !! key j) as Hl.
  { destruct Hs as [-> |[-> | ->]]; [done|by apply lookup_insert_ne|by apply lookup_delete_ne]. }
  destruct a as [[] [[]|]]; cbn in *; done || congruence.
Qed.

Lemma jstep_exact e s s' : exact s -> (forall i, e = JConnect i -> D i) ->
  (forall i a, e = JFail i -> attempts s !! i = Some a -> at_phase a <> Entering) -> jstep e s = Some s' -> exact s'.
Proof.
  intros Hx Hc Hf Hst. pose proof (jstep_inv _ _ _ (ex_inv _ Hx) Hst) as Hi'.
  destruct (jstep_attempts _ _ _ Hst) as [Ho Ha]. set (i := event_of e) in *.
  assert (D i) as HDi. { destruct Ha as [(He & _)|(b & b' & Hb & _)]; [by apply Hc|by eapply ex_D]. }
  assert (joined s' = joined s \/ joined s' = <[key i := i]> (joined s) \/ joined s' = delete (key i) (joined s)) as Hjoin.
  { destruct (jstep_joined _ _ _ Hst) as [?|[(f & _ & ? & _)|(p & ? & _)]]; auto. }
  apply exact_in_place; [done|]. intros j a Hj. destruct (decide (i = j)) as [<-|Hne].
  2: { rewrite Ho in Hj by done. destruct (in_place_exact _ _ _ Hx Hj) as [HDj Hp]. split; [done|]. by apply (in_place_other s s' i j a). }
  split; [done|]. clear Ho Hjoin Hi' Hc. destruct Ha as [(He & _ & Hn)|(b & b' & Hb & Hb' & _)]; [rewrite Hn in Hj; by injection Hj as <-|].
  destruct (in_place_exact _ _ _ Hx Hb) as [_ Hp]. pose proof (ji_legal _ (ex_inv _ Hx) _ _ Hb) as Hl. clear Hb' b'.
  destruct b as [p f]. destruct e as [k|k|k|k err|k|k|k]; cbn in i; subst i; cbn [jstep] in Hst; rewrite Hb in Hst; cbn in Hst; try done.
  - destruct p; try done. injection Hst as <-. cbn in Hj. rewrite lookup_insert_eq in Hj. injection Hj as <-. by case_bool_decide.
  - destruct p; try done. injection Hst as <-. cbn in Hj. rewrite lookup_insert_eq in Hj. by injection Hj as <-.
  - destruct p, err; try done; [injection Hst as <-; cbn in Hj; rewrite lookup_insert_eq in Hj; by injection Hj as <-|].
    case_bool_decide; injection Hst as <-; cbn in Hj; rewrite lookup_insert_eq in Hj; injection Hj as <-; [done|].
    cbn in Hp. subst f. cbn. apply lookup_insert_eq.
  - destruct f as [[]|]; try done. injection Hst as <-. cbn in Hj. rewrite lookup_insert_eq in Hj. injection Hj as <-.
    specialize (Hf k _ eq_refl Hb). by destruct p.
  - destruct f as [[]|]; try done. injection Hst as <-. cbn in Hj. rewrite lookup_insert_eq in Hj. injection Hj as <-.
    destruct p; cbn; try done. apply lookup_delete_eq.
  - destruct f as [[]|]; try done. injection Hst as <-. cbn in Hj. rewrite lookup_insert_eq in Hj. injection Hj as <-. by destruct p.
Qed.

Lemma jrun_exact es : forall s s', exact s -> (forall i, JConnect i ∈ es -> D i) -> calm es s -> jrun es s = Some s' -> exact s'.
Proof.
  induction es as [|e es IH]; intros s s' Hx Hd Hc Hr; [by injection Hr as <-|]. rewrite jrun_cons in Hr.
  destruct Hc as [Hf Hc]. destruct (jstep e s) as [s1|] eqn:E; [|done].
  eapply (IH s1); [|intros i Hi; apply Hd; by right|exact Hc|exact Hr].
  eapply jstep_exact; [done| | |done]; [intros i ->; apply Hd; by left|]. intros i a -> Ha Hp. apply Hf. by rewrite Ha, <- Hp.
Qed.
End exact.

(** C13: Connections join in any interleaving.  The set always has, under each key, one attempt with
    this key whose call returned without an error.  If the attempts have different keys and no
    connection fails while its peer is about to enter, the set has exactly the peers that joined and
    were not removed: those that run, and those whose failure is being handled. *)
Theorem join_set (es : list jevent) (s : joining) : jrun es no_attempts = Some s ->
  (forall k i, joined s !! k = Some i -> key i = k /\ exists f, attempts s !! i = Some (mkAttempt Joined (Some f))) /\
  (keys_differ es -> calm es no_attempts ->
    forall i, joined s !! key i = Some i <->
      attempts s !! i = Some (mkAttempt Joined (Some Up)) \/ attempts s !! i = Some (mkAttempt Joined (Some Failed))).
Proof.
  intros Hr. pose proof (jrun_inv _ _ _ no_attempts_inv Hr) as Hi. split; [apply Hi|]. intros Hk Hc i.
  assert (exact (fun i => JConnect i ∈ es) s) as [_ _ _ Ht Hg].
  { eapply jrun_exact; [exact Hk| |done|exact Hc|exact Hr]. apply exact_in_place; [apply no_attempts_inv|]. intros j a. cbn. by rewrite lookup_empty. }
  split.
  - intros Hj. destruct (ji_set _ Hi _ _ Hj) as (_ & f & Hf). destruct f; [by left|by right|..];
      (rewrite (Hg _ _ Hf) in Hj by auto; done).
  - intros [Hj|Hj]; eapply Ht; eauto.
Qed.

(** ** When it is not *)
(** Evaluates a run of given events on attempts that are variables. *)
Local Ltac run_step := progress (cbn [mbind option_bind jstep set_attempt attempts joined no_attempts at_phase at_fate])
  || rewrite lookup_empty || rewrite lookup_insert_eq || (rewrite lookup_insert_ne by done)
  || (rewrite bool_decide_false by (by intros [])).
(** Two attempts with one key that are both past the check: when the first one's connection fails,
    the second, which has joined and runs, is no longer in the set. *)
Theorem joined_removed (i j : nat) : i <> j -> key i = key j ->
  exists s, jrun [JConnect i; JCheck i; JStart i; JConnect j; JCheck j; JStart j; JEnter j None; JFail i; JRemove i] no_attempts = Some s /\
    attempts s !! j = Some (mkAttempt Joined (Some Up)) /\ joined s !! key j = None.
Proof.
  intros Hne Hk. unfold jrun. cbn [foldl].
  repeat run_step.
  eexists. split; [reflexivity|]. cbn [attempts joined]. split.
  - rewrite !(lookup_insert_ne _ i j) by done. apply lookup_insert_eq.
  - rewrite Hk. apply lookup_delete_eq.
Qed.

(** A dead peer in the set, and of its key nothing else but attempts that were refused or are not
    checked yet. *)
Definition blocked (i : nat) (s : joining) : Prop :=
  joined s !! key i = Some i /\ attempts s !! i = Some (mkAttempt Joined (Some Down)) /\
  forall j a, j <> i -> key j = key i -> attempts s !! j = Some a -> a = mkAttempt Shaken None \/ a = mkAttempt Refused None.

Lemma jstep_blocked i e s s' : blocked i s -> jstep e s = Some s' -> blocked i s'.
Proof.
  intros (Hj & Hi & Ho) Hst. destruct (jstep_attempts _ _ _ Hst) as [Hother Ha]. set (k := event_of e) in *.
  assert (k <> i) as Hki.
  { intros ->. destruct Ha as [(_ & Hn & _)|(a & a' & Ha & _ & Hadv)]; [congruence|]. rewrite Hi in Ha. injection Ha as <-.
    unfold advance in Hadv. cbn in Hadv. destruct Hadv as [[_ []]|[[? _]|[_ []]]]. done. }
  split; [|split; [by rewrite Hother|]].
  - destruct (jstep_joined _ _ _ Hst) as [->|[(f & Hn & -> & _)|(p & -> & Hp & _)]]; [done|..]; fold k.
    + fold k in Hn. rewrite lookup_insert_ne; [done|]. intros E. rewrite E in Hn. congruence.
    + fold k in Hp. rewrite lookup_delete_ne; [done|]. intros E. destruct (Ho k _ Hki E Hp); congruence.
  - intros j a Hji Hkj Hja. destruct (decide (j = k)) as [->|Hjk]; [|rewrite Hother in Hja by done; eauto].
    destruct Ha as [(_ & _ & Hn)|(b & b' & Hb & _)]; [rewrite Hn in Hja; injection Hja as <-; by left|].
    assert (is_Some (joined s !! key k)) as Hset by (rewrite Hkj, Hj; by eexists).
    pose proof (Ho k b Hji Hkj Hb) as Hbb. clear Ho Hother. subst k.
    destruct e as [k|k|k|k err|k|k|k]; cbn in *; rewrite Hb in Hst; cbn in Hst; destruct Hbb as [-> | ->]; cbn in Hst; try done.
    rewrite bool_decide_true in Hst by done. injection Hst as <-. cbn in Hja. rewrite lookup_insert_eq in Hja. injection Hja as <-. by right.
Qed.

(** A peer whose connection fails between its start and its entry is entered after it was removed:
    it is in the set and does not run, and as long as nothing else stops it, whatever happens,
    it stays there and every other connection with its key is refused. *)
Theorem dead_peer_blocks (i : nat) (es : list jevent) (s s' : joining) :
  jrun [JConnect i; JCheck i; JStart i; JFail i; JRemove i; JStop i; JEnter i None] no_attempts = Some s -> jrun es s = Some s' ->
  joined s' !! key i = Some i /\ attempts s' !! i = Some (mkAttempt Joined (Some Down)) /\
  forall j a, j <> i -> key j = key i -> attempts s' !! j = Some a -> at_phase a = Shaken \/ at_phase a = Refused.
Proof.
  intros Hs Hr. assert (blocked i s) as Hb.
  { revert Hs. unfold jrun. cbn [foldl]. repeat run_step. rewrite delete_empty. repeat run_step. intros Hs. injection Hs as <-. unfold blocked. cbn [attempts joined].
    rewrite !lookup_insert_eq. split; [done|]. split; [done|]. intros j a Hne _. by rewrite !lookup_insert_ne, lookup_empty by done. }
  assert (blocked i s') as (H1 & H2 & H3).
  { clear Hs. revert s Hb Hr. induction es as [|e es IH]; intros s Hb Hr; [by injection Hr as <-|]. rewrite jrun_cons in Hr.
    destruct (jstep e s) as [s1|] eqn:E; [|done]. eapply (IH s1); [by eapply jstep_blocked|done]. }
  split; [done|]. split; [done|]. intros j a Hne Hk Hj. destruct (H3 j a Hne Hk Hj) as [-> | ->]; auto.
Qed.
End join.

(** *** A concrete run *)
(** Two connections join; the first one fails and is removed. *)
Definition ex_joins : list jevent :=
  [JConnect 0; JConnect 1; JCheck 0; JCheck 1; JStart 1; JStart 0; JEnter 0 None; JEnter 1 None; JFail 0; JRemove 0].
Definition ex_peer (i : nat) : Peer :=
  mkPeer (mkPeerConn false true [Z.of_nat i] []) (mkNodeInfo [Z.of_nat i] [] [] [] [] [] []) [Z.of_nat i].

Lemma join_set_witness : exists s, jrun ex_peer ex_joins no_attempts = Some s /\
  joined s !! key ex_peer 0 <> Some 0%nat /\ joined s !! key ex_peer 1 = Some 1%nat.
Proof.
  destruct (jrun ex_peer ex_joins no_attempts) as [s|] eqn:Hr; [|vm_compute in Hr; discriminate Hr]. exists s. split; [reflexivity|].
  destruct (join_set ex_peer ex_joins s Hr) as [_ Hx].
  assert (forall i, joined s !! key ex_peer i = Some i <-> attempts s !! i = Some (mkAttempt Joined (Some Up)) \/
    attempts s !! i = Some (mkAttempt Joined (Some Failed))) as Hall.
  { apply Hx.
    - intros i j _ _ E. injection E as E. lia.
    - vm_compute. repeat split; discriminate. }
  vm_compute in Hr. injection Hr as <-. split.
  - intros H0. apply (Hall 0%nat) in H0. vm_compute in H0. destruct H0 as [H0|H0]; discriminate H0.
  - apply (Hall 1%nat). left. vm_compute. reflexivity.
Defined.
