(* ===== verification/Pex.v ===== *)
(** * Peer exchange

    Models [p2p/pex/pex_reactor.go] and [DecodeMessage] of [p2p/pex/pex_message.go]: the limit
    on a peer's messages, the handling of requests and addresses, and the choice of the
    addresses to dial.  The address book is the class [PexBook]; whether a message could be
    sent, and what a dial or a pick from the book gave, are arguments; go-wire is a parameter. *)
From S2P Require Import Prelude Errors GoLib NetAddress NodeInfo Resolve Connection Switch.

Inductive PexMessage :=
| pexRequestMessage
| pexAddrsMessage (Addrs : list NetAddress)
| otherMessage.

(** What an address book promises to the reactor. *)
Class PexBook (book : Type) := {
  NeedMoreAddrs : book -> bool;
  GetSelection : book -> list NetAddress;
  AddAddress : NetAddress -> NetAddress -> book -> option error * book;
  MarkAttempt : NetAddress -> book -> book;
  MarkGood : NetAddress -> book -> book;
  SaveToFile : book -> option error;
}.

(** Reading a message of at most a maximal size from bytes with go-wire. *)
Class PexWire := read_pex : Z -> bytes -> PexMessage * option error.

Section Pex.
Context `{Resolver, SwitchEnv, PexWire} {book : Type} `{!PexBook book}.

Definition PexChannel : Z := 0.
Definition minNumOutboundPeers : Z := 5.
Definition maxPexMessageSize : Z := 1048576.
Definition defaultMaxMsgCountByPeer : Z := 1000.

Definition msgTypeRequest : Z := 1.
Definition msgTypeAddrs : Z := 2.

Record PEXReactor := mkReactor { r_book : book; msgCountByPeer : gmap gostring Z }.

Definition NewPEXReactor (b : book) : PEXReactor := mkReactor b ∅.

Definition Pex_GetChannels : list ChannelDescriptor := [mkDesc PexChannel 1 10 0 0].

Inductive paction :=
| StopGracefully (p : Peer)
| SendRequest (p : Peer)
| SendAddrs_ (p : Peer) (addrs : list NetAddress)
| Dial (a : NetAddress).

(** [None] is the panic on no bytes. *)
Definition DecodeMessage (bz : bytes) : option (Z * PexMessage * option error) :=
  msgType ← head bz;
  let '(msg, err) := read_pex maxPexMessageSize bz in
  Some (msgType, msg, err).

(** [ok] is the result of [TrySend]. *)
Definition RequestAddrs (p : Peer) (ok : bool) : bool * list paction :=
  (ok, SendRequest p :: if ok then [] else [StopGracefully p]).

Definition SendAddrs (p : Peer) (addrs : list NetAddress) (ok : bool) : bool * list paction :=
  (ok, SendAddrs_ p addrs :: if ok then [] else [StopGracefully p]).

(** *** The limit *)
Definition incrementMsgCount (addr : gostring) (r : PEXReactor) : PEXReactor :=
  let count := default 0 (msgCountByPeer r !! addr) in
  let count := u16 (count + 1) in
  mkReactor (r_book r) (<[addr := count]> (msgCountByPeer r)).

(** [None] is the panic of the type assertion on a missing count. *)
Definition reachedMaxMsgLimit (addr : gostring) (r : PEXReactor) : option bool :=
  count ← msgCountByPeer r !! addr; Some (defaultMaxMsgCountByPeer <=? count).

Definition flushMsgCountByPeer (r : PEXReactor) : PEXReactor := mkReactor (r_book r) ∅.

(** *** Messages *)
Fixpoint add_addresses (p : Peer) (src : NetAddress) (addrs : list NetAddress) (r : PEXReactor)
    : PEXReactor * list paction :=
  match addrs with
  | [] => (r, [])
  | addr :: addrs =>
      let '(err, b) := AddAddress addr src (r_book r) in
      let r := mkReactor b (msgCountByPeer r) in
      match err with
      | Some _ => (r, [StopGracefully p])
      | None => add_addresses p src addrs r
      end
  end.

Definition handle (p : Peer) (msg : PexMessage) (ok : bool) (r : PEXReactor)
    : option (PEXReactor * list paction) :=
  match msg with
  | pexRequestMessage => Some (r, (SendAddrs p (GetSelection (r_book r)) ok).2)
  | pexAddrsMessage addrs =>
      src ← NewNetAddressString (RemoteAddr (info p));
      Some (match src with
            | Err _ => (r, [])
            | Ok srcAddr => add_addresses p srcAddr addrs r
            end)
  | otherMessage => Some (r, [])
  end.

(** The outer [None] is a panic. *)
Definition Receive (p : Peer) (rawMsg : bytes) (ok : bool) (r : PEXReactor)
    : option (PEXReactor * list paction) :=
  let r := incrementMsgCount (RemoteAddr (info p)) r in
  limit ← reachedMaxMsgLimit (RemoteAddr (info p)) r;
  if (limit : bool) then Some (r, [StopGracefully p])
  else
    '(_, msg, err) ← DecodeMessage rawMsg;
    match err with
    | Some _ => Some (r, [StopGracefully p])
    | None => handle p msg ok r
    end.

(** *** New peers *)
(** [size] is the number of the switch's peers, [max] its [MaxNumPeers]. *)
Definition Pex_AddPeer (p : Peer) (ok : bool) (size max : Z) (r : PEXReactor)
    : option (option error * PEXReactor * list paction) :=
  if IsOutbound p then
    if NeedMoreAddrs (r_book r) then
      let '(sent, acts) := RequestAddrs p ok in
      Some (if sent then None else Some (EMsg (str "Send pex message fail")), r, acts)
    else Some (None, r, [])
  else
    addr ← NewNetAddressString (ListenAddr (info p));
    match addr with
    | Err _ => Some (Some (EMsg (str "addPeer: invalid peer address")), r, [])
    | Ok addr =>
        let '(err, b) := AddAddress addr addr (r_book r) in
        let r := mkReactor b (msgCountByPeer r) in
        match err with
        | Some err => Some (Some err, r, [])
        | None =>
            if max <=? size then
              let '(sent, acts) := SendAddrs p (GetSelection (r_book r)) ok in
              Some (Some (EMsg (str "addPeer: reach the max peer, exchange then close")), r,
                    if sent then acts ++ [StopGracefully p] else acts)
            else Some (None, r, [])
        end
    end.

(** *** Dialing *)
(** [err] is the outcome of the dial. *)
Definition dialPeerWorker (a : NetAddress) (err : option error) (r : PEXReactor) : PEXReactor :=
  mkReactor (match err with
             | Some _ => MarkAttempt a (r_book r)
             | None => MarkGood a (r_book r)
             end) (msgCountByPeer r).

(** The addresses the loop of [ensurePeers] selects; [picks] are the results of the successive
    calls of [PickAddress], of which it takes [maxAttempts] at most. *)
Fixpoint select_dials (maxAttempts : nat) (numToDial : Z) (isDialing : NetAddress -> bool)
    (connectedPeers : gset gostring) (picks : list (option NetAddress)) (toDial : gmap gostring NetAddress)
    : gmap gostring NetAddress :=
  match maxAttempts, picks with
  | S n, try :: picks =>
      if Z.of_nat (size toDial) <? numToDial then
        let continue := select_dials n numToDial isDialing connectedPeers picks in
        match try with
        | None => continue toDial
        | Some a =>
            let ip := IP_String (na_IP a) in
            if bool_decide (is_Some (toDial !! ip)) then continue toDial
            else if isDialing a then continue toDial
            else if bool_decide (ip ∈ connectedPeers) then continue toDial
            else continue (<[ip := a]> toDial)
        end
      else toDial
  | _, _ => toDial
  end.

Definition numToDial_of (numOutPeers numDialing : Z) : Z :=
  i64 (i64 (minNumOutboundPeers - i64 (numOutPeers + numDialing)) * 3).

(** The bias given to [PickAddress]. *)
Definition newBias_of (numOutPeers : Z) : Z := Z.min numOutPeers 8 * 10 + 10.

Definition ensure_dials {book'} (sw : @Switch _ book') (picks : list (option NetAddress)) : gmap gostring NetAddress :=
  let '(numOutPeers, _, numDialing) := NumPeers sw in
  let numToDial := numToDial_of numOutPeers numDialing in
  if numToDial <=? 0 then ∅
  else
    let maxAttempts := i64 (numToDial * 3) in
    let connectedPeers : gset gostring :=
      list_to_set (map (fun x => Peer_RemoteAddrHost x.2) (map_to_list (peers sw))) in
    select_dials (Z.to_nat maxAttempts) numToDial (fun a => IsDialing a sw) connectedPeers picks ∅.

(** The addresses [dialSeeds] enters into the book; the nil address that an unusable listen
    address leaves is [None], and reading it is a panic. *)
Fixpoint add_seeds (netAddrs : list NetAddress) (ourAddr : option NetAddress) (b : book) : option book :=
  match netAddrs with
  | [] => Some b
  | netAddr :: netAddrs =>
      match ourAddr with
      | None => go_panic
      | Some our =>
          if NetAddress_Equals netAddr (Some our) then add_seeds netAddrs ourAddr b
          else add_seeds netAddrs ourAddr (AddAddress netAddr our b).2
      end
  end.

(** Every second element of the permutation. *)
Fixpoint every_second {A} (l : list A) : list A :=
  match l with
  | x :: _ :: l => x :: every_second l
  | l => l
  end.

(** [seeds] is the configured list, [perm] the random permutation of its positions. *)
Definition dialSeeds (seeds listenAddr : gostring) (perm : list nat) (r : PEXReactor)
    : option (PEXReactor * list paction) :=
  if bool_decide (seeds = []) then Some (r, [])
  else
    netAddrs ← NewNetAddressStrings (Split 44 seeds);
    let netAddrs := match netAddrs with Ok l => l | Err _ => [] end in
    ourAddr ← NewNetAddressString listenAddr;
    let ourAddr := match ourAddr with Ok a => Some a | Err _ => None end in
    b ← add_seeds netAddrs ourAddr (r_book r);
    dials ← mapM (fun i => netAddrs !! i) (every_second perm);
    Some (mkReactor b (msgCountByPeer r), map Dial dials).

(** *** The routine *)
(** What a call of [ensurePeers] did: whom it dialed, and the peer that it asked for addresses. *)
Record ensured := mkEnsured { dialed : gmap gostring NetAddress; asked : option Peer }.

(** [err] is the outcome of each dial, [order] the order in which the workers end, [needMore] what
    the book answers then, [after] the peers that the switch lists then, and [rnd] the random number. *)
Definition ensurePeers {book'} (sw : @Switch _ book') (picks : list (option NetAddress)) (err : NetAddress -> option error)
    (order : gmap gostring NetAddress -> list NetAddress) (needMore : book -> bool) (after : list Peer) (rnd : Z) (r : PEXReactor)
    : PEXReactor * ensured :=
  let '(numOutPeers, _, numDialing) := NumPeers sw in
  if numToDial_of numOutPeers numDialing <=? 0 then (r, mkEnsured ∅ None)
  else
    let toDial := ensure_dials sw picks in
    let r := foldl (fun r a => dialPeerWorker a (err a) r) r (order toDial) in
    (r, mkEnsured toDial
          (if needMore (r_book r) && (0 <? #after) then after !! Z.to_nat (rnd mod #after) else None)).

(** What the select of [ensurePeersRoutine] receives, and whether it then calls [ensurePeers];
    [None] is the end of the routine.  [size] is the number of the switch's peers. *)
Inductive pex_event := Tick | QuickTick | PexQuit.
Definition ensurePeersRoutine_step (e : pex_event) (size : Z) : option bool :=
  match e with
  | Tick => Some true
  | QuickTick => Some (size <? 3)
  | PexQuit => None
  end.
(** Before the loop it calls [ensurePeers] and then, with few peers, [dialSeeds]. *)
Definition ensurePeersRoutine_start (size : Z) : bool := size <? 3.

(** [OnStart]: the error of the book's start, and whether the two routines are started. *)
Definition Pex_OnStart (book_Start : option error) : option error * bool :=
  match book_Start with Some err => (Some err, false) | None => (None, true) end.

(** The peer that is asked for addresses is one of those listed, and only a book that needs
    more makes the reactor ask. *)
Lemma ensurePeers_asks {book'} (sw : @Switch _ book') picks err order needMore after rnd r r' e :
  ensurePeers sw picks err order needMore after rnd r = (r', e) ->
  (forall p, asked e = Some p -> p ∈ after /\ needMore (r_book r') = true) /\
  (asked e = None -> numToDial_of (NumPeers sw).1.1 (NumPeers sw).2 <= 0 \/ needMore (r_book r') = false \/ after = []).
Proof.
  unfold ensurePeers. destruct (NumPeers sw) as [[o i] d]. cbn [fst snd]. case_on; intros [= <- <-]; cbn [asked].
  { split; [done|]. intros _. left. zbool. lia. }
  destruct (needMore _); cbn [andb]; [|by split; [|auto]]. destruct (Z.ltb_spec 0 #after) as [Hl|Hl].
  - split; [intros p Hp; split; [by eapply list_elem_of_lookup_2|done]|]. intros Hn. exfalso. apply lookup_ge_None in Hn.
    pose proof (Z.mod_pos_bound rnd #after Hl). unfold zlen in *. lia.
  - split; [done|]. intros _. right. right. destruct after; [done|unfold zlen in Hl; cbn in Hl; lia].
Qed.

(** ** The limit on messages *)
(** Messages in the order of their arrival: the peer, the bytes, and whether an answer can be sent. *)
Fixpoint receive_all (ms : list (Peer * bytes * bool)) (r : PEXReactor) : option (PEXReactor * list paction) :=
  match ms with
  | [] => Some (r, [])
  | (p, raw, ok) :: ms =>
      '(r, acts) ← Receive p raw ok r;
      '(r, acts') ← receive_all ms r;
      Some (r, acts ++ acts')
  end.

Definition from (a : gostring) (ms : list (Peer * bytes * bool)) : Z :=
  #(filter (fun m => RemoteAddr (info m.1.1) = a) ms).

Definition count_of (a : gostring) (r : PEXReactor) : Z := default 0 (msgCountByPeer r !! a).

Lemma add_addresses_counts p src l : forall r,
  msgCountByPeer (add_addresses p src l r).1 = msgCountByPeer r.
Proof.
  induction l as [|a l IH]; intros r; cbn [add_addresses]; [done|].
  destruct (AddAddress a src (r_book r)) as [[err|] b]; [done|]. by rewrite IH.
Qed.

Lemma handle_counts p msg ok r r' acts : handle p msg ok r = Some (r', acts) -> msgCountByPeer r' = msgCountByPeer r.
Proof.
  unfold handle. destruct msg; intros Hh; simplify_eq; try done.
  destruct (NewNetAddressString _) as [[a|e]|]; cbn in Hh; simplify_eq; [|done].
  match goal with H : add_addresses ?p ?a ?l ?r = _ |- _ => pose proof (add_addresses_counts p a l r) as Hc; rewrite H in Hc end.
  done.
Qed.

Lemma Receive_counts p raw ok r r' acts : Receive p raw ok r = Some (r', acts) ->
  msgCountByPeer r' = <[RemoteAddr (info p) := u16 (count_of (RemoteAddr (info p)) r + 1)]> (msgCountByPeer r).
Proof.
  unfold Receive. set (r1 := incrementMsgCount _ r). intros Hr.
  assert (msgCountByPeer r' = msgCountByPeer r1) as ->; [|done].
  destruct (reachedMaxMsgLimit _ r1) as [[]|]; [by cbn in Hr; simplify_eq| |done]. cbn in Hr.
  destruct (DecodeMessage raw) as [[[? ?] [?|]]|]; cbn in Hr; simplify_eq; [done|]. by eapply handle_counts.
Qed.

Lemma receive_all_counts a ms : forall r r' acts, receive_all ms r = Some (r', acts) ->
  0 <= count_of a r -> count_of a r + from a ms < 2 ^ 16 -> count_of a r' = count_of a r + from a ms.
Proof.
  induction ms as [|[[p raw] ok] ms IH]; intros r r' acts Hr H0' Hlt; cbn [receive_all] in Hr.
  { simplify_eq. change (from a []) with 0. lia. }
  destruct (Receive p raw ok r) as [[r1 a1]|] eqn:E1; [|done]. cbn in Hr.
  destruct (receive_all ms r1) as [[r2 a2]|] eqn:E2; [|done]. cbn in Hr. simplify_eq.
  apply Receive_counts in E1. unfold from in *. rewrite filter_cons in *. cbn [fst] in *.
  pose proof (zlen_nonneg (filter (fun m : Peer * bytes * bool => RemoteAddr (info m.1.1) = a) ms)).
  case_on; [rewrite zlen_cons in *|].
  - assert (count_of a r1 = count_of a r + 1) as Hc.
    { unfold count_of at 1. rewrite E1. subst a. rewrite lookup_insert_eq. cbn. apply wrap_small. lia. }
    rewrite (IH _ _ _ E2) by lia. lia.
  - assert (count_of a r1 = count_of a r) as Hc by (unfold count_of; by rewrite E1, lookup_insert_ne).
    by rewrite (IH _ _ _ E2), Hc by lia.
Qed.

Lemma Receive_limit p raw ok r : let a := RemoteAddr (info p) in
  Receive p raw ok r
  = if 1000 <=? u16 (count_of a r + 1) then Some (incrementMsgCount a r, [StopGracefully p])
    else '(_, msg, err) ← DecodeMessage raw;
         match err with
         | Some _ => Some (incrementMsgCount a r, [StopGracefully p])
         | None => handle p msg ok (incrementMsgCount a r)
         end.
Proof.
  cbv zeta. unfold Receive, reachedMaxMsgLimit. set (r1 := incrementMsgCount _ r).
  assert (msgCountByPeer r1 !! RemoteAddr (info p) = Some (u16 (count_of (RemoteAddr (info p)) r + 1))) as ->.
  { unfold r1, incrementMsgCount. cbn [msgCountByPeer]. apply lookup_insert_eq. }
  done.
Qed.

(** Between two flushes of the counts, once 999 messages have come from an address every
    further message from it, whatever the messages of others in between, is answered by
    stopping the peer: it is not decoded, and the address book stays as it is.  Below that it is
    decoded and handled.  After 65535 messages the 16-bit count starts again from zero. *)
Theorem message_limit ms r0 r acts p raw ok : let a := RemoteAddr (info p) in
  receive_all ms (flushMsgCountByPeer r0) = Some (r, acts) -> from a ms < 2 ^ 16 ->
  Receive p raw ok r
  = (if (999 <=? from a ms) && (from a ms <? 65535) then Some (incrementMsgCount a r, [StopGracefully p])
     else '(_, msg, err) ← DecodeMessage raw;
          match err with
          | Some _ => Some (incrementMsgCount a r, [StopGracefully p])
          | None => handle p msg ok (incrementMsgCount a r)
          end)
  /\ r_book (incrementMsgCount a r) = r_book r.
Proof.
  intros a Hr Hlt. split; [|done]. rewrite Receive_limit. fold a.
  assert (count_of a (flushMsgCountByPeer r0) = 0) as Hz by done.
  assert (0 <= from a ms) by apply zlen_nonneg.
  rewrite (receive_all_counts a ms _ _ _ Hr) by lia. rewrite Hz, Z.add_0_l.
  destruct (decide (from a ms = 65535)) as [E|].
  - rewrite E. done.
  - rewrite wrap_small by lia. rewrite (proj2 (Z.ltb_lt (from a ms) 65535)), andb_true_r by lia.
    destruct (Z.leb_spec 1000 (from a ms + 1)), (Z.leb_spec 999 (from a ms)); done || lia.
Qed.

(** ** Dialing *)
Lemma select_dials_spec n numToDial isD conn : forall picks toDial,
  Z.of_nat (size toDial) <= Z.max 0 numToDial ->
  let d := select_dials n numToDial isD conn picks toDial in
  Z.of_nat (size d) <= Z.max 0 numToDial
  /\ forall ip a, d !! ip = Some a -> toDial !! ip = Some a \/
       (IP_String (na_IP a) = ip /\ Some a ∈ take n picks /\ isD a = false /\ (ip ∉ conn)).
Proof.
  induction n as [|n IH]; intros picks toDial Hs; cbn [select_dials]; [split; [done|by left]|].
  destruct picks as [|try picks]; [split; [done|by left]|].
  destruct (Z.ltb_spec (Z.of_nat (size toDial)) numToDial) as [Hlt|]; [|split; [done|by left]].
  assert (forall td, Z.of_nat (size td) <= Z.max 0 numToDial ->
    (forall ip a, td !! ip = Some a -> toDial !! ip = Some a \/
       (IP_String (na_IP a) = ip /\ Some a ∈ take (S n) (try :: picks) /\ isD a = false /\ (ip ∉ conn))) ->
    let d := select_dials n numToDial isD conn picks td in
    Z.of_nat (size d) <= Z.max 0 numToDial
    /\ forall ip a, d !! ip = Some a -> toDial !! ip = Some a \/
       (IP_String (na_IP a) = ip /\ Some a ∈ take (S n) (try :: picks) /\ isD a = false /\ (ip ∉ conn))) as Hgo.
  { intros td Htd Hsub. destruct (IH picks td Htd) as [Hsz Hel]. split; [done|]. intros ip a Hl.
    destruct (Hel ip a Hl) as [Hin|(? & Hin & ? & ?)]; [by apply Hsub|]. right. split_and!; try done.
    cbn [take]. apply elem_of_cons. by right. }
  destruct try as [a|]; [|apply Hgo; [done|by left]].
  case_bool_decide as Hin; [apply Hgo; [done|by left]|].
  destruct (isD a) eqn:Ed; [apply Hgo; [done|by left]|].
  case_bool_decide as Hc; [apply Hgo; [done|by left]|]. apply Hgo.
  - rewrite map_size_insert_None by (by apply eq_None_not_Some). lia.
  - intros ip b Hl. apply lookup_insert_Some in Hl as [[<- <-]|[_ Hl]]; [|by left]. right.
    split_and!; try done. cbn [take]. apply elem_of_cons. by left.
Qed.

(** C40: Whatever the book offers, the addresses chosen for dialing are picks of the book, one for
    an IP, none of them being dialed or of a connected peer's host; there are none when five
    peers are outbound or being dialed, and otherwise at most three times as many as are
    missing, fifteen in all. *)
Theorem ensure_dials_safe {book'} (sw : @Switch _ book') picks numOut numIn numDialing :
  NumPeers sw = (numOut, numIn, numDialing) -> numOut + numDialing < 2 ^ 60 ->
  let d := ensure_dials sw picks in
  Z.of_nat (size d) <= Z.max 0 ((5 - (numOut + numDialing)) * 3) <= 15
  /\ forall ip a, d !! ip = Some a ->
       IP_String (na_IP a) = ip /\ Some a ∈ picks /\ IsDialing a sw = false
       /\ forall k p, peers sw !! k = Some p -> Peer_RemoteAddrHost p <> ip.
Proof.
  intros Hn Hlt. assert (0 <= numOut /\ 0 <= numDialing) as [? ?].
  { unfold NumPeers in Hn. simplify_eq. split; [apply zlen_nonneg|lia]. }
  unfold ensure_dials. rewrite Hn.
  assert (numToDial_of numOut numDialing = (5 - (numOut + numDialing)) * 3) as ->.
  { unfold numToDial_of, minNumOutboundPeers. rewrite (swrap_small 64 (numOut + numDialing)) by lia.
    rewrite (swrap_small 64 (5 - _)) by lia. apply swrap_small; lia. }
  destruct (Z.leb_spec ((5 - (numOut + numDialing)) * 3) 0) as [Hle|Hgt].
  { rewrite map_size_empty. split; [lia|]. intros ip a Hl. by rewrite lookup_empty in Hl. }
  match goal with |- context [select_dials ?n ?m ?i ?c picks ∅] =>
    destruct (select_dials_spec n m i c picks ∅) as [Hsz Hel] end; [rewrite map_size_empty; lia|].
  split; [lia|]. intros ip a Hl. destruct (Hel ip a Hl) as [He|(Hip & Hin & Hd & Hc)]; [by rewrite lookup_empty in He|].
  split_and!; [done|by eapply elem_of_take in Hin as (? & ? & _); eapply list_elem_of_lookup_2|done|].
  intros k p Hp <-. apply Hc, elem_of_list_to_set, list_elem_of_In, in_map_iff. exists (k, p). split; [done|].
  by apply list_elem_of_In, elem_of_map_to_list.
Qed.

(** A node with seeds configured whose own listen address cannot be read, as that of a node
    that does not listen, panics when it comes to dial the seeds. *)
Theorem dialSeeds_panics seeds listenAddr perm r a l e :
  NewNetAddressStrings (Split 44 seeds) = Some (Ok (a :: l)) ->
  NewNetAddressString listenAddr = Some (Err e) ->
  seeds <> [] -> dialSeeds seeds listenAddr perm r = None.
Proof.
  intros Hs Ha Hn. unfold dialSeeds. rewrite bool_decide_false by done. rewrite Hs, Ha. done.
Qed.
End Pex.

(** *** Concrete runs *)
#[local] Existing Instance one_resolver.
#[local] Existing Instance ex_env.

#[local] Instance ex_wire : PexWire := fun _ bz => (pexRequestMessage, None).

#[local] Instance ex_pexbook : PexBook unit :=
  {| NeedMoreAddrs := fun _ => true; GetSelection := fun _ => [];
     AddAddress := fun _ _ b => (None, b); MarkAttempt := fun _ b => b; MarkGood := fun _ b => b;
     SaveToFile := fun _ => None |}.

Definition ex_sender : Peer := newPeer (ex_conn [6] "10.0.0.1:99") (ex_info [6] "10.0.0.1:99").
Definition ex_messages : list (Peer * bytes * bool) := replicate 999 (ex_sender, [1], true).

Definition ex_reactor : PEXReactor := mkReactor tt {[ str "10.0.0.1:99" := 999 ]}.

Lemma message_limit_witness :
  from (str "10.0.0.1:99") ex_messages = 999 /\
  Receive ex_sender [1] true ex_reactor
    = Some (mkReactor tt {[ str "10.0.0.1:99" := 1000 ]}, [StopGracefully ex_sender]).
Proof.
  assert (exists acts, receive_all ex_messages (flushMsgCountByPeer (NewPEXReactor tt)) = Some (ex_reactor, acts))
    as [acts Hr] by (eexists; vm_compute; reflexivity).
  split; [vm_compute; reflexivity|].
  destruct (@message_limit one_resolver ex_wire unit ex_pexbook ex_messages (NewPEXReactor tt) ex_reactor
    acts ex_sender [1] true Hr) as [-> _].
  - vm_compute. reflexivity.
  - vm_compute. reflexivity.
Defined.

(** Of two picks with one IP, and one of a connected host, one is dialed. *)
Definition ex_connected : @Switch ex_env unit := set_peers {[ [6] := ex_sender ]} ex_sw.

Definition ex_picks : list (option NetAddress) :=
  [None; Some (mkNetAddress (IPv4 10 0 0 1) 5); Some (mkNetAddress (IPv4 10 0 0 3) 5); Some (mkNetAddress (IPv4 10 0 0 3) 6)].

Example ex_dials : ensure_dials ex_connected ex_picks = {[ str "10.0.0.3" := mkNetAddress (IPv4 10 0 0 3) 5 ]}.
Proof. vm_compute. reflexivity. Qed.

Lemma ensure_dials_safe_witness :
  NumPeers ex_connected = (0, 1, 0) /\ Z.of_nat (size (ensure_dials ex_connected ex_picks)) <= 15.
Proof.
  assert (NumPeers ex_connected = (0, 1, 0)) as Hn by (vm_compute; reflexivity). split; [exact Hn|].
  apply (@ensure_dials_safe ex_env unit ex_connected ex_picks 0 1 0 Hn). reflexivity.
Defined.

Lemma dialSeeds_panics_witness :
  dialSeeds (str "10.0.0.1:46656") [] [0%nat] (NewPEXReactor tt) = None.
Proof.
  apply (@dialSeeds_panics one_resolver unit ex_pexbook (str "10.0.0.1:46656") [] [0%nat] (NewPEXReactor tt)
    (mkNetAddress (IPv4 10 0 0 1) 46656) [] (addrErr [] "missing port in address")).
  - vm_compute. reflexivity.
  - vm_compute. reflexivity.
  - discriminate.
Defined.
