(* ===== verification/Common.v ===== *)
(** * Bytes, numbers and 32-byte hashes

    Models [common/bytes.go], [common/types.go] and [common/big.go].  A [big.Int] is an integer;
    [common.Hash] is an array, the list of its 32 bytes.  What reads integers from text, and
    [FormatData] with it, is in [BigText]. *)
From S2P Require Import Prelude Errors GoLib.

(** ** bytes.go *)
Definition Bytes2Hex (d : bytes) : gostring := hex_encode d.
Definition Hex2Bytes (s : gostring) : bytes := (hex_decode s).1.

Definition ToHex (b : bytes) : gostring :=
  let hex := Bytes2Hex b in
  let hex := if #hex =? 0 then str "0" else hex in
  str "0x" ++ hex.

Definition has0x (s : gostring) : bool := bool_decide (take 2 s = str "0x").

(** Nil is the empty slice. *)
Definition FromHex (s : gostring) : bytes :=
  if 1 <? #s then
    let s := if has0x s then drop 2 s else s in
    let s := if #s mod 2 =? 1 then str "0" ++ s else s in
    Hex2Bytes s
  else [].

Definition RightPadBytes (slice : bytes) (l : Z) : bytes :=
  if l <? #slice then slice
  else slice ++ replicate (Z.to_nat (l - #slice)) 0.

Definition LeftPadBytes (slice : bytes) (l : Z) : bytes :=
  if l <? #slice then slice
  else replicate (Z.to_nat (l - #slice)) 0 ++ slice.

Definition LeftPadString (s : gostring) (l : Z) : gostring :=
  if l <? #s then s
  else Bytes2Hex (replicate (Z.to_nat ((l - #s) / 2)) 0) ++ s.

Definition RightPadString (s : gostring) (l : Z) : gostring :=
  if l <? #s then s
  else s ++ Bytes2Hex (replicate (Z.to_nat ((l - #s) / 2)) 0).

(** The number is a fixed-size integer of [size] bytes; [None] is the panic of a slice out of
    range. *)
Definition NumberToBytes (size : nat) (num bits : Z) : option bytes :=
  let from := Z.of_nat size - Z.quot bits 8 in
  if (0 <=? from) && (from <=? Z.of_nat size) then Some (drop (Z.to_nat from) (be_put size num)) else go_panic.

(** [binary.Read] of an n-byte integer in big-endian order; too few bytes leave the zero. *)
Definition binary_Read (n : nat) (b : bytes) : Z :=
  if decide (n <= length b)%nat then be_get (take n b) else 0.

(** The buffer has a capacity of eight bytes: slicing it further panics. *)
Definition BytesToNumber (b : bytes) : option Z :=
  if 8 <? #b then go_panic
  else
    let data := replicate (length b) 0 ++ b in
    Some (binary_Read 8 data).

Definition ReadVarInt (buff : bytes) : Z :=
  let l := #buff in
  if 4 <? l then binary_Read 8 (LeftPadBytes buff 8)
  else if 2 <? l then binary_Read 4 (LeftPadBytes buff 4)
  else if 1 <? l then binary_Read 2 (LeftPadBytes buff 2)
  else binary_Read 1 buff.

Definition CopyBytes (b : bytes) : bytes := b.

Definition HasHexPrefix (s : gostring) : bool := (2 <=? #s) && has0x s.
Definition IsHex (s : gostring) : bool := (4 <=? #s) && (#s mod 2 =? 0) && has0x s.

(** [None]: a negative length makes the slice bounds invalid. *)
Definition Hex2BytesFixed (s : gostring) (flen : Z) : option bytes :=
  let h := Hex2Bytes s in
  if #h =? flen then Some h
  else if flen <? #h then
    if flen <? 0 then go_panic else Some (drop (Z.to_nat (#h - flen)) h)
  else Some (replicate (Z.to_nat (flen - #h)) 0 ++ h).

Definition StringToByteFunc (s : gostring) (cb : gostring -> bytes) : bytes :=
  if (1 <? #s) && has0x s && negb (bool_decide (10 ∈ s)) then Hex2Bytes (drop 2 s) else cb s.

(** The items [ParseData] looks at; others are skipped. *)
Inductive data_item := DString (s : gostring) | DBytes (b : bytes) | DOther.

Fixpoint ParseData (data : list data_item) : bytes :=
  match data with
  | [] => []
  | DString t :: data =>
      RightPadBytes (if IsHex t then Hex2Bytes (drop 2 t) else t) 32 ++ ParseData data
  | DBytes t :: data => LeftPadBytes t 32 ++ ParseData data
  | DOther :: data => ParseData data
  end.

Definition ToAddress (slice : bytes) : bytes :=
  CopyBytes (if #slice <? 20 then LeftPadBytes slice 20
             else if 20 <? #slice then drop (Z.to_nat (#slice - 20)) slice
             else slice).

Definition Unit64ToBytes (n : Z) : bytes := le_put 8 n.
(** [None]: fewer than eight bytes are a panic. *)
Definition BytesToUnit64 (b : bytes) : option Z :=
  if #b <? 8 then go_panic else Some (le_get (take 8 b)).

(** ** types.go *)
Definition HashLength : Z := 32.
Definition AddressLength : Z := 42.
Definition PubkeyHashLength : Z := 20.

Abbreviation Hash := bytes.

Definition zero_hash : Hash := replicate 32 0.

Definition SetBytes (h : Hash) (b : bytes) : Hash :=
  let b := if #h <? #b then drop (Z.to_nat (#b - HashLength)) b else b in
  take (Z.to_nat (HashLength - #b)) h ++ b.

Definition SetString (h : Hash) (s : gostring) : Hash := SetBytes h s.
Definition Hash_Str (h : Hash) : gostring := h.
(** The loop over the other hash assigns every byte. *)
Definition Hash_Set (h other : Hash) : Hash := foldl (fun h iv => <[iv.1 := iv.2]> h) h (imap pair other).
(** [m] is the random position and [rnd] the random words, in the order in which they are drawn:
    for the last byte first, down to the one after [m]. *)
Definition Generate (h : Hash) (m : nat) (rnd : list Z) : Hash :=
  foldl (fun h iv => <[(length h - 1 - iv.1)%nat := u8 iv.2]> h) h (imap pair (take (length h - 1 - m) rnd)).

Definition BytesToHash (b : bytes) : Hash := SetBytes zero_hash b.
Definition StringToHash (s : gostring) : Hash := BytesToHash s.
Definition HexToHash (s : gostring) : Hash := BytesToHash (FromHex s).
Definition Hash_Hex (h : Hash) : gostring := str "0x" ++ Bytes2Hex h.
Definition EmptyHash (h : Hash) : bool := bool_decide (h = zero_hash).

Definition hashJsonLengthErr : error :=
  EMsg (str "common: unmarshalJSON failed: hash must be exactly 32 bytes").

(** [json.Marshal] of a string of hexadecimal digits: the string in quotes. *)
Definition MarshalJSON (h : Hash) : bytes := 34 :: Hash_Hex h ++ [34].

(** [Set] copies the whole of the other hash. *)
Lemma Hash_Set_spec h other : length h = length other -> Hash_Set h other = other.
Proof.
  intros Hl. assert (forall (l pre post : Hash), length post = length l ->
    foldl (fun h iv => <[iv.1 := iv.2]> h) (pre ++ post) (imap (fun i x => ((length pre + i)%nat, x)) l) = pre ++ l) as Hg.
  { induction l as [|x l IH]; intros pre post Hp; [by destruct post|]. destruct post as [|y post]; [done|]. injection Hp as Hp.
    cbn [imap foldl fst snd]. rewrite Nat.add_0_r. rewrite insert_app_r_alt, Nat.sub_diag by done. cbn [insert list_insert].
    specialize (IH (pre ++ [x]) post Hp). rewrite <- !app_assoc, length_app in IH. cbn [app length] in IH. etransitivity; [|exact IH].
    f_equal. apply imap_ext. intros i z _. cbn. f_equal. lia. }
  apply (Hg other [] h). done.
Qed.

(** Lower-casing two bytes gives the prefix 0x for these two only. *)
Definition lower0x (s : bytes) : bool :=
  bool_decide (take 2 s = [48; 120]) || bool_decide (take 2 s = [48; 88]).

Definition UnmarshalJSON (h : Hash) (input : bytes) : option error * Hash :=
  let input := if (2 <=? #input) && bool_decide (head input = Some 34) && bool_decide (input !! (length input - 1)%nat = Some 34)
               then drop 1 (take (length input - 1) input) else input in
  let input := if (1 <? #input) && lower0x input then drop 2 input else input in
  if negb (#input =? HashLength * 2) then (Some hashJsonLengthErr, h)
  else (None, SetBytes h (FromHex input)).

(** ** big.go *)
(** [Exp] without a modulus: one for an exponent that is not positive. *)
Definition BigPow (a b : Z) : Z := if b <=? 0 then 1 else a ^ b.

Definition BytesToBig (data : bytes) : Z := be_get data.

Definition BitLen (v : Z) : Z := if v =? 0 then 0 else Z.log2 (Z.abs v) + 1.

(** The minimal bytes of the absolute value. *)
Definition big_Bytes (num : Z) : bytes := be_put (Z.to_nat ((BitLen num + 7) / 8)) (Z.abs num).

(** [None]: a negative index is a panic. *)
Definition BitTest (num i : Z) : option bool := if i <? 0 then go_panic else Some (Z.testbit num i).

Definition tt256 : Z := Z.shiftl 1 256.
Definition tt256m1 : Z := Z.shiftl 1 256 - 1.
Definition tt255 : Z := Z.shiftl 1 255.

(** The result is also written to the argument. *)
Definition U256 (x : Z) : Z := Z.land x tt256m1.

Definition S256 (x : Z) : Z := if x <? tt255 then x else x - tt256.

Fixpoint first_bit (n : nat) (i v : Z) : Z :=
  match n with
  | O => BitLen v
  | S n => if Z.testbit v i then i else first_bit n (i + 1) v
  end.
Definition FirstBitSet (v : Z) : Z := first_bit (Z.to_nat (BitLen v)) 0 v.

(** [None]: a negative base is a panic. *)
Definition BigToBytes (num base : Z) : option bytes :=
  let n := Z.quot base 8 in
  if n <? 0 then go_panic
  else if n <? #(big_Bytes num) then Some (big_Bytes num)
  else Some (replicate (Z.to_nat (n - #(big_Bytes num))) 0 ++ big_Bytes num).

Definition BigToHash (b : Z) : Hash := BytesToHash (big_Bytes b).
Definition Hash_Big (h : Hash) : Z := BytesToBig h.

Definition BigMax (x y : Z) : Z := if x <? y then y else x.
Definition BigMin (x y : Z) : Z := if y <? x then y else x.

(** ** Numbers *)
Lemma be_get_app a b : be_get (a ++ b) = be_get a * 256 ^ #b + be_get b.
Proof.
  unfold be_get. rewrite reverse_app.
  assert (forall x y, le_get (x ++ y) = le_get x + 256 ^ #x * le_get y) as H.
  { induction x as [|c x IH]; intros y; cbn [app le_get]; [change (#(@nil Z)) with 0; lia|].
    rewrite IH, zlen_cons, Z.pow_add_r by (zlia || apply zlen_nonneg). lia. }
  rewrite H. unfold zlen. rewrite length_reverse. lia.
Qed.

Lemma be_get_zeros n : be_get (replicate n 0) = 0.
Proof.
  induction n as [|n IH]; [done|]. rewrite replicate_S_end, be_get_app, IH. done.
Qed.

Lemma be_get_pad n b : be_get (replicate n 0 ++ b) = be_get b.
Proof. rewrite be_get_app, be_get_zeros. lia. Qed.

Lemma binary_Read_pad n z b : z = Z.of_nat n -> (length b <= n)%nat ->
  binary_Read n (LeftPadBytes b z) = be_get b.
Proof.
  intros -> Hn. unfold binary_Read, LeftPadBytes. rewrite (proj2 (Z.ltb_ge _ _)) by (unfold zlen; lia).
  assert (length (replicate (Z.to_nat (Z.of_nat n - #b)) 0 ++ b) = n) as Hl.
  { rewrite length_app, length_replicate. unfold zlen. lia. }
  rewrite decide_True by lia. rewrite take_ge by lia. apply be_get_pad.
Qed.

(** [ReadVarInt] reads a big-endian number of up to eight bytes, whatever its length, and of
    more bytes the first eight.  [BytesToNumber], meant to do the same, is right for four
    bytes only: it reads fewer as zero, cuts the last bytes off between five and eight (all of
    eight), and panics on more. *)
Theorem number_readers b : bytes_ok b ->
  ReadVarInt b = be_get (take 8 b)
  /\ BytesToNumber b = (if 8 <? #b then None
                        else if #b <? 4 then Some 0
                        else Some (be_get (take (8 - length b) b)))
  /\ (#b = 4 -> BytesToNumber b = Some (be_get b)).
Proof.
  intros Hb. assert (BytesToNumber b = (if 8 <? #b then None
                        else if #b <? 4 then Some 0
                        else Some (be_get (take (8 - length b) b)))) as Hn.
  { unfold BytesToNumber. destruct (Z.ltb_spec 8 (#b)) as [|Hle]; [done|]. f_equal. unfold binary_Read.
    destruct (Z.ltb_spec (#b) 4) as [Hlt|Hge].
    - by rewrite decide_False by (rewrite length_app, length_replicate; unfold zlen in *; lia).
    - rewrite decide_True by (rewrite length_app, length_replicate; unfold zlen in *; lia).
      rewrite take_app_ge by (rewrite length_replicate; unfold zlen in *; lia).
      rewrite length_replicate. f_equal. apply be_get_pad. }
  split_and!; [|exact Hn|].
  - unfold ReadVarInt.
    destruct (Z.ltb_spec 4 (#b)); [|destruct (Z.ltb_spec 2 (#b)); [|destruct (Z.ltb_spec 1 (#b))]].
    + destruct (decide (length b <= 8)%nat) as [Hle|Hgt].
      * rewrite (binary_Read_pad 8 8 b eq_refl Hle), take_ge by lia. done.
      * unfold LeftPadBytes. rewrite (proj2 (Z.ltb_lt _ _)) by (unfold zlen; lia). unfold binary_Read.
        by rewrite decide_True by lia.
    + rewrite (binary_Read_pad 4 4 b eq_refl), take_ge by (unfold zlen in *; lia). done.
    + rewrite (binary_Read_pad 2 2 b eq_refl), take_ge by (unfold zlen in *; lia). done.
    + destruct b as [|x [|y b]]; [done|done|]. rewrite !zlen_cons in *. pose proof (zlen_nonneg b). lia.
  - intros H4. rewrite Hn, H4. cbn [Z.ltb Z.compare Pos.compare Pos.compare_cont].
    rewrite take_ge by (unfold zlen in H4; lia). done.
Qed.

(** *** 256-bit integers *)
Lemma U256_mod x : U256 x = x mod 2 ^ 256.
Proof.
  unfold U256, tt256m1. rewrite Z.shiftl_mul_pow2, Z.mul_1_l by lia.
  rewrite <- Z.land_ones by lia. done.
Qed.

Lemma BitLen_spec v : 0 < v -> 2 ^ (BitLen v - 1) <= v < 2 ^ BitLen v /\ 0 < BitLen v.
Proof.
  intros Hv. unfold BitLen. destruct (Z.eqb_spec v 0); [lia|]. rewrite Z.abs_eq by lia.
  pose proof (Z.log2_spec v Hv) as Hl. pose proof (Z.log2_nonneg v). replace (Z.log2 v + 1 - 1) with (Z.log2 v) by lia.
  rewrite Z.add_1_r. split; [done|lia].
Qed.

Lemma first_bit_spec n : forall i v, 0 <= i -> Z.of_nat n + i = BitLen v -> 0 <= v ->
  (forall j, 0 <= j < i -> Z.testbit v j = false) ->
  let r := first_bit n i v in
  (forall j, 0 <= j < r -> Z.testbit v j = false) /\ (v <> 0 -> Z.testbit v r = true).
Proof.
  induction n as [|n IH]; intros i v Hi Hlen Hv Hbelow; cbn [first_bit].
  - replace (BitLen v) with i by lia. split; [done|]. intros Hne. exfalso.
    destruct (BitLen_spec v ltac:(lia)) as [[Hlo _] Hpos].
    assert (Z.testbit v (Z.log2 v) = true) as Ht by (apply Z.bit_log2; lia).
    rewrite Hbelow in Ht; [done|]. split; [apply Z.log2_nonneg|].
    unfold BitLen in Hlen. destruct (Z.eqb_spec v 0); [lia|]. rewrite Z.abs_eq in Hlen by lia. lia.
  - destruct (Z.testbit v i) eqn:E; [done|]. apply IH; [lia|lia|done|].
    intros j Hj. destruct (decide (j = i)) as [->|]; [done|]. apply Hbelow. lia.
Qed.

(** The 256-bit cast keeps an integer modulo 2^256, reading it as signed gives its two's
    complement value, and the first bit set is the number of trailing zeros: its bit is set
    and none below it (for zero there is none: the answer is zero). *)
Theorem words_256 x :
  U256 x = wrap 256 x /\ S256 (U256 x) = swrap 256 x
  /\ (0 < x -> let k := FirstBitSet x in BitTest x k = Some true /\ (2 ^ k | x))
  /\ FirstBitSet 0 = 0.
Proof.
  split_and!; [apply U256_mod| | |done].
  - rewrite U256_mod. unfold S256, tt255, tt256, swrap. rewrite !Z.shiftl_mul_pow2, !Z.mul_1_l by lia.
    change (256 - 1) with 255. set (m := 2 ^ 255). assert (2 ^ 256 = 2 * m) as -> by done.
    assert (0 < m) by done. clearbody m. pose proof (Z.mod_pos_bound x (2 * m) ltac:(lia)).
    destruct (Z.ltb_spec (x mod (2 * m)) m).
    + rewrite <- (Z.add_mod_idemp_l x m) by lia. rewrite (Z.mod_small (x mod (2 * m) + m)) by lia. lia.
    + rewrite <- (Z.add_mod_idemp_l x m) by lia.
      replace (x mod (2 * m) + m) with (x mod (2 * m) - m + 1 * (2 * m)) by lia.
      rewrite Z.mod_add by lia. rewrite (Z.mod_small (x mod (2 * m) - m)) by lia. lia.
  - intros Hx k. destruct (BitLen_spec x Hx) as [_ Hl].
    destruct (first_bit_spec (Z.to_nat (BitLen x)) 0 x) as [Hb Ht]; [lia|lia|lia|intros; lia|].
    fold (FirstBitSet x) in Hb, Ht. fold k in Hb, Ht.
    assert (0 <= k) as Hk.
    { destruct (Z.le_gt_cases 0 k) as [|Hneg]; [done|]. specialize (Ht ltac:(lia)).
      by rewrite Z.testbit_neg_r in Ht. }
    split.
    + unfold BitTest. rewrite (proj2 (Z.ltb_ge k 0)) by done. by rewrite Ht by lia.
    + apply Z.mod_divide; [lia|]. apply Z.bits_inj'. intros j Hj. rewrite Z.bits_0.
      destruct (Z.lt_ge_cases j k); [rewrite Z.mod_pow2_bits_low by done; apply Hb; lia|].
      by rewrite Z.mod_pow2_bits_high by lia.
Qed.

(** ** Hashes *)
Lemma hexchar_not_x d : 0 <= d < 16 -> hexchar d <> 120.
Proof. intros Hd. unfold hexchar. case_on; zlia. Qed.

Lemma hex_not_0x b : bytes_ok b -> has0x (hex_encode b) = false /\ lower0x (hex_encode b) = false.
Proof.
  intros Hb. destruct Hb as [|x b Hx Hb]; [done|]. unfold has0x, lower0x. cbn [hex_encode].
  assert (0 <= x mod 16 < 16) as Hm by (apply Z.mod_pos_bound; lia). pose proof (hexchar_not_x _ Hm).
  assert (hexchar (x mod 16) <> 88) by (unfold hexchar; case_on; zlia).
  change (str "0x") with [48; 120].
  split; [|apply orb_false_iff; split]; apply bool_decide_eq_false; cbn [take]; congruence.
Qed.

Lemma Hex2Bytes_encode b : bytes_ok b -> Hex2Bytes (hex_encode b) = b.
Proof. intros Hb. unfold Hex2Bytes. by rewrite hex_decode_encode. Qed.

Lemma FromHex_encode h : bytes_ok h -> length h = 32%nat -> FromHex (hex_encode h) = h.
Proof.
  intros Hb Hl. unfold FromHex. assert (#(hex_encode h) = 64) as Hz by (rewrite zlen_hex_encode; unfold zlen; lia).
  rewrite Hz. cbn [Z.ltb Z.compare Pos.compare Pos.compare_cont].
  rewrite (proj1 (hex_not_0x h Hb)), Hz. change (64 mod 2 =? 1) with false. by apply Hex2Bytes_encode.
Qed.

Lemma SetBytes_full h0 h : length h = 32%nat -> length h0 = 32%nat -> SetBytes h0 h = h.
Proof.
  intros Hl Hl0. unfold SetBytes. assert (#h = 32 /\ #h0 = 32) as [-> ->] by (unfold zlen; lia).
  cbn [Z.ltb Z.compare Pos.compare Pos.compare_cont]. cbv zeta. by assert (#h = 32) as -> by (unfold zlen; lia).
Qed.

Lemma UnmarshalJSON_hex h0 s : #s = 64 -> lower0x s = false -> (34 ∉ s) ->
  forall q x, UnmarshalJSON h0 ((if q : bool then [34] else []) ++ (if x : bool then str "0x" else []) ++ s
                        ++ (if q then [34] else []))
  = (None, SetBytes h0 (FromHex s)).
Proof.
  intros Hl Hx Hq q x. unfold UnmarshalJSON.
  set (t := (if x then str "0x" else []) ++ s). set (inp := _ ++ _ ++ _ ++ _).
  assert ((if (2 <=? #inp) && bool_decide (head inp = Some 34) && bool_decide (inp !! (length inp - 1)%nat = Some 34)
           then drop 1 (take (length inp - 1) inp) else inp) = t) as ->.
  { assert (inp = (if q then [34] else []) ++ t ++ (if q then [34] else [])) as ->.
    { unfold inp, t. by rewrite <- app_assoc. }
    destruct q; cbn [app].
    - pose proof (zlen_nonneg t). rewrite (proj2 (Z.leb_le _ _)) by (rewrite zlen_cons, zlen_app, zlen_cons, zlen_nil; lia).
      rewrite bool_decide_true by done. cbn [length]. rewrite length_app. cbn [length].
      replace (S (length t + 1) - 1)%nat with (S (length t)) by lia.
      rewrite bool_decide_true; cycle 1.
      { change ((34 :: t ++ [34]) !! S (length t)) with ((t ++ [34]) !! length t).
        rewrite lookup_app_r by lia. by rewrite Nat.sub_diag. }
      cbn [andb take drop]. by rewrite take_app_length.
    - rewrite app_nil_r. rewrite bool_decide_false; [by rewrite andb_false_r|].
      intros Hh. unfold t in Hh. destruct x; [done|]. cbn [app] in Hh. destruct s as [|c s]; [done|].
      cbn in Hh. simplify_eq. apply Hq, elem_of_cons. by left. }
  assert ((if (1 <? #t) && lower0x t then drop 2 t else t) = s) as ->.
  { unfold t. destruct x; cbn [app].
    - change (str "0x" ++ s) with (48 :: 120 :: s). rewrite !zlen_cons, Hl. done.
    - by rewrite Hx, andb_false_r. }
  by rewrite Hl.
Qed.

Lemma hex_no_quote b : bytes_ok b -> 34 ∉ hex_encode b.
Proof.
  induction 1 as [|x b Hx Hb IH]; cbn [hex_encode]; [apply not_elem_of_nil|]. unfold byte_ok in Hx.
  assert (forall d, 0 <= d < 16 -> hexchar d <> 34) as Hd by (intros d Hd; unfold hexchar; case_on; zlia).
  intros Hin. apply elem_of_cons in Hin as [Hin|Hin].
  - apply (Hd (x / 16)); [split; [apply Z.div_pos|apply Z.div_lt_upper_bound]; lia|done].
  - apply elem_of_cons in Hin as [Hin|Hin]; [|done]. apply (Hd (x mod 16)); [apply Z.mod_pos_bound; lia|done].
Qed.

(** A hash is read back from its JSON and from its hexadecimal text, whatever the hash it is
    read into held before; JSON of another length is an error that changes nothing.  But 64
    characters that are not hexadecimal are accepted, without an error and without a change. *)
Theorem Hash_JSON_roundtrip h h0 : bytes_ok h -> length h = 32%nat -> length h0 = 32%nat ->
  UnmarshalJSON h0 (MarshalJSON h) = (None, h)
  /\ HexToHash (Hash_Hex h) = h
  /\ (forall b, length b <> 32%nat -> bytes_ok b ->
        UnmarshalJSON h0 (hex_encode b) = (Some hashJsonLengthErr, h0))
  /\ UnmarshalJSON h0 (replicate 64 122) = (None, h0).
Proof.
  intros Hb Hl Hl0. split_and!.
  - pose proof (UnmarshalJSON_hex h0 (hex_encode h)) as Hu.
    specialize (Hu ltac:(rewrite zlen_hex_encode; unfold zlen; lia) (proj2 (hex_not_0x h Hb)) (hex_no_quote h Hb) true true).
    cbn [app] in Hu. unfold MarshalJSON, Hash_Hex, Bytes2Hex. rewrite <- app_assoc, Hu, FromHex_encode, SetBytes_full by done. done.
  - unfold HexToHash, BytesToHash. assert (FromHex (Hash_Hex h) = h) as ->; [|by apply SetBytes_full].
    unfold FromHex, Hash_Hex, Bytes2Hex. change (str "0x" ++ hex_encode h) with (48 :: 120 :: hex_encode h).
    assert (#(hex_encode h) = 64) as Hz by (rewrite zlen_hex_encode; unfold zlen; lia).
    rewrite !zlen_cons, Hz. change (1 <? 64 + 1 + 1) with true. cbv iota zeta.
    change (has0x (48 :: 120 :: hex_encode h)) with true. cbv iota. cbn [drop]. rewrite drop_0, Hz.
    change (64 mod 2 =? 1) with false. by apply Hex2Bytes_encode.
  - intros b Hlb Hbb. unfold UnmarshalJSON. rewrite (bool_decide_false (head _ = _)); cycle 1.
    { intros Hh. apply (hex_no_quote b Hbb). destruct (hex_encode b); [done|]. cbn in Hh. simplify_eq.
      apply elem_of_cons. by left. }
    rewrite andb_false_r. cbn [andb]. rewrite (proj2 (hex_not_0x b Hbb)), andb_false_r, zlen_hex_encode.
    rewrite (proj2 (Z.eqb_neq _ _)); [done|]. unfold HashLength, zlen. lia.
  - assert (UnmarshalJSON h0 (replicate 64 122) = (None, SetBytes h0 [])) as ->; [done|].
    unfold SetBytes. rewrite zlen_nil. rewrite (proj2 (Z.ltb_ge _ _)) by apply zlen_nonneg.
    cbv zeta. rewrite zlen_nil, app_nil_r, take_ge; [done|]. rewrite Hl0. done.
Qed.

Lemma Hash_JSON_roundtrip_witness :
  UnmarshalJSON zero_hash (MarshalJSON (replicate 32 7)) = (None, replicate 32 7).
Proof.
  apply (Hash_JSON_roundtrip (replicate 32 7) zero_hash); try reflexivity. apply bytes_okb_ok. reflexivity.
Defined.

Lemma number_readers_witness :
  BytesToNumber [0; 0; 1; 2] = Some 258 /\ BytesToNumber [0; 0; 0; 0; 0; 0; 1; 2] = Some 0
  /\ ReadVarInt [0; 0; 0; 0; 0; 0; 1; 2] = 258.
Proof.
  split_and!.
  - apply (number_readers [0; 0; 1; 2]); [apply bytes_okb_ok|]; reflexivity.
  - reflexivity.
  - apply (number_readers [0; 0; 0; 0; 0; 0; 1; 2]). apply bytes_okb_ok. reflexivity.
Defined.
