(* ===== verification/BigText.v ===== *)
(** * Numbers from text

    The functions of [common/big.go] and [common/bytes.go] that read integers from text:
    [Big], [String2Big] and [FormatData], over [big.Int.SetString] with base zero, written
    out as in the Go of the repository's time (later versions also read a prefix 0o, and
    digits separated by underscores). *)
From S2P Require Import Prelude Errors GoLib NodeInfo Common.

(** ** [big.Int.SetString] with base zero *)

(** The digits of a base up to sixteen; a character that is none makes the text no number, for
    nothing may follow the digits. *)
Fixpoint base_digits (base acc : Z) (s : gostring) : option Z :=
  match s with
  | [] => Some acc
  | c :: s =>
      d ← fromHexChar c;
      if d <? base then base_digits base (base * acc + d) s else None
  end.

(** The base a prefix selects, and what follows the prefix. *)
Definition base_prefix (s : gostring) : Z * gostring :=
  match s with
  | 48 :: c :: r =>
      if (c =? 120) || (c =? 88) then (16, r)
      else if (c =? 98) || (c =? 66) then (2, r)
      else (8, c :: r)
  | _ => (10, s)
  end.

Definition unsigned (s : gostring) : option Z :=
  match base_prefix s with
  | (_, []) => None
  | (base, digits) => base_digits base 0 digits
  end.

(** The value that is set, or no value when the text is no number. *)
Definition SetString0 (s : gostring) : option Z :=
  match s with
  | 45 :: s => Z.opp <$> unsigned s
  | 43 :: s => unsigned s
  | _ => unsigned s
  end.

Section Undefined.
(** What [SetString] leaves in its receiver when it fails, which its documentation leaves
    undefined; the functions do not look at its second result. *)
Context (undef : gostring -> Z).

(** ** big.go *)
Definition Big1 : Z := 1.
Definition Big2 : Z := 2.
Definition Big3 : Z := 3.
Definition Big0 : Z := 0.
Definition BigTrue : Z := Big1.
Definition BigFalse : Z := Big0.
Definition Big32 : Z := 32.
Definition Big36 : Z := 36.
Definition Big97 : Z := 97.
Definition Big98 : Z := 98.
(** Not 256. *)
Definition Big256 : Z := 255.
Definition Big257 : Z := 257.

Definition Big (num : gostring) : Z := default (undef num) (SetString0 num).
Definition String2Big (num : gostring) : Z := default (undef num) (SetString0 num).
Definition MaxBig : Z := String2Big (str "0xffffffffffffffffffffffffffffffffffffffffffffffffffffffffffffffff").

Definition Bytes2Big (data : bytes) : Z := BytesToBig data.
Definition BigD (data : bytes) : Z := BytesToBig data.
Definition BigCopy (src : Z) : Z := src.

(** ** bytes.go *)
(** [None] is the panic of a slice out of range: one quote is the first character and the last. *)
Definition FormatData (data : gostring) : option bytes :=
  if #data =? 0 then Some []
  else if bool_decide (take 1 data = [34]) && bool_decide (drop (length data - 1) data = [34]) then
    if #data - 1 <? 1 then go_panic
    else Some (RightPadBytes (drop 1 (take (length data - 1) data)) 32)
  else if (1 <? #data) && bool_decide (take 2 data = str "0x") then
    BigToBytes (BytesToBig (Hex2Bytes (drop 2 data))) 256
  else BigToBytes (String2Big data) 256.
End Undefined.

(** Each item of the result is one of the slices, as a value of an interface. *)
Definition ByteSliceToInterface (slice : list bytes) : list data_item :=
  foldl (fun ret i => ret ++ [DBytes i]) [] slice.

(** ** Texts of numbers *)
Lemma base_digits_value s : forall acc v, digits_value acc s = Some v -> base_digits 10 acc s = Some v.
Proof.
  induction s as [|c s IH]; intros acc v; cbn [digits_value base_digits]; [done|].
  destruct ((48 <=? c) && (c <=? 57)) eqn:E; [|done]. intros Hv. unfold fromHexChar. rewrite E. cbn [mbind option_bind].
  apply IH in Hv. rewrite (proj2 (Z.ltb_lt (c - 48) 10)) by zlia. done.
Qed.

Lemma base_digits_app b s : forall acc t, base_digits b acc (s ++ t) = base_digits b acc s ≫= fun v => base_digits b v t.
Proof.
  induction s as [|c s IH]; intros acc t; cbn [base_digits app]; [done|].
  destruct (fromHexChar c) as [d|]; [|done]. cbn [mbind option_bind]. by destruct (d <? b).
Qed.

Lemma base_digits_hex l : bytes_ok l -> forall acc, base_digits 16 acc (hex_encode l) = Some (acc * 256 ^ #l + be_get l).
Proof.
  induction 1 as [|x l Hx Hl IH]; intros acc; cbn [hex_encode base_digits].
  { change (#(@nil Z)) with 0. change (be_get []) with 0. f_equal. lia. }
  unfold byte_ok in Hx.
  assert (0 <= x / 16 < 16) as H1 by (split; [apply Z.div_pos|apply Z.div_lt_upper_bound]; lia).
  assert (0 <= x mod 16 < 16) as H2 by (apply Z.mod_pos_bound; lia).
  rewrite !fromHexChar_hexchar by done. cbn [mbind option_bind]. rewrite !(proj2 (Z.ltb_lt _ 16)) by lia.
  rewrite IH. f_equal. change (x :: l) with ([x] ++ l). rewrite be_get_app, zlen_app.
  change (#([x])) with 1. rewrite Z.pow_add_r by (lia || apply zlen_nonneg).
  change (be_get [x]) with (x + 256 * 0). pose proof (Z.div_mod x 16 ltac:(lia)). nia.
Qed.

Lemma pretty_head x : forall s, (0 < x)%N -> exists c l, str (pretty_N_go x s) = c :: l /\ 49 <= c <= 57.
Proof.
  induction (N.lt_wf_0 x) as [x _ IH]. intros s Hx. rewrite pretty_N_go_step by done.
  destruct (decide (x `div` 10 = 0)%N) as [E|E].
  - rewrite E, pretty_N_go_0. apply N.div_small_iff in E; [|done]. rewrite N.mod_small by done.
    assert (x = 1 \/ x = 2 \/ x = 3 \/ x = 4 \/ x = 5 \/ x = 6 \/ x = 7 \/ x = 8 \/ x = 9)%N as Hc by lia.
    repeat destruct Hc as [->|Hc]; [..|subst x]; (eexists _, _; split; [reflexivity|done]).
  - apply IH; [by apply N.div_lt|by apply N.neq_0_lt_0].
Qed.

Lemma unsigned_itoa z : 0 <= z -> unsigned (itoa z) = Some z.
Proof.
  intros Hz. destruct (decide (z = 0)) as [->|Hne]; [done|].
  destruct (pretty_head (Z.to_N z) "" ltac:(lia)) as (c & l & E & Hc). rewrite <- itoa_pos in E by lia.
  unfold unsigned. assert (base_prefix (itoa z) = (10, itoa z)) as ->.
  { rewrite E. assert (c = 49 \/ c = 50 \/ c = 51 \/ c = 52 \/ c = 53 \/ c = 54 \/ c = 55 \/ c = 56 \/ c = 57) as Hcs by lia.
    by repeat destruct Hcs as [->|Hcs]; [..|subst c]. }
  pose proof (base_digits_value _ _ _ (digits_value_itoa z Hz)) as Hd. rewrite E in *. exact Hd.
Qed.

(** A text that starts with a digit has no sign. *)
Lemma SetString0_digit c l : 48 <= c <= 57 -> SetString0 (c :: l) = unsigned (c :: l).
Proof.
  intros Hc. assert (c = 48 \/ c = 49 \/ c = 50 \/ c = 51 \/ c = 52 \/ c = 53 \/ c = 54 \/ c = 55 \/ c = 56 \/ c = 57) as Hcs by lia.
  by repeat destruct Hcs as [->|Hcs]; [..|subst c].
Qed.

Lemma itoa_head z : 0 <= z -> exists c l, itoa z = c :: l /\ 48 <= c <= 57.
Proof.
  intros Hz. pose proof (itoa_digits z Hz) as Hd. pose proof (itoa_not_nil z Hz) as Hn.
  destruct (itoa z) as [|c l]; [done|]. apply Forall_cons_1 in Hd as [Hc _]. by exists c, l.
Qed.

Lemma SetString0_itoa z : 0 <= z -> SetString0 (itoa z) = Some z.
Proof.
  intros Hz. destruct (itoa_head z Hz) as (c & l & E & Hc). rewrite E, SetString0_digit, <- E by done.
  by apply unsigned_itoa.
Qed.

(** ** Fixed-width bytes *)
Lemma BitLen_bound v n : 0 <= v < 2 ^ n -> 0 <= n -> 0 <= BitLen v <= n.
Proof.
  intros Hv Hn. unfold BitLen. destruct (Z.eqb_spec v 0); [lia|]. rewrite Z.abs_eq by lia.
  pose proof (Z.log2_nonneg v). assert (Z.log2 v < n) by (apply Z.log2_lt_pow2; lia). lia.
Qed.

Lemma be_get_big_Bytes v : 0 <= v -> be_get (big_Bytes v) = v.
Proof.
  intros Hv. unfold big_Bytes. rewrite be_get_put, Z.abs_eq by done. apply Z.mod_small.
  destruct (decide (v = 0)) as [->|Hne]; [done|]. split; [done|].
  destruct (BitLen_spec v ltac:(lia)) as [[_ Hlt] Hpos]. eapply Z.lt_le_trans; [exact Hlt|].
  pose proof (Z.div_mod (BitLen v + 7) 8 ltac:(lia)). pose proof (Z.mod_pos_bound (BitLen v + 7) 8 ltac:(lia)).
  rewrite Z2Nat.id by lia. change 256 with (2 ^ 8). rewrite <- Z.pow_mul_r by lia.
  apply Z.pow_le_mono_r; lia.
Qed.

Lemma big_Bytes_ok v : bytes_ok (big_Bytes v).
Proof. apply be_put_ok. Qed.

(** The bytes of a number that fits are its fixed-width form. *)
Lemma BigToBytes_fits v (n : nat) : 0 <= v < 256 ^ Z.of_nat n -> BigToBytes v (8 * Z.of_nat n) = Some (be_put n v).
Proof.
  intros Hv. unfold BigToBytes. rewrite (Z.mul_comm 8), Z.quot_mul by lia. rewrite (proj2 (Z.ltb_ge _ 0)) by lia.
  assert (#(big_Bytes v) <= Z.of_nat n) as Hl.
  { change 256 with (2 ^ 8) in Hv. rewrite <- Z.pow_mul_r in Hv by lia.
    pose proof (BitLen_bound v _ Hv ltac:(lia)). unfold big_Bytes, zlen. rewrite length_be_put.
    rewrite Z2Nat.id by (apply Z.div_pos; lia). apply Z.lt_succ_r, Z.div_lt_upper_bound; lia. }
  rewrite (proj2 (Z.ltb_ge _ _)) by done. f_equal. apply be_get_inj.
  - apply Forall_app. split; [|apply big_Bytes_ok]. apply list.Forall_replicate. done.
  - apply be_put_ok.
  - rewrite length_app, length_replicate, length_be_put. unfold zlen in *. lia.
  - rewrite be_get_pad, be_get_big_Bytes, be_get_put, Z.mod_small by lia. done.
Qed.

Lemma BigToBytes_abs v base : BigToBytes (- v) base = BigToBytes v base.
Proof.
  unfold BigToBytes. assert (big_Bytes (- v) = big_Bytes v) as ->; [|done].
  unfold big_Bytes, BitLen. rewrite Z.abs_opp. by destruct (Z.eqb_spec (- v) 0), (Z.eqb_spec v 0); [..|lia|lia|].
Qed.

Lemma itoa_no z c : 0 <= z -> (c < 48 \/ 57 < c) -> c ∉ itoa z.
Proof.
  intros Hz Hc Hin. pose proof (itoa_digits z Hz) as Hd. apply list.Forall_forall with (x := c) in Hd; [lia|done].
Qed.

(** A text that is neither quoted nor hexadecimal is read as a number. *)
Lemma FormatData_number undef data z : data !! 0%nat <> Some 34 -> data !! 1%nat <> Some 120 ->
  SetString0 data = Some z -> FormatData undef data = BigToBytes z 256.
Proof.
  intros Hq Hx Hs. unfold FormatData, String2Big. rewrite Hs. destruct data as [|c data]; [done|].
  pose proof (zlen_nonneg data). rewrite zlen_cons, (proj2 (Z.eqb_neq _ 0)) by lia.
  rewrite (bool_decide_false (take 1 _ = _)) by (intros [= ->]; done). cbn [andb].
  rewrite (bool_decide_false (take 2 _ = _)), andb_false_r; [done|].
  destruct data as [|d data]; [done|]. intros [= -> ->]. done.
Qed.

(** ** Properties *)

(** Numbers are read back from the texts the program writes: decimal digits, with a sign or without,
    and the hexadecimal form of [ToHex]; the largest 256-bit integer is the one that is meant.
    An empty text, a prefix without digits and an octal digit above seven are no numbers. *)
Theorem numbers_from_text (undef : gostring -> Z) (z : Z) : 0 <= z ->
  String2Big undef (itoa z) = z /\ Big undef (45 :: itoa z) = - z /\ Big undef (43 :: itoa z) = z /\
  String2Big undef (ToHex (big_Bytes z)) = z /\ MaxBig undef = 2 ^ 256 - 1 /\
  SetString0 [] = None /\ SetString0 (str "0x") = None /\ SetString0 (str "08") = None.
Proof.
  intros Hz. unfold String2Big, Big. rewrite SetString0_itoa by done. cbn [SetString0]. rewrite unsigned_itoa by done.
  split_and!; try done.
  unfold ToHex, Bytes2Hex. rewrite zlen_hex_encode. destruct (decide (z = 0)) as [->|Hne]; [done|].
  assert (big_Bytes z <> []) as Hb.
  { intros E. pose proof (be_get_big_Bytes z Hz) as Hg. rewrite E in Hg. by subst z. }
  destruct (Z.eqb_spec (2 * #(big_Bytes z)) 0) as [E|_].
  { destruct (big_Bytes z) as [|x b]; [done|]. rewrite zlen_cons in E. pose proof (zlen_nonneg b). lia. }
  pose proof (base_digits_hex (big_Bytes z) (big_Bytes_ok z) 0) as Hd. rewrite be_get_big_Bytes, Z.mul_0_l in Hd by done.
  change (str "0x" ++ ?l) with (48 :: 120 :: l).
  assert (unsigned (48 :: 120 :: hex_encode (big_Bytes z)) = Some z) as Hu.
  { unfold unsigned. cbn [base_prefix Z.eqb orb]. destruct (hex_encode (big_Bytes z)) as [|c l] eqn:E; [|exact Hd].
    apply (f_equal length) in E. rewrite length_hex_encode in E. destruct (big_Bytes z); [done|]. cbn in E. lia. }
  change (SetString0 (48 :: 120 :: ?l)) with (unsigned (48 :: 120 :: l)). by rewrite Hu.
Qed.

(** [FormatData] gives 32 bytes: of a text in quotes its bytes, filled up with zeros on the right; of
    hexadecimal digits after 0x their bytes, and of a decimal number below 2^256 its bytes, both
    filled up on the left.  It loses the sign of a number, and a single quote stops the
    program. *)
Theorem FormatData_spec (undef : gostring -> Z) :
  FormatData undef [] = Some [] /\
  FormatData undef [34] = None /\
  (forall s, FormatData undef (34 :: s ++ [34]) = Some (RightPadBytes s 32)) /\
  (forall b, bytes_ok b -> #b <= 32 -> FormatData undef (str "0x" ++ hex_encode b) = Some (LeftPadBytes b 32)) /\
  (forall n, 0 <= n < 2 ^ 256 -> FormatData undef (itoa n) = Some (be_put 32 n) /\
     FormatData undef (45 :: itoa n) = Some (be_put 32 n)).
Proof.
  split_and!; [done|done|..].
  - intros s. unfold FormatData. rewrite zlen_cons, zlen_app. change (#([34])) with 1. pose proof (zlen_nonneg s).
    rewrite (proj2 (Z.eqb_neq _ 0)), (proj2 (Z.ltb_ge _ 1)) by lia.
    cbn [length]. rewrite length_app. cbn [length]. replace (S (length s + 1) - 1)%nat with (S (length s)) by lia.
    cbn [take drop]. rewrite drop_app_length, take_app_length. done.
  - intros b Hb Hl. unfold FormatData. change (str "0x" ++ ?l) with (48 :: 120 :: l). pose proof (zlen_nonneg (hex_encode b)).
    rewrite !zlen_cons, (proj2 (Z.eqb_neq _ 0)), (proj2 (Z.ltb_lt 1 _)) by lia.
    change (take 1 (48 :: 120 :: hex_encode b)) with [48]. change (take 2 (48 :: 120 :: hex_encode b)) with (str "0x").
    rewrite (bool_decide_false ([48] = _)) by done. cbn [andb]. rewrite bool_decide_true by done. cbn [drop]. rewrite drop_0, Hex2Bytes_encode by done.
    change 256 with (8 * Z.of_nat 32). pose proof (be_get_range b Hb) as Hr.
    assert (0 <= BytesToBig b < 256 ^ Z.of_nat 32) as Hv.
    { split; [apply Hr|]. eapply Z.lt_le_trans; [apply Hr|]. apply Z.pow_le_mono_r; lia. }
    rewrite BigToBytes_fits by done. f_equal. unfold LeftPadBytes. rewrite (proj2 (Z.ltb_ge 32 _)) by done.
    apply be_get_inj; [apply be_put_ok|apply Forall_app; split; [by apply list.Forall_replicate|done]|..].
    + rewrite length_be_put, length_app, length_replicate. unfold zlen in *. lia.
    + rewrite be_get_put, be_get_pad, Z.mod_small by done. done.
  - intros n Hn. change 256 with (8 * Z.of_nat 32). change (2 ^ 256) with (256 ^ Z.of_nat 32) in Hn.
    pose proof (BigToBytes_fits n 32 Hn) as Hb. split.
    + rewrite (FormatData_number undef (itoa n) n); [done|..|apply SetString0_itoa; lia].
      * intros Hq. apply list_elem_of_lookup_2 in Hq. apply (itoa_no n 34 ltac:(lia) ltac:(lia)). done.
      * intros Hq. apply (itoa_no n 120 ltac:(lia) ltac:(lia)). by apply (list_elem_of_lookup_2 _ 1).
    + rewrite (FormatData_number undef (45 :: itoa n) (- n)); [|done|..].
      * by rewrite BigToBytes_abs.
      * intros Hq. apply (itoa_no n 120 ltac:(lia) ltac:(lia)). by apply (list_elem_of_lookup_2 _ 0).
      * cbn [SetString0]. rewrite unsigned_itoa by lia. done.
Qed.
