(* ===== verification/ChainState.v ===== *)
(** * The block index and the unspent outputs

    Models [protocol/state/blockindex.go] (the main chain as an array over the tree of
    blocks), [database/storage/utxo_entry.go] and [database/leveldb/utxo_view.go] (storing a
    view of unspent outputs and reading it back).  Block nodes are pointers into a heap; the
    main chain is a Go slice, an array and a length.  Protocol buffers and the text of a hash
    are parameters, as is what the source does not contain. *)
From S2P Require Import Prelude Errors GoLib Hash.

(** ** blockindex.go *)
(** The fields the index uses; a pointer is a location of the heap. *)
Record BlockNode := mkNode { Parent : option nat; n_Hash : Hash; Height : Z }.

Abbreviation heap := (gmap nat BlockNode).

Definition approxNodesPerDay : Z := 24 * 24.

(** [mainChain] is the backing array up to the capacity; [mc_len] is the length of the slice. *)
Record BlockIndex := mkIndex {
  index : gmap Hash nat;
  mainChain : list (option nat);
  mc_len : Z;
}.

Definition GetNode (bi : BlockIndex) (hash : Hash) : option nat := index bi !! hash.

(** The second loop: [None] is the panic of an index out of range or of a pointer that does
    not point to a node.  A round moves to the parent, whose height is one less: the fuel is the
    height of the first node and one. *)
Fixpoint set_chain (fuel : nat) (h : heap) (mc : list (option nat)) (len : Z) (node : option nat)
    : option (list (option nat)) :=
  match node with
  | None => Some mc
  | Some n =>
      nd ← h !! n;
      if (0 <=? Height nd) && (Height nd <? len) then
        old ← mc !! Z.to_nat (Height nd);
        if bool_decide (old = Some n) then Some mc
        else
          match fuel with
          | O => None
          | S fuel => set_chain fuel h (<[Z.to_nat (Height nd) := Some n]> mc) len (Parent nd)
          end
      else None
  end.

(** The array of the slice before the second loop: a longer copy when the capacity is too
    small, otherwise the same array with the cells between the old and the new length cleared. *)
Definition resize (mc : list (option nat)) (len needed : Z) : list (option nat) :=
  if #mc <? needed then
    take (Z.to_nat len) mc ++ replicate (Z.to_nat (needed - len)) None
      ++ replicate (Z.to_nat approxNodesPerDay) None
  else
    take (Z.to_nat len) mc ++ replicate (Z.to_nat (needed - len)) None
      ++ drop (Z.to_nat (Z.max len needed)) mc.

Definition SetMainChain (h : heap) (node : nat) (bi : BlockIndex) : option BlockIndex :=
  nd ← h !! node;
  let needed := u64 (Height nd + 1) in
  let mc := resize (mainChain bi) (mc_len bi) needed in
  mc ← set_chain (S (Z.to_nat (Height nd))) h mc needed (Some node);
  Some (mkIndex (index bi) mc needed).

(** *** The tree and the main chain *)
(** In the tree a parent is one lower, and only a block of height zero has none. *)
Definition tree (h : heap) : Prop :=
  forall n nd, h !! n = Some nd -> 0 <= Height nd < 2 ^ 63 /\
    match Parent nd with
    | Some p => exists pd, h !! p = Some pd /\ Height nd = Height pd + 1
    | None => Height nd = 0
    end.

(** The ancestor of a node [k] generations up. *)
Fixpoint ancestor (h : heap) (k : nat) (n : nat) : option nat :=
  match k with
  | O => Some n
  | S k => nd ← h !! n; p ← Parent nd; ancestor h k p
  end.

(** Below a node of the slice lies its parent, and a node lies at its height. *)
Definition closed (h : heap) (mc : list (option nat)) (len : Z) : Prop :=
  forall i n, (Z.of_nat i < len) -> mc !! i = Some (Some n) ->
    exists nd, h !! n = Some nd /\ Height nd = Z.of_nat i /\
      forall p, Parent nd = Some p -> mc !! (i - 1)%nat = Some (Some p).

Definition index_ok (h : heap) (bi : BlockIndex) : Prop :=
  0 <= mc_len bi <= #(mainChain bi) /\ closed h (mainChain bi) (mc_len bi).

(** The slice shows the chain of blocks that ends in a node. *)
Definition shows (h : heap) (bi : BlockIndex) (node : nat) : Prop :=
  exists nd, h !! node = Some nd /\ mc_len bi = Height nd + 1 /\
    forall k, (Z.of_nat k <= Height nd) ->
      exists n, ancestor h k node = Some n /\ mainChain bi !! Z.to_nat (Height nd - Z.of_nat k) = Some (Some n).

Lemma resize_length mc len needed : 0 <= len <= #mc -> 0 <= needed -> needed <= #(resize mc len needed).
Proof.
  intros Hl Hn. unfold resize. destruct (Z.ltb_spec (#mc) needed); autorewrite with zlen; lia.
Qed.

(** Resizing keeps the cells of the slice that remain and clears the new ones. *)
Lemma resize_lookup mc len needed i : 0 <= len <= #mc -> 0 <= needed -> Z.of_nat i < needed ->
  resize mc len needed !! i = if Z.of_nat i <? len then mc !! i else Some None.
Proof.
  intros Hl Hn Hi. unfold resize. set (tl := replicate (Z.to_nat (needed - len)) None).
  assert (forall rest, (take (Z.to_nat len) mc ++ tl ++ rest) !! i = if Z.of_nat i <? len then mc !! i else Some None) as H.
  { intros rest. assert (length (take (Z.to_nat len) mc) = Z.to_nat len) as Ht.
    { rewrite length_take. unfold zlen in Hl. lia. }
    destruct (Z.ltb_spec (Z.of_nat i) len).
    - rewrite lookup_app_l by lia. apply lookup_take_lt. lia.
    - rewrite lookup_app_r by lia. rewrite lookup_app_l by (unfold tl; rewrite length_replicate; lia).
      unfold tl. rewrite lookup_replicate_2 by lia. done. }
  case_on; apply H.
Qed.

Lemma resize_closed h mc len needed : 0 <= len <= #mc -> 0 <= needed -> tree h -> closed h mc len ->
  closed h (resize mc len needed) needed.
Proof.
  intros Hl Hn Ht Hc i n Hi Hm. rewrite resize_lookup in Hm by lia.
  destruct (Z.ltb_spec (Z.of_nat i) len); [|done].
  destruct (Hc i n ltac:(lia) Hm) as (nd & Hnd & Hh & Hp). exists nd. split_and!; [done..|].
  intros p Hpar. rewrite resize_lookup by lia. rewrite (proj2 (Z.ltb_lt _ _)) by lia. by apply Hp.
Qed.

(** In a closed slice a node's ancestors lie below it. *)
Lemma closed_ancestors h mc len k : forall n nd, tree h -> closed h mc len ->
  h !! n = Some nd -> Height nd < len -> mc !! Z.to_nat (Height nd) = Some (Some n) ->
  Z.of_nat k <= Height nd ->
  exists m, ancestor h k n = Some m /\ mc !! Z.to_nat (Height nd - Z.of_nat k) = Some (Some m).
Proof.
  induction k as [|k IH]; intros n nd Ht Hc Hnd Hlen Hm Hk.
  { exists n. by rewrite Z.sub_0_r. }
  destruct (Ht n nd Hnd) as [Hr Hp]. destruct (Parent nd) as [p|] eqn:Ep; [|lia].
  destruct Hp as (pd & Hpd & Hh). destruct (Hc (Z.to_nat (Height nd)) n ltac:(lia) Hm) as (nd' & Hnd' & _ & Hpar).
  rewrite Hnd in Hnd'. injection Hnd' as <-. specialize (Hpar p Ep).
  replace (Z.to_nat (Height nd) - 1)%nat with (Z.to_nat (Height pd)) in Hpar by lia.
  destruct (IH p pd Ht Hc Hpd ltac:(lia) Hpar ltac:(lia)) as (m & Ha & Hl).
  exists m. split.
  - cbn [ancestor]. rewrite Hnd. cbn [mbind option_bind]. by rewrite Ep.
  - by replace (Height nd - Z.of_nat (S k)) with (Height pd - Z.of_nat k) by lia.
Qed.

(** The second loop, on cells closed below the node: the node's chain, and nothing above it changed. *)
Lemma set_chain_ok h len fuel : forall mc n nd, tree h -> h !! n = Some nd -> Height nd < len -> len <= #mc ->
  (Z.to_nat (Height nd) < fuel)%nat ->
  closed h (take (S (Z.to_nat (Height nd))) mc) len ->
  exists mc', set_chain fuel h mc len (Some n) = Some mc' /\ length mc' = length mc
    /\ (forall i, Height nd < Z.of_nat i -> mc' !! i = mc !! i)
    /\ forall k, Z.of_nat k <= Height nd ->
         exists m, ancestor h k n = Some m /\ mc' !! Z.to_nat (Height nd - Z.of_nat k) = Some (Some m).
Proof.
  induction fuel as [|fuel IH]; intros mc n nd Ht Hnd Hlen Hmc Hf Hc; [lia|].
  destruct (Ht n nd Hnd) as [Hr Hp]. cbn [set_chain]. rewrite Hnd. cbn [mbind option_bind].
  rewrite (proj2 (Z.leb_le 0 _)), (proj2 (Z.ltb_lt _ len)) by lia. cbn [andb].
  destruct (lookup_lt_is_Some_2 mc (Z.to_nat (Height nd))) as [old Hold]; [unfold zlen in Hmc; lia|].
  rewrite Hold. cbn [mbind option_bind]. case_bool_decide as Heq.
  - exists mc. split_and!; [done|done|done|]. intros k Hk. subst old.
    destruct (closed_ancestors h (take (S (Z.to_nat (Height nd))) mc) len k n nd Ht Hc Hnd Hlen) as (m & Ha & Hl); [|done|].
    + by rewrite lookup_take_lt by lia.
    + exists m. split; [done|]. by rewrite lookup_take_lt in Hl by lia.
  - set (mc1 := <[Z.to_nat (Height nd) := Some n]> mc).
    assert (length mc1 = length mc) as Hlen1 by apply length_insert.
    assert (mc1 !! Z.to_nat (Height nd) = Some (Some n)) as Hat.
    { unfold mc1. apply list_lookup_insert_eq. unfold zlen in Hmc. lia. }
    destruct (Parent nd) as [p|] eqn:Ep.
    + destruct Hp as (pd & Hpd & Hh). assert (0 <= Height pd) by apply (Ht p pd Hpd).
      destruct (IH mc1 p pd Ht Hpd) as (mc' & Hs & Hl' & Hab & Han); [lia|unfold zlen in *; lia|lia| |].
      { intros i m Hi Hm. apply lookup_take_Some in Hm as [Hm Hlt].
        unfold mc1 in Hm. rewrite list_lookup_insert_ne in Hm by lia.
        destruct (Hc i m Hi) as (md & Hmd & Hmh & Hmp); [by rewrite lookup_take_lt by lia|].
        exists md. split_and!; [done..|]. intros q Hq. specialize (Hmp q Hq).
        rewrite lookup_take_lt in Hmp by lia. rewrite lookup_take_lt by lia.
        unfold mc1. by rewrite list_lookup_insert_ne by lia. }
      exists mc'. split_and!; [done|lia| |].
      * intros i Hi. rewrite Hab by lia. unfold mc1. by rewrite list_lookup_insert_ne by lia.
      * intros [|k] Hk.
        { exists n. split; [done|]. rewrite Z.sub_0_r. rewrite Hab by lia. done. }
        destruct (Han k ltac:(lia)) as (m & Ha & Hl). exists m. split.
        { cbn [ancestor]. rewrite Hnd. cbn [mbind option_bind]. by rewrite Ep. }
        by replace (Height nd - Z.of_nat (S k)) with (Height pd - Z.of_nat k) by lia.
    + exists mc1. assert (set_chain fuel h mc1 len None = Some mc1) as -> by (by destruct fuel).
      split_and!; [done|done| |].
      * intros i Hi. unfold mc1. by rewrite list_lookup_insert_ne by lia.
      * intros k Hk. assert (k = 0%nat) as -> by lia. exists n. split; [done|]. by rewrite Z.sub_0_r.
Qed.

Lemma ancestor_node h k : forall n nd m, tree h -> h !! n = Some nd -> Z.of_nat k <= Height nd -> ancestor h k n = Some m ->
  exists md, h !! m = Some md /\ Height md = Height nd - Z.of_nat k
    /\ forall p, Parent md = Some p -> ancestor h (S k) n = Some p.
Proof.
  induction k as [|k IH]; intros n nd m Ht Hnd Hk Ha; cbn [ancestor] in Ha.
  - injection Ha as ->. exists nd. split_and!; [done|lia|]. intros p Hp. cbn [ancestor]. rewrite Hnd. cbn [mbind option_bind].
    by rewrite Hp.
  - rewrite Hnd in Ha. cbn [mbind option_bind] in Ha. destruct (Ht n nd Hnd) as [_ Hpar].
    destruct (Parent nd) as [p|] eqn:Ep; [|done]. destruct Hpar as (pd & Hpd & Hh). cbn in Ha.
    destruct (IH p pd m Ht Hpd ltac:(lia) Ha) as (md & Hmd & Hmh & Hmp). exists md. split_and!; [done|lia|].
    intros q Hq. specialize (Hmp q Hq).
    change (ancestor h (S (S k)) n) with (nd ← h !! n; p ← Parent nd; ancestor h (S k) p).
    rewrite Hnd. cbn [mbind option_bind]. rewrite Ep. exact Hmp.
Qed.

Lemma shows_closed h bi node : tree h -> shows h bi node -> 0 <= mc_len bi <= #(mainChain bi) -> index_ok h bi.
Proof.
  intros Ht (nd & Hnd & Hlen & Hs) Hr. split; [done|]. intros i n Hi Hm.
  destruct (Ht node nd Hnd) as [Hh _]. set (k := Z.to_nat (Height nd - Z.of_nat i)).
  destruct (Hs k ltac:(lia)) as (m & Ha & Hl). replace (Z.to_nat (Height nd - Z.of_nat k)) with i in Hl by lia.
  assert (m = n) as -> by congruence.
  destruct (ancestor_node h k node nd n Ht Hnd ltac:(lia) Ha) as (md & Hmd & Hmh & Hmp).
  exists md. split_and!; [done|lia|]. intros p Hp. destruct (Ht n md Hmd) as [_ Hpar]. rewrite Hp in Hpar.
  destruct Hpar as (pd & Hpd & Hph). assert (0 <= Height pd) by apply (Ht p pd Hpd).
  destruct (Hs (S k) ltac:(lia)) as (q & Haq & Hlq). rewrite (Hmp p Hp) in Haq. injection Haq as <-.
  by replace (Z.to_nat (Height nd - Z.of_nat (S k))) with (i - 1)%nat in Hlq by lia.
Qed.

Lemma SetMainChain_ok h bi node nd : tree h -> index_ok h bi -> h !! node = Some nd ->
  exists bi', SetMainChain h node bi = Some bi' /\ shows h bi' node /\ index_ok h bi' /\ index bi' = index bi.
Proof.
  intros Ht [Hr Hc] Hnd. destruct (Ht node nd Hnd) as [Hh _].
  unfold SetMainChain. rewrite Hnd. cbn [mbind option_bind]. rewrite wrap_small by lia.
  pose proof (resize_length (mainChain bi) (mc_len bi) (Height nd + 1) Hr ltac:(lia)) as Hlen.
  pose proof (resize_closed h _ _ (Height nd + 1) Hr ltac:(lia) Ht Hc) as Hc'.
  destruct (set_chain_ok h (Height nd + 1) (S (Z.to_nat (Height nd))) (resize (mainChain bi) (mc_len bi) (Height nd + 1))
    node nd Ht Hnd ltac:(lia) Hlen ltac:(lia)) as (mc' & Hs & Hl' & _ & Han).
  { intros i m Hi Hm. apply lookup_take_Some in Hm as [Hm Hlt].
    destruct (Hc' i m Hi Hm) as (md & Hmd & Hmh & Hmp). exists md. split_and!; [done..|].
    intros p Hp. rewrite lookup_take_lt by lia. by apply Hmp. }
  rewrite Hs. cbn [mbind option_bind]. eexists. split; [done|].
  assert (shows h (mkIndex (index bi) mc' (Height nd + 1)) node) as Hshow by (exists nd; by split_and!).
  split_and!; [done| |done]. apply (shows_closed _ _ node); [done|done|]. cbn [mc_len mainChain].
  unfold zlen in *. lia.
Qed.

Definition emptyIndex : BlockIndex := mkIndex ∅ [] 0.

Fixpoint set_all (h : heap) (l : list nat) (bi : BlockIndex) : option BlockIndex :=
  match l with
  | [] => Some bi
  | n :: l => bi ← SetMainChain h n bi; set_all h l bi
  end.

(** C20: From an empty index, after any sequence of changes of the main chain to nodes of the tree,
    growing, cutting and regrowing its array, no change has panicked, and the array shows
    exactly the chain of blocks that ends in the last node: one cell for each height, the
    ancestors of the node in their order, whatever was there before. *)
Theorem mainChain_shows h l node nd : tree h -> Forall (fun n => is_Some (h !! n)) l -> h !! node = Some nd ->
  exists bi, set_all h (l ++ [node]) emptyIndex = Some bi /\ shows h bi node.
Proof.
  intros Ht Hl Hnd. assert (index_ok h emptyIndex) as Hi.
  { split; [done|]. intros i n _ Hm. cbn [emptyIndex mainChain] in Hm. by rewrite lookup_nil in Hm. }
  revert Hi. generalize emptyIndex. induction Hl as [|n l [md Hmd] _ IH]; intros bi Hi; cbn [app set_all].
  - destruct (SetMainChain_ok h bi node nd Ht Hi Hnd) as (bi' & -> & Hs & _). by exists bi'.
  - destruct (SetMainChain_ok h bi n md Ht Hi Hmd) as (bi' & -> & _ & Hi' & _). cbn [mbind option_bind]. by apply IH.
Qed.

(** A tree with a fork above its root: 0, 1 over it, 2 and 3 over 1, 4 over 3. *)
Definition ex_heap : heap :=
  <[0%nat := mkNode None zeroHash 0]> (<[1%nat := mkNode (Some 0%nat) zeroHash 1]>
  (<[2%nat := mkNode (Some 1%nat) zeroHash 2]> (<[3%nat := mkNode (Some 1%nat) zeroHash 2]>
  {[ 4%nat := mkNode (Some 3%nat) zeroHash 3 ]}))).

Lemma ex_tree : tree ex_heap.
Proof.
  intros n nd Hn. unfold ex_heap in Hn.
  repeat (apply lookup_insert_Some in Hn as [[<- <-]|[_ Hn]]; [cbn; split; [lia|try done; eexists; by split]|]).
  apply lookup_singleton_Some in Hn as [<- <-]. cbn. split; [lia|]. eexists. by split.
Qed.

Example ex_reorganise :
  (fun bi => (take (Z.to_nat (mc_len bi)) (mainChain bi))) <$> set_all ex_heap [4; 2; 4]%nat emptyIndex
  = Some [Some 0%nat; Some 1%nat; Some 3%nat; Some 4%nat].
Proof. vm_compute. reflexivity. Qed.

Lemma mainChain_shows_witness :
  exists bi, set_all ex_heap ([4; 2]%nat ++ [4%nat]) emptyIndex = Some bi /\ shows ex_heap bi 4.
Proof.
  apply (mainChain_shows ex_heap [4; 2]%nat 4 (mkNode (Some 3%nat) zeroHash 3) ex_tree).
  - repeat apply List.Forall_cons; try apply List.Forall_nil; eexists; reflexivity.
  - reflexivity.
Defined.

(** ** Unspent outputs *)
Record UtxoEntry := mkUtxo { IsCoinBase : bool; BlockHeight : Z; Spent : bool }.

Definition NewUtxoEntry (isCoinBase : bool) (blockHeight : Z) (spent : bool) : UtxoEntry :=
  mkUtxo isCoinBase blockHeight spent.
Definition SpendOutput (e : UtxoEntry) : UtxoEntry := mkUtxo (IsCoinBase e) (BlockHeight e) true.
Definition UnspendOutput (e : UtxoEntry) : UtxoEntry := mkUtxo (IsCoinBase e) (BlockHeight e) false.

(** A view: its field [Entries]. *)
Abbreviation UtxoViewpoint := (gmap Hash UtxoEntry).

(** Protocol buffers: the text of a hash, and the coding of an entry; and the view's method
    [HasUtxo], which the source does not contain. *)
Class UtxoEnv := {
  Hash_String : Hash -> gostring;
  proto_Marshal : UtxoEntry -> res error bytes;
  proto_Unmarshal : bytes -> res error UtxoEntry;
  HasUtxo : UtxoViewpoint -> Hash -> bool;
  Wrap : error -> gostring -> error;
}.

(** The text determines the hash, the coding gives an entry back, and a view has the outputs
    it has entries for. *)
Class UtxoEnvLaws `{UtxoEnv} := {
  Hash_String_inj h k : Hash_String h = Hash_String k -> h = k;
  proto_roundtrip e b : proto_Marshal e = Ok b -> proto_Unmarshal b = Ok e;
  HasUtxo_spec v h : HasUtxo v h = bool_decide (is_Some (v !! h));
}.

Section Utxo.
Context `{UtxoEnv}.

(** A database is a map; a batch the list of what is set or deleted when it is written. *)
Abbreviation database := (gmap gostring bytes).
Abbreviation batch := (list (gostring * option bytes)).

Definition Write (b : batch) (db : database) : database :=
  foldl (fun db '(k, v) => match v with Some x => <[k := x]> db | None => delete k db end) db b.

Definition utxoPreFix : gostring := str "UT:".
Definition calcUtxoKey (h : Hash) : gostring := utxoPreFix ++ Hash_String h.

Definition getUtxo (db : database) (h : Hash) : res error UtxoEntry :=
  match db !! calcUtxoKey h with
  | None => Err (EMsg (str "can't find utxo in db"))
  | Some data =>
      match proto_Unmarshal data with
      | Err err => Err (Wrap err (str "unmarshaling utxo entry"))
      | Ok utxo => Ok utxo
      end
  end.

(** [prevouts] are the spent outputs of the transactions in their order. *)
Fixpoint getTransactionsUtxo (db : database) (view : UtxoViewpoint) (prevouts : list Hash)
    : option error * UtxoViewpoint :=
  match prevouts with
  | [] => (None, view)
  | prevout :: prevouts =>
      if HasUtxo view prevout then getTransactionsUtxo db view prevouts
      else
        match db !! calcUtxoKey prevout with
        | None => getTransactionsUtxo db view prevouts
        | Some data =>
            match proto_Unmarshal data with
            | Err err => (Some (Wrap err (str "unmarshaling utxo entry")), view)
            | Ok utxo => getTransactionsUtxo db (<[prevout := utxo]> view) prevouts
            end
        end
  end.

(** [it] is the order in which the entries are iterated. *)
Fixpoint saveUtxoView (b : batch) (it : list (Hash * UtxoEntry)) : res error batch :=
  match it with
  | [] => Ok b
  | (key, entry) :: it =>
      if Spent entry && negb (IsCoinBase entry) then saveUtxoView (b ++ [(calcUtxoKey key, None)]) it
      else
        match proto_Marshal entry with
        | Err err => Err (Wrap err (str "marshaling utxo entry"))
        | Ok x => saveUtxoView (b ++ [(calcUtxoKey key, Some x)]) it
        end
  end.

Definition SaveUtxoView := saveUtxoView.

Context `{!UtxoEnvLaws}.

Lemma calcUtxoKey_inj h k : calcUtxoKey h = calcUtxoKey k -> h = k.
Proof. unfold calcUtxoKey. intros Heq. apply app_inv_head in Heq. by apply Hash_String_inj. Qed.

Lemma Write_app b c db : Write (b ++ c) db = Write c (Write b db).
Proof. apply foldl_app. Qed.

(** What a stored entry reads as. *)
Definition stored (e : UtxoEntry) : res error UtxoEntry :=
  if Spent e && negb (IsCoinBase e) then Err (EMsg (str "can't find utxo in db")) else Ok e.

Lemma saveUtxoView_get it : forall b b' db h, NoDup it.*1 -> saveUtxoView b it = Ok b' ->
  getUtxo (Write b' db) h
  = match list_find (fun x => x.1 = h) it with
    | Some (_, (_, e)) => stored e
    | None => getUtxo (Write b db) h
    end.
Proof.
  induction it as [|[k e] it IH]; intros b b' db h Hn Hs; cbn [saveUtxoView fmap list_fmap fst] in *; [by simplify_eq|].
  apply list.NoDup_cons in Hn as [Hk Hn].
  assert (forall v, (match v with Some x => proto_Marshal e = Ok x /\ Spent e && negb (IsCoinBase e) = false
                              | None => Spent e && negb (IsCoinBase e) = true end) ->
    saveUtxoView (b ++ [(calcUtxoKey k, v)]) it = Ok b' ->
    getUtxo (Write b' db) h = match list_find (fun x => x.1 = h) ((k, e) :: it) with
                              | Some (_, (_, e)) => stored e
                              | None => getUtxo (Write b db) h
                              end) as Hgo.
  { intros v Hv Hsave. rewrite (IH _ _ db h Hn Hsave). cbn [list_find fst].
    destruct (decide (k = h)) as [->|Hne].
    - destruct (list_find (fun x => x.1 = h) it) as [[i [k' e']]|] eqn:Ef.
      { apply list_find_Some in Ef as (Hl & Hk' & _). cbn in Hk'. subst k'. exfalso. apply Hk.
        apply list_elem_of_fmap. exists (h, e'). split; [done|]. by eapply list_elem_of_lookup_2. }
      rewrite Write_app. cbn [Write foldl]. unfold getUtxo, stored. destruct v as [x|].
      + destruct Hv as [Hm ->]. rewrite lookup_insert_eq. by rewrite (proto_roundtrip _ _ Hm).
      + by rewrite Hv, lookup_delete_eq.
    - assert (forall d : database, getUtxo (Write [(calcUtxoKey k, v)] d) h = getUtxo d h) as Hd.
      { intros d. cbn [Write foldl]. unfold getUtxo.
        assert (calcUtxoKey k <> calcUtxoKey h) by (intros Heq; by apply calcUtxoKey_inj in Heq).
        destruct v; by rewrite ?lookup_insert_ne, ?lookup_delete_ne by done. }
      rewrite Write_app, Hd. by destruct (list_find (fun x => x.1 = h) it) as [[i [k' e']]|]. }
  destruct (Spent e && negb (IsCoinBase e)) eqn:Ec; [by apply (Hgo None)|].
  destruct (proto_Marshal e) as [x|] eqn:Em; [|done]. by apply (Hgo (Some x)).
Qed.

Lemma list_find_map (m : UtxoViewpoint) it h : it ≡ₚ map_to_list m ->
  match list_find (fun x => x.1 = h) it with Some (_, (_, e)) => m !! h = Some e | None => m !! h = None end.
Proof.
  intros Hit. destruct (list_find (fun x => x.1 = h) it) as [[i [k e]]|] eqn:Ef.
  - apply list_find_Some in Ef as (Hl & Hk & _). cbn in Hk. subst k.
    apply list_elem_of_lookup_2 in Hl. rewrite Hit in Hl. by apply elem_of_map_to_list in Hl.
  - apply list_find_None in Ef. rewrite list.Forall_forall in Ef. apply eq_None_not_Some. intros [e He].
    apply (Ef (h, e)); [|done]. rewrite Hit. by apply elem_of_map_to_list.
Qed.

Lemma getTransactionsUtxo_get db l : forall view view' h, getTransactionsUtxo db view l = (None, view') ->
  view' !! h = match view !! h with
               | Some e => Some e
               | None => if decide (h ∈ l) then match getUtxo db h with Ok e => Some e | Err _ => None end else None
               end.
Proof.
  induction l as [|k l IH]; intros view view' h Hg; cbn [getTransactionsUtxo] in Hg.
  { simplify_eq. destruct (view' !! h); [done|]. rewrite decide_False; [done|]. apply not_elem_of_nil. }
  rewrite HasUtxo_spec in Hg. assert (forall v, view !! h = None -> (h = k -> v = match getUtxo db h with Ok e => Some e | Err _ => None end) ->
    (h <> k -> v = if decide (h ∈ l) then match getUtxo db h with Ok e => Some e | Err _ => None end else None) ->
    v = if decide (h ∈ k :: l) then match getUtxo db h with Ok e => Some e | Err _ => None end else None) as Hdec.
  { intros v _ Heq Hne. destruct (decide (h = k)) as [->|Hn].
    - rewrite decide_True by (apply elem_of_cons; by left). by apply Heq.
    - rewrite (Hne Hn). destruct (decide (h ∈ l)) as [Hl|Hl]; [rewrite decide_True|rewrite decide_False]; try done.
      + apply elem_of_cons. by right.
      + intros Hc. apply elem_of_cons in Hc as [?|?]; done. }
  case_bool_decide as Hs.
  - rewrite (IH _ _ h Hg). destruct (view !! h) eqn:E; [done|]. apply Hdec; [done| |done].
    intros ->. destruct Hs as [? Hs]. congruence.
  - destruct (db !! calcUtxoKey k) as [data|] eqn:Ed.
    + destruct (proto_Unmarshal data) as [u|] eqn:Eu; [|done]. rewrite (IH _ _ h Hg).
      destruct (decide (h = k)) as [->|Hn].
      * rewrite lookup_insert_eq. assert (view !! k = None) as -> by (by apply eq_None_not_Some).
        rewrite decide_True by (apply elem_of_cons; by left). unfold getUtxo. by rewrite Ed, Eu.
      * rewrite lookup_insert_ne by done. destruct (view !! h) eqn:E; [done|]. by apply Hdec.
    + rewrite (IH _ _ h Hg). destruct (view !! h) eqn:E; [done|]. apply Hdec; [done| |done].
      intros ->. unfold getUtxo. rewrite Ed. by case_on.
Qed.

(** C23: A saved view reads back from the database, in whatever order its entries were iterated:
    an output of the view is found as the view has it, unless it is spent and not of a
    coinbase, when it is gone; any other output is as it was.  A view filled for the inputs of
    transactions keeps its entries and gains those of the database for the inputs. *)
Theorem utxo_store view it b db : it ≡ₚ map_to_list view -> saveUtxoView [] it = Ok b ->
  (forall h, getUtxo (Write b db) h
     = match view !! h with
       | Some e => if Spent e && negb (IsCoinBase e) then Err (EMsg (str "can't find utxo in db")) else Ok e
       | None => getUtxo db h
       end)
  /\ forall view0 view1 prevouts h, getTransactionsUtxo (Write b db) view0 prevouts = (None, view1) ->
       view1 !! h = match view0 !! h with
                    | Some e => Some e
                    | None => if decide (h ∈ prevouts)
                              then match getUtxo (Write b db) h with Ok e => Some e | Err _ => None end
                              else None
                    end.
Proof.
  intros Hit Hs. split; [|intros; by apply getTransactionsUtxo_get].
  intros h. assert (NoDup it.*1) as Hn.
  { rewrite Hit. apply NoDup_fst_map_to_list. }
  rewrite (saveUtxoView_get it [] b db h Hn Hs). pose proof (list_find_map view it h Hit) as Hf.
  destruct (list_find _ it) as [[i [k e]]|]; by rewrite Hf.
Qed.
End Utxo.

(** *** A concrete store *)
#[local] Instance ex_utxo : UtxoEnv :=
  {| Hash_String := fun h => [V0 h; V1 h; V2 h; V3 h];
     proto_Marshal := fun e => Ok [if IsCoinBase e then 1 else 0; BlockHeight e; if Spent e then 1 else 0];
     proto_Unmarshal := fun b => match b with
                                 | [c; n; s] => Ok (mkUtxo (c =? 1) n (s =? 1))
                                 | _ => Err (EMsg [])
                                 end;
     HasUtxo := fun v h => bool_decide (is_Some (v !! h));
     Wrap := fun e _ => e |}.

#[local] Instance ex_utxo_laws : @UtxoEnvLaws ex_utxo.
Proof.
  split; cbn.
  - intros [] [] [= -> -> -> ->]. done.
  - intros [c n s] b [= <-]. by destruct c, s.
  - done.
Qed.

(** An output of a transaction that has been spent, and one that has not. *)
Definition ex_view : gmap Hash UtxoEntry :=
  <[mkHash 0 0 0 1 := mkUtxo false 5 true]> {[ mkHash 0 0 0 2 := mkUtxo false 6 false ]}.

Definition ex_db : gmap gostring bytes := {[ calcUtxoKey (mkHash 0 0 0 1) := [0; 5; 0] ]}.

Lemma utxo_store_witness :
  exists b, saveUtxoView [] (map_to_list ex_view) = Ok b
    /\ getUtxo (Write b ex_db) (mkHash 0 0 0 1) = Err (EMsg (str "can't find utxo in db"))
    /\ getUtxo (Write b ex_db) (mkHash 0 0 0 2) = Ok (mkUtxo false 6 false).
Proof.
  destruct (saveUtxoView [] (map_to_list ex_view)) as [b|e] eqn:E; [|vm_compute in E; discriminate].
  exists b. split; [reflexivity|].
  destruct (@utxo_store ex_utxo ex_utxo_laws ex_view (map_to_list ex_view) b ex_db) as [Hg _].
  - reflexivity.
  - exact E.
  - split; [rewrite (Hg (mkHash 0 0 0 1))|rewrite (Hg (mkHash 0 0 0 2))]; reflexivity.
Defined.
