(* ===== verification/MapTx.v ===== *)
(** * The entries of a transaction

    Models [protocol/bc/types/map.go] and [protocol/bc/tx.go]: the translation of a transaction
    into the graph of entries by which it is identified.  Entries are objects that [mapTx]
    goes on changing after they have been put into the map, so they live in a store, in
    the order of their allocation, and the map holds locations.  What entries point to (hashes,
    amounts, programs) is never changed after it has been made and is a value.

    The constructors of entries, [EntryID], [SetDestination], [AssetAmount] of an input and
    [IsUnspendable] are not in the repository: they are the class [EntryOps], and what the
    code relies on is [EntryLaws]. *)
From S2P Require Import Prelude Errors GoLib Hash Merkle Entry TxTypes BlockTypes Consensus.

(** ** bc.pb.go: the entries *)
Record ValueSource := mkValueSource { vs_Ref : option Hash; vs_Value : option AssetAmount; vs_Position : Z }.
Record ValueDestination := mkValueDestination { vd_Ref : option Hash; vd_Value : option AssetAmount; vd_Position : Z }.

Record TxHeader := mkTxHeader { th_Version : Z; th_SerializedSize : Z; th_TimeRange : Z; ResultIds : list Hash }.
Record Mux := mkMux {
  Sources : list (option ValueSource);
  mux_Program : option Program;
  WitnessDestinations : list ValueDestination;
  mux_WitnessArguments : list bytes;
}.
Record Coinbase := mkCoinbase { cb_WitnessDestination : option ValueDestination; cb_Arbitrary : bytes }.
Record Output := mkOutput { out_Source : option ValueSource; out_ControlProgram : option Program; out_Ordinal : Z }.
Record Retirement := mkRetirement { ret_Source : option ValueSource; ret_Ordinal : Z }.
Record Issuance := mkIssuance {
  iss_NonceHash : option Hash;
  iss_Value : option AssetAmount;
  iss_WitnessDestination : option ValueDestination;
  iss_WitnessAssetDefinition : option AssetDefinition;
  iss_WitnessArguments : list bytes;
  iss_Ordinal : Z;
}.
Record Spend := mkSpend {
  SpentOutputId : option Hash;
  sp_WitnessDestination : option ValueDestination;
  sp_WitnessArguments : list bytes;
  sp_Ordinal : Z;
}.
Record bcBlockHeader := mkBcBlockHeader {
  bbh_Version : Z;
  bbh_Height : Z;
  PreviousBlockId : option Hash;
  bbh_Timestamp : Z;
  TransactionsRoot : option Hash;
  bbh_TransactionStatusHash : option Hash;
  bbh_Nonce : Z;
  bbh_Bits : Z;
  bbh_TransactionStatus : option TransactionStatus;
}.

(** The dynamic types behind the interface [Entry]. *)
Inductive Entry :=
| EIssuance (e : Issuance)
| ESpend (e : Spend)
| ECoinbase (e : Coinbase)
| EMux (e : Mux)
| EOutput (e : Output)
| ERetirement (e : Retirement)
| ETxHeader (e : TxHeader)
| EBlockHeader (e : bcBlockHeader).

(** The functions of other packages. *)
Class EntryOps := {
  EntryID : Entry -> Hash;
  NewIssuance : Hash -> AssetAmount -> Z -> Issuance;
  NewSpend : Hash -> Z -> Spend;
  NewCoinbase : bytes -> Coinbase;
  NewMux : list (option ValueSource) -> Program -> Mux;
  NewOutput : ValueSource -> Program -> Z -> Output;
  NewRetirement : ValueSource -> Z -> Retirement;
  NewTxHeader : Z -> Z -> Z -> list Hash -> TxHeader;
  NewBlockHeader : Z -> Z -> Hash -> Z -> Hash -> Hash -> Z -> Z -> bcBlockHeader;
  Issuance_SetDestination : Issuance -> Hash -> option AssetAmount -> Z -> Issuance;
  Spend_SetDestination : Spend -> Hash -> option AssetAmount -> Z -> Spend;
  Coinbase_SetDestination : Coinbase -> Hash -> option AssetAmount -> Z -> Coinbase;
  TxInput_AssetAmount : TxInput -> AssetAmount;
  IsUnspendable : bytes -> bool;
  OP_TRUE : Z;
}.

(** An entry without its witness: the fields so named in bc.proto. *)
Definition unwitnessed (e : Entry) : Entry :=
  match e with
  | EIssuance i => EIssuance (mkIssuance (iss_NonceHash i) (iss_Value i) None None [] (iss_Ordinal i))
  | ESpend s => ESpend (mkSpend (SpentOutputId s) None [] (sp_Ordinal s))
  | ECoinbase c => ECoinbase (mkCoinbase None (cb_Arbitrary c))
  | EMux m => EMux (mkMux (Sources m) (mux_Program m) [] [])
  | _ => e
  end.

(** A constructor fills the fields of its arguments, [SetDestination] the one of its name, and
    the identifier of an entry does not depend on its witness (the code computes it first
    and fills in the witness afterwards). *)
Class EntryLaws `{EntryOps} := {
  EntryID_witness e e' : unwitnessed e = unwitnessed e' -> EntryID e = EntryID e';
  NewIssuance_law n v i : NewIssuance n v i = mkIssuance (Some n) (Some v) None None [] i;
  NewSpend_law h i : NewSpend h i = mkSpend (Some h) None [] i;
  NewCoinbase_law a : NewCoinbase a = mkCoinbase None a;
  NewMux_law s p : NewMux s p = mkMux s (Some p) [] [];
  NewOutput_law s p i : NewOutput s p i = mkOutput (Some s) (Some p) i;
  NewRetirement_law s i : NewRetirement s i = mkRetirement (Some s) i;
  NewTxHeader_law v s t l : NewTxHeader v s t l = mkTxHeader v s t l;
  Issuance_SetDestination_law e h v p : Issuance_SetDestination e h v p =
    mkIssuance (iss_NonceHash e) (iss_Value e) (Some (mkValueDestination (Some h) v p))
      (iss_WitnessAssetDefinition e) (iss_WitnessArguments e) (iss_Ordinal e);
  Spend_SetDestination_law e h v p : Spend_SetDestination e h v p =
    mkSpend (SpentOutputId e) (Some (mkValueDestination (Some h) v p)) (sp_WitnessArguments e) (sp_Ordinal e);
  Coinbase_SetDestination_law e h v p : Coinbase_SetDestination e h v p =
    mkCoinbase (Some (mkValueDestination (Some h) v p)) (cb_Arbitrary e);
}.

(** ** mapTx *)
Section map.
Context `{Sha3} `{EntryOps}.

(** The variables of [mapTx], and the store of entries. *)
Record mapst := mkMapst {
  store : list Entry;
  entryMap : gmap Hash nat;
  spends : list nat;
  issuances : list nat;
  coinbase : option nat;
  muxSources : list (option ValueSource);
}.

(** The closure [addEntry], on an entry that has just been allocated. *)
Definition addEntry (e : Entry) (st : mapst) : Hash * nat * mapst :=
  let id := EntryID e in
  let p := length (store st) in
  (id, p, mkMapst (store st ++ [e]) (<[id := p]> (entryMap st)) (spends st) (issuances st)
            (coinbase st) (muxSources st)).

Definition set_source (i : nat) (src : ValueSource) (st : mapst) : mapst :=
  mkMapst (store st) (entryMap st) (spends st) (issuances st) (coinbase st)
    (<[i := Some src]> (muxSources st)).
Definition add_spend (p : nat) (st : mapst) : mapst :=
  mkMapst (store st) (entryMap st) (spends st ++ [p]) (issuances st) (coinbase st) (muxSources st).
Definition add_issuance (p : nat) (st : mapst) : mapst :=
  mkMapst (store st) (entryMap st) (spends st) (issuances st ++ [p]) (coinbase st) (muxSources st).
Definition set_coinbase (p : nat) (st : mapst) : mapst :=
  mkMapst (store st) (entryMap st) (spends st) (issuances st) (Some p) (muxSources st).
Definition set_store (l : list Entry) (st : mapst) : mapst :=
  mkMapst l (entryMap st) (spends st) (issuances st) (coinbase st) (muxSources st).

(** An issuance with the two witness fields the loop fills in. *)
Definition set_issuance_witness (def : AssetDefinition) (args : list bytes) (e : Issuance) : Issuance :=
  mkIssuance (iss_NonceHash e) (iss_Value e) (iss_WitnessDestination e) (Some def) args (iss_Ordinal e).
Definition set_spend_witness (args : list bytes) (e : Spend) : Spend :=
  mkSpend (SpentOutputId e) (sp_WitnessDestination e) args (sp_Ordinal e).

(** The body of the loop over the inputs.  An input of an unknown asset version has no typed
    input: no case applies.  [None] is the panic of [tx.Outputs[0]]. *)
Definition map_input (tx : TxData) (i : nat) (input : TxInput) (st : mapst) : option mapst :=
  match ti_TypedInput input with
  | Some (TIssuance inp) =>
      let nonceHash := IssuanceInput_NonceHash inp in
      let assetDefHash := IssuanceInput_AssetDefinitionHash inp in
      let value := TxInput_AssetAmount input in
      let issuance := NewIssuance nonceHash value (Z.of_nat i) in
      let issuance := set_issuance_witness
        (mkAssetDefinition (Some (mkProgram (ii_VMVersion inp) (IssuanceProgram inp))) (Some assetDefHash))
        (ii_Arguments inp) issuance in
      let '(issuanceID, p, st) := addEntry (EIssuance issuance) st in
      let st := set_source i (mkValueSource (Some issuanceID) (Some value) 0) st in
      Some (add_issuance p st)
  | Some (TSpend inp) =>
      let sc := si_SpendCommitment inp in
      let prog := mkProgram (sc_VMVersion sc) (sc_ControlProgram sc) in
      let src := mkValueSource (Some (SourceID sc)) (Some (sc_AssetAmount sc)) (SourcePosition sc) in
      let prevout := NewOutput src prog 0 in
      let '(prevoutID, _, st) := addEntry (EOutput prevout) st in
      let spend := set_spend_witness (si_Arguments inp) (NewSpend prevoutID (Z.of_nat i)) in
      let '(spendID, p, st) := addEntry (ESpend spend) st in
      let st := set_source i (mkValueSource (Some spendID) (Some (sc_AssetAmount sc)) 0) st in
      Some (add_spend p st)
  | Some (TCoinbase inp) =>
      let '(coinbaseID, p, st) := addEntry (ECoinbase (NewCoinbase (Arbitrary inp))) st in
      let st := set_coinbase p st in
      out ← Outputs tx !! 0%nat;
      Some (set_source i (mkValueSource (Some coinbaseID) (Some (oc_AssetAmount (to_OutputCommitment out))) 0) st)
  | None => Some st
  end.

Fixpoint map_inputs (tx : TxData) (i : nat) (l : list TxInput) (st : mapst) : option mapst :=
  match l with
  | [] => Some st
  | input :: l => st ← map_input tx i input st; map_inputs tx (S i) l st
  end.

(** The loop over the spends: [None] is a failed type assertion or a nil pointer. *)
Fixpoint connect_spends (m : gmap Hash nat) (muxID : Hash) (l : list nat) (h : list Entry) : option (list Entry) :=
  match l with
  | [] => Some h
  | p :: l =>
      match h !! p with
      | Some (ESpend spend) =>
          id ← SpentOutputId spend;
          q ← m !! id;
          match h !! q with
          | Some (EOutput spentOutput) =>
              src ← out_Source spentOutput;
              connect_spends m muxID l
                (<[p := ESpend (Spend_SetDestination spend muxID (vs_Value src) (sp_Ordinal spend))]> h)
          | _ => None
          end
      | _ => None
      end
  end.

Fixpoint connect_issuances (muxID : Hash) (l : list nat) (h : list Entry) : option (list Entry) :=
  match l with
  | [] => Some h
  | p :: l =>
      match h !! p with
      | Some (EIssuance issuance) =>
          connect_issuances muxID l
            (<[p := EIssuance (Issuance_SetDestination issuance muxID (iss_Value issuance) (iss_Ordinal issuance))]> h)
      | _ => None
      end
  end.

Definition connect_coinbase (muxID : Hash) (mux : Mux) (c : option nat) (h : list Entry) : option (list Entry) :=
  match c with
  | None => Some h
  | Some p =>
      match h !! p with
      | Some (ECoinbase cb) =>
          src ← Sources mux !! 0%nat;
          src ← src;
          Some (<[p := ECoinbase (Coinbase_SetDestination cb muxID (vs_Value src) 0)]> h)
      | _ => None
      end
  end.

(** The body of the loop over the outputs: a result, and a destination appended to the mux. *)
Definition map_output (muxID : Hash) (mp : nat) (i : nat) (out : TxOutput) (st : mapst) : option (Hash * mapst) :=
  let oc := to_OutputCommitment out in
  let src := mkValueSource (Some muxID) (Some (oc_AssetAmount oc)) (Z.of_nat i) in
  let '(resultID, _, st) :=
    if IsUnspendable (oc_ControlProgram oc) then addEntry (ERetirement (NewRetirement src (Z.of_nat i))) st
    else addEntry (EOutput (NewOutput src (mkProgram (oc_VMVersion oc) (oc_ControlProgram oc)) (Z.of_nat i))) st in
  let dest := mkValueDestination (Some resultID) (vs_Value src) 0 in
  match store st !! mp with
  | Some (EMux mux) =>
      let mux := mkMux (Sources mux) (mux_Program mux) (WitnessDestinations mux ++ [dest]) (mux_WitnessArguments mux) in
      Some (resultID, set_store (<[mp := EMux mux]> (store st)) st)
  | _ => None
  end.

Fixpoint map_outputs (muxID : Hash) (mp : nat) (i : nat) (l : list TxOutput) (st : mapst)
    : option (list Hash * mapst) :=
  match l with
  | [] => Some ([], st)
  | out :: l =>
      '(id, st) ← map_output muxID mp i out st;
      '(ids, st) ← map_outputs muxID mp (S i) l st;
      Some (id :: ids, st)
  end.

(** The transaction's identifier, the header's location, and the entries. *)
Definition mapTx (tx : TxData) : option (Hash * nat * mapst) :=
  let st := mkMapst [] ∅ [] [] None (replicate (length (Inputs tx)) None) in
  st ← map_inputs tx 0 (Inputs tx) st;
  let mux := NewMux (muxSources st) (mkProgram 1 [u8 OP_TRUE]) in
  let '(muxID, mp, st) := addEntry (EMux mux) st in
  h ← connect_spends (entryMap st) muxID (spends st) (store st);
  h ← connect_issuances muxID (issuances st) h;
  h ← connect_coinbase muxID mux (coinbase st) h;
  '(resultIDs, st) ← map_outputs muxID mp 0 (Outputs tx) (set_store h st);
  let hdr := NewTxHeader (tx_Version tx) (SerializedSize tx) (TimeRange tx) resultIDs in
  Some (addEntry (ETxHeader hdr) st).

(** ** MapTx *)
(** [bc.Tx] of tx.go, its entries as locations. *)
Record bcTx := mkBcTx {
  bct_TxHeader : nat;
  bct_ID : Hash;
  Entries : gmap Hash nat;
  InputIDs : list Hash;
  SpentOutputIDs : list Hash;
  GasInputIDs : list Hash;
}.

(** The variables of the loop over the entries: [tx.InputIDs], the set and [tx.GasInputIDs]. *)
Record scan := mkScan { sc_inputs : list Hash; sc_spent : gset Hash; sc_gas : list Hash }.

Definition set_input (n : nat) (ord : Z) (id : Hash) (s : scan) : scan :=
  if u64 (Z.of_nat n) <=? ord then s
  else mkScan (<[Z.to_nat ord := id]> (sc_inputs s)) (sc_spent s) (sc_gas s).

(** The body of the loop, [n] being the number of inputs; [None] is a nil pointer. *)
Definition scan_entry (n : nat) (id : Hash) (e : Entry) (s : scan) : option scan :=
  match e with
  | EIssuance e => Some (set_input n (iss_Ordinal e) id s)
  | ESpend e =>
      spent ← SpentOutputId e;
      dest ← sp_WitnessDestination e;
      value ← vd_Value dest;
      asset ← AssetId value;
      let gas := if bool_decide (asset = BTMAssetID) then sc_gas s ++ [id] else sc_gas s in
      Some (set_input n (sp_Ordinal e) id (mkScan (sc_inputs s) ({[ spent ]} ∪ sc_spent s) gas))
  | ECoinbase _ => Some (set_input n 0 id s)
  | _ => Some s
  end.

Fixpoint scan_entries (n : nat) (h : list Entry) (l : list (Hash * nat)) (s : scan) : option scan :=
  match l with
  | [] => Some s
  | (id, p) :: l => e ← h !! p; s ← scan_entry n id e s; scan_entries n h l s
  end.

(** The orders in which the two maps are ranged over. *)
Context (range_entries : gmap Hash nat -> list (Hash * nat)) (range_spent : gset Hash -> list Hash).

Definition MapTx (oldTx : TxData) : option (bcTx * list Entry) :=
  '(txID, txHeader, st) ← mapTx oldTx;
  let n := length (Inputs oldTx) in
  s ← scan_entries n (store st) (range_entries (entryMap st)) (mkScan (replicate n zeroHash) ∅ []);
  Some (mkBcTx txHeader txID (entryMap st) (sc_inputs s) (range_spent (sc_spent s)) (sc_gas s), store st).

Definition mapBlockHeader (old : BlockHeader) : Hash * bcBlockHeader :=
  let bc := bh_BlockCommitment old in
  let bh := NewBlockHeader (bh_Version old) (Height old) (PreviousBlockHash old) (Timestamp old)
              (TransactionsMerkleRoot bc) (TransactionStatusHash bc) (bh_Nonce old) (Bits old) in
  (EntryID (EBlockHeader bh), bh).

(** [BlockHeader.Hash] of block_header.go, which is also the hash of a block. *)
Definition BlockHeader_Hash (bh : BlockHeader) : Hash :=
  let '(hash, _) := mapBlockHeader bh in hash.

(** [bc.Block]: its declaration is not in the repository, the three fields are those set here. *)
Record bcBlock (BcTx : Type) := mkBcBlock {
  bcb_ID : Hash;
  bcb_BlockHeader : bcBlockHeader;
  bcb_Transactions : list BcTx;
}.
Arguments mkBcBlock {BcTx} _ _ _.

Definition MapBlock {BcTx} (old : option (Block BcTx)) : option (bcBlock BcTx) :=
  old ← old;
  let '(id, bh) := mapBlockHeader (b_BlockHeader old) in
  Some (mkBcBlock id bh (tx_Tx <$> Transactions old)).
End map.

(** ** The reference translation *)
(** The places of a list that satisfy a test, counted from [k]. *)
Fixpoint positions {A} (P : A -> bool) (k : nat) (l : list A) : list nat :=
  match l with
  | [] => []
  | x :: l => if P x then k :: positions P (S k) l else positions P (S k) l
  end.

Lemma positions_app {A} (P : A -> bool) (l l' : list A) : forall k,
  positions P k (l ++ l') = positions P k l ++ positions P (k + length l) l'.
Proof.
  induction l as [|x l IH]; intros k; cbn [app positions length].
  - by rewrite Nat.add_0_r.
  - rewrite IH, Nat.add_succ_r. by destruct (P x).
Qed.

Definition is_spend (e : Entry) : bool := match e with ESpend _ => true | _ => false end.
Definition is_issuance (e : Entry) : bool := match e with EIssuance _ => true | _ => false end.
Definition is_coinbase (e : Entry) : bool := match e with ECoinbase _ => true | _ => false end.

Section reference.
Context `{Sha3} `{EntryOps}.

Definition prevout (sc : SpendCommitment) : Entry :=
  EOutput (mkOutput (Some (mkValueSource (Some (SourceID sc)) (Some (sc_AssetAmount sc)) (SourcePosition sc)))
    (Some (mkProgram (sc_VMVersion sc) (sc_ControlProgram sc))) 0).

(** The value of the first output, which a coinbase input creates. *)
Definition first_output (tx : TxData) : option AssetAmount :=
  (fun out => oc_AssetAmount (to_OutputCommitment out)) <$> Outputs tx !! 0%nat.

Definition input_value (tx : TxData) (input : TxInput) : option AssetAmount :=
  match ti_TypedInput input with
  | Some (TIssuance _) => Some (TxInput_AssetAmount input)
  | Some (TSpend inp) => Some (sc_AssetAmount (si_SpendCommitment inp))
  | Some (TCoinbase _) => first_output tx
  | None => None
  end.

(** How the destination of an entry with a value and an ordinal is set: not yet, or to the mux. *)
Definition dest_fun : Type := option AssetAmount -> Z -> option ValueDestination.
Definition no_dest : dest_fun := fun _ _ => None.
Definition to_mux (muxID : Hash) : dest_fun := fun v ord => Some (mkValueDestination (Some muxID) v ord).

(** The entries of input [i], the last of them the input's own. *)
Definition input_entries (dest : dest_fun) (tx : TxData) (i : nat) (input : TxInput) : list Entry :=
  let ord := Z.of_nat i in
  let v := input_value tx input in
  match ti_TypedInput input with
  | Some (TIssuance inp) =>
      [EIssuance (mkIssuance (Some (IssuanceInput_NonceHash inp)) v (dest v ord)
         (Some (mkAssetDefinition (Some (mkProgram (ii_VMVersion inp) (IssuanceProgram inp)))
           (Some (IssuanceInput_AssetDefinitionHash inp)))) (ii_Arguments inp) ord)]
  | Some (TSpend inp) =>
      let out := prevout (si_SpendCommitment inp) in
      [out; ESpend (mkSpend (Some (EntryID out)) (dest v ord) (si_Arguments inp) ord)]
  | Some (TCoinbase inp) => [ECoinbase (mkCoinbase (dest v 0) (Arbitrary inp))]
  | None => []
  end.

(** The identifier of an input's own entry, and the source the mux has for the input. *)
Definition input_id (tx : TxData) (i : nat) (input : TxInput) : option Hash :=
  EntryID <$> list.last (input_entries no_dest tx i input).
Definition input_source (tx : TxData) (i : nat) (input : TxInput) : option ValueSource :=
  (fun id => mkValueSource (Some id) (input_value tx input) 0) <$> input_id tx i input.

Definition ref_mux (tx : TxData) (dests : list ValueDestination) : Mux :=
  mkMux (imap (input_source tx) (Inputs tx)) (Some (mkProgram 1 [u8 OP_TRUE])) dests [].
Definition ref_muxID (tx : TxData) : Hash := EntryID (EMux (ref_mux tx [])).

Definition ref_result (muxID : Hash) (i : nat) (out : TxOutput) : Entry :=
  let oc := to_OutputCommitment out in
  let src := mkValueSource (Some muxID) (Some (oc_AssetAmount oc)) (Z.of_nat i) in
  if IsUnspendable (oc_ControlProgram oc) then ERetirement (mkRetirement (Some src) (Z.of_nat i))
  else EOutput (mkOutput (Some src) (Some (mkProgram (oc_VMVersion oc) (oc_ControlProgram oc))) (Z.of_nat i)).
Definition ref_dest (muxID : Hash) (i : nat) (out : TxOutput) : ValueDestination :=
  mkValueDestination (Some (EntryID (ref_result muxID i out))) (Some (oc_AssetAmount (to_OutputCommitment out))) 0.

Definition ref_header (tx : TxData) : TxHeader :=
  mkTxHeader (tx_Version tx) (SerializedSize tx) (TimeRange tx)
    (EntryID <$> imap (ref_result (ref_muxID tx)) (Outputs tx)).

Definition ref_inputs (dest : dest_fun) (tx : TxData) (l : list TxInput) : list Entry :=
  mjoin (imap (input_entries dest tx) l).

(** All entries of a transaction, in the order in which they are made. *)
Definition ref_entries (tx : TxData) : list Entry :=
  let muxID := ref_muxID tx in
  ref_inputs (to_mux muxID) tx (Inputs tx)
  ++ [EMux (ref_mux tx (imap (ref_dest muxID) (Outputs tx)))]
  ++ imap (ref_result muxID) (Outputs tx) ++ [ETxHeader (ref_header tx)].
End reference.

(** ** Lemmas *)
Lemma imap_snoc {A B} (f : nat -> A -> B) l x : imap f (l ++ [x]) = imap f l ++ [f (length l) x].
Proof. rewrite imap_app. cbn. by rewrite Nat.add_0_r. Qed.

Lemma imap_shift {A B} (f : nat -> A -> B) k x l :
  imap (fun n => f (k + n)%nat) (x :: l) = f k x :: imap (fun n => f (S k + n)%nat) l.
Proof.
  rewrite imap_cons, Nat.add_0_r. f_equal. apply imap_ext. intros i y _. cbn. by rewrite Nat.add_succ_r.
Qed.

Lemma insert_middle {A} (l : list A) x y l' : <[length l := x]> (l ++ y :: l') = l ++ x :: l'.
Proof. by rewrite insert_app_r_alt, Nat.sub_diag by lia. Qed.

Lemma lookup_middle {A} (l : list A) x l' : (l ++ x :: l') !! length l = Some x.
Proof. by rewrite lookup_app_r, Nat.sub_diag by lia. Qed.

Section lemmas.
Context `{Sha3} `{EntryLaws}.

(** The map's keys are the identifiers of the entries at their locations, and every entry's
    identifier is a key. *)
Definition keyed (h : list Entry) (m : gmap Hash nat) : Prop :=
  (forall id p, m !! id = Some p -> exists e, h !! p = Some e /\ EntryID e = id)
  /\ (forall e, e ∈ h -> is_Some (m !! EntryID e)).

Lemma keyed_add h m e : keyed h m -> keyed (h ++ [e]) (<[EntryID e := length h]> m).
Proof.
  intros [Hk Ha]. split.
  - intros id p. rewrite lookup_insert_Some. intros [[<- <-]|[_ Hm]].
    + exists e. by rewrite lookup_middle.
    + destruct (Hk id p Hm) as (e' & He' & Hid). exists e'. split; [|done]. by apply lookup_app_l_Some.
  - intros e' [He'|He']%elem_of_app; apply lookup_insert_is_Some'.
    + right. by apply Ha.
    + apply list_elem_of_singleton in He' as ->. by left.
Qed.

Lemma keyed_witness h h' m : unwitnessed <$> h = unwitnessed <$> h' -> keyed h m -> keyed h' m.
Proof.
  intros Hu [Hk Ha].
  assert (forall (h h' : list Entry) p e, unwitnessed <$> h = unwitnessed <$> h' -> h !! p = Some e ->
    exists e', h' !! p = Some e' /\ EntryID e' = EntryID e) as Ht.
  { intros k k' p e Hkk Hp. assert ((unwitnessed <$> k') !! p = Some (unwitnessed e)) as Hp'.
    { by rewrite <- Hkk, list_lookup_fmap, Hp. }
    rewrite list_lookup_fmap in Hp'. destruct (k' !! p) as [e'|] eqn:He'; [|done]. injection Hp' as Hp'.
    exists e'. split; [done|]. by apply EntryID_witness. }
  split.
  - intros id p Hm. destruct (Hk id p Hm) as (e & He & Hid). destruct (Ht h h' p e Hu He) as (e' & He' & Hid').
    exists e'. split; [done|]. by rewrite Hid'.
  - intros e' [p Hp]%list_elem_of_lookup. destruct (Ht h' h p e' (eq_sym Hu) Hp) as (e & He & Hid).
    rewrite <- Hid. apply Ha. apply list_elem_of_lookup. by exists p.
Qed.

(** The variables of [mapTx] when the inputs before [l] have been translated. *)
Record inputs_ok (tx : TxData) (prior : list TxInput) (left : nat) (st : mapst) : Prop := {
  io_store : store st = ref_inputs no_dest tx prior;
  io_keyed : keyed (store st) (entryMap st);
  io_spends : spends st = positions is_spend 0 (store st);
  io_issuances : issuances st = positions is_issuance 0 (store st);
  io_coinbase : coinbase st = list.last (positions is_coinbase 0 (store st));
  io_sources : muxSources st = imap (input_source tx) prior ++ replicate left None;
}.

Definition is_coinbase_input (input : TxInput) : bool :=
  match ti_TypedInput input with Some (TCoinbase _) => true | _ => false end.

Lemma ref_inputs_snoc dest tx prior input :
  ref_inputs dest tx (prior ++ [input]) = ref_inputs dest tx prior ++ input_entries dest tx (length prior) input.
Proof. unfold ref_inputs. rewrite imap_snoc. rewrite join_app. cbn. by rewrite app_nil_r. Qed.

Lemma map_input_ok tx prior input left st : inputs_ok tx prior (S left) st ->
  (is_coinbase_input input = true -> Outputs tx <> []) ->
  exists st', map_input tx (length prior) input st = Some st' /\ inputs_ok tx (prior ++ [input]) left st'.
Proof.
  intros [Hs Hk Hsp Hi Hc Hm] Hout. unfold map_input, is_coinbase_input in *.
  assert (forall src, <[length prior := src]> (muxSources st)
    = (imap (input_source tx) prior ++ [src]) ++ replicate left None) as Hset.
  { intros src. rewrite Hm. cbn [replicate]. pose proof (length_imap (input_source tx) prior) as Hl.
    rewrite <- Hl at 1. rewrite insert_middle. by rewrite <- app_assoc. }
  destruct (ti_TypedInput input) as [[inp|inp|inp]|] eqn:Et.
  - eexists. split; [reflexivity|]. split; cbn -[positions].
    + rewrite ref_inputs_snoc, Hs. f_equal. unfold input_entries, input_value. rewrite Et. by rewrite NewIssuance_law.
    + by apply keyed_add.
    + by rewrite positions_app, Hsp, app_nil_r.
    + by rewrite positions_app, Hi.
    + by rewrite positions_app, Hc, app_nil_r.
    + rewrite Hset, imap_snoc. do 3 f_equal. unfold input_source, input_id, input_entries, input_value. rewrite Et.
      cbn. by rewrite NewIssuance_law.
  - eexists. split; [reflexivity|]. split; cbn -[positions].
    + rewrite ref_inputs_snoc, Hs, <- app_assoc. f_equal. unfold input_entries, input_value, prevout. rewrite Et. cbn.
      by rewrite NewSpend_law, NewOutput_law.
    + by do 2 apply keyed_add.
    + rewrite !positions_app, Hsp. cbn. by rewrite app_nil_r, length_app.
    + by rewrite !positions_app, Hi, !app_nil_r.
    + by rewrite !positions_app, Hc, !app_nil_r.
    + rewrite Hset, imap_snoc. do 3 f_equal. unfold input_source, input_id, input_entries, input_value, prevout. rewrite Et.
      cbn. by rewrite NewSpend_law, NewOutput_law.
  - specialize (Hout eq_refl). destruct (Outputs tx) as [|out outs] eqn:Eo; [done|].
    eexists. split; [reflexivity|]. split; cbn -[positions].
    + rewrite ref_inputs_snoc, Hs. f_equal. unfold input_entries. rewrite Et. by rewrite NewCoinbase_law.
    + by apply keyed_add.
    + by rewrite positions_app, Hsp, app_nil_r.
    + by rewrite positions_app, Hi, app_nil_r.
    + rewrite positions_app. cbn. by rewrite last_snoc.
    + rewrite Hset, imap_snoc. do 3 f_equal. unfold input_source, input_id, input_entries, input_value, first_output.
      rewrite Et, Eo. cbn. by rewrite NewCoinbase_law.
  - exists st. split; [done|]. assert (input_entries no_dest tx (length prior) input = []) as He by (unfold input_entries; by rewrite Et).
    assert (input_source tx (length prior) input = None) as Hn by (unfold input_source, input_id; by rewrite He).
    split; try done.
    + by rewrite ref_inputs_snoc, He, app_nil_r.
    + rewrite Hm, imap_snoc, Hn, <- app_assoc. done.
Qed.

Lemma map_inputs_ok tx l : forall prior st, inputs_ok tx prior (length l) st ->
  (existsb is_coinbase_input l = true -> Outputs tx <> []) ->
  exists st', map_inputs tx (length prior) l st = Some st' /\ inputs_ok tx (prior ++ l) 0 st'.
Proof.
  induction l as [|input l IH]; intros prior st Hst Hout; cbn [map_inputs].
  - exists st. by rewrite app_nil_r.
  - cbn [existsb] in Hout. destruct (map_input_ok tx prior input (length l) st Hst) as (st1 & -> & Hst1).
    { intros Hi. apply Hout. by rewrite Hi. }
    cbn [mbind option_bind]. destruct (IH (prior ++ [input]) st1 Hst1) as (st2 & Hm & Hst2).
    { intros Hi. apply Hout. rewrite Hi. apply orb_true_r. }
    exists st2. rewrite length_app, Nat.add_1_r in Hm. rewrite Hm. by rewrite <- app_assoc in Hst2.
Qed.

Lemma map_inputs_panic tx l : forall i st, existsb is_coinbase_input l = true -> Outputs tx = [] ->
  map_inputs tx i l st = None.
Proof.
  induction l as [|input l IH]; intros i st Hc Ho; [done|]. cbn [existsb] in Hc. cbn [map_inputs].
  destruct (is_coinbase_input input) eqn:Ei.
  - unfold map_input. unfold is_coinbase_input in Ei. destruct (ti_TypedInput input) as [[]|]; try done.
    cbn. by rewrite Ho.
  - destruct (map_input tx i input st); [|done]. by apply IH.
Qed.

(** The value a spend gets: that of the output found under its identifier. *)
Definition spent_value (m : gmap Hash nat) (h : list Entry) (s : Spend) : option (option AssetAmount) :=
  id ← SpentOutputId s;
  q ← m !! id;
  match h !! q with
  | Some (EOutput o) => vs_Value <$> out_Source o
  | _ => None
  end.

Definition finish_spend (m : gmap Hash nat) (h : list Entry) (muxID : Hash) (e : Entry) : Entry :=
  match e with
  | ESpend s => ESpend (Spend_SetDestination s muxID (default None (spent_value m h s)) (sp_Ordinal s))
  | _ => e
  end.

Lemma finish_spend_value m h muxID a b s : h = a ++ b ->
  spent_value m ((finish_spend m h muxID <$> a) ++ b) s = spent_value m h s.
Proof.
  intros Hh. unfold spent_value. destruct (SpentOutputId s) as [id|]; [|done]. cbn [mbind option_bind].
  destruct (m !! id) as [q|]; [|done]. cbn [mbind option_bind].
  assert (h !! q = (a ++ b) !! q) as -> by (by rewrite Hh). rewrite !lookup_app, length_fmap, list_lookup_fmap.
  destruct (a !! q) as [e|]; [|done]. by destruct e.
Qed.

(** The loop over the spends completes them, one after the other. *)
Lemma connect_spends_ok m muxID h b : forall a, h = a ++ b ->
  (forall s, ESpend s ∈ b -> is_Some (spent_value m h s)) ->
  connect_spends m muxID (positions is_spend (length a) b) ((finish_spend m h muxID <$> a) ++ b)
    = Some (finish_spend m h muxID <$> h).
Proof.
  induction b as [|e b IH]; intros a Hh Hv.
  - rewrite app_nil_r in *. by rewrite Hh.
  - specialize (IH (a ++ [e])). rewrite length_app, Nat.add_1_r, fmap_app, <- !app_assoc in IH. specialize (IH Hh).
    assert (forall s, ESpend s ∈ b -> is_Some (spent_value m h s)) as Hvb by (intros s Hs; apply Hv; by right).
    cbn [positions]. destruct (is_spend e) eqn:Es; [|destruct e; try done; by apply IH].
    destruct e as [|s| | | | | |]; try done. cbn [connect_spends].
    pose proof (length_fmap (finish_spend m h muxID) a) as Hl. rewrite <- Hl at 1. rewrite lookup_middle.
    destruct (Hv s ltac:(by left)) as [v Hsv]. pose proof (finish_spend_value m h muxID a (ESpend s :: b) s Hh) as Hf.
    rewrite Hsv in Hf. unfold spent_value in Hf.
    destruct (SpentOutputId s) as [id|] eqn:Eid; [|done]. cbn [mbind option_bind] in Hf |- *.
    destruct (m !! id) as [q|]; [|done]. cbn [mbind option_bind] in Hf |- *.
    destruct (((finish_spend m h muxID <$> a) ++ ESpend s :: b) !! q) as [[]|]; try done.
    destruct (out_Source _) as [src|]; [|done]. injection Hf as <-. cbn [mbind option_bind].
    rewrite <- Hl, insert_middle, Hl. rewrite <- IH by done. f_equal. cbn. by rewrite Hsv.
Qed.

Definition finish_issuance (muxID : Hash) (e : Entry) : Entry :=
  match e with
  | EIssuance i => EIssuance (Issuance_SetDestination i muxID (iss_Value i) (iss_Ordinal i))
  | _ => e
  end.

Lemma connect_issuances_ok muxID b : forall a,
  connect_issuances muxID (positions is_issuance (length a) b) ((finish_issuance muxID <$> a) ++ b)
    = Some (finish_issuance muxID <$> a ++ b).
Proof.
  induction b as [|e b IH]; intros a.
  - cbn. by rewrite !app_nil_r.
  - specialize (IH (a ++ [e])). rewrite length_app, Nat.add_1_r, fmap_app, <- !app_assoc in IH.
    cbn [positions]. destruct (is_issuance e) eqn:Es; [|destruct e; try done; by apply IH].
    destruct e as [i| | | | | | |]; try done. cbn [connect_issuances].
    pose proof (length_fmap (finish_issuance muxID) a) as Hl. rewrite <- Hl at 1. rewrite lookup_middle.
    rewrite <- Hl, insert_middle, Hl. exact IH.
Qed.

(** The loop over the outputs, from [prior] on. *)
Lemma map_outputs_ok muxID pre mux l : forall prior dests rest st,
  store st = pre ++ EMux (mkMux (Sources mux) (mux_Program mux) dests (mux_WitnessArguments mux)) :: rest ->
  keyed (store st) (entryMap st) ->
  exists st', map_outputs muxID (length pre) prior l st
      = Some (EntryID <$> imap (fun n => ref_result muxID (prior + n)) l, st')
    /\ store st' = pre ++ EMux (mkMux (Sources mux) (mux_Program mux)
         (dests ++ imap (fun n => ref_dest muxID (prior + n)) l) (mux_WitnessArguments mux))
         :: rest ++ imap (fun n => ref_result muxID (prior + n)) l
    /\ keyed (store st') (entryMap st').
Proof.
  induction l as [|out l IH]; intros prior dests rest st Hst Hk; cbn [map_outputs].
  - exists st. cbn. by rewrite !app_nil_r.
  - assert (exists st1, map_output muxID (length pre) prior out st = Some (EntryID (ref_result muxID prior out), st1)
      /\ store st1 = pre ++ EMux (mkMux (Sources mux) (mux_Program mux) (dests ++ [ref_dest muxID prior out])
           (mux_WitnessArguments mux)) :: rest ++ [ref_result muxID prior out]
      /\ keyed (store st1) (entryMap st1)) as (st1 & -> & Hst1 & Hk1).
    { assert (map_output muxID (length pre) prior out st =
        let '(resultID, _, st) := addEntry (ref_result muxID prior out) st in
        match store st !! length pre with
        | Some (EMux mux) => Some (resultID, set_store (<[length pre := EMux (mkMux (Sources mux) (mux_Program mux)
            (WitnessDestinations mux ++ [ref_dest muxID prior out]) (mux_WitnessArguments mux))]> (store st)) st)
        | _ => None
        end) as ->.
      { unfold map_output, ref_result, ref_dest. cbv zeta. rewrite NewRetirement_law, NewOutput_law.
        unfold ref_result. by destruct (IsUnspendable _). }
      pose proof (keyed_add _ _ (ref_result muxID prior out) Hk) as Hk1.
      cbn [addEntry store]. rewrite Hst in *. rewrite <- app_assoc in *. cbn [app] in *. rewrite lookup_middle, insert_middle.
      eexists. split; [reflexivity|]. cbn [set_store store entryMap addEntry]. split; [done|].
      eapply keyed_witness; [|exact Hk1]. rewrite !fmap_app, !fmap_cons. done. }
    cbn [mbind option_bind]. destruct (IH (S prior) _ _ st1 Hst1 Hk1) as (st2 & -> & Hst2 & Hk2).
    exists st2. cbn [mbind option_bind]. rewrite !imap_shift. split_and!; [done| |done].
    rewrite Hst2. by rewrite <- !app_assoc.
Qed.

(** The entries up to the mux, before they are connected. *)
Definition ref_unconnected (tx : TxData) : list Entry :=
  ref_inputs no_dest tx (Inputs tx) ++ [EMux (ref_mux tx [])].

Lemma positions_lookup {A} (P : A -> bool) (l : list A) p : forall k, p ∈ positions P k l ->
  exists x, l !! (p - k)%nat = Some x /\ P x = true /\ (k <= p)%nat.
Proof.
  induction l as [|x l IH]; intros k Hp; cbn [positions] in Hp; [by apply elem_of_nil in Hp|].
  assert (p ∈ positions P (S k) l -> exists y, (x :: l) !! (p - k)%nat = Some y /\ P y = true /\ (k <= p)%nat) as Hr.
  { intros (y & Hy & HPy & Hk)%IH. exists y. split_and!; [|done|lia].
    by replace (p - k)%nat with (S (p - S k)) by lia. }
  destruct (P x) eqn:HP; [|by apply Hr]. apply elem_of_cons in Hp as [->|Hp]; [|by apply Hr].
  exists x. by rewrite Nat.sub_diag.
Qed.

Lemma positions_none {A} (P : A -> bool) (l : list A) : forall k, existsb P l = false -> positions P k l = [].
Proof.
  induction l as [|x l IH]; intros k He; [done|]. cbn in *. apply orb_false_iff in He as [-> He]. by apply IH.
Qed.

Lemma positions_some {A} (P : A -> bool) (l : list A) k : existsb P l = true -> is_Some (list.last (positions P k l)).
Proof.
  intros He. enough (positions P k l <> []) by (destruct (positions P k l) using rev_ind; [done|by rewrite last_snoc]).
  revert k He. induction l as [|x l IH]; intros k He; [done|]. cbn in *. destruct (P x); [done|]. by apply IH.
Qed.

Lemma last_elem_of {A} (l : list A) x : list.last l = Some x -> x ∈ l.
Proof.
  destruct l as [|y l _] using rev_ind; [done|]. rewrite last_snoc. intros [= ->]. apply elem_of_app. right. by left.
Qed.

(** The run of [mapTx] up to the coinbase, when every spend finds its output. *)
Lemma mapTx_connected tx :
  (existsb is_coinbase_input (Inputs tx) = true -> Outputs tx <> []) ->
  (forall m s, keyed (ref_unconnected tx) m -> ESpend s ∈ ref_unconnected tx ->
     is_Some (spent_value m (ref_unconnected tx) s)) ->
  exists m sp iss cb srcs,
    keyed (ref_unconnected tx) m /\ cb = list.last (positions is_coinbase 0 (ref_inputs no_dest tx (Inputs tx))) /\
    mapTx tx =
      (h ← connect_coinbase (ref_muxID tx) (ref_mux tx []) cb
        (finish_issuance (ref_muxID tx) <$> (finish_spend m (ref_unconnected tx) (ref_muxID tx) <$> ref_unconnected tx));
       '(resultIDs, st) ← map_outputs (ref_muxID tx) (length (ref_inputs no_dest tx (Inputs tx))) 0 (Outputs tx)
          (mkMapst h m sp iss cb srcs);
       Some (addEntry (ETxHeader (NewTxHeader (tx_Version tx) (SerializedSize tx) (TimeRange tx) resultIDs)) st)).
Proof.
  intros Hout Hsp. unfold mapTx.
  destruct (map_inputs_ok tx (Inputs tx) [] (mkMapst [] ∅ [] [] None (replicate (length (Inputs tx)) None)))
    as (st & Hm & [Hs Hk Hspe Hi Hc Hso]); [|done|].
  { split; try done. split; [done|]. intros e He. by apply elem_of_nil in He. }
  cbn [length app] in Hm. rewrite Hm. cbn [mbind option_bind]. rewrite NewMux_law, Hso. cbn [replicate app]. rewrite app_nil_r.
  change (mkMux (imap (input_source tx) (Inputs tx)) (Some (mkProgram 1 [u8 OP_TRUE])) [] []) with (ref_mux tx []).
  cbn [addEntry]. fold (ref_muxID tx). cbn [store entryMap spends issuances coinbase muxSources].
  apply (keyed_add _ _ (EMux (ref_mux tx []))) in Hk. fold (ref_muxID tx) in Hk.
  rewrite Hs in *. cbn [app] in *. fold (ref_unconnected tx) in Hk |- *.
  set (m := <[ref_muxID tx := _]> (entryMap st)) in *.
  exists m, (spends st), (issuances st), (coinbase st), (muxSources st). split_and!; [done|done|].
  assert (spends st = positions is_spend (length (@nil Entry)) (ref_unconnected tx)) as ->.
  { unfold ref_unconnected. by rewrite positions_app, Hspe, app_nil_r. }
  pose proof (connect_spends_ok m (ref_muxID tx) (ref_unconnected tx) (ref_unconnected tx) [] eq_refl) as Hcs.
  cbn [fmap list_fmap app] in Hcs. rewrite Hcs by (intros s; by apply Hsp). cbn [mbind option_bind].
  assert (issuances st = positions is_issuance (length (@nil Entry))
    (finish_spend m (ref_unconnected tx) (ref_muxID tx) <$> ref_unconnected tx)) as ->.
  { unfold ref_unconnected at 2. rewrite fmap_app, positions_app, Hi. cbn. rewrite app_nil_r.
    generalize (ref_inputs no_dest tx (Inputs tx)) at 1 2 as l, 0%nat as k.
    induction l as [|e l IH]; intros k; [done|]. cbn. rewrite IH. by destruct e. }
  pose proof (connect_issuances_ok (ref_muxID tx) (finish_spend m (ref_unconnected tx) (ref_muxID tx) <$> ref_unconnected tx) []) as Hci.
  cbn [fmap list_fmap app] in Hci. rewrite Hci. done.
Qed.

(** The run from the outputs on. *)
Lemma mapTx_finish tx pre m sp iss cb srcs :
  length pre = length (ref_inputs no_dest tx (Inputs tx)) -> keyed (pre ++ [EMux (ref_mux tx [])]) m ->
  exists st,
    ('(resultIDs, st) ← map_outputs (ref_muxID tx) (length (ref_inputs no_dest tx (Inputs tx))) 0 (Outputs tx)
          (mkMapst (pre ++ [EMux (ref_mux tx [])]) m sp iss cb srcs);
       Some (addEntry (ETxHeader (NewTxHeader (tx_Version tx) (SerializedSize tx) (TimeRange tx) resultIDs)) st))
    = Some (EntryID (ETxHeader (ref_header tx)), (length (store st) - 1)%nat, st)
    /\ store st = pre ++ EMux (ref_mux tx (imap (ref_dest (ref_muxID tx)) (Outputs tx)))
         :: imap (ref_result (ref_muxID tx)) (Outputs tx) ++ [ETxHeader (ref_header tx)]
    /\ keyed (store st) (entryMap st).
Proof.
  intros Hl Hk. rewrite <- Hl.
  destruct (map_outputs_ok (ref_muxID tx) pre (ref_mux tx []) (Outputs tx) 0 [] []
    (mkMapst (pre ++ [EMux (ref_mux tx [])]) m sp iss cb srcs) eq_refl Hk) as (st & Hr & Hst & Hk').
  rewrite Hr. cbn [mbind option_bind]. rewrite NewTxHeader_law.
  change (mkTxHeader _ _ _ _) with (ref_header tx). cbn [app] in Hst.
  eexists. split; [unfold addEntry at 1; f_equal; f_equal; f_equal|].
  - cbn [store]. rewrite length_app. cbn. lia.
  - cbn [store entryMap]. split; [by rewrite Hst, <- app_assoc|]. by apply keyed_add.
Qed.

(** Setting the destination of the coinbase. *)
Lemma connect_coinbase_ok muxID mux pre x cb src p :
  pre !! p = Some (ECoinbase cb) -> Sources mux !! 0%nat = Some (Some src) ->
  connect_coinbase muxID mux (Some p) (pre ++ [x])
    = Some (<[p := ECoinbase (Coinbase_SetDestination cb muxID (vs_Value src) 0)]> pre ++ [x]).
Proof.
  intros Hp Hs. unfold connect_coinbase. rewrite (lookup_app_l_Some _ _ _ _ Hp), Hs. cbn.
  rewrite insert_app_l; [done|]. by apply lookup_lt_Some in Hp.
Qed.

Lemma insert_unwitnessed (l : list Entry) p cb muxID v : l !! p = Some (ECoinbase cb) ->
  unwitnessed <$> <[p := ECoinbase (Coinbase_SetDestination cb muxID v 0)]> l = unwitnessed <$> l.
Proof.
  intros Hp. rewrite list_fmap_insert. apply list_insert_id. rewrite list_lookup_fmap, Hp. cbn.
  by rewrite Coinbase_SetDestination_law.
Qed.

Definition finish (m : gmap Hash nat) (tx : TxData) (e : Entry) : Entry :=
  finish_issuance (ref_muxID tx) (finish_spend m (ref_unconnected tx) (ref_muxID tx) e).

Lemma finish_unwitnessed m tx e : unwitnessed (finish m tx e) = unwitnessed e.
Proof.
  destruct e; try done; unfold finish; cbn.
  - by rewrite Issuance_SetDestination_law.
  - by rewrite Spend_SetDestination_law.
Qed.

Lemma finish_all m tx : finish_issuance (ref_muxID tx) <$>
  (finish_spend m (ref_unconnected tx) (ref_muxID tx) <$> ref_unconnected tx)
  = (finish m tx <$> ref_inputs no_dest tx (Inputs tx)) ++ [EMux (ref_mux tx [])].
Proof. unfold ref_unconnected at 2. rewrite !fmap_app, <- list_fmap_compose. done. Qed.

Lemma coinbase_inputs dest tx l : existsb is_coinbase (ref_inputs dest tx l) = existsb is_coinbase_input l.
Proof.
  induction l as [|input l IH] using rev_ind; [done|].
  rewrite ref_inputs_snoc, !existsb_app, IH. f_equal. unfold input_entries. cbn [existsb].
  unfold is_coinbase_input. by destruct (ti_TypedInput input) as [[]|].
Qed.

(** What makes the translation panic. *)
Definition panics (tx : TxData) : Prop :=
  existsb is_coinbase_input (Inputs tx) = true /\
  (Outputs tx = [] \/ exists input, Inputs tx !! 0%nat = Some input /\ ti_TypedInput input = None).

Definition is_output (e : Entry) : bool := match e with EOutput _ => true | _ => false end.

(** No output spent has the identifier of an entry of another kind. *)
Definition outputs_apart (tx : TxData) : Prop :=
  forall o e, o ∈ ref_unconnected tx -> e ∈ ref_unconnected tx -> is_output o = true -> EntryID e = EntryID o ->
    is_output e = true.

(** An entry of the inputs comes from one of them. *)
Lemma ref_inputs_inv dest tx l e : e ∈ ref_inputs dest tx l ->
  exists i input, l !! i = Some input /\ e ∈ input_entries dest tx i input.
Proof.
  intros (k & He & Hk)%list_elem_of_join. apply elem_of_lookup_imap in Hk as (i & input & -> & Hi). by exists i, input.
Qed.

Lemma ref_inputs_intro dest tx l e i input : l !! i = Some input -> e ∈ input_entries dest tx i input ->
  e ∈ ref_inputs dest tx l.
Proof.
  intros Hi He. apply list_elem_of_join. exists (input_entries dest tx i input). split; [done|].
  apply elem_of_lookup_imap. by exists i, input.
Qed.

Lemma spend_inv dest tx i input s : ESpend s ∈ input_entries dest tx i input ->
  exists inp, ti_TypedInput input = Some (TSpend inp) /\ prevout (si_SpendCommitment inp) ∈ input_entries dest tx i input /\
    s = mkSpend (Some (EntryID (prevout (si_SpendCommitment inp)))) (dest (input_value tx input) (Z.of_nat i))
      (si_Arguments inp) (Z.of_nat i).
Proof.
  unfold input_entries. destruct (ti_TypedInput input) as [[inp|inp|inp]|]; rewrite ?elem_of_cons, ?elem_of_nil;
    try (by intros [?|?]); [|done].
  intros [?|[[= ->]|?]]; [done| |done]. exists inp. split; [done|]. split; [by left|done].
Qed.

Lemma output_inv dest tx i input o : EOutput o ∈ input_entries dest tx i input ->
  exists inp, ti_TypedInput input = Some (TSpend inp) /\ EOutput o = prevout (si_SpendCommitment inp).
Proof.
  unfold input_entries. destruct (ti_TypedInput input) as [[inp|inp|inp]|]; rewrite ?elem_of_cons, ?elem_of_nil;
    try (by intros [?|?]); [|done].
  intros [->|[?|?]]; [by exists inp|done|done].
Qed.

Lemma spent_value_apart tx m s : outputs_apart tx -> keyed (ref_unconnected tx) m -> ESpend s ∈ ref_unconnected tx ->
  exists o, spent_value m (ref_unconnected tx) s = Some (Some (sc_AssetAmount o)) /\
    prevout o ∈ ref_unconnected tx /\ SpentOutputId s = Some (EntryID (prevout o)).
Proof.
  intros Ha [Hk Hall] Hs. unfold ref_unconnected in Hs. apply elem_of_app in Hs as [Hs|Hs]; [|by apply list_elem_of_singleton in Hs].
  destruct (ref_inputs_inv _ _ _ _ Hs) as (i & input & Hi & He). destruct (spend_inv _ _ _ _ _ He) as (inp & Et & Hp & Hsp).
  assert (prevout (si_SpendCommitment inp) ∈ ref_unconnected tx) as Hin.
  { apply elem_of_app. left. by eapply ref_inputs_intro. }
  destruct (Hall _ Hin) as [q Hq]. destruct (Hk _ _ Hq) as (e & Heq & Hid). unfold spent_value. rewrite Hsp. cbn [SpentOutputId].
  cbn [mbind option_bind]. rewrite Hq. cbn [mbind option_bind]. rewrite Heq.
  assert (e ∈ ref_unconnected tx) as Hein by (apply list_elem_of_lookup; by exists q).
  pose proof (Ha _ e Hin Hein eq_refl Hid) as Ho. destruct e as [| | | |o| | |]; try done.
  apply elem_of_app in Hein as [Hein|Hein]; [|by apply list_elem_of_singleton in Hein].
  destruct (ref_inputs_inv _ _ _ _ Hein) as (j & input' & Hj & Ho'). destruct (output_inv _ _ _ _ _ Ho') as (inp' & Et' & Hout).
  exists (si_SpendCommitment inp'). rewrite <- Hout, Hid. split_and!; [|by apply list_elem_of_lookup; exists q|done].
  unfold prevout in Hout. by injection Hout as ->.
Qed.

Lemma source_typed tx i input : ti_TypedInput input <> None -> is_Some (input_source tx i input).
Proof. unfold input_source, input_id, input_entries. by destruct (ti_TypedInput input) as [[]|]. Qed.

(** The entries of the inputs after they have been connected. *)
Definition connected (m : gmap Hash nat) (tx : TxData) : list Entry :=
  let l := finish m tx <$> ref_inputs no_dest tx (Inputs tx) in
  match list.last (positions is_coinbase 0 l), mjoin (Sources (ref_mux tx []) !! 0%nat) with
  | Some p, Some src =>
      match l !! p with
      | Some (ECoinbase cb) => <[p := ECoinbase (Coinbase_SetDestination cb (ref_muxID tx) (vs_Value src) 0)]> l
      | _ => l
      end
  | _, _ => l
  end.

Lemma connected_unwitnessed m tx : unwitnessed <$> connected m tx = unwitnessed <$> ref_inputs no_dest tx (Inputs tx).
Proof.
  assert (unwitnessed <$> (finish m tx <$> ref_inputs no_dest tx (Inputs tx))
    = unwitnessed <$> ref_inputs no_dest tx (Inputs tx)) as Hf.
  { rewrite <- list_fmap_compose. apply list_fmap_ext. intros i e _. apply finish_unwitnessed. }
  unfold connected. destruct (list.last _) as [p|]; [|done]. destruct (mjoin _) as [src|]; [|done].
  destruct (_ !! p) as [[]|] eqn:Ep; try done. by rewrite insert_unwitnessed.
Qed.

Lemma positions_finish m tx (l : list Entry) : forall k,
  positions is_coinbase k (finish m tx <$> l) = positions is_coinbase k l.
Proof. induction l as [|e l IH]; intros k; [done|]. cbn. rewrite IH. by destruct e. Qed.

(** The whole run, when it does not panic. *)
Lemma mapTx_run tx : outputs_apart tx -> ~ panics tx ->
  exists m st, keyed (ref_unconnected tx) m /\
    mapTx tx = Some (EntryID (ETxHeader (ref_header tx)), (length (store st) - 1)%nat, st) /\
    store st = connected m tx ++ EMux (ref_mux tx (imap (ref_dest (ref_muxID tx)) (Outputs tx)))
      :: imap (ref_result (ref_muxID tx)) (Outputs tx) ++ [ETxHeader (ref_header tx)] /\
    keyed (store st) (entryMap st).
Proof.
  intros Ha Hn.
  destruct (mapTx_connected tx) as (m & sp & iss & cb & srcs & Hk & -> & ->).
  { intros Hc Ho. apply Hn. split; [done|by left]. }
  { intros m s Hk Hs. destruct (spent_value_apart tx m s Ha Hk Hs) as (o & -> & _). done. }
  exists m. rewrite finish_all, <- (positions_finish m tx).
  assert (connect_coinbase (ref_muxID tx) (ref_mux tx [])
    (list.last (positions is_coinbase 0 (finish m tx <$> ref_inputs no_dest tx (Inputs tx))))
    ((finish m tx <$> ref_inputs no_dest tx (Inputs tx)) ++ [EMux (ref_mux tx [])])
    = Some (connected m tx ++ [EMux (ref_mux tx [])])) as ->.
  { unfold connected. destruct (list.last _) as [p|] eqn:Ep; [|done].
    apply last_elem_of, positions_lookup in Ep as (e & He & Hc & _). rewrite Nat.sub_0_r in He. destruct e as [| |c| | | | |]; try done.
    destruct (Sources (ref_mux tx []) !! 0%nat) as [[src|]|] eqn:Es.
    - rewrite (connect_coinbase_ok _ _ _ _ _ _ _ He Es). cbn. by rewrite He.
    - exfalso. apply Hn. cbn in Es. rewrite list_lookup_imap in Es. destruct (Inputs tx !! 0%nat) as [input|] eqn:Ei; [|done].
      split; [|right; exists input; split; [done|]].
      + rewrite <- (coinbase_inputs no_dest tx). rewrite list_lookup_fmap in He.
        destruct (_ !! p) as [e|] eqn:Hp in He; [|done]. apply existsb_exists. exists e.
        split; [by apply list_elem_of_In, list_elem_of_lookup; exists p|]. injection He as He. by destruct e.
      + destruct (ti_TypedInput input) eqn:Et; [|done]. destruct (source_typed tx 0 input) as [? Hx]; [by rewrite Et|].
        cbn in Es. by rewrite Hx in Es.
    - exfalso. cbn in Es. rewrite list_lookup_imap in Es. destruct (Inputs tx) eqn:Ei; [|done].
      cbn in He. by rewrite lookup_nil in He. }
  cbn [mbind option_bind].
  pose proof (connected_unwitnessed m tx) as Hu.
  destruct (mapTx_finish tx (connected m tx) m sp iss
    (list.last (positions is_coinbase 0 (finish m tx <$> ref_inputs no_dest tx (Inputs tx)))) srcs) as (st & Hr & Hst & Hk').
  - apply (f_equal length) in Hu. by rewrite !length_fmap in Hu.
  - eapply keyed_witness; [|exact Hk]. unfold ref_unconnected. by rewrite !fmap_app, Hu.
  - exists st. split_and!; [done|exact Hr|done|done].
Qed.

Lemma mapTx_None tx : panics tx -> outputs_apart tx -> mapTx tx = None.
Proof.
  intros [Hc Hp] Ha. destruct (decide (Outputs tx = [])) as [Ho|Ho].
  { unfold mapTx. by rewrite map_inputs_panic. }
  destruct Hp as [|(input & Hi & Et)]; [done|].
  destruct (mapTx_connected tx) as (m & sp & iss & cb & srcs & Hk & -> & ->); [done| |].
  { intros m s Hk Hs. destruct (spent_value_apart tx m s Ha Hk Hs) as (o & -> & _). done. }
  rewrite <- (coinbase_inputs no_dest tx) in Hc. destruct (positions_some _ _ 0 Hc) as [p ->].
  unfold connect_coinbase. destruct (_ !! p) as [[]|]; try done. cbn [ref_mux Sources].
  rewrite list_lookup_imap, Hi. cbn. unfold input_source, input_id, input_entries. by rewrite Et.
Qed.

(** The translation of a transaction, in which no spent output has the identifier of an entry
    of another kind, panics exactly when it has a coinbase input and either no outputs (whose
    first gives the coinbase its value) or a first input of an unknown asset version (whose
    source is the coinbase's destination's value).  Such transactions are read from bytes
    without an error. *)
Theorem mapTx_panics tx : outputs_apart tx -> mapTx tx = None <-> panics tx.
Proof.
  intros Ha. split; [|intros Hp; by apply mapTx_None].
  intros Hn. destruct (existsb is_coinbase_input (Inputs tx)) eqn:Hc.
  2: { destruct (mapTx_run tx Ha) as (m & st & _ & Hr & _); [intros [? _]; congruence|]. by rewrite Hr in Hn. }
  split; [done|]. destruct (Outputs tx) as [|out outs] eqn:Ho; [by left|right].
  destruct (Inputs tx) as [|input l] eqn:Hi; [done|]. exists input. split; [done|].
  destruct (ti_TypedInput input) as [t|] eqn:Et; [|done]. exfalso.
  destruct (mapTx_run tx Ha) as (m & st & _ & Hr & _); [|by rewrite Hr in Hn].
  intros [_ [?|(input' & Hi' & Et')]]; [by rewrite Ho in *|]. rewrite Hi in Hi'. injection Hi' as ->. by rewrite Et in Et'.
Qed.

(** A coinbase input comes first, as in the blocks of the network, and creates an output. *)
Definition coinbase_first (tx : TxData) : Prop :=
  (forall i input, Inputs tx !! i = Some input -> is_coinbase_input input = true -> i = 0%nat) /\
  (existsb is_coinbase_input (Inputs tx) = true -> Outputs tx <> []).

Lemma coinbase_first_runs tx : coinbase_first tx -> ~ panics tx.
Proof.
  intros [Hf Ho] [Hc [Hp|(input & Hi & Et)]]; [by apply Ho|].
  apply existsb_exists in Hc as (x & Hx & Hcx). apply list_elem_of_In, list_elem_of_lookup in Hx as [i Hx].
  rewrite (Hf i x Hx Hcx) in Hx. assert (x = input) as -> by congruence. unfold is_coinbase_input in Hcx. by rewrite Et in Hcx.
Qed.

Lemma fmap_imap_join {A B} (F : B -> B) (f g : nat -> A -> list B) l :
  (forall i x, l !! i = Some x -> F <$> f i x = g i x) -> F <$> mjoin (imap f l) = mjoin (imap g l).
Proof.
  revert f g. induction l as [|x l IH]; intros f g Hfg; [done|]. rewrite !imap_cons, !mjoin_cons, fmap_app.
  f_equal; [by apply Hfg|]. apply IH. intros i y Hy. by apply (Hfg (S i)).
Qed.

Lemma ids_unwitnessed (l l' : list Entry) : unwitnessed <$> l = unwitnessed <$> l' -> EntryID <$> l = EntryID <$> l'.
Proof.
  revert l'. induction l as [|e l IH]; intros [|e' l'] Hu; try done. injection Hu as He Hl.
  cbn. f_equal; [by apply EntryID_witness|by apply IH].
Qed.

Lemma ref_inputs_unwitnessed d d' tx : unwitnessed <$> ref_inputs d tx (Inputs tx) = unwitnessed <$> ref_inputs d' tx (Inputs tx).
Proof.
  unfold ref_inputs. generalize (Inputs tx). intros l.
  enough (forall k, unwitnessed <$> mjoin (imap (fun i => input_entries d tx (k + i)) l)
    = unwitnessed <$> mjoin (imap (fun i => input_entries d' tx (k + i)) l)) as He by apply (He 0%nat).
  induction l as [|x l IH]; intros k; [done|]. rewrite !imap_shift, !mjoin_cons, !fmap_app, IH. f_equal.
  unfold input_entries. by destruct (ti_TypedInput x) as [[]|].
Qed.

(** The identifiers of the entries are distinct. *)
Definition ids_distinct (tx : TxData) : Prop := NoDup (EntryID <$> ref_entries tx).

Lemma ids_unconnected tx : ids_distinct tx -> NoDup (EntryID <$> ref_unconnected tx).
Proof.
  unfold ids_distinct, ref_entries, ref_unconnected. rewrite app_assoc, fmap_app. intros Hd%list.NoDup_app.
  destruct Hd as [Hd _]. rewrite fmap_app in *. rewrite (ids_unwitnessed _ _ (ref_inputs_unwitnessed no_dest (to_mux (ref_muxID tx)) tx)).
  cbn in Hd |- *. erewrite EntryID_witness; [exact Hd|done].
Qed.

Lemma distinct_eq (l : list Entry) e e' : NoDup (EntryID <$> l) -> e ∈ l -> e' ∈ l -> EntryID e = EntryID e' -> e = e'.
Proof.
  intros Hd [i Hi]%list_elem_of_lookup [j Hj]%list_elem_of_lookup He.
  assert (i = j) as ->; [|congruence]. apply (NoDup_lookup (EntryID <$> l) i j (EntryID e)); [done| |].
  - by rewrite list_lookup_fmap, Hi.
  - by rewrite list_lookup_fmap, Hj, He.
Qed.

Lemma distinct_apart tx : ids_distinct tx -> outputs_apart tx.
Proof.
  intros Hd%ids_unconnected o e Ho He Hout Hid. by rewrite (distinct_eq _ _ _ Hd He Ho Hid).
Qed.

(** An input that is not a coinbase is connected as in the reference. *)
Lemma finish_input m tx i input : ids_distinct tx -> keyed (ref_unconnected tx) m -> Inputs tx !! i = Some input ->
  is_coinbase_input input = false ->
  finish m tx <$> input_entries no_dest tx i input = input_entries (to_mux (ref_muxID tx)) tx i input.
Proof.
  intros Hd Hk Hi Hc.
  assert (forall s, ESpend s ∈ input_entries no_dest tx i input ->
    spent_value m (ref_unconnected tx) s = Some (input_value tx input)) as Hv.
  { intros s Hs. destruct (spend_inv _ _ _ _ _ Hs) as (inp & Et & Hp & ->).
    assert (forall e, e ∈ input_entries no_dest tx i input -> e ∈ ref_unconnected tx) as Hin.
    { intros e He. apply elem_of_app. left. by eapply ref_inputs_intro. }
    destruct (spent_value_apart tx m _ (distinct_apart tx Hd) Hk (Hin _ Hs)) as (o & -> & Ho & Hid).
    injection Hid as Hid. pose proof (distinct_eq _ _ _ (ids_unconnected tx Hd) (Hin _ Hp) Ho Hid) as He.
    unfold input_value. rewrite Et. unfold prevout in He. by injection He as _ ->. }
  unfold is_coinbase_input in Hc. unfold input_entries in *. destruct (ti_TypedInput input) as [[inp|inp|inp]|]; try done.
  - cbn. by rewrite Issuance_SetDestination_law.
  - unfold no_dest in *. cbn -[spent_value prevout]. rewrite (Hv _ ltac:(by right; left)), Spend_SetDestination_law. done.
Qed.

Lemma connected_ref m tx : ids_distinct tx -> coinbase_first tx -> keyed (ref_unconnected tx) m ->
  connected m tx = ref_inputs (to_mux (ref_muxID tx)) tx (Inputs tx).
Proof.
  intros Hd [Hf Ho] Hk. unfold connected. cbv zeta. rewrite positions_finish.
  pose proof (fun i input Hi Hc => finish_input m tx i input Hd Hk Hi Hc) as Hfin.
  destruct (existsb is_coinbase_input (Inputs tx)) eqn:Hc.
  2: { rewrite positions_none by (by rewrite coinbase_inputs). cbn [list.last].
    apply fmap_imap_join. intros i x Hx. apply Hfin; [done|]. destruct (is_coinbase_input x) eqn:Ex; [|done].
    exfalso. enough (existsb is_coinbase_input (Inputs tx) = true) by congruence. apply existsb_exists.
    exists x. split; [by apply list_elem_of_In, list_elem_of_lookup; exists i|done]. }
  specialize (Ho eq_refl). destruct (Inputs tx) as [|x l] eqn:Ei; [done|].
  assert (forall i y, l !! i = Some y -> is_coinbase_input y = false) as Hnc.
  { intros i y Hy. destruct (is_coinbase_input y) eqn:Ey; [|done]. by specialize (Hf (S i) y Hy Ey). }
  assert (is_coinbase_input x = true) as Hx.
  { cbn in Hc. destruct (is_coinbase_input x); [done|]. apply existsb_exists in Hc as (y & Hy & Hcy).
    apply list_elem_of_In, list_elem_of_lookup in Hy as [i Hy]. by rewrite (Hnc i y Hy) in Hcy. }
  assert (forall dest, ref_inputs dest tx (x :: l) = input_entries dest tx 0 x
    ++ mjoin (imap (fun i => input_entries dest tx (S i)) l)) as Hri by done.
  unfold ref_inputs in *. rewrite !Hri, fmap_app.
  assert (finish m tx <$> mjoin (imap (fun i => input_entries no_dest tx (S i)) l)
    = mjoin (imap (fun i => input_entries (to_mux (ref_muxID tx)) tx (S i)) l)) as ->.
  { apply fmap_imap_join. intros i y Hy. apply Hfin; [done|by eapply Hnc]. }
  rewrite positions_app, (positions_none is_coinbase (mjoin _)).
  - unfold is_coinbase_input in Hx. destruct (Outputs tx) as [|out outs] eqn:Eo; [done|].
    unfold input_entries at 1 2 3 7, input_value, first_output. destruct (ti_TypedInput x) as [[|inpt|inp]|] eqn:Et; try done.
    cbn [positions app list.last is_coinbase ref_mux Sources]. rewrite Ei. cbn [imap lookup list_lookup].
    unfold input_source, input_id, input_entries, input_value, first_output. rewrite Et, Eo. cbn.
    by rewrite Coinbase_SetDestination_law.
  - destruct (existsb is_coinbase (mjoin _)) eqn:Ee; [|done]. exfalso. apply existsb_exists in Ee as (e & He & Hce).
    apply list_elem_of_In, list_elem_of_join in He as (k & He & Hke). apply elem_of_lookup_imap in Hke as (i & y & -> & Hy).
    pose proof (Hnc i y Hy) as Hcy. unfold is_coinbase_input in Hcy. unfold input_entries in He.
    destruct (ti_TypedInput y) as [[]|]; rewrite ?elem_of_cons, ?elem_of_nil in He; try done;
      by repeat destruct He as [->|He].
Qed.

Lemma mapTx_reference tx : ids_distinct tx -> coinbase_first tx ->
  exists st, mapTx tx = Some (EntryID (ETxHeader (ref_header tx)), (length (ref_entries tx) - 1)%nat, st) /\
    store st = ref_entries tx /\
    forall id p, entryMap st !! id = Some p <-> EntryID <$> ref_entries tx !! p = Some id.
Proof.
  intros Hd Hf. destruct (mapTx_run tx (distinct_apart tx Hd) (coinbase_first_runs tx Hf)) as (m & st & Hk & Hr & Hst & Hk').
  rewrite (connected_ref m tx Hd Hf Hk) in Hst. change (store st = ref_entries tx) in Hst. rewrite Hst in *.
  exists st. split_and!; [done|done|]. destruct Hk' as [Hk1 Hk2]. intros id p. split.
  - intros Hm. destruct (Hk1 id p Hm) as (e & He & Hid). by rewrite He, <- Hid.
  - intros He. apply fmap_Some in He as (e & He & ->).
    destruct (Hk2 e) as [q Hq]; [by apply list_elem_of_lookup; exists p|]. rewrite Hq. f_equal.
    destruct (Hk1 _ _ Hq) as (e' & He' & Hid). unfold ids_distinct in Hd.
    apply (NoDup_lookup (EntryID <$> ref_entries tx) q p (EntryID e)); [done| |].
    + by rewrite list_lookup_fmap, He', <- Hid.
    + by rewrite list_lookup_fmap, He.
Qed.

(** *** The scan of the entries *)
(** The input an entry belongs to, and what the loop reads of a spend. *)
Definition writes_input (e : Entry) : option Z :=
  match e with
  | EIssuance e => Some (iss_Ordinal e)
  | ESpend e => Some (sp_Ordinal e)
  | ECoinbase _ => Some 0
  | _ => None
  end.
Definition spends_output (e : Entry) : option Hash := match e with ESpend s => SpentOutputId s | _ => None end.
Definition spends_asset (e : Entry) : option AssetID :=
  match e with ESpend s => d ← sp_WitnessDestination s; v ← vd_Value d; AssetId v | _ => None end.
Definition spends_gas (e : Entry) : option Hash :=
  if bool_decide (spends_asset e = Some BTMAssetID) then Some (EntryID e) else None.

Definition readable (e : Entry) : Prop :=
  (forall ord, writes_input e = Some ord -> 0 <= ord) /\
  (is_spend e = true -> is_Some (spends_output e) /\ is_Some (spends_asset e)).

Lemma scan_entry_ok n e s : readable e -> exists s', scan_entry n (EntryID e) e s = Some s' /\
  sc_gas s' = sc_gas s ++ omap spends_gas [e] /\ sc_spent s' = sc_spent s ∪ list_to_set (omap spends_output [e]) /\
  sc_inputs s' = match writes_input e with
    | Some ord => if u64 (Z.of_nat n) <=? ord then sc_inputs s else <[Z.to_nat ord := EntryID e]> (sc_inputs s)
    | None => sc_inputs s
    end.
Proof.
  intros [_ Hr]. unfold scan_entry, set_input, spends_gas. cbn [omap list_omap].
  assert (sc_gas s ++ [] = sc_gas s /\ sc_spent s ∪ list_to_set [] = sc_spent s) as [Hg Hs] by (split; [apply app_nil_r|apply union_empty_r_L]).
  destruct e as [i|sp|c|m|o|r|hd|b]; cbn [writes_input spends_output spends_asset is_spend];
    rewrite ?bool_decide_false by done; try (eexists; split; [done|]; by rewrite Hg, Hs).
  - eexists. split; [done|]. rewrite Hg, Hs. by case_on.
  - destruct (Hr eq_refl) as [[o Ho] [a Has]]. cbn in Ho, Has. rewrite Ho.
    destruct (sp_WitnessDestination sp) as [d|]; [|done]. cbn [mbind option_bind] in *.
    destruct (vd_Value d) as [v|]; [|done]. cbn [mbind option_bind] in *. rewrite Has. cbn [mbind option_bind].
    assert (bool_decide (Some a = Some BTMAssetID) = bool_decide (a = BTMAssetID)) as ->.
    { apply bool_decide_ext. split; [by intros [= ->]|by intros ->]. }
    eexists. split; [done|]. case_bool_decide; case_on; cbn; rewrite ?app_nil_r, union_empty_r_L, union_comm_L; by split_and!.
  - eexists. split; [done|]. rewrite Hg, Hs. by case_on.
Qed.

Lemma omap_cons_app {A B} (f : A -> option B) x l : omap f (x :: l) = omap f [x] ++ omap f l.
Proof. cbn. by destruct (f x). Qed.

(** The scan of entries under their identifiers, [n] being the number of inputs. *)
Lemma scan_entries_ok n h (l : list (Hash * nat)) (es : list Entry) : forall s,
  Forall2 (fun x e => h !! x.2 = Some e /\ x.1 = EntryID e) l es -> Forall readable es ->
  Z.of_nat n < 2 ^ 64 -> length (sc_inputs s) = n ->
  exists s', scan_entries n h l s = Some s' /\ sc_gas s' = sc_gas s ++ omap spends_gas es /\
    sc_spent s' = sc_spent s ∪ list_to_set (omap spends_output es) /\ length (sc_inputs s') = n /\
    forall i, (i < n)%nat ->
      (exists e, e ∈ es /\ writes_input e = Some (Z.of_nat i) /\ sc_inputs s' !! i = Some (EntryID e)) \/
      (Forall (fun e => writes_input e <> Some (Z.of_nat i)) es /\ sc_inputs s' !! i = sc_inputs s !! i).
Proof.
  intros s Hl. revert s. induction Hl as [|[id p] e l es [Hp Hid] Hl IH]; intros s Hr Hn Hs; cbn [scan_entries].
  - exists s. cbn [omap list_omap list_to_set]. rewrite app_nil_r. split_and!; [done|done|by rewrite union_empty_r_L|done|]. intros i Hi. right. by split.
  - cbn in Hp, Hid. subst id. rewrite Hp. cbn [mbind option_bind]. apply Forall_cons_1 in Hr as [Hre Hr].
    destruct (scan_entry_ok n e s Hre) as (s1 & -> & Hg1 & Hsp1 & Hi1). cbn [mbind option_bind].
    assert (length (sc_inputs s1) = n) as Hlen1.
    { rewrite Hi1. destruct (writes_input e); [|done]. case_on; [done|]. by rewrite length_insert. }
    destruct (IH s1 Hr Hn Hlen1) as (s' & -> & Hg & Hsp & Hlen & Hin). exists s'.
    rewrite (omap_cons_app spends_gas), (omap_cons_app spends_output), Hg, Hg1, Hsp, Hsp1, list_to_set_app_L, app_assoc.
    split_and!; [done|done|by rewrite union_assoc_L|done|]. intros i Hi.
    destruct (Hin i Hi) as [(e' & He' & Hw & Hs')|[Hw Hs']].
    { left. exists e'. split_and!; [by right|done|done]. }
    rewrite Hi1 in Hs'. destruct (decide (writes_input e = Some (Z.of_nat i))) as [He|He].
    + left. exists e. rewrite He in Hs'. rewrite wrap_small in Hs' by lia.
      rewrite (proj2 (Z.leb_gt _ _)) in Hs' by lia. split_and!; [by left|done|].
      rewrite Hs', Nat2Z.id. apply list_lookup_insert_eq. by rewrite Hs.
    + right. split; [by constructor|]. rewrite Hs'. destruct (writes_input e) as [ord|] eqn:Ew; [|done].
      rewrite wrap_small by lia. destruct (Z.leb_spec (Z.of_nat n) ord); [done|].
      destruct Hre as [Hpos _]. specialize (Hpos ord Ew). rewrite list_lookup_insert_ne; [done|].
      intros Heq. apply He. f_equal. lia.
Qed.

(** What the transaction's lists are to be. *)
Definition ref_input_ids (tx : TxData) : list Hash :=
  imap (fun i input => default zeroHash (input_id tx i input)) (Inputs tx).
Definition ref_spent_ids (tx : TxData) : list Hash :=
  omap (fun input => match ti_TypedInput input with
    | Some (TSpend inp) => Some (EntryID (prevout (si_SpendCommitment inp)))
    | _ => None
    end) (Inputs tx).
Definition ref_gas_ids (tx : TxData) : list Hash :=
  mjoin (imap (fun i input => match ti_TypedInput input with
    | Some (TSpend inp) =>
        if bool_decide (AssetId (sc_AssetAmount (si_SpendCommitment inp)) = Some BTMAssetID)
        then [default zeroHash (input_id tx i input)] else []
    | _ => []
    end) (Inputs tx)).

Lemma omap_imap_join {A B C} (F : B -> option C) (f : nat -> A -> list B) l :
  omap F (mjoin (imap f l)) = mjoin (imap (fun i x => omap F (f i x)) l).
Proof.
  revert f. induction l as [|x l IH]; intros f; [done|]. rewrite !imap_cons, !mjoin_cons, omap_app. f_equal.
  apply (IH (fun i => f (S i))).
Qed.

(** The entries that are not of inputs do not matter to the scan. *)
Definition of_input (e : Entry) : bool :=
  match e with EIssuance _ | ESpend _ | ECoinbase _ => true | _ => false end.

Lemma ref_rest_other tx e : e ∈ EMux (ref_mux tx (imap (ref_dest (ref_muxID tx)) (Outputs tx)))
    :: imap (ref_result (ref_muxID tx)) (Outputs tx) ++ [ETxHeader (ref_header tx)] -> of_input e = false.
Proof.
  rewrite elem_of_cons, elem_of_app, list_elem_of_singleton. intros [->|[He| ->]]; [done| |done].
  apply elem_of_lookup_imap in He as (i & out & -> & _). unfold ref_result. by destruct (IsUnspendable _).
Qed.

Lemma omap_other {C} (F : Entry -> option C) l : (forall e, of_input e = false -> F e = None) ->
  (forall e, e ∈ l -> of_input e = false) -> omap F l = [].
Proof.
  intros HF. induction l as [|e l IH]; intros Hl; [done|]. cbn. rewrite HF by (apply Hl; by left).
  apply IH. intros e' He'. apply Hl. by right.
Qed.

Lemma omap_ref_entries {C} (F : Entry -> option C) tx : (forall e, of_input e = false -> F e = None) ->
  omap F (ref_entries tx) = mjoin (imap (fun i input => omap F (input_entries (to_mux (ref_muxID tx)) tx i input)) (Inputs tx)).
Proof.
  intros HF. unfold ref_entries. cbv zeta. rewrite omap_app.
  rewrite (omap_other F ([_] ++ _)); [|done|intros e; apply ref_rest_other].
  rewrite app_nil_r. unfold ref_inputs. apply omap_imap_join.
Qed.

Lemma input_id_to_mux tx i input dest : input_id tx i input = EntryID <$> list.last (input_entries dest tx i input).
Proof.
  unfold input_id, input_entries.
  destruct (ti_TypedInput input) as [[]|]; cbn; try done; f_equal; by apply EntryID_witness.
Qed.

(** Every spend names its asset, which is so for any transaction that is read. *)
Definition assets_named (tx : TxData) : Prop :=
  forall i input inp, Inputs tx !! i = Some input -> ti_TypedInput input = Some (TSpend inp) ->
    is_Some (AssetId (sc_AssetAmount (si_SpendCommitment inp))).

Lemma ref_readable tx : assets_named tx -> Forall readable (ref_entries tx).
Proof.
  intros Ha. apply list.Forall_forall. intros e He. unfold ref_entries in He. cbv zeta in He.
  apply elem_of_app in He as [He|He].
  2: { apply ref_rest_other in He. split; by destruct e. }
  destruct (ref_inputs_inv _ _ _ _ He) as (i & input & Hi & Hei). split.
  - intros ord Ho. revert Hei. unfold input_entries. destruct (ti_TypedInput input) as [[]|]; rewrite ?elem_of_cons, ?elem_of_nil;
      intros Hei; try done; repeat destruct Hei as [->|Hei]; try done; injection Ho as <-; lia.
  - intros Hsp. destruct e as [|s| | | | | |]; try done. destruct (spend_inv _ _ _ _ _ Hei) as (inp & Et & _ & ->).
    split; [done|]. cbn. unfold input_value. rewrite Et. cbn. by apply (Ha i input).
Qed.

(** The entries that write an input's place are the input's own. *)
Lemma writes_own tx e i : coinbase_first tx -> e ∈ ref_entries tx -> writes_input e = Some (Z.of_nat i) ->
  exists input, Inputs tx !! i = Some input /\ input_id tx i input = Some (EntryID e).
Proof.
  intros [Hf _] He Hw. unfold ref_entries in He. cbv zeta in He. apply elem_of_app in He as [He|He].
  2: { apply ref_rest_other in He. by destruct e. }
  destruct (ref_inputs_inv _ _ _ _ He) as (j & input & Hj & Hej).
  assert (j = i /\ list.last (input_entries (to_mux (ref_muxID tx)) tx j input) = Some e) as [-> Hl].
  2: { exists input. split; [done|]. by rewrite (input_id_to_mux tx i input (to_mux (ref_muxID tx))), Hl. }
  pose proof (Hf j input Hj) as Hc. unfold is_coinbase_input in Hc. unfold input_entries in *.
  destruct (ti_TypedInput input) as [[]|]; rewrite ?elem_of_cons, ?elem_of_nil in Hej; try done;
    repeat destruct Hej as [->|Hej]; try done; injection Hw as Hw; (split; [|done]); try lia.
Qed.

Lemma own_writes tx i input id : coinbase_first tx -> Inputs tx !! i = Some input -> input_id tx i input = Some id ->
  exists e, e ∈ ref_entries tx /\ writes_input e = Some (Z.of_nat i).
Proof.
  intros [Hf _] Hi. rewrite (input_id_to_mux tx i input (to_mux (ref_muxID tx))). intros (e & Hl & _)%fmap_Some.
  exists e. assert (e ∈ input_entries (to_mux (ref_muxID tx)) tx i input) as He by by apply last_elem_of.
  split. { unfold ref_entries. cbv zeta. apply elem_of_app. left. by eapply ref_inputs_intro. }
  pose proof (Hf i input Hi) as Hc. unfold is_coinbase_input in Hc. revert Hl. unfold input_entries.
  destruct (ti_TypedInput input) as [[]|]; cbn; intros; simplify_eq; cbn; try done. by rewrite Hc.
Qed.

Lemma NoDup_spent tx : ids_distinct tx -> NoDup (ref_spent_ids tx).
Proof.
  intros Hd%ids_unconnected. unfold ref_unconnected in Hd. rewrite fmap_app in Hd. apply list.NoDup_app in Hd as [Hd _].
  unfold ref_inputs in Hd. revert Hd. unfold ref_spent_ids.
  enough (forall k l, NoDup (EntryID <$> mjoin (imap (fun i => input_entries no_dest tx (k + i)%nat) l)) ->
    NoDup (omap (fun input => match ti_TypedInput input with
      | Some (TSpend inp) => Some (EntryID (prevout (si_SpendCommitment inp))) | _ => None end) l)
    /\ forall x, x ∈ omap (fun input => match ti_TypedInput input with
      | Some (TSpend inp) => Some (EntryID (prevout (si_SpendCommitment inp))) | _ => None end) l ->
        x ∈ EntryID <$> mjoin (imap (fun i => input_entries no_dest tx (k + i)%nat) l)) as He.
  { intros Hd. apply (He 0%nat _ Hd). }
  intros k l. revert k. induction l as [|input l IH]; intros k Hd; [split; [constructor|done]|].
  rewrite imap_shift, mjoin_cons, fmap_app in *. apply list.NoDup_app in Hd as (Hd1 & Hdis & Hd2).
  destruct (IH (S k) Hd2) as [Hn Hin]. cbn [omap list_omap].
  assert (forall inp, ti_TypedInput input = Some (TSpend inp) ->
    EntryID (prevout (si_SpendCommitment inp)) ∈ EntryID <$> input_entries no_dest tx k input) as Hp.
  { intros inp Et. apply list_elem_of_fmap. exists (prevout (si_SpendCommitment inp)). split; [done|]. unfold input_entries. rewrite Et. by left. }
  destruct (ti_TypedInput input) as [[|inp|]|] eqn:Et.
  2: { specialize (Hp inp eq_refl). split.
    - constructor; [|done]. intros Hx%Hin. by eapply Hdis.
    - intros x [->|Hx]%elem_of_cons; apply elem_of_app; [by left|right; by apply Hin]. }
  all: split; [done|]; intros x Hx; apply elem_of_app; right; by apply Hin.
Qed.

(** What the scan collects from the entries of the reference. *)
Lemma scanned_spent tx : omap spends_output (ref_entries tx) = ref_spent_ids tx.
Proof.
  rewrite omap_ref_entries by (intros e He; by destruct e). unfold ref_spent_ids.
  generalize (Inputs tx). intros l. generalize (to_mux (ref_muxID tx)). intros d.
  enough (forall k, mjoin (imap (fun i input => omap spends_output (input_entries d tx (k + i) input)) l)
    = omap (fun input => match ti_TypedInput input with
        | Some (TSpend inp) => Some (EntryID (prevout (si_SpendCommitment inp))) | _ => None end) l) as He by apply (He 0%nat).
  induction l as [|x l IH]; intros k; [done|].
  rewrite (imap_shift (fun i input => omap spends_output (input_entries d tx i input))), mjoin_cons, IH.
  cbn [omap list_omap]. unfold input_entries. by destruct (ti_TypedInput x) as [[]|].
Qed.

Lemma scanned_gas tx : omap spends_gas (ref_entries tx) = ref_gas_ids tx.
Proof.
  rewrite omap_ref_entries by (intros e He; by destruct e).
  unfold ref_gas_ids. erewrite imap_ext; [reflexivity|]. intros i x Hx. cbv beta.
  rewrite (input_id_to_mux tx i x (to_mux (ref_muxID tx))). unfold input_entries.
  destruct (ti_TypedInput x) as [[]|] eqn:Et; try done.
  cbn -[prevout spends_gas]. assert (spends_gas (prevout (si_SpendCommitment si)) = None) as -> by done.
  unfold spends_gas. cbn -[prevout]. unfold input_value. rewrite Et. cbn -[prevout]. by case_bool_decide.
Qed.

(** Ranging over the map visits every entry once. *)
Lemma range_visits tx (m : gmap Hash nat) (l : list (Hash * nat)) : ids_distinct tx ->
  (forall id p, m !! id = Some p <-> EntryID <$> ref_entries tx !! p = Some id) -> l ≡ₚ map_to_list m ->
  exists es, Forall2 (fun x e => ref_entries tx !! x.2 = Some e /\ x.1 = EntryID e) l es /\ es ≡ₚ ref_entries tx.
Proof.
  intros Hd Hm Hl. set (h := ref_entries tx) in *. set (at_ := fun x : Hash * nat => default (ETxHeader (ref_header tx)) (h !! x.2)).
  assert (forall x, x ∈ l <-> EntryID <$> h !! x.2 = Some x.1) as Hel.
  { intros [id p]. by rewrite Hl, elem_of_map_to_list, Hm. }
  assert (l ≡ₚ imap (fun p e => (EntryID e, p)) h) as Hp.
  { apply NoDup_Permutation; [rewrite Hl; apply NoDup_map_to_list| |].
    - apply NoDup_alt. intros i j x Hi Hj. rewrite list_lookup_imap in Hi, Hj.
      destruct (h !! i); [|done]. destruct (h !! j); [|done]. cbn in Hi, Hj. congruence.
    - intros [id p]. rewrite Hel, elem_of_lookup_imap. cbn. rewrite fmap_Some.
      split; [intros (e & He & ->); by exists p, e|intros (i & e & [= -> ->] & He); by exists e]. }
  exists (at_ <$> l). split.
  - apply Forall2_fmap_r, Forall_Forall2_diag, list.Forall_forall. intros [id p] Hx%Hel. unfold at_. cbn in *.
    apply fmap_Some in Hx as (e & He & ->). by rewrite He.
  - rewrite Hp. enough (at_ <$> imap (fun p e => (EntryID e, p)) h = h) as -> by done.
    apply list_eq. intros i. rewrite list_lookup_fmap, list_lookup_imap.
    destruct (h !! i) eqn:Hi; [|done]. cbn. unfold at_. cbn. by rewrite Hi.
Qed.

(** The translation of a transaction, entry by entry and list by list. *)
Lemma MapTx_refers (range_entries : gmap Hash nat -> list (Hash * nat)) (range_spent : gset Hash -> list Hash) tx :
  (forall m, range_entries m ≡ₚ map_to_list m) -> (forall s, range_spent s ≡ₚ elements s) ->
  ids_distinct tx -> coinbase_first tx -> assets_named tx -> #(Inputs tx) < 2 ^ 64 ->
  exists t, MapTx range_entries range_spent tx = Some (t, ref_entries tx) /\
    bct_ID t = EntryID (ETxHeader (ref_header tx)) /\
    ref_entries tx !! bct_TxHeader t = Some (ETxHeader (ref_header tx)) /\
    (forall id p, Entries t !! id = Some p <-> EntryID <$> ref_entries tx !! p = Some id) /\
    InputIDs t = ref_input_ids tx /\
    SpentOutputIDs t ≡ₚ ref_spent_ids tx /\
    GasInputIDs t ≡ₚ ref_gas_ids tx.
Proof.
  intros Hre Hrs Hd Hf Ha Hn. destruct (mapTx_reference tx Hd Hf) as (st & Hr & Hst & Hm).
  unfold MapTx. rewrite Hr. cbn [mbind option_bind]. rewrite Hst. set (n := length (Inputs tx)) in *.
  destruct (range_visits tx _ _ Hd Hm (Hre (entryMap st))) as (es & Hes & Hp).
  assert (Forall readable es) as Hread by (rewrite Hp; by apply ref_readable).
  destruct (scan_entries_ok n _ _ es (mkScan (replicate n zeroHash) ∅ []) Hes Hread Hn (length_replicate _ _))
    as (s & -> & Hg & Hsp & Hlen & Hin). cbn [mbind option_bind].
  eexists. split; [done|]. cbn [bct_ID bct_TxHeader Entries InputIDs SpentOutputIDs GasInputIDs]. split_and!.
  - done.
  - unfold ref_entries. cbv zeta. rewrite 2!app_assoc. rewrite length_app. cbn. rewrite Nat.add_sub. apply lookup_middle.
  - done.
  - apply list_eq. intros i. unfold ref_input_ids. rewrite list_lookup_imap.
    destruct (decide (i < n)%nat) as [Hi|Hi].
    2: { rewrite (lookup_ge_None_2 (sc_inputs s)), (lookup_ge_None_2 (Inputs tx)) by lia. done. }
    destruct (lookup_lt_is_Some_2 (Inputs tx) i Hi) as [input Hinp]. rewrite Hinp. cbn.
    destruct (Hin i Hi) as [(e & He & Hw & ->)|[Hw ->]].
    + rewrite Hp in He. destruct (writes_own tx e i Hf He Hw) as (input' & Hinp' & Hid).
      rewrite Hinp in Hinp'. injection Hinp' as <-. by rewrite Hid.
    + cbn [sc_inputs]. rewrite lookup_replicate_2 by done. f_equal.
      destruct (input_id tx i input) as [id|] eqn:Hid; [|done]. exfalso.
      destruct (own_writes tx i input id Hf Hinp Hid) as (e & He & Hwe). rewrite Hp, list.Forall_forall in Hw. by apply (Hw e).
  - rewrite Hrs, Hsp. cbn [sc_spent]. rewrite union_empty_l_L.
    assert (list_to_set (omap spends_output es) =@{gset Hash} list_to_set (ref_spent_ids tx)) as ->.
    { apply list_to_set_perm_L. by rewrite <- scanned_spent, Hp. }
    by apply elements_list_to_set, NoDup_spent.
  - rewrite Hg. cbn [sc_gas app]. by rewrite Hp, scanned_gas.
Qed.

(** C7: The entries of a transaction with distinct identifiers, whose coinbase input (if any) comes
    first and creates an output, are those of the reference translation, each under its
    identifier: the mux connects every input to every output by identifiers, values and
    positions that agree in both directions.  Whatever order Go ranges over its maps in, the
    transaction lists for each input the identifier of its entry, and the identifiers of the
    outputs spent and of the inputs spending BTM, each once. *)
Theorem MapTx_entries (range_entries : gmap Hash nat -> list (Hash * nat)) (range_spent : gset Hash -> list Hash) tx :
  (forall m, range_entries m ≡ₚ map_to_list m) -> (forall s, range_spent s ≡ₚ elements s) ->
  ids_distinct tx -> coinbase_first tx -> assets_named tx -> #(Inputs tx) < 2 ^ 64 ->
  exists t, MapTx range_entries range_spent tx = Some (t, ref_entries tx) /\
    bct_ID t = EntryID (ETxHeader (ref_header tx)) /\
    ref_entries tx !! bct_TxHeader t = Some (ETxHeader (ref_header tx)) /\
    (forall id p, Entries t !! id = Some p <-> EntryID <$> ref_entries tx !! p = Some id) /\
    InputIDs t = ref_input_ids tx /\
    SpentOutputIDs t ≡ₚ ref_spent_ids tx /\
    GasInputIDs t ≡ₚ ref_gas_ids tx.
Proof. apply MapTx_refers. Qed.
End lemmas.

(** ** Concrete functions *)
Definition ex_ops : EntryOps := {|
  EntryID := fun e => match e with
    | EIssuance i => mkHash 1 (iss_Ordinal i) 0 0
    | ESpend s => mkHash 2 (sp_Ordinal s) 0 0
    | ECoinbase c => mkHash 3 #(cb_Arbitrary c) 0 0
    | EMux m => mkHash 4 #(Sources m) 0 0
    | EOutput o => mkHash 5 (out_Ordinal o)
        (from_option vs_Position 0 (out_Source o)) (V0 (default zeroHash (out_Source o ≫= vs_Ref)))
    | ERetirement r => mkHash 6 (ret_Ordinal r) 0 0
    | ETxHeader h => mkHash 7 (th_Version h) 0 0
    | EBlockHeader b => mkHash 8 (bbh_Height b) (bbh_Nonce b) 0
    end;
  NewIssuance := fun n v i => mkIssuance (Some n) (Some v) None None [] i;
  NewSpend := fun h i => mkSpend (Some h) None [] i;
  NewCoinbase := fun a => mkCoinbase None a;
  NewMux := fun s p => mkMux s (Some p) [] [];
  NewOutput := fun s p i => mkOutput (Some s) (Some p) i;
  NewRetirement := fun s i => mkRetirement (Some s) i;
  NewTxHeader := mkTxHeader;
  NewBlockHeader := fun v h p t m s n b => mkBcBlockHeader v h (Some p) t (Some m) (Some s) n b None;
  Issuance_SetDestination := fun e h v p =>
    mkIssuance (iss_NonceHash e) (iss_Value e) (Some (mkValueDestination (Some h) v p))
      (iss_WitnessAssetDefinition e) (iss_WitnessArguments e) (iss_Ordinal e);
  Spend_SetDestination := fun e h v p =>
    mkSpend (SpentOutputId e) (Some (mkValueDestination (Some h) v p)) (sp_WitnessArguments e) (sp_Ordinal e);
  Coinbase_SetDestination := fun e h v p => mkCoinbase (Some (mkValueDestination (Some h) v p)) (cb_Arbitrary e);
  TxInput_AssetAmount := fun _ => mkAssetAmount (Some zeroHash) 7;
  IsUnspendable := fun prog => bool_decide (prog = [106]);
  OP_TRUE := 81;
|}.

Lemma ex_laws : @EntryLaws ex_ops.
Proof.
  split; try done. intros e e'. destruct e, e'; cbn; intros [=]; simplify_eq; congruence.
Qed.

(** A transaction with a coinbase, two spends, one of BTM, an issuance and an input of an
    unknown version; an output and a retirement. *)
Definition ex_tx : TxData :=
  mkTxData 1 100 0
    [NewCoinbaseInput [5; 6]; NewSpendInput [] (mkHash 9 9 9 9) BTMAssetID 300 1 [81];
     NewIssuanceInput [1] 7 [81; 82] [] [9]; NewSpendInput [] (mkHash 9 9 9 9) zeroHash 20 2 [81];
     mkTxInput 2 None [1] []]
    [NewTxOutput BTMAssetID 300 [81]; NewTxOutput zeroHash 27 [106]].

(** A transaction of a coinbase input and no outputs. *)
Definition bad_tx : TxData := mkTxData 1 11 0 [NewCoinbaseInput [5]] [].

Lemma ex_distinct tx : bool_decide (NoDup (@EntryID ex_ops <$> @ref_entries pad32 ex_ops tx)) = true ->
  @ids_distinct pad32 ex_ops tx.
Proof. apply bool_decide_eq_true_1. Qed.

Lemma mapTx_panics_witness :
  @TxData_readFrom sample_runtime pad32 (@enc_tx sample_runtime pad32 bad_tx)
    = (Ok bad_tx, []) /\
  @mapTx pad32 ex_ops bad_tx = None /\ @mapTx pad32 ex_ops ex_tx <> None.
Proof.
  split; [vm_compute; reflexivity|]. split.
  - apply (@mapTx_panics pad32 ex_ops ex_laws bad_tx).
    + apply (@distinct_apart pad32 ex_ops ex_laws). by apply ex_distinct.
    + split; [done|by left].
  - intros Hn. apply (@mapTx_panics pad32 ex_ops ex_laws ex_tx) in Hn.
    + destruct Hn as [_ [Ho|(input & Hi & Et)]]; [done|]. injection Hi as <-. done.
    + apply (@distinct_apart pad32 ex_ops ex_laws). by apply ex_distinct.
Defined.

Lemma MapTx_entries_witness :
  exists t, @MapTx pad32 ex_ops map_to_list elements ex_tx
      = Some (t, @ref_entries pad32 ex_ops ex_tx) /\
    InputIDs t = [mkHash 3 2 0 0; mkHash 2 1 0 0; mkHash 1 2 0 0; mkHash 2 3 0 0; zeroHash] /\
    GasInputIDs t ≡ₚ [mkHash 2 1 0 0].
Proof.
  destruct (@MapTx_entries pad32 ex_ops ex_laws map_to_list elements ex_tx)
    as (t & Ht & _ & _ & _ & Hi & _ & Hg).
  - reflexivity.
  - reflexivity.
  - by apply ex_distinct.
  - split; [|discriminate]. intros [|[|[|[|[|i]]]]] input Hi Hc; try discriminate Hi; [reflexivity|..];
      injection Hi as <-; discriminate.
  - intros [|[|[|[|[|i]]]]] input inp Hi Et; try discriminate Hi; injection Hi as <-;
      first [discriminate Et|injection Et as <-; eexists; reflexivity].
  - reflexivity.
  - exists t. split_and!; [exact Ht|rewrite Hi; vm_compute; reflexivity|]. rewrite Hg. vm_compute. reflexivity.
Defined.
