(* ===== verification/Chain.v ===== *)
(** * The chain and its store

    Models [protocol/block.go], [protocol/protocol.go], [protocol/orphan_manage.go] and
    [database/leveldb/store.go]: storing a block and reading it back, rebuilding the block index
    from the stored headers, the start of the chain from its store, and the processing of a
    block.  Most of what these functions call is not in the repository (the header's text, two
    of the keys, [NewBlockNode], the chain's connecting and reorganising) and is a parameter. *)
From S2P Require Import Prelude Errors GoLib Encoding Hash Merkle TxTypes BlockTypes ChainState MapTx.

(** The header of a block and the fields of a node of the index have the same names. *)
Abbreviation bh_Height := BlockTypes.Height.
Abbreviation bh_Previous := BlockTypes.PreviousBlockHash.

(** ** database/leveldb/store.go *)
Definition blockStoreKey : bytes := str "blockStore".
Definition blockPrefix : bytes := str "B:".
Definition blockHeaderPrefix : bytes := str "BH:".
Definition txStatusPrefix : bytes := str "BTS:".

(** [protocol.BlockStoreState]. *)
Record BlockStoreState := mkStoreState { bss_Height : Z; bss_Hash : option Hash }.

(** What the store calls and the repository does not contain. *)
Class StoreOps := {
  calcBlockHeaderKey : Z -> Hash -> bytes;
  calcTxStatusKey : Hash -> bytes;
  BlockHeader_MarshalText : BlockHeader -> res error bytes;
  BlockHeader_UnmarshalText : bytes -> res error BlockHeader;
  proto_Marshal : TransactionStatus -> res error bytes;
  proto_Unmarshal : bytes -> res error TransactionStatus;
  json_Marshal : BlockStoreState -> res error bytes;
  loadBlockStoreStateJSON : gmap bytes bytes -> option BlockStoreState;
  (** a node for a header with the pointer to its parent *)
  NewBlockNode : BlockHeader -> option nat -> res error BlockNode;
  AddNode : nat -> BlockNode -> BlockIndex -> BlockIndex;
}.

Section store.
Context `{Runtime, Sha3, EntryOps, BlockCodec BcTx, !StoreOps}.

Definition calcBlockKey (hash : Hash) : bytes := blockPrefix ++ Hash_Bytes hash.

(** The error of [UnmarshalText] is dropped; the outer option is a panic, the inner one nil. *)
Definition GetBlock (db : gmap bytes bytes) (hash : Hash) : option (option (Block BcTx)) :=
  match db !! calcBlockKey hash with
  | None => Some None
  | Some bytez =>
      '(_, block) ← block_UnmarshalText zeroBlock bytez;
      Some (Some block)
  end.

Definition errNoTxStatus : error := EMsg (str "can't find the transaction status by given hash").

Definition GetTransactionStatus (db : gmap bytes bytes) (hash : Hash) : res error TransactionStatus :=
  match db !! calcTxStatusKey hash with
  | None => Err errNoTxStatus
  | Some data =>
      match proto_Unmarshal data with
      | Err e => Err (default e (Errors.Wrap (Some e) [IString (str "unmarshaling transaction status")]))
      | Ok ts => Ok ts
      end
  end.

(** The batch's writes, in order; [None] is a panic of the marshalling of the block. *)
Definition SaveBlock (block : Block BcTx) (ts : TransactionStatus) (db : gmap bytes bytes)
    : option (option error * gmap bytes bytes) :=
  '(binaryBlock, err) ← block_MarshalText block;
  match err with
  | Some e => Some (Errors.Wrap (Some e) [IString (str "Marshal block meta")], db)
  | None =>
      match BlockHeader_MarshalText (b_BlockHeader block) with
      | Err e => Some (Errors.Wrap (Some e) [IString (str "Marshal block header")], db)
      | Ok binaryBlockHeader =>
          match proto_Marshal ts with
          | Err e => Some (Errors.Wrap (Some e) [IString (str "marshal block transaction status")], db)
          | Ok binaryTxStatus =>
              let blockHash := BlockHeader_Hash (b_BlockHeader block) in
              let db := <[calcBlockKey blockHash := binaryBlock]> db in
              let db := <[calcBlockHeaderKey (bh_Height (b_BlockHeader block)) blockHash := binaryBlockHeader]> db in
              let db := <[calcTxStatusKey blockHash := binaryTxStatus]> db in
              Some (None, db)
          end
      end
  end.

(** The methods of [Store] over its cache, whose [lookup] is not in the repository. *)
Definition store_GetBlock (lookup : Hash -> res error (option (Block BcTx))) (hash : Hash) : res error (option (Block BcTx)) :=
  lookup hash.
Definition store_BlockExist (lookup : Hash -> res error (option (Block BcTx))) (hash : Hash) : bool :=
  match lookup hash with Ok (Some _) => true | _ => false end.
Definition GetStoreStatus (db : gmap bytes bytes) : option BlockStoreState := loadBlockStoreStateJSON db.

(** The nodes in the order in which they are made: a pointer is a position. *)
Definition node_heap (nodes : list BlockNode) : heap := list_to_map (zip (seq 0 (length nodes)) nodes).

(** The loop over the stored headers, in the order of their keys. *)
Fixpoint load_headers (values : list bytes) (nodes : list BlockNode) (lastNode : option nat) (bi : BlockIndex)
    : option (res error (list BlockNode * BlockIndex)) :=
  match values with
  | [] => Some (Ok (nodes, bi))
  | v :: values =>
      match BlockHeader_UnmarshalText v with
      | Err e => Some (Err e)
      | Ok bh =>
          parent ← match lastNode with
                   | None => Some None
                   | Some l =>
                       last ← nodes !! l;
                       if bool_decide (n_Hash last = bh_Previous bh) then Some (Some l)
                       else Some (GetNode bi (bh_Previous bh))
                   end;
          match NewBlockNode bh parent with
          | Err e => Some (Err e)
          | Ok node =>
              let p := length nodes in
              load_headers values (nodes ++ [node]) (Some p) (AddNode p node bi)
          end
      end
  end.

(** [bhIter] is what iterating over the prefix gives. *)
Definition LoadBlockIndex (bhIter : list bytes) : option (res error (list BlockNode * BlockIndex)) :=
  load_headers bhIter [] None emptyIndex.

Definition SaveChainStatus (height : Z) (hash : Hash) (utxo : list (bytes * bytes)) (db : gmap bytes bytes)
    : option error * gmap bytes bytes :=
  match json_Marshal (mkStoreState height (Some hash)) with
  | Err e => (Some e, db)
  | Ok bz => (None, <[blockStoreKey := bz]> (foldl (fun db w => <[w.1 := w.2]> db) db utxo))
  end.

(** ** txpool.go *)
Definition maxCachedErrTxs : Z := 1000.
Definition maxNewTxChSize : Z := 1000.
Definition maxNewTxNum : Z := 10000.
Definition ErrTransactionNotExist : error := EMsg (str "transaction are not existed in the mempool").
Definition ErrPoolIsFull : error := EMsg (str "transaction pool reach the max number").

Record TxDesc := mkTxDesc { txd_Tx : Tx BcTx; Added : Z; txd_Height : Z; Weight : Z; Fee : Z; FeePerKB : Z }.
(** The cache of the transactions that failed and the channel have a capacity; the methods of the
    pool are not in the repository. *)
Record TxPool := mkTxPool {
  lastUpdated : Z;
  pool : gmap Hash TxDesc;
  pool_utxo : gmap Hash Hash;
  errCache_max : Z;
  newTxCh : list (Tx BcTx);
  newTxCh_cap : Z;
}.
Definition NewTxPool (now : Z) : TxPool := mkTxPool now ∅ ∅ maxCachedErrTxs [] maxNewTxChSize.

(** ** protocol.go *)
Definition ErrTheDistantFuture : error := EMsg (str "block height too far in future").
Definition maxProcessBlockChSize : Z := 1024.

(** What [NewChain] starts with: the index, its nodes and the best of them.  [init] is
    [initChainStatus], which fills an empty store; [iterate] ranges over the stored headers. *)
Record chain0 := mkChain0 { c_index : BlockIndex; c_nodes : list BlockNode; c_bestNode : nat }.

Definition NewChain (init : gmap bytes bytes -> option (option error * gmap bytes bytes))
    (iterate : gmap bytes bytes -> list bytes) (db : gmap bytes bytes)
    : option (res error (chain0 * gmap bytes bytes)) :=
  let continue db storeStatus :=
    r ← LoadBlockIndex (iterate db);
    match r with
    | Err e => Some (Err e)
    | Ok (nodes, bi) =>
        status ← storeStatus;
        hash ← bss_Hash status;
        bestNode ← GetNode bi hash;
        bi ← SetMainChain (node_heap nodes) bestNode bi;
        Some (Ok (mkChain0 bi nodes bestNode, db))
    end in
  match loadBlockStoreStateJSON db with
  | None =>
      '(err, db) ← init db;
      match err with
      | Some e => Some (Err e)
      | None => continue db (loadBlockStoreStateJSON db)
      end
  | Some storeStatus => continue db (Some storeStatus)
  end.

(** The loop that sets the status of [n] transactions; the error of [SetStatus] is dropped. *)
Fixpoint init_status (n : nat) (i : Z) (ts : TransactionStatus) : option TransactionStatus :=
  match n with
  | O => Some ts
  | S n => '(_, ts) ← SetStatus ts i false; init_status n (i + 1) ts
  end.

(** [initChainStatus]; applying the genesis block to an empty view and writing the view are
    [apply_block]. *)
Definition initChainStatus (genesisBlock : Block BcTx)
    (apply_block : Block BcTx -> TransactionStatus -> res error (list (bytes * bytes))) (db : gmap bytes bytes)
    : option (option error * gmap bytes bytes) :=
  txStatus ← init_status (length (Transactions genesisBlock)) 0 NewTransactionStatus;
  '(err, db) ← SaveBlock genesisBlock txStatus db;
  match err with
  | Some e => Some (Some e, db)
  | None =>
      match apply_block genesisBlock txStatus with
      | Err e => Some (Some e, db)
      | Ok utxo =>
          match NewBlockNode (b_BlockHeader genesisBlock) None with
          | Err e => Some (Some e, db)
          | Ok node => Some (SaveChainStatus (Height node) (n_Hash node) utxo db)
          end
      end
  end.
End store.

(** ** Properties of the store *)
(** Text and protocol buffers are read back; the two missing keys begin with their prefixes and
    the status' key determines the hash; a node is made from its header and its parent unless
    it needs one and has none; adding a node enters it under its hash; the status of the store is what was
    stored under its key. *)
Class StoreLaws `{EntryOps, StoreOps} := {
  header_text bh : BlockHeader_ok bh ->
    exists t, BlockHeader_MarshalText bh = Ok t /\ BlockHeader_UnmarshalText t = Ok bh;
  proto_law ts : exists d, proto_Marshal ts = Ok d /\ proto_Unmarshal d = Ok ts;
  header_key h hash : exists k, calcBlockHeaderKey h hash = blockHeaderPrefix ++ k;
  status_key hash : exists k, calcTxStatusKey hash = txStatusPrefix ++ k;
  status_key_inj h h' : calcTxStatusKey h = calcTxStatusKey h' -> h = h';
  NewBlockNode_law bh parent : bh_Height bh = 0 \/ parent <> None ->
    NewBlockNode bh parent = Ok (mkNode parent (BlockHeader_Hash bh) (bh_Height bh));
  AddNode_law p nd bi : AddNode p nd bi = mkIndex (<[n_Hash nd := p]> (index bi)) (mainChain bi) (mc_len bi);
}.

Section store_properties.
Context `{RT : Runtime, SL : Sha3Laws, EO : EntryOps, BC : BlockCodec BcTx, !BlockCodecLaws, SO : !StoreOps, !StoreLaws}.

Lemma block_key_inj h h' : Hash_ok h -> Hash_ok h' -> calcBlockKey h = calcBlockKey h' -> h = h'.
Proof.
  intros Hh Hh' He. apply app_inv_head in He. unfold Hash_Bytes in He.
  by rewrite <- (NewHash_Byte32 h), He, NewHash_Byte32.
Qed.

(** C25: A block that is saved is found: under its hash the store has the block with its transactions, the
    status of its transactions, and the header; blocks stored under other hashes, and their
    statuses, are still there.  Saving such a block never fails. *)
Theorem SaveBlock_GetBlock (block : Block BcTx) (ts : TransactionStatus) (db : gmap bytes bytes) :
  let hash := BlockHeader_Hash (b_BlockHeader block) in
  storable block -> Hash_ok hash ->
  exists db', SaveBlock block ts db = Some (None, db') /\
    GetBlock db' hash = Some (Some block) /\ GetTransactionStatus db' hash = Ok ts /\
    (exists t, db' !! calcBlockHeaderKey (bh_Height (b_BlockHeader block)) hash = Some t /\
       BlockHeader_UnmarshalText t = Ok (b_BlockHeader block)) /\
    forall h, Hash_ok h -> h <> hash -> GetBlock db' h = GetBlock db h /\
      GetTransactionStatus db' h = GetTransactionStatus db h.
Proof.
  intros hash Hb Hh. unfold SaveBlock. rewrite block_MarshalText_ok by done. cbn [mbind option_bind].
  destruct (header_text (b_BlockHeader block)) as (t & -> & Ht); [apply Hb|].
  destruct (proto_law ts) as (d & -> & Hd). eexists. split; [reflexivity|]. fold hash.
  assert (forall h height hs, calcBlockKey h <> calcBlockHeaderKey height hs) as Hk1.
  { intros h height hs He. destruct (header_key height hs) as [k Hk]. by rewrite Hk in He. }
  assert (forall h hs, calcBlockKey h <> calcTxStatusKey hs) as Hk2.
  { intros h hs He. destruct (status_key hs) as [k Hk]. by rewrite Hk in He. }
  assert (forall height hs hs', calcBlockHeaderKey height hs <> calcTxStatusKey hs') as Hk3.
  { intros height hs hs' He. destruct (status_key hs') as [k Hk], (header_key height hs) as [k' Hk']. by rewrite Hk, Hk' in He. }
  split_and!.
  - unfold GetBlock. rewrite !lookup_insert_ne by (apply not_eq_sym; auto). rewrite lookup_insert_eq.
    rewrite block_UnmarshalText_ok by done. by destruct block.
  - unfold GetTransactionStatus. by rewrite lookup_insert_eq, Hd.
  - exists t. rewrite lookup_insert_ne by (apply not_eq_sym; auto). by rewrite lookup_insert_eq.
  - intros h Hhok Hne. unfold GetBlock, GetTransactionStatus. split.
    + rewrite !lookup_insert_ne; [done|..]; try (apply not_eq_sym; by auto).
      intros He%block_key_inj; [congruence|done..].
    + rewrite !lookup_insert_ne; [done|..]; auto. intros He%status_key_inj. congruence.
Qed.

(** *** Rebuilding the index *)
(** Headers in the order of their heights: the first has none below it, and each of the others is
    one above an earlier one, whose hash it names. *)
Definition rooted (hs : list BlockHeader) : Prop :=
  forall i bh, hs !! i = Some bh -> 0 <= bh_Height bh < 2 ^ 63 /\
    match i with
    | O => bh_Height bh = 0
    | S _ => exists j pb, (j < i)%nat /\ hs !! j = Some pb /\ BlockHeader_Hash pb = bh_Previous bh /\
               bh_Height bh = bh_Height pb + 1
    end.

(** Each node stands at its header's place and points to the place of the header it names. *)
Definition node_of (hs : list BlockHeader) (i : nat) (bh : BlockHeader) (nd : BlockNode) : Prop :=
  n_Hash nd = BlockHeader_Hash bh /\ ChainState.Height nd = bh_Height bh /\
  match i with
  | O => Parent nd = None
  | S _ => exists j pb, (j < i)%nat /\ Parent nd = Some j /\ hs !! j = Some pb /\
             BlockHeader_Hash pb = bh_Previous bh /\ bh_Height bh = bh_Height pb + 1
  end.

Record loaded (hs : list BlockHeader) (n : nat) (nodes : list BlockNode) (bi : BlockIndex) : Prop := {
  ld_length : length nodes = n;
  ld_nodes : forall i bh, (i < n)%nat -> hs !! i = Some bh -> exists nd, nodes !! i = Some nd /\ node_of hs i bh nd;
  ld_index : forall i bh, (i < n)%nat -> hs !! i = Some bh -> index bi !! BlockHeader_Hash bh = Some i;
  ld_chain : mainChain bi = [] /\ mc_len bi = 0;
}.

Lemma load_headers_ok hs values : forall n nodes bi, rooted hs -> NoDup (BlockHeader_Hash <$> hs) ->
  Forall2 (fun v bh => BlockHeader_UnmarshalText v = Ok bh) values (drop n hs) -> loaded hs n nodes bi ->
  (n <= length hs)%nat ->
  exists nodes' bi', load_headers values nodes (if n is S m then Some m else None) bi = Some (Ok (nodes', bi')) /\
    loaded hs (length hs) nodes' bi'.
Proof.
  induction values as [|v values IH]; intros n nodes bi Hr Hd Hv Hl Hn.
  - exists nodes, bi. split; [done|]. apply Forall2_nil_inv_l in Hv. apply (f_equal length) in Hv.
    rewrite length_drop in Hv. cbn in Hv. by replace (length hs) with n by lia.
  - apply Forall2_cons_inv_l in Hv as (bh & rest & Hv & Hrest & Hdrop). cbn [load_headers]. rewrite Hv.
    assert (hs !! n = Some bh) as Hbh.
    { rewrite <- (Nat.add_0_r n), <- lookup_drop, Hdrop. done. }
    assert (drop (S n) hs = rest) as Hdrop'.
    { rewrite <- Nat.add_1_r, <- drop_drop, Hdrop. done. }
    destruct (Hr n bh Hbh) as [Hh Hpar]. destruct Hl as [Hlen Hnodes Hidx Hmc].
    assert (exists parent nd,
      match (if n is S m then Some m else None) with
      | None => Some None
      | Some l => last ← nodes !! l;
          if bool_decide (n_Hash last = bh_Previous bh) then Some (Some l) else Some (GetNode bi (bh_Previous bh))
      end = Some parent /\ NewBlockNode bh parent = Ok nd /\ node_of hs n bh nd) as (parent & nd & Hpa & Hnew & Hnd).
    { destruct n as [|m].
      - eexists None, _. split; [done|]. split; [apply NewBlockNode_law; by left|]. by split_and!.
      - destruct Hpar as (j & pb & Hj & Hpb & Hprev & Hheight).
        destruct (hs !! m) as [lb|] eqn:Hm; [|apply lookup_ge_None in Hm; lia].
        destruct (Hnodes m lb ltac:(lia) Hm) as (last & Hlast & Hlh & _). rewrite Hlast. cbn [mbind option_bind].
        assert (exists i, (if bool_decide (n_Hash last = bh_Previous bh) then Some (Some m) else Some (GetNode bi (bh_Previous bh)))
          = Some (Some i) /\ i = j) as (i & Hi & ->).
        { case_bool_decide as Hq.
          - exists m. split; [done|]. apply (NoDup_lookup (BlockHeader_Hash <$> hs) m j (bh_Previous bh)); [done|..].
            + by rewrite list_lookup_fmap, Hm, <- Hq, Hlh.
            + by rewrite list_lookup_fmap, Hpb, <- Hprev.
          - exists j. split; [|done]. unfold GetNode. by rewrite <- Hprev, (Hidx j pb). }
        exists (Some j), (mkNode (Some j) (BlockHeader_Hash bh) (bh_Height bh)). split; [done|].
        split; [apply NewBlockNode_law; by right|]. split_and!; [done|done|]. by exists j, pb. }
    rewrite Hpa. cbn [mbind option_bind]. rewrite Hnew.
    rewrite Hlen. apply (IH (S n)); [done|done|by rewrite Hdrop'| |by apply lookup_lt_Some in Hbh].
    rewrite AddNode_law. destruct Hnd as (Hnh & Hnheight & Hnp). split; cbn [index mainChain mc_len].
    + rewrite length_app, Hlen. cbn. lia.
    + intros i ib Hi Hib. destruct (decide (i = n)) as [->|Hne].
      * rewrite Hbh in Hib. injection Hib as <-. exists nd. rewrite <- Hlen, lookup_middle. by rewrite Hlen.
      * destruct (Hnodes i ib ltac:(lia) Hib) as (nd' & Hnd' & Hof). exists nd'. split; [by apply lookup_app_l_Some|done].
    + intros i ib Hi Hib. rewrite Hnh. destruct (decide (i = n)) as [->|Hne].
      * rewrite Hbh in Hib. injection Hib as <-. apply lookup_insert_eq.
      * rewrite lookup_insert_ne; [apply Hidx; [lia|done]|]. intros He. apply Hne.
        apply (NoDup_lookup (BlockHeader_Hash <$> hs) i n (BlockHeader_Hash ib)); [done|..].
        -- by rewrite list_lookup_fmap, Hib.
        -- by rewrite list_lookup_fmap, Hbh, <- He.
    + done.
Qed.

(** The nodes as a heap are a tree. *)
Lemma node_heap_lookup nodes p : node_heap nodes !! p = nodes !! p.
Proof.
  unfold node_heap. destruct (nodes !! p) as [nd|] eqn:Hp.
  - apply elem_of_list_to_map_1.
    + rewrite fst_zip by (by rewrite length_seq). apply NoDup_seq.
    + apply list_elem_of_lookup. exists p. apply lookup_zip_with_Some. exists p, nd. split_and!; [done| |done].
      rewrite lookup_seq_lt; [done|by apply lookup_lt_Some in Hp].
  - apply not_elem_of_list_to_map_1. rewrite fst_zip by (by rewrite length_seq). rewrite elem_of_seq.
    apply lookup_ge_None in Hp. lia.
Qed.

Lemma loaded_tree hs nodes bi : rooted hs -> loaded hs (length hs) nodes bi -> tree (node_heap nodes).
Proof.
  intros Hr [Hlen Hnodes _ _] n nd Hn. rewrite node_heap_lookup in Hn.
  destruct (lookup_lt_is_Some_2 hs n) as [bh Hbh]; [rewrite <- Hlen; by apply lookup_lt_Some in Hn|].
  destruct (Hnodes n bh) as (nd' & Hnd' & _ & Hh & Hp); [by apply lookup_lt_Some in Hbh|done|].
  rewrite Hn in Hnd'. injection Hnd' as <-. destruct (Hr n bh Hbh) as [Hrange Hz]. rewrite Hh. split; [done|].
  destruct n as [|m]; [by rewrite Hp|]. destruct Hp as (j & pb & Hj & -> & Hpb & _ & Hheight).
  destruct (Hnodes j pb) as (pd & Hpd & _ & Hph & _); [by apply lookup_lt_Some in Hpb|done|].
  exists pd. rewrite node_heap_lookup. split; [done|]. by rewrite Hph.
Qed.

(** The start from a store with the headers of a tree. *)
Lemma restart_rebuilds (init : gmap bytes bytes -> option (option error * gmap bytes bytes))
    (iterate : gmap bytes bytes -> list bytes) (db : gmap bytes bytes) (hs : list BlockHeader) (i : nat) (tip : BlockHeader) (height : Z) :
  loadBlockStoreStateJSON db = Some (mkStoreState height (Some (BlockHeader_Hash tip))) ->
  Forall2 (fun v bh => BlockHeader_UnmarshalText v = Ok bh) (iterate db) hs ->
  rooted hs -> NoDup (BlockHeader_Hash <$> hs) -> hs !! i = Some tip ->
  exists c, NewChain init iterate db = Some (Ok (c, db)) /\ c_bestNode c = i /\
    tree (node_heap (c_nodes c)) /\ length (c_nodes c) = length hs /\ shows (node_heap (c_nodes c)) (c_index c) i /\
    forall j bh, hs !! j = Some bh -> GetNode (c_index c) (BlockHeader_Hash bh) = Some j /\
      exists nd, c_nodes c !! j = Some nd /\ node_of hs j bh nd.
Proof.
  intros Hst Hv Hr Hd Htip. unfold NewChain. rewrite Hst. unfold LoadBlockIndex.
  destruct (load_headers_ok hs (iterate db) 0 [] emptyIndex Hr Hd Hv) as (nodes & bi & Hload & Hl); [|lia|].
  { split; [done|intros j bh Hj; lia|intros j bh Hj; lia|done]. }
  rewrite Hload. cbn [mbind option_bind bss_Hash]. pose proof Hl as [Hlen Hnodes Hidx [Hmc Hml]].
  assert (forall j bh, hs !! j = Some bh -> GetNode bi (BlockHeader_Hash bh) = Some j) as Hget.
  { intros j bh Hj. apply Hidx; [by apply lookup_lt_Some in Hj|done]. }
  rewrite (Hget i tip Htip). cbn [mbind option_bind].
  destruct (Hnodes i tip) as (nd & Hnd & Hof); [by apply lookup_lt_Some in Htip|done|].
  destruct (SetMainChain_ok (node_heap nodes) bi i nd) as (bi' & -> & Hs & _ & Hi).
  - by eapply loaded_tree.
  - unfold index_ok. rewrite Hmc, Hml. split; [done|]. intros k n _ Hm. by rewrite lookup_nil in Hm.
  - by rewrite node_heap_lookup.
  - cbn [mbind option_bind]. eexists. split; [done|]. cbn [c_bestNode c_nodes c_index]. split_and!; [done|by eapply loaded_tree|done|done|].
    intros j bh Hj. split; [unfold GetNode; rewrite Hi; by apply Hget|].
    apply Hnodes; [by apply lookup_lt_Some in Hj|done].
Qed.

(** The cell of height zero of its main chain has the first of the headers. *)
Lemma shows_root h bi node : tree h -> shows h bi node ->
  exists n nd, mainChain bi !! 0%nat = Some (Some n) /\ h !! n = Some nd /\ Parent nd = None /\ 0 < mc_len bi.
Proof.
  intros Ht (nd & Hnd & Hlen & Hk). destruct (Ht node nd Hnd) as [Hr _].
  destruct (Hk (Z.to_nat (Height nd)) ltac:(lia)) as (n & Ha & Hm). rewrite Z2Nat.id, Z.sub_diag in Hm by lia.
  destruct (ancestor_node h (Z.to_nat (Height nd)) node nd n Ht Hnd ltac:(lia) Ha) as (md & Hmd & Hmh & _). rewrite Z2Nat.id, Z.sub_diag in Hmh by lia.
  exists n, md. split_and!; [done|done| |lia]. destruct (Ht n md Hmd) as [_ Hp]. destruct (Parent md) as [p|]; [|done].
  destruct Hp as (pd & Hpd & Hh). destruct (Ht p pd Hpd) as [Hr' _]. lia.
Qed.

(** C19: From a store with the headers of a tree, in the order of their heights, and the hash of a tip,
    the start rebuilds the tree, every node pointing to the header it names, and its main chain
    shows the ancestors of the tip. *)
Theorem restart_shows (init : gmap bytes bytes -> option (option error * gmap bytes bytes))
    (iterate : gmap bytes bytes -> list bytes) (db : gmap bytes bytes) (hs : list BlockHeader) (i : nat) (tip : BlockHeader) (height : Z) :
  loadBlockStoreStateJSON db = Some (mkStoreState height (Some (BlockHeader_Hash tip))) ->
  Forall2 (fun v bh => BlockHeader_UnmarshalText v = Ok bh) (iterate db) hs ->
  rooted hs -> NoDup (BlockHeader_Hash <$> hs) -> hs !! i = Some tip ->
  exists c, NewChain init iterate db = Some (Ok (c, db)) /\ c_bestNode c = i /\
    shows (node_heap (c_nodes c)) (c_index c) i /\
    forall j bh, hs !! j = Some bh -> GetNode (c_index c) (BlockHeader_Hash bh) = Some j /\
      exists nd, c_nodes c !! j = Some nd /\ node_of hs j bh nd.
Proof.
  intros Hst Hv Hr Hd Htip. destruct (restart_rebuilds init iterate db hs i tip height Hst Hv Hr Hd Htip) as (c & ? & ? & _ & _ & ? & ?). by exists c.
Qed.

(** *** An empty store *)
Definition under_headers (kv : bytes * bytes) : Prop := blockHeaderPrefix `prefix_of` kv.1.

Lemma init_status_ok n : forall ts, exists ts', init_status n #(VerifyStatus ts) ts = Some ts'.
Proof.
  induction n as [|n IH]; intros ts; cbn [init_status]; [by eexists|]. unfold SetStatus.
  rewrite Z.ltb_irrefl, Z.eqb_refl. cbn [mbind option_bind].
  destruct (IH (mkTxStatus (ts_Version ts) (VerifyStatus ts ++ [mkTvr false]))) as [ts' Hts]. exists ts'.
  rewrite <- Hts. f_equal. cbn [VerifyStatus]. by autorewrite with zlen.
Qed.

Lemma other_writes (utxo : list (bytes * bytes)) : forall db : gmap bytes bytes,
  Forall (fun w => ~ under_headers w /\ w.1 <> blockStoreKey /\ ~ blockPrefix `prefix_of` w.1) utxo ->
  filter under_headers (foldl (fun db w => <[w.1 := w.2]> db) db utxo) = filter under_headers db /\
  forall h, foldl (fun db w => <[w.1 := w.2]> db) db utxo !! calcBlockKey h = db !! calcBlockKey h.
Proof.
  induction utxo as [|[k v] utxo IH]; intros db Hu; [done|]. apply Forall_cons_1 in Hu as [(Hk & _ & Hb) Hu].
  cbn [foldl fst snd]. destruct (IH (<[k := v]> db) Hu) as [-> Hl]. split.
  - apply map_filter_insert_not. intros y. done.
  - intros h. rewrite Hl. apply lookup_insert_ne. intros ->. apply Hb. by apply prefix_app_r.
Qed.

(** The start from an empty store, with what the text of the genesis block is read as. *)
Lemma NewChain_fresh_text (genesis stored : Block BcTx) text apply_block iterate utxo :
  block_MarshalText genesis = Some (text, None) -> block_UnmarshalText zeroBlock text = Some (None, stored) ->
  BlockHeader_ok (b_BlockHeader genesis) -> bh_Height (b_BlockHeader genesis) = 0 ->
  loadBlockStoreStateJSON ∅ = None ->
  (let st := mkStoreState 0 (Some (BlockHeader_Hash (b_BlockHeader genesis))) in
   exists bz, json_Marshal st = Ok bz /\ forall db, loadBlockStoreStateJSON (<[blockStoreKey := bz]> db) = Some st) ->
  (forall db, exists it, iterate db = snd <$> it /\ it ≡ₚ map_to_list (filter under_headers db)) ->
  (forall ts, init_status (length (Transactions genesis)) 0 NewTransactionStatus = Some ts -> apply_block genesis ts = Ok utxo) ->
  Forall (fun w => ~ under_headers w /\ w.1 <> blockStoreKey /\ ~ blockPrefix `prefix_of` w.1) utxo ->
  exists c db, NewChain (initChainStatus genesis apply_block) iterate ∅ = Some (Ok (c, db)) /\
    c_bestNode c = 0%nat /\ tree (node_heap (c_nodes c)) /\ shows (node_heap (c_nodes c)) (c_index c) 0 /\ length (c_nodes c) = 1%nat /\
    (exists nd, c_nodes c !! 0%nat = Some nd /\ n_Hash nd = BlockHeader_Hash (b_BlockHeader genesis)) /\
    GetBlock db (BlockHeader_Hash (b_BlockHeader genesis)) = Some (Some stored).
Proof.
  intros Hmt Hut Hbh Hh Hnone (bz & Hbz & Hload) Hit Happly Hu. unfold NewChain. rewrite Hnone. unfold initChainStatus.
  destruct (init_status_ok (length (Transactions genesis)) NewTransactionStatus) as [ts Hts].
  change (zlen (VerifyStatus NewTransactionStatus)) with 0 in Hts. rewrite Hts. cbn [mbind option_bind].
  unfold SaveBlock. rewrite Hmt. cbn [mbind option_bind].
  destruct (header_text (b_BlockHeader genesis)) as (t & -> & Ht); [exact Hbh|].
  destruct (proto_law ts) as (d & -> & Hd). rewrite (Happly ts), NewBlockNode_law by (done || by left).
  cbn [n_Hash ChainState.Height]. rewrite Hh. set (hash := BlockHeader_Hash (b_BlockHeader genesis)).
  unfold SaveChainStatus. fold hash in Hbz, Hload. rewrite Hbz. cbn [mbind option_bind].
  set (db0 := <[calcTxStatusKey hash := d]> _). destruct (other_writes utxo db0 Hu) as [Hf Hl].
  rewrite Hload. set (db := <[blockStoreKey := bz]> _).
  destruct (status_key hash) as [k1 Hk1], (header_key 0 hash) as [k2 Hk2].
  assert (filter under_headers db = {[ calcBlockHeaderKey 0 hash := t ]}) as Hfil.
  { unfold db. rewrite map_filter_insert_not, Hf by (intros ? [? ?]; discriminate). unfold db0.
    rewrite map_filter_insert_not by (rewrite Hk1; intros ? [? ?]; discriminate).
    rewrite map_filter_insert_True by (unfold under_headers; rewrite Hk2; by apply prefix_app_r).
    rewrite map_filter_insert_not by (intros ? [? ?]; discriminate). by rewrite map_filter_empty. }
  destruct (Hit db) as (it & Hi & Hp). rewrite Hfil, map_to_list_singleton in Hp.
  apply Permutation_singleton_r in Hp as ->. cbn in Hi. rewrite Hi.
  assert (rooted [b_BlockHeader genesis]) as Hr.
  { intros [|i] bh Hi0; [|done]. injection Hi0 as <-. by rewrite Hh. }
  destruct (load_headers_ok [b_BlockHeader genesis] [t] 0 [] emptyIndex Hr (NoDup_singleton _)) as (nodes & bi & Hlo & Hld); [by repeat constructor| |cbn; lia|].
  { split; [done|intros i bh Hi'; lia|intros i bh Hi'; lia|done]. }
  unfold LoadBlockIndex. rewrite Hlo. pose proof Hld as [Hlen Hnodes Hidx [Hmc Hml]]. cbn [mbind option_bind bss_Hash].
  pose proof (Hidx 0%nat _ ltac:(cbn; lia) eq_refl) as Hg. fold hash in Hg. unfold GetNode. rewrite Hg. cbn [mbind option_bind].
  destruct (Hnodes 0%nat _ ltac:(cbn; lia) eq_refl) as (nd & Hnd & Hof).
  destruct (SetMainChain_ok (node_heap nodes) bi 0 nd) as (bi' & -> & Hs & _ & _).
  - by eapply loaded_tree.
  - unfold index_ok. rewrite Hmc, Hml. split; [done|]. intros k n _ Hm. by rewrite lookup_nil in Hm.
  - by rewrite node_heap_lookup.
  - cbn [mbind option_bind]. eexists _, db. split; [done|]. cbn [c_bestNode c_nodes c_index]. split_and!; [done|by eapply loaded_tree|done|done|by exists nd; split; [|apply Hof]|].
    unfold GetBlock, db. rewrite lookup_insert_ne by done. rewrite Hl. unfold db0.
    rewrite lookup_insert_ne by (rewrite Hk1; discriminate). rewrite lookup_insert_ne by (rewrite Hk2; discriminate).
    by rewrite lookup_insert_eq, Hut.
Qed.

(** An empty store is initialised with the genesis block, which is the whole chain and can be read back. *)
Theorem NewChain_fresh (genesis : Block BcTx) apply_block iterate utxo :
  storable genesis -> bh_Height (b_BlockHeader genesis) = 0 ->
  loadBlockStoreStateJSON ∅ = None ->
  (let st := mkStoreState 0 (Some (BlockHeader_Hash (b_BlockHeader genesis))) in
   exists bz, json_Marshal st = Ok bz /\ forall db, loadBlockStoreStateJSON (<[blockStoreKey := bz]> db) = Some st) ->
  (forall db, exists it, iterate db = snd <$> it /\ it ≡ₚ map_to_list (filter under_headers db)) ->
  (forall ts, init_status (length (Transactions genesis)) 0 NewTransactionStatus = Some ts -> apply_block genesis ts = Ok utxo) ->
  Forall (fun w => ~ under_headers w /\ w.1 <> blockStoreKey /\ ~ blockPrefix `prefix_of` w.1) utxo ->
  exists c db, NewChain (initChainStatus genesis apply_block) iterate ∅ = Some (Ok (c, db)) /\
    c_bestNode c = 0%nat /\ shows (node_heap (c_nodes c)) (c_index c) 0 /\ length (c_nodes c) = 1%nat /\
    GetBlock db (BlockHeader_Hash (b_BlockHeader genesis)) = Some (Some genesis).
Proof.
  intros Hb Hh Hnone Hload Hit Happly Hu.
  destruct (NewChain_fresh_text genesis genesis _ apply_block iterate utxo (block_MarshalText_ok _ Hb)) as (c & db & ? & ? & _ & ? & ? & _ & ?);
    try assumption; [by rewrite block_UnmarshalText_ok by done; destruct genesis|apply Hb|]. by exists c, db.
Qed.

(** A chain that was started is found again by the next start. *)
Lemma NewChain_again init init' iterate db0 c db :
  NewChain init iterate db0 = Some (Ok (c, db)) -> NewChain init' iterate db = Some (Ok (c, db)).
Proof.
  set (continue db storeStatus := r ← LoadBlockIndex (iterate db); match r : res error (list BlockNode * BlockIndex) with
    | Err e => Some (Err e)
    | Ok (nodes, bi) => status ← storeStatus; hash ← bss_Hash status; bestNode ← GetNode bi hash;
        bi ← SetMainChain (node_heap nodes) bestNode bi; Some (Ok (mkChain0 bi nodes bestNode, db)) end).
  assert (forall db1 st, continue db1 st = Some (Ok (c, db)) -> db = db1 /\ st <> None) as Hc.
  { intros db1 st. unfold continue. destruct (LoadBlockIndex _) as [[[nodes bi]|]|]; cbn; [|done|done].
    destruct st as [st|]; cbn; [|done]. destruct (bss_Hash st); cbn; [|done]. destruct (GetNode _ _); cbn; [|done].
    destruct (SetMainChain _ _ _); cbn; [|done]. by intros [= _ ->]. }
  unfold NewChain. intros Hn. destruct (loadBlockStoreStateJSON db0) as [st|] eqn:E0.
  - destruct (Hc _ _ Hn) as [-> _]. by rewrite E0.
  - destruct (init db0) as [[[e|] db1]|]; cbn in Hn; [done| |done]. destruct (Hc _ _ Hn) as [-> Hs].
    destruct (loadBlockStoreStateJSON db1) as [st|]; [exact Hn|done].
Qed.
End store_properties.

(** ** protocol/block.go *)
(** [OrphanManage] of orphan_manage.go: its methods are not in the repository. *)
Record OrphanManage (Blk : Type) := mkOrphans { orphan : gmap Hash Blk; prevOrphans : gmap Hash (list Hash) }.
Arguments mkOrphans {Blk} _ _.
Definition NewOrphanManage {Blk} : OrphanManage Blk := mkOrphans ∅ ∅.

Definition errNoBlock : error := EMsg (str "can't find block in given height").

(** [nodeByHeight] is a method of the index that is not in the repository, [store_GetBlock] the store's. *)
Definition GetBlockByHeight {Blk} (nodeByHeight : Z -> option nat) (store_GetBlock : Hash -> res error (option Blk))
    (height : Z) (h : heap) : option (res error (option Blk)) :=
  match nodeByHeight height with
  | None => Some (Err errNoBlock)
  | Some node => nd ← h !! node; Some (store_GetBlock (n_Hash nd))
  end.

(** The state of a chain and the methods that [processBlock] calls. *)
Class ChainOps := {
  Blk : Type;
  Blk_Hash : Blk -> Hash;
  Blk_Previous : Blk -> Hash;
  chain : Type;
  ch_index : chain -> BlockIndex;
  ch_heap : chain -> heap;
  ch_best : chain -> option nat;
  WorkSum : nat -> Z;
  BlockExist : Hash -> chain -> bool;
  orphan_BlockExist : Hash -> chain -> bool;
  orphan_Add : Blk -> chain -> chain;
  saveBlock : Blk -> chain -> option error * chain;
  saveSubBlock : Blk -> chain -> Blk * chain;
  connectBlock : Blk -> chain -> option error * chain;
  reorganizeChain : nat -> chain -> option error * chain;
}.

Section process.
Context `{ChainOps}.

(** [None] is the panic of a nil pointer. *)
Definition processBlock (block : Blk) (c : chain) : option (bool * option error * chain) :=
  let blockHash := Blk_Hash block in
  if BlockExist blockHash c then Some (orphan_BlockExist blockHash c, None, c)
  else
    match GetNode (ch_index c) (Blk_Previous block) with
    | None => Some (true, None, orphan_Add block c)
    | Some parent =>
        let '(err, c) := saveBlock block c in
        match err with
        | Some err => Some (false, Some err, c)
        | None =>
            let '(bestBlock, c) := saveSubBlock block c in
            let bestBlockHash := Blk_Hash bestBlock in
            bestNode ← GetNode (ch_index c) bestBlockHash;
            nd ← ch_heap c !! bestNode;
            if bool_decide (Parent nd = ch_best c) then
              let '(err, c) := connectBlock bestBlock c in Some (false, err, c)
            else
              cb ← ch_best c;
              cnd ← ch_heap c !! cb;
              if (ChainState.Height cnd <? ChainState.Height nd) && (WorkSum cb <=? WorkSum bestNode) then
                let '(err, c) := reorganizeChain bestNode c in Some (false, err, c)
              else Some (false, None, c)
        end
    end.

(** The loop over the messages of [processBlockCh], with the replies in their order. *)
Fixpoint blockProcesser (l : list Blk) (c : chain) : option (list (bool * option error) * chain) :=
  match l with
  | [] => Some ([], c)
  | block :: l =>
      '(isOrphan, err, c) ← processBlock block c;
      '(replies, c) ← blockProcesser l c;
      Some ((isOrphan, err) :: replies, c)
  end.

End process.

(** Nodes stay as they are and in a tree; only connecting and reorganising change the tip, to the node
    they are given and when they succeed; the block that [saveSubBlock] returns has a node. *)
Class ChainOpsLaws `{ChainOps} := {
  law_orphan b c : ch_heap (orphan_Add b c) = ch_heap c /\ ch_best (orphan_Add b c) = ch_best c;
  law_save b c : let c' := (saveBlock b c).2 in
    ch_heap c ⊆ ch_heap c' /\ (tree (ch_heap c) -> tree (ch_heap c')) /\ ch_best c' = ch_best c;
  law_saveSub b c : let c' := (saveSubBlock b c).2 in
    ch_heap c ⊆ ch_heap c' /\ (tree (ch_heap c) -> tree (ch_heap c')) /\ ch_best c' = ch_best c;
  law_saved b c c' : saveBlock b c = (None, c') -> is_Some (GetNode (ch_index c) (Blk_Previous b)) ->
    exists n, GetNode (ch_index (saveSubBlock b c').2) (Blk_Hash (saveSubBlock b c').1) = Some n /\
      is_Some (ch_heap (saveSubBlock b c').2 !! n);
  law_connect b c err c' : connectBlock b c = (err, c') -> ch_heap c' = ch_heap c /\
    ch_best c' = match err with None => GetNode (ch_index c) (Blk_Hash b) | Some _ => ch_best c end;
  law_reorganize n c err c' : reorganizeChain n c = (err, c') -> ch_heap c' = ch_heap c /\
    ch_best c' = match err with None => Some n | Some _ => ch_best c end;
}.

Section process_properties.
Context `{ChainOpsLaws}.

(** How the tip moves: to a child, or to a higher node with no less work. *)
Definition tip_step (h : heap) (t t' : nat) : Prop :=
  exists nd nd', h !! t = Some nd /\ h !! t' = Some nd' /\
    (Parent nd' = Some t \/ (ChainState.Height nd < ChainState.Height nd' /\ WorkSum t <= WorkSum t')).

(** A chain with a tip in its tree. *)
Definition chain_ok (c : chain) (t : nat) : Prop :=
  tree (ch_heap c) /\ ch_best c = Some t /\ is_Some (ch_heap c !! t).

Lemma tip_step_mono h h' t t' : h ⊆ h' -> tip_step h t t' -> tip_step h' t t'.
Proof.
  intros Hs (nd & nd' & Hn & Hn' & Hr). exists nd, nd'. split_and!; [by eapply lookup_weaken|by eapply lookup_weaken|done].
Qed.

Lemma processBlock_ok b c t : chain_ok c t ->
  exists r c' t', processBlock b c = Some (r, c') /\ chain_ok c' t' /\ ch_heap c ⊆ ch_heap c' /\
    (t' = t \/ tip_step (ch_heap c') t t').
Proof.
  intros (Htree & Hbest & [nd Hnd]). unfold processBlock.
  destruct (BlockExist (Blk_Hash b) c).
  { eexists _, c, t. split; [done|]. split_and!; [done..|by left]. }
  destruct (GetNode (ch_index c) (Blk_Previous b)) as [parent|] eqn:Ep.
  2: { destruct (law_orphan b c) as [Eh Eb]. eexists _, _, t. split; [done|].
       unfold chain_ok. rewrite Eh, Eb. split_and!; [done|done|by exists nd|done|by left]. }
  pose proof (law_save b c) as Hsave. cbv zeta in Hsave. destruct (saveBlock b c) as [[err|] c1] eqn:Es; cbn [snd] in Hsave.
  { destruct Hsave as (Hs & Ht & Hb). eexists _, c1, t. split; [done|]. unfold chain_ok. rewrite Hb.
    split_and!; [auto|done|exists nd; by eapply lookup_weaken|done|by left]. }
  destruct Hsave as (Hs1 & Ht1 & Hb1). pose proof (law_saveSub b c1) as Hsub. cbv zeta in Hsub.
  destruct (law_saved b c c1 Es) as (n & Hn & [nn Hnn]); [by rewrite Ep|].
  destruct (saveSubBlock b c1) as [best c2]. cbn [fst snd] in *. destruct Hsub as (Hs2 & Ht2 & Hb2).
  rewrite Hn. cbn [mbind option_bind]. rewrite Hnn. cbn [mbind option_bind].
  assert (ch_heap c ⊆ ch_heap c2) as Hsub by by transitivity (ch_heap c1).
  assert (chain_ok c2 t) as Hok.
  { split_and!; [auto|congruence|exists nd; by eapply lookup_weaken]. }
  assert (forall (err : option error) c', ch_heap c' = ch_heap c2 -> ch_best c' = match err with None => Some n | Some _ => ch_best c2 end ->
    tip_step (ch_heap c2) t n -> exists t', chain_ok c' t' /\ ch_heap c ⊆ ch_heap c' /\ (t' = t \/ tip_step (ch_heap c') t t')) as Hmove.
  { intros err c' Eh Eb Hst. unfold chain_ok. rewrite Eh, Eb. destruct Hok as (? & ? & ?).
    destruct err; [exists t; split_and!; auto|exists n]. split_and!; [done|done|by exists nn|done|by right]. }
  case_bool_decide as Hpar.
  - destruct (connectBlock best c2) as [err c3] eqn:Ec. destruct (law_connect _ _ _ _ Ec) as [Eh Eb]. rewrite Hn in Eb.
    destruct (Hmove err c3 Eh Eb) as (t' & Hr); [|by exists (false, err), c3, t'].
    destruct Hok as (_ & Eb2 & [tn Htn]). exists tn, nn. split_and!; [done|done|left; congruence].
  - destruct Hok as (Htr & Eb2 & [tn Htn]). rewrite Eb2. cbn [mbind option_bind]. rewrite Htn. cbn [mbind option_bind].
    destruct ((ChainState.Height tn <? ChainState.Height nn) && (WorkSum t <=? WorkSum n)) eqn:Ew.
    + apply andb_true_iff in Ew as [Hlt%Z.ltb_lt Hle%Z.leb_le].
      destruct (reorganizeChain n c2) as [err c3] eqn:Ec. destruct (law_reorganize _ _ _ _ Ec) as [Eh Eb].
      destruct (Hmove err c3 Eh Eb) as (t' & Hr); [exists tn, nn; split_and!; auto|by exists (false, err), c3, t'].
    + exists (false, None), c2, t. split; [done|]. split_and!; [by split_and!|done|by left].
Qed.

Lemma tip_step_height h t t' nd nd' : tree h -> tip_step h t t' -> h !! t = Some nd -> h !! t' = Some nd' ->
  ChainState.Height nd < ChainState.Height nd'.
Proof.
  intros Ht (x & y & Hx & Hy & Hr) Hn Hn'. assert (x = nd) as -> by congruence. assert (y = nd') as -> by congruence.
  destruct Hr as [Hp|[? _]]; [|done]. destruct (Ht t' nd' Hn') as [_ Hpar]. rewrite Hp in Hpar.
  destruct Hpar as (pd & Hpd & Hh). assert (pd = nd) as -> by congruence. lia.
Qed.

(** C21: The chain processes any sequence of blocks without panicking and answers each of them, in
    their order; its tip moves only to a child of itself or to a higher node with no less
    work, so that the height of the best block never decreases. *)
Theorem tip_moves (l : list Blk) (c : chain) (t : nat) (nd : BlockNode) :
  chain_ok c t -> ch_heap c !! t = Some nd ->
  exists replies c' t' nd', blockProcesser l c = Some (replies, c') /\ length replies = length l /\
    chain_ok c' t' /\ ch_heap c ⊆ ch_heap c' /\ ch_heap c' !! t' = Some nd' /\ rtc (tip_step (ch_heap c')) t t' /\
    ChainState.Height nd <= ChainState.Height nd' /\ (t' <> t -> ChainState.Height nd < ChainState.Height nd').
Proof.
  revert c t nd. induction l as [|b l IH]; intros c t nd Hok Hnd; cbn [blockProcesser].
  - exists [], c, t, nd. by split_and!.
  - destruct (processBlock_ok b c t Hok) as ([o err] & c1 & t1 & -> & Hok1 & Hsub & Hstep). cbn [mbind option_bind].
    pose proof Hok1 as (_ & _ & [nd1 Hnd1]).
    destruct (IH c1 t1 nd1 Hok1 Hnd1) as (replies & c' & t' & nd' & Hr & Hlen & Hok' & Hsub' & Hnd' & Hrtc & Hle & Hlt).
    rewrite Hr. cbn [mbind option_bind]. exists ((o, err) :: replies), c', t', nd'.
    split_and!; [done|by cbn; rewrite Hlen|done|by transitivity (ch_heap c1)|done|..].
    + destruct Hstep as [->|Hstep]; [done|]. eapply rtc_l; [|done]. by eapply tip_step_mono.
    + assert (ch_heap c1 !! t = Some nd) as Hnd2 by by eapply lookup_weaken.
      destruct Hstep as [->|Hstep]; [assert (nd1 = nd) as <- by congruence; lia|].
      pose proof (tip_step_height _ _ _ _ _ (proj1 Hok1) Hstep Hnd2 Hnd1). lia.
    + intros Hne. assert (ch_heap c1 !! t = Some nd) as Hnd2 by by eapply lookup_weaken.
      destruct Hstep as [->|Hstep]; [assert (nd1 = nd) as <- by congruence; by apply Hlt|].
      pose proof (tip_step_height _ _ _ _ _ (proj1 Hok1) Hstep Hnd2 Hnd1). lia.
Qed.
End process_properties.

(** ** Concrete functions *)
Definition ex_store : StoreOps := {|
  calcBlockHeaderKey := fun h hash => blockHeaderPrefix ++ be_put 8 h ++ [V0 hash; V1 hash; V2 hash; V3 hash];
  calcTxStatusKey := fun hash => txStatusPrefix ++ [V0 hash; V1 hash; V2 hash; V3 hash];
  BlockHeader_MarshalText := fun bh => Ok (enc_header plain_enc_commit SerBlockHeader bh);
  BlockHeader_UnmarshalText := fun t =>
    let '(_, err, bh, _) := BlockHeader_readFrom plain_commitment_readFrom
      (mkBlockHeader 0 0 zeroHash 0 0 0 (mkBlockCommitment zeroHash zeroHash)) t in
    match err with Some e => Err e | None => Ok bh end;
  proto_Marshal := fun ts => Ok (ts_Version ts :: map (fun t => if StatusFail t then 1 else 0) (VerifyStatus ts));
  proto_Unmarshal := fun d => match d with
    | [] => Err EOF
    | v :: l => Ok (mkTxStatus v (map (fun x => mkTvr (x =? 1)) l))
    end;
  json_Marshal := fun s => Ok (le_put 8 (bss_Height s) ++ Byte32 (default zeroHash (bss_Hash s)));
  loadBlockStoreStateJSON := fun db =>
    (fun bz => mkStoreState (le_get (take 8 bz)) (Some (NewHash (drop 8 bz)))) <$> db !! blockStoreKey;
  NewBlockNode := fun bh parent =>
    if negb (bh_Height bh =? 0) && bool_decide (parent = None) then Err (EMsg (str "parent node can not be nil"))
    else Ok (mkNode parent (@BlockHeader_Hash MapTx.ex_ops bh) (bh_Height bh));
  AddNode := fun p nd bi => mkIndex (<[n_Hash nd := p]> (index bi)) (mainChain bi) (mc_len bi);
|}.

Lemma ex_store_laws : @StoreLaws MapTx.ex_ops ex_store.
Proof.
  split.
  - intros bh Hb. eexists. split; [reflexivity|]. cbn [BlockHeader_UnmarshalText ex_store].
    rewrite <- (app_nil_r (enc_header _ _ _)).
    rewrite (BlockHeader_readFrom_enc plain_commitment_readFrom plain_enc_commit (law_commit _ _ _ _ _ _ plain_laws)
      (law_commit_size _ _ _ _ _ _ plain_laws)); [done|by left|done].
  - intros [v l]. eexists. split; [reflexivity|]. cbn. do 2 f_equal. rewrite List.map_map.
    rewrite <- (List.map_id l) at 2. apply List.map_ext. by intros [[]].
  - intros h hash. by eexists.
  - intros hash. by eexists.
  - intros [] [] He. apply app_inv_head in He. cbn in He. congruence.
  - intros bh parent Hp. cbn. destruct (bh_Height bh =? 0) eqn:Eh; [done|]. zbool.
    rewrite bool_decide_false by (by destruct Hp). done.
  - done.
Qed.

(** Four headers, with a fork above the first: 0, 1 and 2 over it, 3 over 1. *)
Definition ex_header (height nonce : Z) (prev : Hash) : BlockHeader :=
  mkBlockHeader 1 height prev 0 nonce 0 (mkBlockCommitment zeroHash zeroHash).
Definition ex_hash (height nonce : Z) : Hash := mkHash 8 height nonce 0.
Definition ex_headers : list BlockHeader :=
  [ex_header 0 0 zeroHash; ex_header 1 1 (ex_hash 0 0); ex_header 1 2 (ex_hash 0 0); ex_header 2 3 (ex_hash 1 1)].
Definition ex_iterate (_ : gmap bytes bytes) : list bytes := enc_header plain_enc_commit SerBlockHeader <$> ex_headers.
Definition ex_db : gmap bytes bytes := {[ blockStoreKey := le_put 8 2 ++ Byte32 (ex_hash 2 3) ]}.

Lemma restart_shows_witness : exists c,
  @NewChain ex_store (fun db => Some (None, db)) ex_iterate ex_db = Some (Ok (c, ex_db)) /\
  c_bestNode c = 3%nat /\ shows (node_heap (c_nodes c)) (c_index c) 3.
Proof.
  destruct (@restart_shows MapTx.ex_ops ex_store ex_store_laws (fun db => Some (None, db)) ex_iterate ex_db ex_headers 3
    (ex_header 2 3 (ex_hash 1 1)) 2) as (c & Hc & Hb & Hs & _).
  - vm_compute. reflexivity.
  - repeat constructor; vm_compute; reflexivity.
  - intros [|[|[|[|i]]]] bh Hi; try discriminate Hi; injection Hi as <-; (split; [cbn; lia|]).
    + reflexivity.
    + exists 0%nat, (ex_header 0 0 zeroHash). split_and!; [lia|done..].
    + exists 0%nat, (ex_header 0 0 zeroHash). split_and!; [lia|done..].
    + exists 1%nat, (ex_header 1 1 (ex_hash 0 0)). split_and!; [lia|done..].
  - apply (bool_decide_eq_true_1 (NoDup _)). vm_compute. reflexivity.
  - reflexivity.
  - by exists c.
Defined.

Lemma SaveBlock_GetBlock_witness : exists db',
  @SaveBlock sample_runtime MapTx.ex_ops unit plain_codec ex_store sample_block NewTransactionStatus ∅ = Some (None, db') /\
  @GetBlock sample_runtime pad32 unit plain_codec db' (@BlockHeader_Hash MapTx.ex_ops (b_BlockHeader sample_block))
    = Some (Some sample_block).
Proof.
  destruct (@SaveBlock_GetBlock sample_runtime pad32 pad32_laws MapTx.ex_ops unit plain_codec plain_codec_laws ex_store ex_store_laws
    sample_block NewTransactionStatus ∅) as (db' & Hs & Hg & _).
  - exact sample_storable.
  - vm_compute. repeat split; discriminate.
  - by exists db'.
Defined.

(** A chain whose blocks are a hash and the hash of their parent, with work equal to height. *)
Record ex_chain := mkExChain { ex_index : BlockIndex; ex_heap : heap; ex_best : option nat; ex_orphans : gset Hash }.

Definition ex_save (b : Hash * Hash) (c : ex_chain) : option error * ex_chain :=
  let p := fresh (dom (ex_heap c)) in
  match GetNode (ex_index c) b.2 ≫= (fun q => (fun nd => (q, nd)) <$> ex_heap c !! q) with
  | Some (q, nd) =>
      if (0 <=? ChainState.Height nd) && (ChainState.Height nd <? 2 ^ 63 - 1) then
        (None, mkExChain (mkIndex (<[b.1 := p]> (index (ex_index c))) (mainChain (ex_index c)) (mc_len (ex_index c)))
          (<[p := mkNode (Some q) b.1 (ChainState.Height nd + 1)]> (ex_heap c)) (ex_best c) (ex_orphans c))
      else (Some EOF, c)
  | None => (Some EOF, c)
  end.

Definition ex_ops : ChainOps := {|
  Blk := Hash * Hash;
  Blk_Hash := fst;
  Blk_Previous := snd;
  chain := ex_chain;
  ch_index := ex_index;
  ch_heap := ex_heap;
  ch_best := ex_best;
  WorkSum := fun n => Z.of_nat n;
  BlockExist := fun h c => bool_decide (is_Some (index (ex_index c) !! h)) || bool_decide (h ∈ ex_orphans c);
  orphan_BlockExist := fun h c => bool_decide (h ∈ ex_orphans c);
  orphan_Add := fun b c => mkExChain (ex_index c) (ex_heap c) (ex_best c) ({[ b.1 ]} ∪ ex_orphans c);
  saveBlock := ex_save;
  saveSubBlock := fun b c => (b, c);
  connectBlock := fun b c => (None, mkExChain (ex_index c) (ex_heap c) (GetNode (ex_index c) b.1) (ex_orphans c));
  reorganizeChain := fun n c => (None, mkExChain (ex_index c) (ex_heap c) (Some n) (ex_orphans c));
|}.

Lemma ex_ops_laws : @ChainOpsLaws ex_ops.
Proof.
  split; try done.
  - intros b c. cbn. unfold ex_save. destruct (GetNode _ _ ≫= _) as [[q nd]|] eqn:Eg; [|done].
    destruct ((0 <=? ChainState.Height nd) && _) eqn:Eh; [|done]. cbn [snd ch_heap ex_heap].
    apply bind_Some in Eg as (q' & _ & Eq). apply fmap_Some in Eq as (nd' & Hq & [= <- <-]).
    set (p := fresh (dom (ex_heap c))). assert (ex_heap c !! p = None) as Hp by (apply not_elem_of_dom, is_fresh).
    split; [by apply insert_subseteq|]. split; [|done]. intros Ht n x. rewrite lookup_insert_Some.
    intros [[<- <-]|[Hne Hn]]; cbn [ChainState.Height Parent].
    + zcases. split; [lia|]. exists nd. split; [|done]. rewrite lookup_insert_ne; [done|]. congruence.
    + destruct (Ht n x Hn) as [Hr Hpar]. split; [done|]. destruct (Parent x) as [r|]; [|done].
      destruct Hpar as (pd & Hpd & Hh). exists pd. split; [|done]. rewrite lookup_insert_ne; [done|]. congruence.
  - intros b c c'. cbn. unfold ex_save. destruct (GetNode _ _ ≫= _) as [[q nd]|]; [|done].
    destruct ((0 <=? ChainState.Height nd) && _); [|done]. intros [= <-] _. cbn.
    eexists. split; [apply lookup_insert_eq|]. eexists. apply lookup_insert_eq.
  - intros b c err c'. cbn. by intros [= <- <-].
  - intros n c err c'. cbn. by intros [= <- <-].
Qed.

Definition ex_chain0 : ex_chain :=
  mkExChain (mkIndex {[ ex_hash 0 0 := 0%nat ]} [] 0) {[ 0%nat := mkNode None (ex_hash 0 0) 0 ]} (Some 0%nat) ∅.

(** An orphan, a block, a competitor of it, and the competitor's child, which takes over. *)
Definition ex_blocks : list (Hash * Hash) :=
  [(ex_hash 5 0, ex_hash 4 0); (ex_hash 1 1, ex_hash 0 0); (ex_hash 1 2, ex_hash 0 0); (ex_hash 2 3, ex_hash 1 2)].

Lemma tip_moves_witness : exists replies c' t' nd',
  @blockProcesser ex_ops ex_blocks ex_chain0 = Some (replies, c') /\
  replies = [(true, None); (false, None); (false, None); (false, None)] /\
  @chain_ok ex_ops c' t' /\ ex_heap c' !! t' = Some nd' /\ 0 <= ChainState.Height nd'.
Proof.
  destruct (@tip_moves ex_ops ex_ops_laws ex_blocks ex_chain0 0 (mkNode None (ex_hash 0 0) 0))
    as (replies & c' & t' & nd' & Hr & _ & Hok & _ & Hnd & _ & Hh & _).
  - split_and!; [|done|by eexists]. intros n nd Hn.
    change (({[ 0%nat := mkNode None (ex_hash 0 0) 0 ]} : gmap nat BlockNode) !! n = Some nd) in Hn.
    apply lookup_singleton_Some in Hn as [<- <-]. cbn. split; [lia|done].
  - reflexivity.
  - exists replies, c', t', nd'. split; [exact Hr|]. split; [|by split_and!].
    assert (fst <$> @blockProcesser ex_ops ex_blocks ex_chain0 = Some [(true, None); (false, None); (false, None); (false, None)])
      as He by (vm_compute; reflexivity). rewrite Hr in He. by injection He.
Defined.
