(* ===== verification/Protocol.v ===== *)
(** * The protocol reactor

    Models [netsync/message.go], the messages and what is inside them, and [Receive] of
    [netsync/protocol_reactor.go], which answers them.  What [Receive] does to the other parts
    is a list of actions.  The handshake of new peers is in Handshake.v. *)
From S2P Require Import Prelude Errors GoLib Encoding Hash TxTypes BlockTypes MapTx.

(** ** message.go *)
Definition BlockRequestByte : Z := 16.
Definition BlockResponseByte : Z := 17.
Definition StatusRequestByte : Z := 32.
Definition StatusResponseByte : Z := 33.
Definition NewTransactionByte : Z := 48.
Definition NewMineBlockByte : Z := 64.
Definition maxBlockchainResponseSize : Z := 22020096 + 2.

(** The messages, with their fields. *)
Inductive BlockchainMessage :=
| BlockRequestMessage (Height : Z) (RawHash : bytes)
| BlockResponseMessage (RawBlock : bytes)
| StatusRequestMessage
| StatusResponseMessage (Height : Z) (RawHash GenesisHash : bytes)
| TransactionNotifyMessage (RawTx : bytes)
| MineBlockMessage (RawBlock : bytes).

(** The byte a type of messages is registered under. *)
Definition msg_byte (m : BlockchainMessage) : Z :=
  match m with
  | BlockRequestMessage _ _ => BlockRequestByte
  | BlockResponseMessage _ => BlockResponseByte
  | StatusRequestMessage => StatusRequestByte
  | StatusResponseMessage _ _ _ => StatusResponseByte
  | TransactionNotifyMessage _ => NewTransactionByte
  | MineBlockMessage _ => NewMineBlockByte
  end.

(** The ranges of the fields' types: unsigned integers, arrays of 32 bytes and slices. *)
Definition msg_ok (m : BlockchainMessage) : Prop :=
  match m with
  | BlockRequestMessage h raw => u64_ok h /\ length raw = 32%nat
  | StatusRequestMessage => True
  | StatusResponseMessage h raw gen => u64_ok h /\ length raw = 32%nat /\ length gen = 32%nat
  | BlockResponseMessage raw | TransactionNotifyMessage raw | MineBlockMessage raw => bytes_ok raw
  end.

(** go-wire, and the text of transactions.  [ReadBinary] returns the message or nil, the number
    of bytes read and the error. *)
Class MsgOps (BcTx : Type) := {
  ReadBinary : bytes -> Z -> option BlockchainMessage * Z * option error;
  BinaryBytes : BlockchainMessage -> bytes;
  TxData_MarshalText : TxData -> res error bytes;
  Tx_UnmarshalText : bytes -> option (res error (Tx BcTx));
}.

(** go-wire reads back what it writes, the type's byte first. *)
Class MsgLaws `{MsgOps BcTx} := {
  ReadBinary_law m : msg_ok m -> #(BinaryBytes m) <= maxBlockchainResponseSize ->
    ReadBinary (BinaryBytes m) maxBlockchainResponseSize = (Some m, #(BinaryBytes m), None);
  BinaryBytes_byte m : BinaryBytes m !! 0%nat = Some (msg_byte m);
}.

Section messages.
Context `{Runtime, Sha3, EntryOps, BlockCodec BcTx, !MsgOps BcTx}.

Definition errLeftOver : error := EMsg (str "DecodeMessage() had bytes left over").

(** [None] is the panic of an empty message.  The test for bytes left over is made only after
    an error. *)
Definition DecodeMessage (bz : bytes) : option (Z * option BlockchainMessage * option error) :=
  msgType ← bz !! 0%nat;
  let '(msg, n, err) := ReadBinary bz maxBlockchainResponseSize in
  let err := if bool_decide (err <> None) && negb (n =? #bz) then Some errLeftOver else err in
  Some (msgType, msg, err).

(** [GetHash] of a block request and of a status, and [GetGenesisHash]. *)
Definition GetHash (RawHash : bytes) : Hash := NewHash RawHash.
Definition GetGenesisHash (GenesisHash : bytes) : Hash := NewHash GenesisHash.

(** A panic of the marshalling is [None]. *)
Definition marshal_block (msg : bytes -> BlockchainMessage) (block : Block BcTx)
    : option (res error BlockchainMessage) :=
  '(rawBlock, err) ← block_MarshalText block;
  match err with
  | Some e => Some (Err e)
  | None => Some (Ok (msg rawBlock))
  end.
Definition NewBlockResponseMessage := marshal_block BlockResponseMessage.
Definition NewMinedBlockMessage := marshal_block MineBlockMessage.

(** The error of [UnmarshalText] is dropped. *)
Definition GetBlock (RawBlock : bytes) : option (Block BcTx) :=
  '(_, block) ← block_UnmarshalText zeroBlock RawBlock;
  Some block.

Definition GetMineBlock (RawBlock : bytes) : option (res error (Block BcTx)) :=
  '(err, block) ← block_UnmarshalText zeroBlock RawBlock;
  match err with
  | Some e => Some (Err e)
  | None => Some (Ok block)
  end.

Definition NewTransactionNotifyMessage (tx : Tx BcTx) : res error BlockchainMessage :=
  rawTx ← TxData_MarshalText (tx_TxData tx);
  Ok (TransactionNotifyMessage rawTx).

Definition GetTransaction (RawTx : bytes) : option (res error (Tx BcTx)) := Tx_UnmarshalText RawTx.

Definition NewStatusResponseMessage (blockHeader : BlockHeader) (hash : Hash) : BlockchainMessage :=
  StatusResponseMessage (Height blockHeader) (Byte32 (BlockHeader_Hash blockHeader)) (Byte32 hash).

(** The texts of the messages; [hash_String] is protocol buffers' text of a hash. *)
Definition BlockRequest_String (hash_String : Hash -> gostring) (h : Z) (RawHash : bytes) : gostring :=
  if 0 <? h then str "BlockRequestMessage{Height: " ++ itoa h ++ str "}"
  else str "BlockRequestMessage{Hash: " ++ hash_String (GetHash RawHash) ++ str "}".
Definition StatusResponse_String (hash_String : Hash -> gostring) (h : Z) (RawHash GenesisHash : bytes) : gostring :=
  str "StatusResponseMessage{Height: " ++ itoa h ++ str ", Best hash: " ++ hash_String (GetHash RawHash)
    ++ str ", Genesis hash: " ++ hash_String (GetGenesisHash GenesisHash) ++ str "}".
Definition sized_String (name : gostring) (raw : bytes) : gostring := name ++ str "{Size: " ++ itoa #raw ++ str "}".
Definition msg_String (hash_String : Hash -> gostring) (m : BlockchainMessage) : gostring :=
  match m with
  | BlockRequestMessage h RawHash => BlockRequest_String hash_String h RawHash
  | BlockResponseMessage raw => sized_String (str "BlockResponseMessage") raw
  | StatusRequestMessage => str "StatusRequestMessage"
  | StatusResponseMessage h RawHash GenesisHash => StatusResponse_String hash_String h RawHash GenesisHash
  | TransactionNotifyMessage raw => sized_String (str "TransactionNotifyMessage") raw
  | MineBlockMessage raw => sized_String (str "NewMineBlockMessage") raw
  end.

(** ** Receive *)
Record initalPeerStatus := mkStatus { st_peerID : gostring; st_height : Z; st_hash : Hash; st_genesisHash : Hash }.

(** The chain as the reactor sees it. *)
Record chain_view := mkView {
  GetBlockByHeight : Z -> res error (Block BcTx);
  GetBlockByHash : Hash -> res error (Block BcTx);
  BestBlockHeader : BlockHeader;
}.

(** What [Receive] does: sending to the peer, and handing over to the block keeper, to the
    handshake that waits for a status, and to the peer set and the fetcher. *)
Inductive action :=
| TrySend (key : gostring) (m : BlockchainMessage)
| AddBlock (block : Block BcTx) (key : gostring)
| AddTx (tx : Tx BcTx) (key : gostring)
| SendStatus (s : initalPeerStatus)
| MarkBlock (key : gostring) (hash : Hash)
| Enqueue (key : gostring) (block : Block BcTx)
| SetPeerStatus (key : gostring) (height : Z) (hash : Hash).

(** The body of the switch; [fetcher] tells whether the fetcher is not nil. *)
Definition handle (c : chain_view) (genesisHash : Hash) (fetcher : bool) (key : gostring) (msg : option BlockchainMessage)
    : option (list action) :=
  match msg with
  | Some (BlockRequestMessage height rawHash) =>
      match (if negb (height =? 0) then GetBlockByHeight c height else GetBlockByHash c (GetHash rawHash)) with
      | Err _ => Some []
      | Ok block =>
          response ← NewBlockResponseMessage block;
          match response with
          | Err _ => Some []
          | Ok response => Some [TrySend key response]
          end
      end
  | Some (BlockResponseMessage rawBlock) =>
      block ← GetBlock rawBlock;
      Some [AddBlock block key]
  | Some StatusRequestMessage => Some [TrySend key (NewStatusResponseMessage (BestBlockHeader c) genesisHash)]
  | Some (StatusResponseMessage height rawHash rawGenesis) =>
      Some [SendStatus (mkStatus key height (GetHash rawHash) (GetGenesisHash rawGenesis))]
  | Some (TransactionNotifyMessage rawTx) =>
      tx ← GetTransaction rawTx;
      match tx with
      | Err _ => Some []
      | Ok tx => Some [AddTx tx key]
      end
  | Some (MineBlockMessage rawBlock) =>
      block ← GetMineBlock rawBlock;
      match block with
      | Err _ => Some []
      | Ok block =>
          let hash := BlockHeader_Hash (b_BlockHeader block) in
          if fetcher
          then Some [MarkBlock key hash; Enqueue key block; SetPeerStatus key (Height (b_BlockHeader block)) hash]
          else None
      end
  | None => Some []
  end.

Definition Receive (c : chain_view) (genesisHash : Hash) (fetcher : bool) (key : gostring) (msgBytes : bytes)
    : option (list action) :=
  '(_, msg, err) ← DecodeMessage msgBytes;
  match err with
  | Some _ => Some []
  | None => handle c genesisHash fetcher key msg
  end.
End messages.

(** ** Properties *)
Section properties.
Context `{RT : Runtime, SL : Sha3Laws, EO : EntryOps, BC : BlockCodec BcTx, !BlockCodecLaws, MO : !MsgOps BcTx, !MsgLaws}.

(** A message that go-wire can carry. *)
Definition fits (m : BlockchainMessage) : Prop :=
  msg_ok m /\ #(BinaryBytes m) <= maxBlockchainResponseSize.
Lemma DecodeMessage_bytes m : fits m -> DecodeMessage (BinaryBytes m) = Some (msg_byte m, Some m, None).
Proof. intros [Hm Hf]. unfold DecodeMessage. by rewrite BinaryBytes_byte, ReadBinary_law. Qed.

Lemma Receive_bytes c g f key m : fits m -> Receive c g f key (BinaryBytes m) = handle c g f key (Some m).
Proof. intros Hf. unfold Receive. by rewrite DecodeMessage_bytes. Qed.

Lemma marshal_block_ok msg b : storable b -> marshal_block msg b = Some (Ok (msg (block_text b))).
Proof. intros Hb. unfold marshal_block. by rewrite block_MarshalText_ok. Qed.

Lemma GetBlock_text b : storable b -> GetBlock (block_text b) = Some b.
Proof. intros Hb. unfold GetBlock. rewrite block_UnmarshalText_ok by done. by destruct b. Qed.

Lemma GetMineBlock_text b : storable b -> GetMineBlock (block_text b) = Some (Ok b).
Proof. intros Hb. unfold GetMineBlock. rewrite block_UnmarshalText_ok by done. by destruct b. Qed.

(** C24: What one node asks another for reaches it: a request for a block of the other's chain, by
    height or (with height zero) by hash, is answered with a message in which the asking
    node finds that block and hands it to the block keeper under the other's key; a request for the
    status is answered with the height and hash of the other's best block and its genesis
    hash; and a mined block is put into the fetcher's queue, if there is a fetcher. *)
Theorem request_served (cA cB : chain_view) (gA gB : Hash) (fA fB : bool) (keyA keyB : gostring) (b : Block BcTx)
    (height : Z) (rawHash : bytes) :
  storable b -> fits (BlockResponseMessage (block_text b)) -> fits (MineBlockMessage (block_text b)) ->
  fits (BlockRequestMessage height rawHash) -> fits StatusRequestMessage ->
  fits (NewStatusResponseMessage (BestBlockHeader cB) gB) ->
  (if height =? 0 then GetBlockByHash cB (GetHash rawHash) else GetBlockByHeight cB height) = Ok b ->
  Hash_ok gB -> Hash_ok (BlockHeader_Hash (BestBlockHeader cB)) ->
  (exists m, Receive cB gB fB keyA (BinaryBytes (BlockRequestMessage height rawHash)) = Some [TrySend keyA m] /\
     Receive cA gA fA keyB (BinaryBytes m) = Some [AddBlock b keyB]) /\
  (exists m, Receive cB gB fB keyA (BinaryBytes StatusRequestMessage) = Some [TrySend keyA m] /\
     Receive cA gA fA keyB (BinaryBytes m)
       = Some [SendStatus (mkStatus keyB (Height (BestBlockHeader cB)) (BlockHeader_Hash (BestBlockHeader cB)) gB)]) /\
  (exists m, NewMinedBlockMessage b = Some (Ok m) /\
     Receive cA gA true keyB (BinaryBytes m)
       = Some [MarkBlock keyB (BlockHeader_Hash (b_BlockHeader b)); Enqueue keyB b;
               SetPeerStatus keyB (Height (b_BlockHeader b)) (BlockHeader_Hash (b_BlockHeader b))]).
Proof.
  intros Hb Hf1 Hf2 Hf3 Hf4 Hf5 Hc Hg Hh. split_and!.
  - exists (BlockResponseMessage (block_text b)). rewrite !Receive_bytes by done. cbn [handle]. split.
    + assert ((if negb (height =? 0) then GetBlockByHeight cB height else GetBlockByHash cB (GetHash rawHash)) = Ok b) as ->.
      { by destruct (height =? 0). }
      unfold NewBlockResponseMessage. by rewrite marshal_block_ok.
    + by rewrite GetBlock_text.
  - exists (NewStatusResponseMessage (BestBlockHeader cB) gB). rewrite !Receive_bytes by done. split; [done|].
    cbn [handle NewStatusResponseMessage]. unfold GetHash, GetGenesisHash. by rewrite !NewHash_Byte32.
  - exists (MineBlockMessage (block_text b)). split; [by apply marshal_block_ok|].
    rewrite Receive_bytes by done. cbn [handle]. by rewrite GetMineBlock_text.
Qed.

(** C30: What is not a message: an empty one panics; an error of go-wire before the end is replaced by
    one about bytes left over, but bytes left over after a message without an error are
    not noticed; a block response whose text is not hexadecimal reaches the block keeper as a
    block of height zero with no transactions, whereas such a mined block is dropped; with no
    fetcher every mined block that can be read panics. *)
Theorem malformed_messages (c : chain_view) (g : Hash) (f : bool) (key : gostring) (bz raw : bytes) (b : Block BcTx) :
  (hex_decode raw).2 <> None -> fits (BlockResponseMessage raw) -> fits (MineBlockMessage raw) ->
  storable b -> fits (MineBlockMessage (block_text b)) ->
  Receive c g f key [] = None /\
  (forall msg n, bz <> [] -> ReadBinary bz maxBlockchainResponseSize = (msg, n, None) ->
     Receive c g f key bz = handle c g f key msg) /\
  (forall msg n e t, bz !! 0%nat = Some t -> ReadBinary bz maxBlockchainResponseSize = (msg, n, Some e) ->
     DecodeMessage bz = Some (t, msg, Some (if n =? #bz then e else errLeftOver)) /\ Receive c g f key bz = Some []) /\
  Receive c g f key (BinaryBytes (BlockResponseMessage raw)) = Some [AddBlock zeroBlock key] /\
  Receive c g f key (BinaryBytes (MineBlockMessage raw)) = Some [] /\
  Receive c g false key (BinaryBytes (MineBlockMessage (block_text b))) = None.
Proof.
  intros Hraw Hf1 Hf2 Hb Hf3.
  assert (exists e, block_UnmarshalText zeroBlock raw = Some (Some e, zeroBlock)) as [e He].
  { unfold block_UnmarshalText, Block_UnmarshalText. destruct (hex_decode raw) as [d [e|]]; [by exists e|done]. }
  split_and!.
  - done.
  - intros msg n Hbz Hr. unfold Receive, DecodeMessage. rewrite Hr. by destruct bz.
  - intros msg n e' t Ht Hr. unfold Receive, DecodeMessage. rewrite Ht, Hr. cbn [mbind option_bind].
    rewrite bool_decide_true by done. cbn [andb negb]. by destruct (n =? #bz).
  - rewrite Receive_bytes by done. cbn [handle]. unfold GetBlock. by rewrite He.
  - rewrite Receive_bytes by done. cbn [handle]. unfold GetMineBlock. by rewrite He.
  - rewrite Receive_bytes by done. cbn [handle]. by rewrite GetMineBlock_text.
Qed.
End properties.

(** ** Concrete functions *)
Definition ex_encode (m : BlockchainMessage) : bytes :=
  msg_byte m :: match m with
  | BlockRequestMessage h raw => le_put 8 h ++ raw
  | StatusRequestMessage => []
  | StatusResponseMessage h raw gen => le_put 8 h ++ raw ++ gen
  | BlockResponseMessage raw | TransactionNotifyMessage raw | MineBlockMessage raw => raw
  end.

Definition ex_decode (bz : bytes) : option BlockchainMessage :=
  match bz with
  | 16 :: r => Some (BlockRequestMessage (le_get (take 8 r)) (drop 8 r))
  | 17 :: r => Some (BlockResponseMessage r)
  | [32] => Some StatusRequestMessage
  | 33 :: r => Some (StatusResponseMessage (le_get (take 8 r)) (take 32 (drop 8 r)) (drop 32 (drop 8 r)))
  | 48 :: r => Some (TransactionNotifyMessage r)
  | 64 :: r => Some (MineBlockMessage r)
  | _ => None
  end.

Definition ex_msg_ops : MsgOps unit := {|
  ReadBinary := fun bz _ => match ex_decode bz with
    | Some m => (Some m, #bz, None)
    | None => (None, 1, Some (EMsg (str "unknown type")))
    end;
  BinaryBytes := ex_encode;
  TxData_MarshalText := fun tx => Ok (hex_encode (@enc_tx sample_runtime pad32 tx));
  Tx_UnmarshalText := fun _ => Some (Err EOF);
|}.

Lemma ex_decode_encode m : msg_ok m -> ex_decode (ex_encode m) = Some m.
Proof.
  assert (forall h rest, u64_ok h -> le_get (take 8 (le_put 8 h ++ rest)) = h /\ drop 8 (le_put 8 h ++ rest) = rest) as Hle.
  { intros h rest Hh. rewrite take_app_length', drop_app_length' by done. split; [|done].
    rewrite le_get_put. by apply Z.mod_small. }
  destruct m as [h raw|raw| |h raw gen|raw|raw]; cbn -[le_put take drop]; try done.
  - intros [Hh _]. by destruct (Hle h raw Hh) as [-> ->].
  - intros (Hh & Hr & Hg). destruct (Hle h (raw ++ gen) Hh) as [-> ->].
    by rewrite take_app_length', drop_app_length' by done.
Qed.

Lemma ex_msg_laws : @MsgLaws unit ex_msg_ops.
Proof.
  split.
  - intros m Hm _. cbn -[ex_decode ex_encode]. by rewrite ex_decode_encode.
  - done.
Qed.

Definition ex_view : chain_view (BcTx := unit) :=
  mkView (fun h => if h =? 5 then Ok sample_block else Err EOF)
    (fun h => if bool_decide (h = mkHash 1 2 3 4) then Ok sample_block else Err EOF) (b_BlockHeader sample_block).

Lemma ex_fits m : match m with
    | BlockRequestMessage h raw => ((0 <=? h) && (h <? 2 ^ 64) && (length raw =? 32)%nat)%bool
    | StatusRequestMessage => true
    | StatusResponseMessage h raw gen =>
        ((0 <=? h) && (h <? 2 ^ 64) && (length raw =? 32)%nat && (length gen =? 32)%nat)%bool
    | BlockResponseMessage raw | TransactionNotifyMessage raw | MineBlockMessage raw => bytes_okb raw
    end && (#(ex_encode m) <=? maxBlockchainResponseSize) = true -> @fits unit ex_msg_ops m.
Proof.
  intros Hb. apply andb_true_iff in Hb as [Hm Hs]. apply Z.leb_le in Hs. split; [|exact Hs].
  destruct m; cbn in Hm |- *; try done; try (by apply bytes_okb_ok);
    repeat (apply andb_true_iff in Hm as [Hm ?]); zbool; repeat match goal with H : (_ =? _)%nat = true |- _ => apply Nat.eqb_eq in H end;
    unfold u64_ok; repeat split; assumption.
Qed.

Lemma request_served_witness :
  exists m, @Receive sample_runtime pad32 ex_ops unit plain_codec ex_msg_ops ex_view zeroHash false [1]
      (ex_encode (BlockRequestMessage 5 (replicate 32 0))) = Some [TrySend [1] m] /\
    @Receive sample_runtime pad32 ex_ops unit plain_codec ex_msg_ops ex_view zeroHash false [2] (ex_encode m)
      = Some [AddBlock sample_block [2]].
Proof.
  apply (@request_served sample_runtime pad32 pad32_laws ex_ops unit plain_codec plain_codec_laws ex_msg_ops ex_msg_laws ex_view ex_view zeroHash zeroHash
    false false [1] [2] sample_block 5 (replicate 32 0) sample_storable); try (apply ex_fits; vm_compute; reflexivity).
  - reflexivity.
  - vm_compute. repeat split; discriminate.
  - vm_compute. repeat split; discriminate.
Defined.

Lemma malformed_messages_witness :
  @Receive sample_runtime pad32 ex_ops unit plain_codec ex_msg_ops ex_view zeroHash true [1] (ex_encode (BlockResponseMessage [103]))
    = Some [AddBlock zeroBlock [1]] /\
  @Receive sample_runtime pad32 ex_ops unit plain_codec ex_msg_ops ex_view zeroHash true [1] [] = None.
Proof.
  destruct (@malformed_messages sample_runtime pad32 pad32_laws ex_ops unit plain_codec plain_codec_laws ex_msg_ops ex_msg_laws ex_view zeroHash true [1]
    [] [103] sample_block) as (H1 & _ & _ & H2 & _); try (apply ex_fits; vm_compute; reflexivity).
  - vm_compute. discriminate.
  - exact sample_storable.
  - split; [exact H2|exact H1].
Defined.
