(* ===== verification/Handshake.v ===== *)
(** * The handshake of the protocol reactor

    Models [AddPeer] and [RemovePeer] of [netsync/protocol_reactor.go], with what [Receive] does
    to the state they share: it hands over a status by a channel, and writes the height and hash
    of a mined block into the peer set.  The handshakes of all peers share the mutex [handshakeMu],
    the peer set and the unbuffered channels [peerStatusCh], [txSyncCh] and [newPeerCh]: together
    they are one state machine.  The call that holds the mutex does one thing at a time: between its
    calls of the peer set, events of other goroutines may come.  Which of the waiting calls gets the mutex is
    open.  The theorems are about every sequence of events. *)
From Stdlib Require Import SpecFloat.
From S2P Require Import Prelude Errors GoLib Hash BanScore Protocol BlockKeeper.

Definition BlockchainChannel : Z := 64.
Definition protocolHandshakeTimeout : Z := 10 * 10 ^ 9.
Definition handshakeRetryTicker : Z := 4 * 10 ^ 9.

Definition ErrProtocolHandshakeTimeout : error := EMsg (str "Protocol handshake timeout").
Definition ErrStatusRequest : error := EMsg (str "Status request error").
Definition ErrDiffGenesisHash : error := EMsg (str "Different genesis hash").

(** The methods of the peer set that are not in the repository, and the text of a hash. *)
Class HandshakeOps := {
  peers_AddPeer : gostring -> peerSet -> peerSet;
  SetPeerStatus : gostring -> Z -> Hash -> peerSet -> peerSet;
  peers_RemovePeer : gostring -> peerSet -> peerSet;
  Hash_String : Hash -> gostring;
}.

(** Adding registers the peer, removing unregisters it, and a status is one of a registered
    peer; other peers stay as they are. *)
Class HandshakeLaws `{HandshakeOps} := {
  AddPeer_law k ps : is_Some (peers_AddPeer k ps !! k) /\ forall j, j <> k -> peers_AddPeer k ps !! j = ps !! j;
  SetPeerStatus_law k h hs ps :
    (forall p, ps !! k = Some p -> exists p', SetPeerStatus k h hs ps !! k = Some p' /\ height p' = h /\ hash p' = hs) /\
    (ps !! k = None -> SetPeerStatus k h hs ps !! k = None) /\
    forall j, j <> k -> SetPeerStatus k h hs ps !! j = ps !! j;
  RemovePeer_law k ps : peers_RemovePeer k ps !! k = None /\ forall j, j <> k -> peers_RemovePeer k ps !! j = ps !! j;
  Hash_String_law :: Inj (=) (=) Hash_String;
}.

Section handshake.
Context `{HandshakeOps}.

(** Where the goroutine that holds the mutex is: in the select statement, with a status before it
    registers the peer, before it sets the peer's status and before it looks the peer up, in the
    send of the pending transactions to [txSyncCh], or in the send to [newPeerCh]. *)
Inductive phase :=
| Selecting
| Adding (s : initalPeerStatus)
| Setting (s : initalPeerStatus)
| Looking
| Syncing
| Announcing.

Record node := mkNode {
  genesisHash : Hash;
  peers : peerSet;
  (** who holds the mutex, and the calls that wait for it: a peer, which may be nil *)
  holder : option (gostring * phase);
  waiting : list (option gostring);
  (** the receive routines that wait in their send to [peerStatusCh] *)
  sending : list initalPeerStatus;
  quitReqBlockCh : list gostring;
  (** the results of the calls of [AddPeer] that have returned *)
  results : list (option gostring * option error);
}.

Definition with_holder (o : option (gostring * phase)) (nd : node) : node :=
  mkNode (genesisHash nd) (peers nd) o (waiting nd) (sending nd) (quitReqBlockCh nd) (results nd).
Definition with_peers (ps : peerSet) (nd : node) : node :=
  mkNode (genesisHash nd) ps (holder nd) (waiting nd) (sending nd) (quitReqBlockCh nd) (results nd).
Definition with_sending (l : list initalPeerStatus) (nd : node) : node :=
  mkNode (genesisHash nd) (peers nd) (holder nd) (waiting nd) l (quitReqBlockCh nd) (results nd).
Definition with_waiting (l : list (option gostring)) (nd : node) : node :=
  mkNode (genesisHash nd) (peers nd) (holder nd) l (sending nd) (quitReqBlockCh nd) (results nd).

(** A call returns and gives the mutex back. *)
Definition return_ (peer : option gostring) (err : option error) (nd : node) : node :=
  mkNode (genesisHash nd) (peers nd) None (waiting nd) (sending nd) (quitReqBlockCh nd) (results nd ++ [(peer, err)]).

(** [AddPeer] from the mutex to the loop; [sent] tells whether the status request can be sent. *)
Definition AddPeer_start (peer : option gostring) (sent : bool) (nd : node) : node :=
  match peer with
  | None => return_ peer (Some errPeerDropped) nd
  | Some k => if negb sent then return_ peer (Some ErrStatusRequest) nd else with_holder (Some (k, Selecting)) nd
  end.

(** The case of a status in the loop, up to the peer set. *)
Definition take_status (k : gostring) (s : initalPeerStatus) (nd : node) : node :=
  if bool_decide (st_peerID s = k) then
    if negb (bool_decide (Hash_String (genesisHash nd) = Hash_String (st_genesisHash s)))
    then return_ (Some k) (Some ErrDiffGenesisHash) nd
    else with_holder (Some (k, Adding s)) nd
  else nd.

(** The rest of that case, one call at a time; [pending] tells whether [syncTransactions] finds
    pending transactions, which it then sends. *)
Definition register (k : gostring) (ph : phase) (pending : bool) (nd : node) : option node :=
  match ph with
  | Adding s => Some (with_holder (Some (k, Setting s)) (with_peers (peers_AddPeer k (peers nd)) nd))
  | Setting s =>
      Some (with_holder (Some (k, Looking)) (with_peers (SetPeerStatus (st_peerID s) (st_height s) (st_hash s) (peers nd)) nd))
  | Looking =>
      Some (match BlockKeeper.Peer (peers nd) k with
            | None => return_ (Some k) (Some errPeerDropped) nd
            | Some prPeer => with_holder (Some (k, if pending then Syncing else Announcing)) nd
            end)
  | _ => None
  end.

(** [RemovePeer]: the channel to the block keeper has room for [maxQuitReq] keys. *)
Definition maxQuitReq : Z := 256.
Definition RemovePeer (k : gostring) (nd : node) : node :=
  let q := if #(quitReqBlockCh nd) <? maxQuitReq then quitReqBlockCh nd ++ [k] else quitReqBlockCh nd in
  mkNode (genesisHash nd) (peers_RemovePeer k (peers nd)) (holder nd) (waiting nd) (sending nd) q (results nd).

(** The call of [AddPeer]; the mutex for a waiting call; the cases of the select statement, of which
    [Take] is a status; the steps after it; the receptions by the synchronisation; a status that is
    received; a mined block's height and hash, which [Receive] sets for its sender; the removal of
    a peer; the reception of a removal by the block keeper. *)
Inductive event :=
| Call (peer : option gostring)
| Lock (n : nat) (sent : bool)
| Take (n : nat)
| Retry (sent : bool)
| Timeout
| Register (pending : bool)
| ReadTxSync
| ReadNewPeer
| Status (s : initalPeerStatus)
| Mined (k : gostring) (h : Z) (hs : Hash)
| Remove (k : gostring)
| ReadQuit.

(** [None]: the event cannot happen in the state. *)
Definition step (e : event) (nd : node) : option node :=
  match e with
  | Call peer => Some (with_waiting (waiting nd ++ [peer]) nd)
  | Lock n sent =>
      match holder nd with
      | None => peer ← waiting nd !! n; Some (AddPeer_start peer sent (with_waiting (delete n (waiting nd)) nd))
      | Some _ => None
      end
  | Take n =>
      match holder nd with
      | Some (k, Selecting) => s ← sending nd !! n; Some (take_status k s (with_sending (delete n (sending nd)) nd))
      | _ => None
      end
  | Retry sent =>
      match holder nd with
      | Some (k, Selecting) => Some (if negb sent then return_ (Some k) (Some ErrStatusRequest) nd else nd)
      | _ => None
      end
  | Timeout =>
      match holder nd with
      | Some (k, Selecting) => Some (return_ (Some k) (Some ErrProtocolHandshakeTimeout) nd)
      | _ => None
      end
  | Register pending => '(k, ph) ← holder nd; register k ph pending nd
  | ReadTxSync =>
      match holder nd with Some (k, Syncing) => Some (with_holder (Some (k, Announcing)) nd) | _ => None end
  | ReadNewPeer =>
      match holder nd with Some (k, Announcing) => Some (return_ (Some k) None nd) | _ => None end
  | Status s => Some (with_sending (sending nd ++ [s]) nd)
  | Mined k h hs => Some (with_peers (SetPeerStatus k h hs (peers nd)) nd)
  | Remove k => Some (RemovePeer k nd)
  | ReadQuit =>
      Some (mkNode (genesisHash nd) (peers nd) (holder nd) (waiting nd) (sending nd) (tail (quitReqBlockCh nd)) (results nd))
  end.

Fixpoint run (l : list event) (nd : node) : option node :=
  match l with
  | [] => Some nd
  | e :: l => nd ← step e nd; run l nd
  end.

Definition initial (genesis : Hash) : node := mkNode genesis newPeerSet None [] [] [] [].
End handshake.

(** ** Properties *)
Section properties.
Context `{HandshakeLaws}.

Lemma run_app l1 l2 nd : run (l1 ++ l2) nd = nd' ← run l1 nd; run l2 nd'.
Proof. revert nd. induction l1 as [|e l1 IH]; intros nd; [done|]. cbn. destruct (step e nd); cbn; [apply IH|done]. Qed.

Lemma no_peers (k : gostring) (p : peer) : newPeerSet !! k = Some p -> False.
Proof. change (newPeerSet !! k) with ((∅ : gmap gostring peer) !! k). by rewrite lookup_empty. Qed.

(** The peer has sent a status with the node's own genesis hash. *)
Definition vouched (hist : list event) (g : Hash) (k : gostring) (s : initalPeerStatus) : Prop :=
  Status s ∈ hist /\ st_peerID s = k /\ st_genesisHash s = g.

(** What the set knows of the peer is what such a status said, or a mined block that it sent. *)
Definition status_of (hist : list event) (g : Hash) (k : gostring) (p : peer) : Prop :=
  exists s, vouched hist g k s /\
    ((height p = st_height s /\ hash p = st_hash s) \/ Mined k (height p) (hash p) ∈ hist).

(** The status that the call which holds the mutex is about to enter. *)
Definition entering (nd : node) : option (gostring * initalPeerStatus) :=
  match holder nd with Some (k, Adding s) | Some (k, Setting s) => Some (k, s) | _ => None end.

Record Inv (hist : list event) (g : Hash) (nd : node) : Prop := {
  inv_genesis : genesisHash nd = g;
  inv_peers : forall k p, peers nd !! k = Some p ->
    status_of hist g k p \/ exists s, holder nd = Some (k, Setting s) /\ vouched hist g k s;
  inv_sending : forall s, s ∈ sending nd -> Status s ∈ hist;
  inv_entering : forall k s, entering nd = Some (k, s) -> vouched hist g k s;
}.

Lemma vouched_mono hist e g k s : vouched hist g k s -> vouched (hist ++ [e]) g k s.
Proof. intros (? & ? & ?). split; [apply elem_of_app; by left|done]. Qed.

Lemma status_mono hist e g k p : status_of hist g k p -> status_of (hist ++ [e]) g k p.
Proof.
  intros (s & Hv & Hor). exists s. split; [by apply vouched_mono|]. destruct Hor as [?|?]; [by left|right]. apply elem_of_app. by left.
Qed.

Lemma Inv_mono hist e g nd : Inv hist g nd -> Inv (hist ++ [e]) g nd.
Proof.
  intros [Hg Hp Hs He]. split; [done| | |].
  - intros k p Hk. destruct (Hp k p Hk) as [H1|(s & Hh & Hv)]; [left; by apply status_mono|right].
    exists s. split; [done|by apply vouched_mono].
  - intros s Hin. apply elem_of_app. left. by apply Hs.
  - intros k s Hk. by apply vouched_mono, He.
Qed.

(** A step that leaves the peers and the set of the handshake alone. *)
Lemma Inv_peers hist g nd nd' : Inv hist g nd -> genesisHash nd' = genesisHash nd -> peers nd' = peers nd ->
  (forall k s, holder nd <> Some (k, Setting s)) ->
  (forall s, s ∈ sending nd' -> Status s ∈ hist) -> (forall k s, entering nd' = Some (k, s) -> vouched hist g k s) -> Inv hist g nd'.
Proof.
  intros [Hg Hp _ _] Eg Ep Hh Hs He. split; [congruence| |done|done]. rewrite Ep. intros k p Hk.
  destruct (Hp k p Hk) as [?|(s & Hx & _)]; [by left|]. by apply Hh in Hx.
Qed.

Lemma Inv_return hist g k ph err nd : Inv hist g nd -> holder nd = Some (k, ph) -> (forall s, ph <> Setting s) ->
  Inv hist g (return_ (Some k) err nd).
Proof. intros Hi Hh Hne. apply (Inv_peers _ _ nd); try done; [|apply Hi]. intros j s. rewrite Hh. intros [= _ E]. by apply Hne in E. Qed.

(** A step that changes neither the call with the mutex nor the peers. *)
Lemma Inv_same hist g nd nd' : Inv hist g nd -> genesisHash nd' = genesisHash nd -> peers nd' = peers nd -> holder nd' = holder nd ->
  (forall s, s ∈ sending nd' -> Status s ∈ hist) -> Inv hist g nd'.
Proof.
  intros [Hg Hp _ He] Eg Ep Eh Hs. split; [congruence|by rewrite Ep, Eh|done|]. unfold entering. rewrite Eh. exact He.
Qed.

Lemma register_Inv hist g k ph pending nd nd' : Inv hist g nd -> holder nd = Some (k, ph) -> register k ph pending nd = Some nd' ->
  Inv hist g nd'.
Proof.
  intros Hi Hh Hr. pose proof Hi as [Eg Ep Es Ee]. destruct ph as [|s|s| | |]; cbn [register] in Hr; try done; injection Hr as <-.
  - assert (vouched hist g k s) as Hv by (apply Ee; unfold entering; by rewrite Hh).
    split; [done| |done|by intros j s' [= <- <-]]. cbn [with_holder with_peers peers holder]. intros j p Hj.
    destruct (AddPeer_law k (peers nd)) as [_ Hother]. destruct (decide (j = k)) as [->|Hne]; [right; by exists s|].
    rewrite Hother in Hj by done. destruct (Ep j p Hj) as [?|(s' & Hx & _)]; [by left|congruence].
  - assert (vouched hist g k s) as Hv by (apply Ee; unfold entering; by rewrite Hh). pose proof Hv as (_ & Hk & _).
    split; [done| |done|done]. cbn [with_holder with_peers peers]. intros j p Hj. left.
    destruct (SetPeerStatus_law (st_peerID s) (st_height s) (st_hash s) (peers nd)) as (Hset & Hno & Hother). rewrite Hk in *.
    destruct (decide (j = k)) as [->|Hne].
    + destruct (peers nd !! k) as [q|] eqn:Eq; [|by rewrite Hno in Hj]. destruct (Hset q eq_refl) as (p' & Hp' & ? & ?).
      rewrite Hp' in Hj. injection Hj as <-. exists s. split; [done|by left].
    + rewrite Hother in Hj by done. destruct (Ep j p Hj) as [?|(s' & Hx & _)]; [done|congruence].
  - destruct (BlockKeeper.Peer (peers nd) k).
    + apply (Inv_peers _ _ nd); try done; [rewrite Hh; by intros ? ? [=]|]. intros j s'. by destruct pending.
    + by eapply Inv_return.
Qed.

Lemma mined_Inv hist g k h hs nd : Inv hist g nd -> Mined k h hs ∈ hist -> Inv hist g (with_peers (SetPeerStatus k h hs (peers nd)) nd).
Proof.
  intros [Eg Ep Es Ee] Hm. split; [done| |done|exact Ee]. cbn [with_peers peers holder]. intros j p Hj.
  destruct (SetPeerStatus_law k h hs (peers nd)) as (Hset & Hno & Hother).
  destruct (decide (j = k)) as [->|Hne]; [|rewrite Hother in Hj by done; by apply Ep].
  destruct (peers nd !! k) as [q|] eqn:Eq; [|by rewrite Hno in Hj]. destruct (Hset q eq_refl) as (p' & Hp' & Hh' & Hs').
  rewrite Hp' in Hj. injection Hj as <-. destruct (Ep k q Eq) as [(s & Hv & _)|?]; [left|by right].
  exists s. split; [done|right]. by rewrite Hh', Hs'.
Qed.

Lemma take_status_Inv hist g k s nd : Inv hist g nd -> holder nd = Some (k, Selecting) -> Status s ∈ hist ->
  Inv hist g (take_status k s nd).
Proof.
  intros Hi Hh Hs. unfold take_status. case_bool_decide as Hk; [|done].
  case_bool_decide as Hg; cbn [negb]; [|by eapply Inv_return].
  apply Hash_String_law in Hg. apply (Inv_peers _ _ nd); try done; [rewrite Hh; by intros ? ? [=]|apply Hi|].
  intros j s' [= <- <-]. split_and!; [done|done|]. rewrite <- Hg. apply Hi.
Qed.

Lemma handshake_step_Inv hist g nd e nd' : Inv hist g nd -> step e nd = Some nd' -> Inv (hist ++ [e]) g nd'.
Proof.
  intros Hi%(Inv_mono hist e) Hs. assert (e ∈ hist ++ [e]) as Hin by (apply elem_of_app; right; left).
  revert Hi Hin. generalize (hist ++ [e]). clear hist. intros hist Hi Hin. pose proof (inv_sending _ _ _ Hi) as Es.
  destruct e as [peer|n sent|n|sent| |pending| | |s|k h hs|k|]; cbn [step] in Hs.
  - injection Hs as <-. by apply (Inv_same _ _ nd).
  - destruct (holder nd) eqn:Hh; [done|]. destruct (waiting nd !! n) as [peer|]; [|done]. injection Hs as <-.
    unfold AddPeer_start. destruct peer as [k|]; [destruct sent|]; cbn; apply (Inv_peers _ _ nd); try done; by rewrite Hh.
  - destruct (holder nd) as [[k []]|] eqn:Hh; try done. destruct (sending nd !! n) as [s|] eqn:En; [|done]. injection Hs as <-.
    apply take_status_Inv; [|done|by apply Es, list_elem_of_lookup; exists n]. apply (Inv_same _ _ nd); try done.
    cbn [with_sending sending]. intros s' Hs'. apply Es. by eapply list_elem_of_delete_inv.
  - destruct (holder nd) as [[k []]|] eqn:Hh; try done. injection Hs as <-. destruct sent; [done|]. by eapply Inv_return.
  - destruct (holder nd) as [[k []]|] eqn:Hh; try done. injection Hs as <-. by eapply Inv_return.
  - destruct (holder nd) as [[k ph]|] eqn:Hh; [|done]. cbn in Hs. by eapply register_Inv.
  - destruct (holder nd) as [[k []]|] eqn:Hh; try done. injection Hs as <-.
    apply (Inv_peers _ _ nd); try done. rewrite Hh. by intros ? ? [=].
  - destruct (holder nd) as [[k []]|] eqn:Hh; try done. injection Hs as <-. by eapply Inv_return.
  - injection Hs as <-. apply (Inv_same _ _ nd); try done. cbn [with_sending sending]. intros s' [Hs'|Hs']%elem_of_app; [by apply Es|].
    by apply list_elem_of_singleton in Hs' as ->.
  - injection Hs as <-. by apply mined_Inv.
  - injection Hs as <-. destruct Hi as [Eg Ep _ Ee]. split; [done| |done|done]. cbn [RemovePeer peers holder]. intros j p Hj.
    destruct (RemovePeer_law k (peers nd)) as [Hk Hother].
    destruct (decide (j = k)) as [->|Hne]; [by rewrite Hk in Hj|]. rewrite Hother in Hj by done. by apply Ep.
  - injection Hs as <-. by apply (Inv_same _ _ nd).
Qed.

Lemma handshake_run_Inv l : forall hist g nd nd', Inv hist g nd -> run l nd = Some nd' -> Inv (hist ++ l) g nd'.
Proof.
  induction l as [|e l IH]; intros hist g nd nd' Hi Hr; cbn [run] in Hr.
  - injection Hr as <-. by rewrite app_nil_r.
  - destruct (step e nd) as [nd1|] eqn:Es; [|done]. rewrite cons_middle, app_assoc.
    eapply IH; [|exact Hr]. by eapply handshake_step_Inv.
Qed.

(** C15: Whatever the order of calls, messages and timeouts, every peer of the set has sent a status
    with the node's own genesis hash, and what the set knows of it, its height and its best block,
    is what that status said or a mined block that it has sent since or before: no message of another
    peer is taken for its own.  The one exception is the peer that is being registered: between its entry into the
    set and the next call, which sets the status it has sent, nothing is known of it. *)
Theorem handshake_genesis (g : Hash) (l : list event) (nd : node) (k : gostring) (p : peer) :
  run l (initial g) = Some nd -> peers nd !! k = Some p ->
  status_of l g k p \/ exists s, holder nd = Some (k, Setting s) /\ vouched l g k s.
Proof.
  intros Hr Hp. apply (handshake_run_Inv l [] g (initial g)) in Hr as [_ Hi _ _]; [by apply Hi|].
  split; [done| | |done]; cbn [initial peers sending]; intros x; [intros q Hx; by apply no_peers in Hx|].
  intros Hx. by apply elem_of_nil in Hx.
Qed.

(** *** Without the synchronisation *)
(** A call that has found its peer registered and waits in one of its two sends. *)
Definition in_send (ph : phase) : Prop := ph = Syncing \/ ph = Announcing.
Definition announced (nd : node) : Prop := exists k ph, holder nd = Some (k, ph) /\ in_send ph.
(** A call that has registered its peer. *)
Definition past_adding (ph : phase) : Prop := match ph with Selecting | Adding _ => False | _ => True end.

(** The state when nothing has ever been received from [newPeerCh]. *)
Record Stuck (nd : node) : Prop := {
  stuck_results : forall k, (k, None) ∉ results nd;
  stuck_peers : forall k, is_Some (peers nd !! k) -> exists ph, holder nd = Some (k, ph) /\ past_adding ph;
}.

Lemma remove_only k (ps : peerSet) j : is_Some (peers_RemovePeer k ps !! j) -> is_Some (ps !! j).
Proof.
  destruct (RemovePeer_law k ps) as [Hk Hother]. destruct (decide (j = k)) as [->|Hne].
  - rewrite Hk. by intros [? ?].
  - by rewrite Hother.
Qed.

Lemma set_only k h hs (ps : peerSet) j : is_Some (SetPeerStatus k h hs ps !! j) -> is_Some (ps !! j).
Proof.
  destruct (SetPeerStatus_law k h hs ps) as (_ & Hno & Hother). destruct (decide (j = k)) as [->|Hne]; [|by rewrite Hother].
  destruct (ps !! k); [done|]. rewrite Hno by done. by intros [].
Qed.

(** What a step changes when a handshake waits in one of its two sends. *)
Lemma step_announced nd e nd' : e <> ReadNewPeer -> announced nd -> step e nd = Some nd' ->
  announced nd' /\ fst <$> holder nd' = fst <$> holder nd /\ results nd' = results nd /\
  (forall j, is_Some (peers nd' !! j) -> is_Some (peers nd !! j)) /\
  (exists m, sending nd' = sending nd ++ m) /\ (exists m, waiting nd' = waiting nd ++ m).
Proof.
  intros He (k & ph & Hh & Hne) Hs.
  destruct e; cbn [step] in Hs; rewrite ?Hh in Hs; destruct Hne as [-> | ->]; cbn in Hs; try done; injection Hs as <-;
    (split_and!; [first [exists k, Announcing; split; [done|by right]|exists k, Syncing; split; [done|by left]]|by cbn; rewrite ?Hh|done| | |]);
    cbn [RemovePeer with_peers peers]; try done; try (intros j; apply remove_only || apply set_only); try (by eexists); by (exists []; rewrite app_nil_r).
Qed.

(** A step that returns an error when the call's peer is not registered. *)
Lemma return_Stuck nd k ph err : Stuck nd -> holder nd = Some (k, ph) -> peers nd !! k = None \/ ~ past_adding ph -> err <> None ->
  Stuck (return_ (Some k) err nd).
Proof.
  intros [Hr Hp] Hh Hno He. split.
  - intros j Hj. cbn in Hj. apply elem_of_app in Hj as [Hj|Hj]; [by eapply Hr|]. apply list_elem_of_singleton in Hj. congruence.
  - intros j Hj. cbn in Hj. destruct (Hp j Hj) as (ph' & Hx & Hpast). rewrite Hh in Hx. injection Hx as <- <-.
    destruct Hno as [Hno|Hno]; [|done]. rewrite Hno in Hj. by destruct Hj.
Qed.

(** A step that keeps who holds the mutex, or goes on with the same call. *)
Lemma Stuck_next nd nd' : Stuck nd -> results nd' = results nd -> (forall j, is_Some (peers nd' !! j) -> is_Some (peers nd !! j)) ->
  (forall k ph, holder nd = Some (k, ph) -> past_adding ph -> exists ph', holder nd' = Some (k, ph') /\ past_adding ph') -> Stuck nd'.
Proof.
  intros [Hr Hp] Er Hpe Hh. split; [by rewrite Er|]. intros k Hk. destruct (Hp k (Hpe k Hk)) as (ph & Ho & Hpast). by eapply Hh.
Qed.

Lemma register_Stuck nd k ph pending nd' : Stuck nd -> holder nd = Some (k, ph) -> register k ph pending nd = Some nd' -> Stuck nd'.
Proof.
  intros Hst Hh Hr. destruct ph as [|s|s| | |]; cbn [register] in Hr; try done; injection Hr as <-.
  - pose proof Hst as [Hr Hp]. split; [done|]. cbn. intros j Hj. destruct (AddPeer_law k (peers nd)) as [_ Hother].
    destruct (decide (j = k)) as [->|Hne]; [by eexists|]. rewrite Hother in Hj by done.
    destruct (Hp j Hj) as (ph & Hx & _). congruence.
  - apply (Stuck_next nd); try done; [intros j; apply set_only|]. rewrite Hh. intros ? ? [= <- <-] _. by eexists.
  - unfold BlockKeeper.Peer. destruct (peers nd !! k) eqn:Ek.
    + apply (Stuck_next nd); try done. rewrite Hh. intros ? ? [= <- <-] _. eexists. split; [done|]. by destruct pending.
    + eapply return_Stuck; [done|done|by left|done].
Qed.

Lemma step_Stuck nd e nd' : e <> ReadNewPeer -> Stuck nd -> step e nd = Some nd' -> Stuck nd'.
Proof.
  intros He Hst Hs.
  assert (forall k err, holder nd = Some (k, Selecting) -> err <> None -> Stuck (return_ (Some k) err nd)) as Hret.
  { intros k err Hh Hne. eapply return_Stuck; [done|done|right; exact (fun x => x)|done]. }
  assert (forall nd', holder nd' = holder nd -> results nd' = results nd ->
    (forall j, is_Some (peers nd' !! j) -> is_Some (peers nd !! j)) -> Stuck nd') as Hsame.
  { intros nd2 Eh Er Hp. apply (Stuck_next nd); try done. intros k ph Hk Hpast. rewrite Eh. by eexists. }
  destruct e as [peer|n sent|n|sent| |pending| | |s|k h hs|k|]; cbn [step] in Hs; try done;
    try (injection Hs as <-; apply Hsame; [done|done|]; cbn [RemovePeer with_peers peers]; try done; intros j; apply remove_only || apply set_only).
  - destruct (holder nd) eqn:Hh; [done|]. destruct (waiting nd !! n) as [peer|]; [|done]. injection Hs as <-. destruct Hst as [Hr Hp].
    assert (forall j, ~ is_Some (peers nd !! j)) as Hno by (intros j Hj; destruct (Hp j Hj) as (? & ? & _); congruence).
    unfold AddPeer_start. destruct peer as [k|]; [destruct sent|]; cbn; (split; cbn; [|intros j Hj; by apply Hno in Hj]); [done| |];
      (intros j Hj; apply elem_of_app in Hj as [Hj|Hj]; [by eapply Hr|by apply list_elem_of_singleton in Hj]).
  - destruct (holder nd) as [[k []]|] eqn:Hh; try done. destruct (sending nd !! n) as [s|]; [|done]. injection Hs as <-.
    unfold take_status. set (nd1 := with_sending _ nd). assert (Stuck nd1) as H1 by (by apply Hsame).
    case_bool_decide; [|done]. case_bool_decide; cbn [negb].
    + apply (Stuck_next nd1); try done. unfold nd1. cbn. rewrite Hh. by intros ? ? [= <- <-].
    + eapply (return_Stuck nd1); [done|exact Hh|right; exact (fun x => x)|done].
  - destruct (holder nd) as [[k []]|] eqn:Hh; try done. injection Hs as <-. destruct sent; [done|by apply Hret].
  - destruct (holder nd) as [[k []]|] eqn:Hh; try done. injection Hs as <-. by apply Hret.
  - destruct (holder nd) as [[k ph]|] eqn:Hh; [|done]. cbn in Hs. by eapply register_Stuck.
  - destruct (holder nd) as [[k []]|] eqn:Hh; try done. injection Hs as <-.
    apply (Stuck_next nd); try done. rewrite Hh. intros ? ? [= <- <-] _. by eexists.
Qed.

Lemma run_Stuck l : forall nd nd', ReadNewPeer ∉ l -> Stuck nd -> run l nd = Some nd' -> Stuck nd'.
Proof.
  induction l as [|e l IH]; intros nd nd' Hn Hst Hr; cbn [run] in Hr; [by injection Hr as <-|].
  apply not_elem_of_cons in Hn as [Hne Hn]. destruct (step e nd) as [nd1|] eqn:Es; [|done].
  eapply IH; [done| |exact Hr]. by eapply step_Stuck.
Qed.

Lemma run_announced l : forall nd nd', ReadNewPeer ∉ l -> announced nd -> run l nd = Some nd' ->
  announced nd' /\ fst <$> holder nd' = fst <$> holder nd /\ results nd' = results nd /\
  (forall j, is_Some (peers nd' !! j) -> is_Some (peers nd !! j)) /\
  (exists m, sending nd' = sending nd ++ m) /\ (exists m, waiting nd' = waiting nd ++ m).
Proof.
  induction l as [|e l IH]; intros nd nd' Hn Ha Hr; cbn [run] in Hr.
  - injection Hr as <-. split_and!; try done; exists []; by rewrite app_nil_r.
  - apply not_elem_of_cons in Hn as [Hne Hn]. destruct (step e nd) as [nd1|] eqn:Es; [|done].
    destruct (step_announced nd e nd1 (not_eq_sym Hne) Ha Es) as (Ha1 & Hf1 & Hr1 & Hp1 & [m1 Hs1] & [w1 Hw1]).
    destruct (IH nd1 nd' Hn Ha1 Hr) as (Ha2 & Hf2 & Hr2 & Hp2 & [m2 Hs2] & [w2 Hw2]).
    split_and!; [done|congruence|congruence|auto| |].
    + exists (m1 ++ m2). by rewrite Hs2, Hs1, app_assoc.
    + exists (w1 ++ w2). by rewrite Hw2, Hw1, app_assoc.
Qed.

(** C26: While nobody receives from [newPeerCh] (and nothing in the program starts the goroutine that
    would), no call of [AddPeer] ever returns without an error and no more than one peer
    is ever registered; from the first handshake that succeeds on, its call keeps the mutex, every
    later call waits for it, no peer is added, and every receive routine that gets a status
    waits for ever. *)
Theorem handshake_blocks (g : Hash) (l1 l2 : list event) (nd1 nd2 : node) :
  run l1 (initial g) = Some nd1 -> run l2 nd1 = Some nd2 -> ReadNewPeer ∉ l1 ++ l2 ->
  (forall k, (k, None) ∉ results nd2) /\
  (forall j k, is_Some (peers nd2 !! j) -> is_Some (peers nd2 !! k) -> j = k) /\
  (forall k ph, holder nd1 = Some (k, ph) -> in_send ph ->
     fst <$> holder nd2 = Some k /\ results nd2 = results nd1 /\
     (forall j, is_Some (peers nd2 !! j) -> is_Some (peers nd1 !! j)) /\
     (exists m, sending nd2 = sending nd1 ++ m) /\ (exists m, waiting nd2 = waiting nd1 ++ m)).
Proof.
  intros Hr1 Hr2 Hn. assert (Stuck nd2) as [Hres Hp].
  { apply (run_Stuck (l1 ++ l2) (initial g) nd2 Hn); [|by rewrite run_app, Hr1].
    split; [intros k Hk; by apply elem_of_nil in Hk|]. cbn [initial peers]. intros k [p Hk]. by apply no_peers in Hk. }
  split_and!; [done| |].
  - intros j k Hj Hk. destruct (Hp j Hj) as (ph & Hh & _), (Hp k Hk) as (ph' & Hh' & _). congruence.
  - intros k ph Hh Hne. apply not_elem_of_app in Hn as [_ Hn].
    destruct (run_announced l2 nd1 nd2 Hn) as (_ & Hf & Hr & Hpe & Hs & Hw); [by exists k, ph|done|].
    split_and!; try done. by rewrite Hf, Hh.
Qed.
End properties.

(** ** Concrete functions *)
Definition ex_p (k : gostring) (h : Z) (hs : Hash) : peer := mkPeer k h hs zeroBanScore k.
Definition ex_ops : HandshakeOps := {|
  peers_AddPeer := fun k ps => match ps !! k with Some _ => ps | None => <[k := ex_p k 0 zeroHash]> ps end;
  SetPeerStatus := fun k h hs ps => match ps !! k with Some _ => <[k := ex_p k h hs]> ps | None => ps end;
  peers_RemovePeer := fun k ps => delete k ps;
  Hash_String := fun h => [V0 h; V1 h; V2 h; V3 h];
|}.

Lemma handshake_ex_laws : @HandshakeLaws ex_ops.
Proof.
  split.
  - intros k ps. cbn. destruct (ps !! k) eqn:Ek; [by rewrite Ek|]. split.
    + eexists. apply (lookup_insert_eq (ps : gmap gostring peer)).
    + intros j Hj. by apply (lookup_insert_ne (ps : gmap gostring peer)).
  - intros k h hs ps. cbn. destruct (ps !! k) eqn:Ek; [|split_and!; [congruence|congruence|done]]. split_and!.
    + intros q Hq. eexists. split; [apply (lookup_insert_eq (ps : gmap gostring peer))|done].
    + congruence.
    + intros j Hj. by apply (lookup_insert_ne (ps : gmap gostring peer)).
  - intros k ps. split.
    + apply (lookup_delete_eq (ps : gmap gostring peer)).
    + intros j Hj. by apply (lookup_delete_ne (ps : gmap gostring peer)).
  - intros [] [] [=]. by subst.
Qed.

(** Two peers: the second one's status comes while the first's handshake waits for its own; later
    it sends a mined block. *)
Definition ex_g : Hash := mkHash 1 2 3 4.
Definition ex_status (k : gostring) (h : Z) : initalPeerStatus := mkStatus k h (mkHash h 0 0 0) ex_g.
Definition ex_run : list event :=
  [Call (Some [1]); Call (Some [2]); Lock 0 true; Status (ex_status [1] 7); Retry true; Take 0; Register true; Register true; Register true; ReadTxSync].
Definition ex_more : list event :=
  [ReadNewPeer; Lock 0 true; Status (ex_status [2] 9); Take 0; Register true; Register true; Register false; ReadNewPeer;
   Mined [2] 10 (mkHash 10 0 0 0)].

Lemma handshake_genesis_witness : exists nd p, @run ex_ops (ex_run ++ ex_more) (initial ex_g) = Some nd /\
  results nd = [(Some [1], None); (Some [2], None)] /\
  peers nd !! [2] = Some p /\ height p = 10 /\ status_of (ex_run ++ ex_more) ex_g [2] p.
Proof.
  destruct (@run ex_ops (ex_run ++ ex_more) (initial ex_g)) as [nd|] eqn:Hr; [|vm_compute in Hr; discriminate Hr].
  assert (exists p, peers nd !! [2] = Some p /\ height p = 10 /\ results nd = [(Some [1], None); (Some [2], None)] /\ holder nd = None)
    as (p & Hp & Hh & Hres & Ho) by (vm_compute in Hr; injection Hr as <-; eexists; vm_compute; repeat split).
  exists nd, p. split; [reflexivity|]. split; [exact Hres|]. split; [exact Hp|]. split; [exact Hh|].
  destruct (@handshake_genesis ex_ops handshake_ex_laws ex_g (ex_run ++ ex_more) nd [2] p Hr Hp) as [Hs|(s & Hs & _)];
    [exact Hs|rewrite Ho in Hs; discriminate Hs].
Defined.

Lemma handshake_blocks_witness : exists nd1 nd2, @run ex_ops ex_run (initial ex_g) = Some nd1 /\
  @run ex_ops [Status (ex_status [2] 9); Call (Some [3])] nd1 = Some nd2 /\
  fst <$> holder nd2 = Some [1] /\ waiting nd2 = [Some [2]; Some [3]].
Proof.
  destruct (@run ex_ops ex_run (initial ex_g)) as [nd1|] eqn:Hr1; [|vm_compute in Hr1; discriminate Hr1].
  destruct (@run ex_ops [Status (ex_status [2] 9); Call (Some [3])] nd1) as [nd2|] eqn:Hr2.
  2: { vm_compute in Hr1. injection Hr1 as <-. vm_compute in Hr2. discriminate Hr2. }
  assert (holder nd1 = Some ([1], Announcing) /\ waiting nd2 = [Some [2]; Some [3]]) as [Ho Hw]
    by (vm_compute in Hr1; injection Hr1 as <-; vm_compute in Hr2; injection Hr2 as <-; split; reflexivity).
  exists nd1, nd2. split; [reflexivity|]. split; [exact Hr2|]. split; [|exact Hw].
  assert (ReadNewPeer ∉ ex_run ++ [Status (ex_status [2] 9); Call (Some [3])]) as Hn.
  { intros Hin%list_elem_of_In. cbn in Hin. by repeat destruct Hin as [Hin|Hin]. }
  destruct (@handshake_blocks ex_ops handshake_ex_laws ex_g ex_run [Status (ex_status [2] 9); Call (Some [3])] nd1 nd2 Hr1 Hr2 Hn)
    as (_ & _ & Hb).
  apply (Hb [1] Announcing Ho). right. reflexivity.
Defined.
