(* ===== verification/TxWorker.v ===== *)
(** * What the block keeper receives

    Models the rest of [netsync/block_keeper.go]: the two buffered channels into which [Receive]
    puts blocks and transactions, and [txsProcessWorker], which gives every transaction to the
    chain and bans a peer whose transactions are bad.  A send to a full channel blocks; it is
    [None].  The worker is modelled by its steps, between which the other goroutines register
    and unregister peers, give points to the same scores and change the chain.  The validation of
    transactions, the sets of what peers know and the methods of the peer set that the
    repository does not contain are parameters. *)
From Stdlib Require Import SpecFloat.
From S2P Require Import Prelude Errors GoLib Hash BanScore Protocol BlockKeeper.

(** The chain's part, and the peer set's memory of what peers know. *)
Class TxEnv `{ChainEnv} := {
  Tx : Type;
  tx_ID : Tx -> Hash;
  (** Whether the transaction is an orphan, and the error, which go together. *)
  ValidateTx : chain -> Tx -> (bool * option error) * chain;
  known : Type;
  MarkTransaction : gostring -> Hash -> known -> known;
  (** [AddPeer] of the peer set, with the new object, and [RemovePeer]. *)
  set_AddPeer : gostring -> nat -> gmap gostring nat -> gmap gostring nat;
  set_RemovePeer : gostring -> gmap gostring nat -> gmap gostring nat;
}.

(** Adding registers the new object, or leaves the key as it was; removing unregisters the key;
    other keys stay as they are. *)
Class TxLaws `{TxEnv} := {
  set_AddPeer_law k q m : (set_AddPeer k q m !! k = Some q \/ set_AddPeer k q m !! k = m !! k) /\
    forall j, j <> k -> set_AddPeer k q m !! j = m !! j;
  set_RemovePeer_law k m : set_RemovePeer k m !! k = None /\ forall j, j <> k -> set_RemovePeer k m !! j = m !! j;
}.

Section TxWorker.
Context `{FE : FloatEnv, CE : ChainEnv, TE : !TxEnv}.

Definition maxBlocksPending : Z := 1024.
Definition maxtxsPending : Z := 32768.

(** *** The channels *)
Record txsNotify := mkNotify { tx : Tx; peerID : gostring }.

Record blockKeeper := mkKeeper {
  pendingProcessCh : list (Block * gostring);
  txsProcessCh : list txsNotify;
}.

Definition newBlockKeeper : blockKeeper := mkKeeper [] [].

Definition AddBlock (block : Block) (peerID : gostring) (bk : blockKeeper) : option blockKeeper :=
  if #(pendingProcessCh bk) <? maxBlocksPending
  then Some (mkKeeper (pendingProcessCh bk ++ [(block, peerID)]) (txsProcessCh bk))
  else None.

Definition AddTx (tx : Tx) (peerID : gostring) (bk : blockKeeper) : option blockKeeper :=
  if #(txsProcessCh bk) <? maxtxsPending
  then Some (mkKeeper (pendingProcessCh bk) (txsProcessCh bk ++ [mkNotify tx peerID]))
  else None.

(** *** The worker *)
(** Where the worker is: waiting for a transaction; with one before [MarkTransaction], before
    [ValidateTx], before it looks the sender up; with the sender's object before [addBanScore],
    before [AddBannedPeer] and before [StopPeerGracefully]. *)
Inductive place :=
| Waiting
| Marking (txsResponse : txsNotify)
| Validating (txsResponse : txsNotify)
| Looking (txsResponse : txsNotify)
| Scoring (bkPeer : nat)
| Banning (bkPeer : nat)
| Stopping (bkPeer : nat).

(** What has happened, for the theorem: a transaction was marked; was given to the chain, with
    what that has answered; the sender of a bad one was looked up; the object of a peer was given
    points, by the worker or by another goroutine. *)
Inductive entry :=
| Marked (peerID : gostring) (txHash : Hash)
| Given (txsResponse : txsNotify) (answer : bool * option error)
| Found (txsResponse : txsNotify) (bkPeer : option nat)
| Points (worker : bool) (bkPeer : nat) (points : Z).

(** The objects of the peers are numbered as they are made; the peer set leads from keys to them. *)
Record tx_world := mkTxWorld {
  x_chain : chain; x_known : known; x_heap : list peer; x_peers : gmap gostring nat;
  x_keeper : blockKeeper; x_at : place; x_acts : list action; x_log : list entry
}.

Definition goto (p : place) (w : tx_world) : tx_world :=
  mkTxWorld (x_chain w) (x_known w) (x_heap w) (x_peers w) (x_keeper w) p (x_acts w) (x_log w).
Definition act (a : action) (w : tx_world) : tx_world :=
  mkTxWorld (x_chain w) (x_known w) (x_heap w) (x_peers w) (x_keeper w) (x_at w) (x_acts w ++ [a]) (x_log w).
Definition note (e : entry) (w : tx_world) : tx_world :=
  mkTxWorld (x_chain w) (x_known w) (x_heap w) (x_peers w) (x_keeper w) (x_at w) (x_acts w) (x_log w ++ [e]).
Definition set_chain (c : chain) (w : tx_world) : tx_world :=
  mkTxWorld c (x_known w) (x_heap w) (x_peers w) (x_keeper w) (x_at w) (x_acts w) (x_log w).
Definition set_known (kn : known) (w : tx_world) : tx_world :=
  mkTxWorld (x_chain w) kn (x_heap w) (x_peers w) (x_keeper w) (x_at w) (x_acts w) (x_log w).
Definition set_heap (h : list peer) (w : tx_world) : tx_world :=
  mkTxWorld (x_chain w) (x_known w) h (x_peers w) (x_keeper w) (x_at w) (x_acts w) (x_log w).
Definition set_peers (m : gmap gostring nat) (w : tx_world) : tx_world :=
  mkTxWorld (x_chain w) (x_known w) (x_heap w) m (x_keeper w) (x_at w) (x_acts w) (x_log w).
Definition set_keeper (bk : blockKeeper) (w : tx_world) : tx_world :=
  mkTxWorld (x_chain w) (x_known w) (x_heap w) (x_peers w) bk (x_at w) (x_acts w) (x_log w).

Definition set_score (q : nat) (p : peer) (s : DynamicBanScore) (w : tx_world) : tx_world :=
  set_heap (<[q := mkPeer (id p) (height p) (hash p) s (swPeer p)]> (x_heap w)) w.

(** [addBanScore] of an object, and what it answers. *)
Definition punish (who : bool) (now : Z) (q : nat) (points : Z) (w : tx_world) : res stop (bool * tx_world) :=
  match x_heap w !! q with
  | None => Err Panics
  | Some bkPeer =>
      '(ban, s) ← addBanScore Init now points 0 (banScore bkPeer);
      Ok (ban, note (Points who q points) (set_score q bkPeer s w))
  end.

(** [getPeer] *)
Definition getPeer_at (q : nat) (w : tx_world) : res stop gostring :=
  match x_heap w !! q with Some bkPeer => Ok (getPeer bkPeer) | None => Err Panics end.

(** The next step of the worker.  While the channel is empty it waits. *)
Definition txsProcessWorker (now : Z) (w : tx_world) : res stop tx_world :=
  match x_at w with
  | Waiting =>
      match txsProcessCh (x_keeper w) with
      | [] => Ok w
      | txsResponse :: l => Ok (goto (Marking txsResponse) (set_keeper (mkKeeper (pendingProcessCh (x_keeper w)) l) w))
      end
  | Marking n =>
      Ok (goto (Validating n) (note (Marked (peerID n) (tx_ID (tx n)))
        (set_known (MarkTransaction (peerID n) (tx_ID (tx n)) (x_known w)) w)))
  | Validating n =>
      let '(isOrphan, err, c) := ValidateTx (x_chain w) (tx n) in
      Ok (goto (if bool_decide (err <> None) && negb isOrphan then Looking n else Waiting)
            (note (Given n (isOrphan, err)) (set_chain c w)))
  | Looking n =>
      Ok (goto (match x_peers w !! peerID n with Some bkPeer => Scoring bkPeer | None => Waiting end)
            (note (Found n (x_peers w !! peerID n)) w))
  | Scoring q =>
      '(ban, w) ← punish true now q 10 w;
      Ok (goto (if (ban : bool) then Banning q else Waiting) w)
  | Banning q => swPeer ← getPeer_at q w; Ok (goto (Stopping q) (act (AddBannedPeer swPeer) w))
  | Stopping q =>
      swPeer ← getPeer_at q w;
      Ok (goto Waiting (set_peers (set_RemovePeer swPeer (x_peers w)) (act (StopPeerGracefully swPeer) w)))
  end.

(** What may happen: the worker's step; the receive routine of a peer puts a transaction into
    the channel; the other goroutines register a new peer, unregister one, set the status of
    one and give twenty points to one for a bad block; they change the chain and what is known. *)
Inductive tx_event :=
| Work (now : Z)
| Received (tx : Tx) (peerID : gostring)
| Register (k : gostring) (height : Z) (hash : Hash)
| Unregister (k : gostring)
| Status (q : nat) (height : Z) (hash : Hash)
| BadBlock (now : Z) (q : nat)
| ChainMoves (c : chain)
| OthersMark (kn : known).

(** [None]: it cannot happen, or a goroutine panics or blocks. *)
Definition tx_step (e : tx_event) (w : tx_world) : option tx_world :=
  match e with
  | Work now => match txsProcessWorker now w with Ok w => Some w | Err _ => None end
  | Received t k => bk ← AddTx t k (x_keeper w); Some (set_keeper bk w)
  | Register k h hs =>
      Some (set_peers (set_AddPeer k (length (x_heap w)) (x_peers w))
              (set_heap (x_heap w ++ [mkPeer k h hs zeroBanScore k]) w))
  | Unregister k => Some (set_peers (set_RemovePeer k (x_peers w)) w)
  | Status q h hs =>
      p ← x_heap w !! q; Some (set_heap (<[q := mkPeer (id p) h hs (banScore p) (swPeer p)]> (x_heap w)) w)
  | BadBlock now q => match punish false now q 20 w with Ok (_, w) => Some w | Err _ => None end
  | ChainMoves c => Some (set_chain c w)
  | OthersMark kn => Some (set_known kn w)
  end.

Definition tx_run (es : list tx_event) (w : tx_world) : option tx_world := foldl (fun w e => w ← w; tx_step e w) (Some w) es.

Definition tx_start (c : chain) (kn : known) : tx_world := mkTxWorld c kn [] ∅ newBlockKeeper Waiting [] [].

(** ** What the log says *)
Definition received (es : list tx_event) : list txsNotify := omap (fun e => match e with Received t k => Some (mkNotify t k) | _ => None end) es.
Definition marks (l : list entry) : list (gostring * Hash) := omap (fun e => match e with Marked k h => Some (k, h) | _ => None end) l.
Definition given (l : list entry) : list (txsNotify * (bool * option error)) := omap (fun e => match e with Given n r => Some (n, r) | _ => None end) l.
Definition found (l : list entry) : list (txsNotify * option nat) := omap (fun e => match e with Found n q => Some (n, q) | _ => None end) l.
Definition points (l : list entry) : list (bool * nat * Z) := omap (fun e => match e with Points b q p => Some (b, q, p) | _ => None end) l.

(** The transactions that are bad: with an error, and no orphans. *)
Definition bad (x : txsNotify * (bool * option error)) : bool := match x.2 with (false, Some _) => true | _ => false end.

(** The points of an object. *)
Definition total (q : nat) (l : list (bool * nat * Z)) : Z := foldr Z.add 0 (map snd (filter (fun x => x.1.2 = q) l)).

(** The objects that the worker's points take above the threshold, [seen] being the points
    before. *)
Fixpoint over (seen l : list (bool * nat * Z)) : list nat :=
  match l with
  | [] => []
  | (who, q, p) :: l =>
      (if (who : bool) && (defaultBanThreshold <? total q seen + p) then [q] else []) ++ over (seen ++ [(who, q, p)]) l
  end.

(** The worker's own points. *)
Definition own (l : list (bool * nat * Z)) : list nat := omap (fun x => if x.1.1 : bool then Some x.1.2 else None) l.

(** What the worker still has to do. *)
Definition to_give (p : place) : list txsNotify := match p with Marking n | Validating n => [n] | _ => [] end.
Definition to_mark (p : place) : list txsNotify := match p with Marking n => [n] | _ => [] end.
Definition to_find (p : place) : list txsNotify := match p with Looking n => [n] | _ => [] end.
Definition to_score (p : place) : list nat := match p with Scoring q => [q] | _ => [] end.
Definition to_ban (p : place) : list nat := match p with Banning q | Stopping q => [q] | _ => [] end.

Definition key_of (w : tx_world) (q : nat) : gostring := match x_heap w !! q with Some p => swPeer p | None => [] end.

(** The worker's actions for the objects [l], of which those of the last may be to come. *)
Definition ban_of (k : gostring) : list action := [AddBannedPeer k; StopPeerGracefully k].
Definition still (w : tx_world) : list action :=
  match x_at w with
  | Banning q => ban_of (key_of w q)
  | Stopping q => [StopPeerGracefully (key_of w q)]
  | _ => []
  end.
End TxWorker.

Section properties.
Context `{FE : FloatEnv, CE : ChainEnv, TE : !TxEnv, TL : !TxLaws}.

(** *** The log *)
Lemma zlen_snoc {A} (l : list A) x : #(l ++ [x]) = #l + 1.
Proof. rewrite zlen_app. done. Qed.

Lemma total_snoc q l who j p : total q (l ++ [(who, j, p)]) = total q l + (if decide (j = q) then p else 0).
Proof.
  unfold total. rewrite list.filter_app, map_app. cbn. destruct (decide (j = q)); cbn; [|by rewrite app_nil_r, Z.add_0_r].
  induction (map snd (filter (fun x => x.1.2 = q) l)) as [|x xs IH]; cbn; lia.
Qed.

Lemma over_app l : forall seen l', over seen (l ++ l') = over seen l ++ over (seen ++ l) l'.
Proof.
  induction l as [|[[who q] p] l IH]; intros seen l'; cbn [app over]; [by rewrite app_nil_r|].
  by rewrite IH, <- !app_assoc.
Qed.

Lemma over_snoc l who q p :
  over [] (l ++ [(who, q, p)]) = over [] l ++ (if (who : bool) && (defaultBanThreshold <? total q l + p) then [q] else []).
Proof. rewrite over_app. cbn. by rewrite app_nil_r. Qed.

Lemma over_of l : forall seen q, q ∈ over seen l -> exists who p, (who, q, p) ∈ l.
Proof.
  induction l as [|[[who j] p] l IH]; intros seen q; cbn [over]; [by intros ?%elem_of_nil|].
  rewrite elem_of_app. intros [Hq|Hq].
  - destruct (who && _); [|by apply elem_of_nil in Hq]. apply list.list_elem_of_singleton in Hq as ->. exists who, p. by left.
  - destruct (IH _ _ Hq) as (w' & p' & ?). exists w', p'. by right.
Qed.

(** The points of the worker alone: those from the eleventh on take an object above the
    threshold. *)
Definition alone (q : nat) (l : list (bool * nat * Z)) : Prop := forall who p, (who, q, p) ∈ l -> who = true /\ p = 10.

Definition times (q : nat) (l : list nat) : Z := #(filter (fun j => j = q) l).

Lemma times_app q l l' : times q (l ++ l') = times q l + times q l'.
Proof. unfold times. by rewrite list.filter_app, zlen_app. Qed.
Lemma times_one q j : times q [j] = if decide (j = q) then 1 else 0.
Proof. unfold times. cbn. by destruct (decide (j = q)). Qed.
Lemma times_NoDup q l : NoDup l -> times q l = if decide (q ∈ l) then 1 else 0.
Proof.
  induction 1 as [|j l Hj Hn IH]; [by rewrite decide_False by apply not_elem_of_nil|].
  change (j :: l) with ([j] ++ l). rewrite times_app, times_one, IH. destruct (decide (j = q)) as [->|Hne].
  - rewrite (decide_False (P := q ∈ l)), decide_True by (done || by left). done.
  - destruct (decide (q ∈ l)) as [Hq|Hq]; [rewrite decide_True by (by right); done|].
    rewrite decide_False; [done|]. intros [?|?]%elem_of_cons; by subst.
Qed.

Lemma alone_spec q l : alone q l -> total q l = 10 * times q (own l) /\ times q (over [] l) = Z.max 0 (times q (own l) - 10).
Proof.
  induction l as [|[[who j] p] l IH] using rev_ind; intros Ha; [done|].
  destruct IH as [Ht Ho]; [intros who' p' Hin; apply (Ha who' p'), elem_of_app; by left|].
  rewrite total_snoc, over_snoc, times_app, Ht, Ho. unfold own. rewrite list.omap_app, times_app. fold (own l). cbn [omap list_omap fst snd].
  assert (0 <= times q (own l)) by apply zlen_nonneg. unfold defaultBanThreshold.
  destruct (decide (j = q)) as [->|Hne].
  - destruct (Ha who p) as [-> ->]; [apply elem_of_app; right; by left|]. rewrite Ht. cbn [andb]. rewrite times_one, decide_True by done.
    destruct (Z.ltb_spec 100 (10 * times q (own l) + 10)); [rewrite times_one, decide_True by done|change (times q []) with 0]; lia.
  - assert (forall b : bool, times q (if b then [j] else []) = 0) as H0 by (intros []; [by rewrite times_one, decide_False|done]).
    rewrite H0. destruct who; [rewrite times_one, decide_False by done|change (times q []) with 0]; lia.
Qed.

(** *** The transactions *)
Definition key_id (n : txsNotify) : gostring * Hash := (peerID n, tx_ID (tx n)).

Record Given_all (es : list tx_event) (w : tx_world) : Prop := {
  g_given : received es = map fst (given (x_log w)) ++ to_give (x_at w) ++ txsProcessCh (x_keeper w);
  g_marked : map key_id (received es) = marks (x_log w) ++ map key_id (to_mark (x_at w)) ++ map key_id (txsProcessCh (x_keeper w));
  g_found : map fst (filter (fun x => bad x = true) (given (x_log w))) = map fst (found (x_log w)) ++ to_find (x_at w);
  g_own : omap snd (found (x_log w)) = own (points (x_log w)) ++ to_score (x_at w);
}.

Lemma marks_snoc l e : marks (l ++ [e]) = marks l ++ match e with Marked k h => [(k, h)] | _ => [] end.
Proof. unfold marks. rewrite list.omap_app. by destruct e. Qed.
Lemma given_snoc l e : given (l ++ [e]) = given l ++ match e with Given n b => [(n, b)] | _ => [] end.
Proof. unfold given. rewrite list.omap_app. by destruct e. Qed.
Lemma found_snoc l e : found (l ++ [e]) = found l ++ match e with Found n q => [(n, q)] | _ => [] end.
Proof. unfold found. rewrite list.omap_app. by destruct e. Qed.
Lemma points_snoc l e : points (l ++ [e]) = points l ++ match e with Points b q p => [(b, q, p)] | _ => [] end.
Proof. unfold points. rewrite list.omap_app. by destruct e. Qed.
Lemma own_snoc l b q p : own (l ++ [(b, q, p)]) = own l ++ (if b : bool then [q] else []).
Proof. unfold own. rewrite list.omap_app. by destruct b. Qed.

Local Ltac snocs :=
  cbn [x_log x_at x_keeper x_heap x_peers x_acts txsProcessCh note goto act set_known set_chain set_heap set_peers set_keeper set_score
       to_give to_mark to_find to_score];
  rewrite ?marks_snoc, ?given_snoc, ?found_snoc, ?points_snoc, ?own_snoc, ?list.omap_app, ?list.filter_app, ?map_app;
  cbn [omap list_omap map app fst snd filter list_filter]; rewrite ?app_nil_r, <- ?app_assoc.

Lemma punish_world who now q p w r w' : punish who now q p w = Ok (r, w') ->
  exists pe s, x_heap w !! q = Some pe /\ w' = note (Points who q p) (set_score q pe s w).
Proof.
  unfold punish. destruct (x_heap w !! q) as [pe|]; [|done]. destruct (addBanScore _ _ _ _ _) as [[b s]|]; [|done].
  cbn. intros [= <- <-]. by exists pe, s.
Qed.

Lemma punish_given es who now q p w w' r : Given_all es w -> (who = true -> x_at w = Scoring q) -> punish who now q p w = Ok (r, w') ->
  Given_all es (if who then goto (if r : bool then Banning q else Waiting) w' else w').
Proof.
  intros [Hg Hm Hf Ho] Hat Hp. destruct (punish_world _ _ _ _ _ _ _ Hp) as (pe & s & _ & ->).
  destruct who; [rewrite Hat in * by done; destruct r|]; split; snocs; rewrite ?app_nil_r in *; done.
Qed.

Lemma work_given es now w w' : Given_all es w -> txsProcessWorker now w = Ok w' -> Given_all es w'.
Proof.
  intros Hall Hs. pose proof Hall as [Hg Hm Hf Ho]. unfold txsProcessWorker in Hs.
  destruct (x_at w) as [|n|n|n|q|q|q] eqn:Eat; cbn [to_give to_mark to_find to_score app] in *; rewrite ?app_nil_r in *.
  - destruct (txsProcessCh _) as [|n l] eqn:El; simplify_eq; [done|]. by split; cbn; rewrite ?app_nil_r.
  - injection Hs as <-. split; snocs; done.
  - destruct (ValidateTx _ _) as [[o er] c]. injection Hs as <-.
    destruct o, er as [er|]; cbn [bool_decide andb negb]; split; snocs; rewrite ?app_nil_r in *; try done; by rewrite ?Hf, ?Hg.
  - injection Hs as <-. destruct (x_peers w !! peerID n); split; snocs; rewrite ?app_nil_r in *; try done; by rewrite ?Ho.
  - destruct (punish true now q 10 w) as [[b w1]|] eqn:Ep; [|done]. cbn in Hs. injection Hs as <-.
    by apply (punish_given es true now q 10 w w1 b Hall).
  - destruct (getPeer_at q w); [|done]. cbn in Hs. injection Hs as <-. split; cbn; by rewrite ?app_nil_r.
  - destruct (getPeer_at q w); [|done]. cbn in Hs. injection Hs as <-. split; cbn; by rewrite ?app_nil_r.
Qed.

Lemma received_snoc es e : received (es ++ [e]) = received es ++ match e with Received t k => [mkNotify t k] | _ => [] end.
Proof. unfold received. rewrite list.omap_app. by destruct e. Qed.

Lemma tx_step_given es e w w' : Given_all es w -> tx_step e w = Some w' -> Given_all (es ++ [e]) w'.
Proof.
  intros Hall Hs. pose proof (received_snoc es e) as Hr. pose proof Hall as [Hg Hm Hf Ho].
  destruct e as [now|t k|k h hs|k|q h hs|now q|c|kn]; cbn [tx_step] in Hs; try rewrite app_nil_r in Hr;
    try (simplify_eq; by split; rewrite ?Hr).
  - destruct (txsProcessWorker now w) as [w1|] eqn:E; simplify_eq.
    destruct (work_given _ _ _ _ Hall E). by split; rewrite ?Hr.
  - unfold AddTx in Hs. destruct (_ <? _); [|done]. cbn in Hs. injection Hs as <-.
    split; snocs; try done; rewrite Hr, ?map_app, ?Hm; [rewrite Hg|]; by rewrite <- !app_assoc.
  - destruct (x_heap w !! q); [|done]. cbn in Hs. injection Hs as <-. by split; rewrite ?Hr.
  - destruct (punish false now q 20 w) as [[b w1]|] eqn:E; simplify_eq.
    destruct (punish_given es false now q 20 w _ b Hall ltac:(done) E). by split; rewrite ?Hr.
Qed.
(** *** The peers *)
Lemma total_range q l : (forall who j p, (who, j, p) ∈ l -> 0 < p <= 20) -> 0 <= total q l <= 20 * #l.
Proof.
  induction l as [|[[who j] p] l IH] using rev_ind; intros Hl; [done|].
  destruct IH; [intros who' j' p' Hin; apply (Hl who' j' p'), elem_of_app; by left|].
  destruct (Hl who j p); [apply elem_of_app; right; by left|].
  rewrite total_snoc, zlen_snoc. destruct (decide (j = q)); lia.
Qed.

Lemma total_none q l : (forall who p, (who, q, p) ∉ l) -> total q l = 0.
Proof.
  induction l as [|[[who j] p] l IH] using rev_ind; intros Hl; [done|]. rewrite total_snoc, IH.
  - rewrite decide_False; [done|]. intros ->. apply (Hl who p), elem_of_app. right. by left.
  - intros who' p' Hin. apply (Hl who' p'), elem_of_app. by left.
Qed.

Definition at_ok (w : tx_world) : Prop :=
  match x_at w with
  | Scoring q => is_Some (x_heap w !! q) /\ q ∉ over [] (points (x_log w))
  | Banning q | Stopping q => is_Some (x_heap w !! q) /\ q ∈ over [] (points (x_log w))
  | _ => True
  end.

Definition score_ok (w : tx_world) : Prop := forall q p, x_heap w !! q = Some p ->
  mtx (banScore p) = false /\ transient (banScore p) = S754_zero false /\ persistent (banScore p) = total q (points (x_log w)).

Record Objects (es : list tx_event) (w : tx_world) : Prop := {
  o_score : score_ok w;
  o_points : forall who q p, (who, q, p) ∈ points (x_log w) -> is_Some (x_heap w !! q) /\ 0 < p <= 20 /\ (who = true -> p = 10);
  o_few : #(points (x_log w)) <= #es;
  o_found : forall n q, (n, Some q) ∈ found (x_log w) -> is_Some (x_heap w !! q) /\ key_of w q = peerID n;
  o_reg : forall k q, x_peers w !! k = Some q ->
    is_Some (x_heap w !! q) /\ key_of w q = k /\ (q ∈ over [] (points (x_log w)) -> to_ban (x_at w) = [q]);
  o_at : at_ok w;
  o_acts : x_acts w ++ still w = mjoin (map (fun q => ban_of (key_of w q)) (over [] (points (x_log w))));
  o_nodup : NoDup (over [] (points (x_log w)));
}.

Lemma over_alloc es w q : Objects es w -> q ∈ over [] (points (x_log w)) -> is_Some (x_heap w !! q).
Proof. intros Ho (who & p & Hin)%over_of. by apply (o_points _ _ Ho) in Hin as [? _]. Qed.

(** The objects of a world after another, whose numbers stay. *)
Definition extends (w w' : tx_world) : Prop :=
  forall q, is_Some (x_heap w !! q) -> is_Some (x_heap w' !! q) /\ key_of w' q = key_of w q.

Lemma bans_extend w w' l : extends w w' -> (forall q, q ∈ l -> is_Some (x_heap w !! q)) ->
  map (fun q => ban_of (key_of w' q)) l = map (fun q => ban_of (key_of w q)) l.
Proof.
  intros Hx Hl. apply map_ext_in. intros q Hq%list_elem_of_In. f_equal. by apply Hx, Hl.
Qed.

(** A step that gives no points. *)
Lemma Objects_same es e w w' : Objects es w -> points (x_log w') = points (x_log w) -> extends w w' -> score_ok w' ->
  (forall n q, (n, Some q) ∈ found (x_log w') -> (n, Some q) ∈ found (x_log w) \/ (is_Some (x_heap w' !! q) /\ key_of w' q = peerID n)) ->
  (forall k q, x_peers w' !! k = Some q ->
     (x_peers w !! k = Some q /\ (to_ban (x_at w) = [q] -> to_ban (x_at w') = [q]))
     \/ (is_Some (x_heap w' !! q) /\ key_of w' q = k /\ x_heap w !! q = None)) ->
  at_ok w' -> x_acts w' ++ still w' = x_acts w ++ still w -> Objects (es ++ [e]) w'.
Proof.
  intros Ho Hp Hx Hsc Hf Hr Hat Hac. pose proof Ho as [_ Hpt Hfew Hfo Hre _ Hacts Hnd]. split; try done; rewrite ?Hp.
  - intros who q p (Hq & ?)%Hpt. split; [by apply Hx|done].
  - rewrite zlen_snoc. lia.
  - intros n q [Hin|?]%Hf; [|done]. apply Hfo in Hin as [Hq <-]. by apply Hx.
  - intros k q [[Hk Hb]|(Hq & <- & Hnone)]%Hr.
    + destruct (Hre _ _ Hk) as (Hq & <- & Hov). destruct (Hx q Hq) as [Hq' ->]. split_and!; [done|done|]. intros Hin. by apply Hb, Hov.
    + split_and!; [done|done|]. intros Hin. apply (over_alloc _ _ _ Ho) in Hin as [? Hs]. by rewrite Hs in Hnone.
  - rewrite Hac, (bans_extend w w'); [done|done|]. intros q. by apply (over_alloc es).
  - done.
Qed.

Lemma set_score_key q pe s w : x_heap w !! q = Some pe ->
  extends w (set_score q pe s w) /\ extends (set_score q pe s w) w /\ forall j, key_of (set_score q pe s w) j = key_of w j.
Proof.
  intros Hq. assert (forall j, key_of (set_score q pe s w) j = key_of w j) as Hk.
  { intros j. unfold key_of. cbn. destruct (decide (j = q)) as [->|Hne].
    - rewrite list_lookup_insert_eq, Hq by (by eapply lookup_lt_Some). done.
    - by rewrite list_lookup_insert_ne. }
  assert (forall j, is_Some (x_heap (set_score q pe s w) !! j) <-> is_Some (x_heap w !! j)) as Hs.
  { intros j. cbn. by rewrite !lookup_lt_is_Some, length_insert. }
  split_and!; [|intros j Hj..|done]; [intros j Hj; split; [by apply Hs|done]|]. split; [by apply Hs|done].
Qed.

(** Points: by another goroutine, or by the worker, which bans when they take the object above
    the threshold. *)
Lemma punish_objects es e (who : bool) now q p w : Objects es w -> 20 * #(es ++ [e]) < 2 ^ 64 ->
  is_Some (x_heap w !! q) -> 0 < p <= 20 -> (who = true -> x_at w = Scoring q /\ p = 10) ->
  let ban := defaultBanThreshold <? total q (points (x_log w)) + p in
  exists w1, punish who now q p w = Ok (ban, w1) /\
    Objects (es ++ [e]) (if who then goto (if ban then Banning q else Waiting) w1 else w1).
Proof.
  intros Ho Hb [pe Hq] Hp Hwho ban. pose proof Ho as [Hsc Hpt Hfew Hfo Hre Hat Hacts Hnd].
  destruct (Hsc _ _ Hq) as (Hm & Ht & Hs). destruct (total_range q (points (x_log w))) as [H0 Hmax]; [by intros ??? (_ & ? & _)%Hpt|].
  rewrite zlen_snoc in Hb.
  destruct (addBanScore_persistent (banScore pe) now p Hm Ht) as (s & Hadd & Hm' & Ht' & Hs'); [lia..|].
  unfold punish. rewrite Hq, Hadd. cbn [mbind res_bind]. eexists. split; [unfold ban; rewrite Hs; reflexivity|].
  destruct (set_score_key q pe s w Hq) as (Hx & Hx' & Hk). set (w1 := note _ _).
  set (w2 := if who then _ else w1).
  assert (x_heap w2 = x_heap (set_score q pe s w) /\ points (x_log w2) = points (x_log w) ++ [(who, q, p)] /\
    found (x_log w2) = found (x_log w) /\ x_peers w2 = x_peers w /\ x_acts w2 = x_acts w) as (Eh & Ep & Ef & Er & Ea).
  { assert (forall P : tx_world -> Prop, P w1 -> (forall a, P (goto a w1)) -> P w2) as HP by (intros P H1 H2; unfold w2; by destruct who).
    apply HP; [|intros a]; cbn [goto x_heap x_log x_peers x_acts w1 note]; rewrite points_snoc, found_snoc, app_nil_r; done. }
  assert (forall j, key_of w2 j = key_of w j) as Ek by (intros j; rewrite <- Hk; unfold key_of; by rewrite Eh).
  assert (extends w w2) as Hx2 by (intros j Hj; rewrite Eh; split; [by apply Hx|by rewrite Ek]).
  assert (over [] (points (x_log w2)) = over [] (points (x_log w)) ++ (if who && ban then [q] else [])) as Eo by (by rewrite Ep, over_snoc).
  assert (who = true -> q ∉ over [] (points (x_log w))) as Hnew.
  { intros Hw. destruct (Hwho Hw) as [Hsq _]. unfold at_ok in Hat. rewrite Hsq in Hat. apply Hat. }
  split.
  - intros j pj Hj. rewrite Ep, total_snoc. rewrite Eh in Hj. cbn in Hj. destruct (decide (q = j)) as [<-|Hne].
    + rewrite list_lookup_insert_eq in Hj by (by eapply lookup_lt_Some). injection Hj as <-. cbn. by rewrite Hs', Hs.
    + rewrite list_lookup_insert_ne in Hj by done. rewrite Z.add_0_r. by apply Hsc.
  - intros who' j p'. rewrite Ep, elem_of_app. intros [Hin|Hin].
    + destruct (Hpt _ _ _ Hin) as [Hj ?]. split; [by apply Hx2|done].
    + apply list.list_elem_of_singleton in Hin as [= -> -> ->]. split; [apply Hx2; by eexists|]. split; [done|]. intros Hw. by apply Hwho.
  - rewrite Ep, !zlen_snoc. lia.
  - intros n j. rewrite Ef, Ek. intros [? ?]%Hfo. split; [by apply Hx2|done].
  - intros k j. rewrite Er, Ek, Eo. intros (Hj & Hkey & Hov)%Hre. split_and!; [by apply Hx2|done|].
    rewrite elem_of_app. unfold w2. destruct who; [|cbn; rewrite elem_of_nil; by intros [?|?]; [apply Hov|]].
    destruct (Hwho eq_refl) as [Hsq _]. rewrite Hsq in Hov. cbn [andb]. intros [Hin|Hin]; [by apply Hov in Hin|].
    destruct ban; [|by apply elem_of_nil in Hin]. by apply list.list_elem_of_singleton in Hin as ->.
  - unfold at_ok. rewrite Eo, Eh. unfold w2. destruct who.
    + cbn [x_at goto]. destruct ban; [|done]. split; [apply Hx; by eexists|]. rewrite elem_of_app. right. by left.
    + cbn [x_at w1 note]. cbn [andb]. rewrite app_nil_r. unfold at_ok in Hat. change (x_at (set_score q pe s w)) with (x_at w).
      destruct (x_at w); try done; (split; [apply Hx, Hat|apply Hat]).
  - rewrite Ea, Eo, map_app, join_app. rewrite (bans_extend w w2) by (done || intros j; by apply (over_alloc es)). rewrite <- Hacts.
    unfold still, w2. destruct who; cbn [andb].
    + destruct (Hwho eq_refl) as [Hsq _]. rewrite Hsq, app_nil_r. cbn [x_at goto]. by destruct ban.
    + rewrite app_nil_r. cbn [x_at w1 note]. change (x_at (set_score q pe s w)) with (x_at w). f_equal.
      fold w1. assert (forall j, key_of w1 j = key_of w j) as E1 by (intros j; apply Ek). by destruct (x_at w); rewrite ?E1.
  - rewrite Eo. destruct who; [|by rewrite app_nil_r]. cbn [andb]. destruct ban; [|by rewrite app_nil_r].
    apply list.NoDup_app. split_and!; [done| |apply list.NoDup_singleton]. intros j Hj ->%list.list_elem_of_singleton. by apply Hnew.
Qed.
(** A step of the worker that leaves the objects alone. *)
Lemma Objects_move es e w w' : Objects es w -> x_heap w' = x_heap w -> points (x_log w') = points (x_log w) ->
  (forall n q, (n, Some q) ∈ found (x_log w') -> (n, Some q) ∈ found (x_log w) \/ x_peers w !! peerID n = Some q) ->
  (forall k q, x_peers w' !! k = Some q -> x_peers w !! k = Some q /\ (to_ban (x_at w) = [q] -> to_ban (x_at w') = [q])) ->
  at_ok w' -> x_acts w' ++ still w' = x_acts w ++ still w -> Objects (es ++ [e]) w'.
Proof.
  intros Ho Hh Hp Hf Hr Hat Hac. assert (forall q, key_of w' q = key_of w q) as Hk by (intros q; unfold key_of; by rewrite Hh).
  apply (Objects_same es e w); try done.
  - intros q Hq. by rewrite Hh, Hk.
  - intros q p. rewrite Hh, Hp. apply (o_score _ _ Ho).
  - intros n q [Hin|Hin]%Hf; [by left|]. right. apply (o_reg _ _ Ho) in Hin as (? & ? & _). by rewrite Hh, Hk.
  - intros k q ?%Hr. by left.
Qed.

Lemma getPeer_key w q : is_Some (x_heap w !! q) -> getPeer_at q w = Ok (key_of w q).
Proof. intros [p Hq]. unfold getPeer_at, key_of. by rewrite Hq. Qed.

Local Ltac worker_moves :=
  eexists; split; [reflexivity|]; apply (Objects_move _ _ _ _ ltac:(eassumption)); unfold at_ok, still;
  cbn [x_log x_at x_keeper x_heap x_peers x_acts note goto act set_known set_chain set_peers set_keeper to_ban key_of]; rewrite ?points_snoc, ?found_snoc, ?app_nil_r; try done;
  try match goal with E : x_at _ = _ |- _ => rewrite E end; rewrite ?points_snoc, ?app_nil_r; try done; try (by intros; left).

Lemma work_objects es now w : Objects es w -> 20 * #(es ++ [Work now]) < 2 ^ 64 ->
  exists w', txsProcessWorker now w = Ok w' /\ Objects (es ++ [Work now]) w'.
Proof.
  intros Ho Hb. pose proof (o_at _ _ Ho) as Hat. unfold txsProcessWorker. unfold at_ok in Hat.
  destruct (x_at w) as [|n|n|n|q|q|q] eqn:Eat.
  - destruct (txsProcessCh (x_keeper w)); worker_moves.
  - worker_moves.
  - destruct (ValidateTx _ _) as [[o er] c]. destruct (bool_decide _ && _); worker_moves.
  - destruct (x_peers w !! peerID n) as [q|] eqn:Ek.
    + worker_moves.
      * intros n' j [Hin|[= -> ->]%list.list_elem_of_singleton]%elem_of_app; [by left|by right].
      * destruct (o_reg _ _ Ho _ _ Ek) as (Hq & _ & Hov). split; [done|]. intros Hin%Hov. by rewrite Eat in Hin.
    + worker_moves. intros n' j [Hin|Hin%list.list_elem_of_singleton]%elem_of_app; [by left|done].
  - destruct Hat as [Hq _]. destruct (punish_objects es (Work now) true now q 10 w Ho Hb Hq) as (w1 & -> & Ho1); [done..|].
    cbn [mbind res_bind]. by eexists.
  - destruct Hat as [Hq Hin]. rewrite (getPeer_key _ _ Hq). cbn [mbind res_bind]. worker_moves. by rewrite <- app_assoc.
  - destruct Hat as [Hq Hin]. rewrite (getPeer_key _ _ Hq). cbn [mbind res_bind]. worker_moves.
    intros k j Hk. destruct (set_RemovePeer_law (key_of w q) (x_peers w)) as [Hnone Hoth].
    destruct (decide (k = key_of w q)) as [->|Hne]; [by rewrite Hnone in Hk|]. rewrite Hoth in Hk by done.
    split; [done|]. intros [= <-]. destruct (o_reg _ _ Ho _ _ Hk) as (_ & Hkey & _). by destruct Hne.
Qed.

Lemma tx_step_objects es e w w' : Objects es w -> 20 * #(es ++ [e]) < 2 ^ 64 -> tx_step e w = Some w' -> Objects (es ++ [e]) w'.
Proof.
  intros Ho Hb Hs. pose proof Ho as [Hsc _ _ _ Hre Hat _ _].
  destruct e as [now|t k|k h hs|k|q h hs|now q|c|kn]; cbn [tx_step] in Hs.
  - destruct (work_objects es now w Ho Hb) as (w1 & E & Ho1). rewrite E in Hs. by injection Hs as <-.
  - destruct (AddTx t k _); [|done]. cbn in Hs. injection Hs as <-. apply (Objects_move es _ w); try done. intros n q ?. by left.
  - injection Hs as <-. set (w' := set_peers _ _).
    assert (forall q, is_Some (x_heap w !! q) -> x_heap w' !! q = x_heap w !! q) as Hold.
    { intros q ?%lookup_lt_is_Some. cbn. by rewrite lookup_app_l. }
    assert (x_heap w' !! length (x_heap w) = Some (mkPeer k h hs zeroBanScore k)) as Hnew.
    { cbn. by rewrite lookup_app_r, Nat.sub_diag by done. }
    assert (extends w w') as Hx by (intros q Hq; unfold key_of; by rewrite (Hold q Hq)).
    apply (Objects_same es _ w); try done.
    + intros q p Hq. destruct (x_heap w !! q) as [p0|] eqn:E0; [rewrite Hold, E0 in Hq by (by eexists); simplify_eq; by apply Hsc|].
      cbn in Hq. rewrite lookup_app_r in Hq by (by apply lookup_ge_None). apply list_lookup_singleton_Some in Hq as [_ <-].
      split_and!; [done|done|]. symmetry. apply total_none. intros who p' Hin. apply (o_points _ _ Ho) in Hin as ([? Hs] & _). by rewrite Hs in E0.
    + intros n q ?. by left.
    + intros j q. cbn. destruct (set_AddPeer_law k (length (x_heap w)) (x_peers w)) as [Hk Hoth].
      destruct (decide (j = k)) as [->|Hne]; [|rewrite Hoth by done; by left].
      destruct Hk as [->| ->]; [|by left]. intros [= <-]. right. unfold key_of. rewrite Hnew. split_and!; [by eexists|done|].
      by apply lookup_ge_None.
    + unfold at_ok in *. cbn [x_at x_log w' set_heap set_peers]. destruct (x_at w); try done; (split; [apply Hx, Hat|apply Hat]).
    + unfold still. cbn [x_at x_acts w' set_heap set_peers]. fold w'. destruct (x_at w) eqn:E; try done; unfold at_ok in Hat; rewrite E in Hat; by rewrite (proj2 (Hx _ (proj1 Hat))).
  - injection Hs as <-. apply (Objects_move es _ w); try done; [intros n q ?; by left|]. intros j q. cbn.
    destruct (set_RemovePeer_law k (x_peers w)) as [Hnone Hoth]. destruct (decide (j = k)) as [->|Hne]; [by rewrite Hnone|by rewrite Hoth].
  - destruct (x_heap w !! q) as [p|] eqn:Eq; [|done]. cbn in Hs. injection Hs as <-.
    set (w' := set_heap _ _). assert (forall j, x_heap w' !! j = (if decide (j = q) then Some (mkPeer (id p) h hs (banScore p) (swPeer p)) else x_heap w !! j)) as Hl.
    { intros j. cbn. case_decide as Hj; [subst j; apply list_lookup_insert_eq; by eapply lookup_lt_Some|by rewrite list_lookup_insert_ne]. }
    assert (extends w w') as Hx.
    { intros j Hj. unfold key_of. rewrite Hl. case_decide as Hjq; [subst j; rewrite Eq; by split; [eexists|]|done]. }
    apply (Objects_same es _ w); try done.
    + intros j pj. rewrite Hl. case_decide as Hj; [|by apply Hsc]. intros [= <-]. rewrite Hj. apply (Hsc _ _ Eq).
    + intros n j ?. by left.
    + intros k j ?. by left.
    + unfold at_ok in *. cbn [x_at x_log w' set_heap]. destruct (x_at w); try done; (split; [apply Hx, Hat|apply Hat]).
    + unfold still. cbn [x_at x_acts w' set_heap]. fold w'. destruct (x_at w) eqn:E; try done; unfold at_ok in Hat; rewrite E in Hat; by rewrite (proj2 (Hx _ (proj1 Hat))).
  - destruct (punish false now q 20 w) as [[b w1]|] eqn:E; [|done]. injection Hs as <-.
    assert (is_Some (x_heap w !! q)) as Hq by (destruct (punish_world _ _ _ _ _ _ _ E) as (pe & ? & ? & _); by eexists).
    destruct (punish_objects es (BadBlock now q) false now q 20 w Ho Hb Hq) as (w2 & E2 & Ho2); [done..|].
    rewrite E in E2. injection E2 as -> ->. done.
  - injection Hs as <-. apply (Objects_move es _ w); try done. intros n q ?. by left.
  - injection Hs as <-. apply (Objects_move es _ w); try done. intros n q ?. by left.
Qed.
(** *** The worker's whole life *)
Lemma tx_run_snoc es e w : tx_run (es ++ [e]) w = w' ← tx_run es w; tx_step e w'.
Proof. unfold tx_run. by rewrite foldl_app. Qed.

Lemma tx_run_invariants c kn es : forall w, tx_run es (tx_start c kn) = Some w -> 20 * #es < 2 ^ 64 -> Given_all es w /\ Objects es w.
Proof.
  induction es as [|e es IH] using rev_ind; intros w Hr Hb.
  { injection Hr as <-. split; [done|]. split; try done; try (by intros ? ? ? ?%elem_of_nil).
    - by intros n q ?%elem_of_nil.
    - constructor. }
  rewrite tx_run_snoc in Hr. destruct (tx_run es _) as [w0|] eqn:E; [|done].
  destruct (IH w0 eq_refl) as [Hg Ho]; [rewrite zlen_snoc in Hb; lia|].
  split; [by eapply tx_step_given|by eapply tx_step_objects].
Qed.

(** C33: Whatever the other goroutines do between the steps of the worker of received transactions
    (they register peers, unregister them and set their status, give twenty points for bad blocks to the
    score that the worker adds to, extend the chain, mark what peers know): the worker never
    panics or blocks; the transactions that the receive routines have put into the channel are,
    in that order, marked as known to their senders and given to the chain, but for those still to
    come; a transaction is bad when it fails to validate and is no orphan, for each
    bad one whose sender is registered the sender's object gets ten points, and no
    other points come from the worker; the score of an object is the sum of its
    points, whoever gave them; the worker bans and disconnects an object exactly when its own
    ten points take that sum above one hundred, once only, and no longer has it registered then;
    so an object to which nobody else gives points is banned at its eleventh bad transaction and not before. *)
Theorem tx_worker_bans (c : chain) (kn : known) (es : list tx_event) (w : tx_world) :
  tx_run es (tx_start c kn) = Some w -> 20 * #es < 2 ^ 64 ->
  let ps := points (x_log w) in
  (forall now, exists w', txsProcessWorker now w = Ok w') /\
  received es = map fst (given (x_log w)) ++ to_give (x_at w) ++ txsProcessCh (x_keeper w) /\
  map key_id (received es) = marks (x_log w) ++ map key_id (to_mark (x_at w)) ++ map key_id (txsProcessCh (x_keeper w)) /\
  map fst (filter (fun x => bad x = true) (given (x_log w))) = map fst (found (x_log w)) ++ to_find (x_at w) /\
  omap snd (found (x_log w)) = own ps ++ to_score (x_at w) /\
  (forall q p, (true, q, p) ∈ ps -> p = 10) /\
  (forall n q, (n, Some q) ∈ found (x_log w) -> key_of w q = peerID n) /\
  (forall q p, x_heap w !! q = Some p -> persistent (banScore p) = total q ps) /\
  x_acts w ++ still w = mjoin (map (fun q => ban_of (key_of w q)) (over [] ps)) /\
  NoDup (over [] ps) /\
  (forall k q, x_peers w !! k = Some q -> q ∈ over [] ps -> to_ban (x_at w) = [q]) /\
  (forall q, alone q ps -> times q (own ps) <= 11 /\ (q ∈ over [] ps <-> times q (own ps) = 11)).
Proof.
  intros Hr Hb ps. destruct (tx_run_invariants c kn es w Hr Hb) as [[Hg Hm Hf Ho] Hob].
  pose proof Hob as [Hsc _ _ Hfo Hre _ Hac Hnd]. split_and!; try done.
  - intros now. destruct (x_at w) as [|n|n|n|q|q|q] eqn:Eat; unfold txsProcessWorker; rewrite Eat.
    all: try (eexists; reflexivity).
    + destruct (txsProcessCh (x_keeper w)); by eexists.
    + destruct (ValidateTx _ _) as [[o er] c']. by eexists.
    + pose proof (o_at _ _ Hob) as Hat. unfold at_ok in Hat. rewrite Eat in Hat. destruct Hat as [[p Hp] _].
      unfold punish. rewrite Hp. destruct (Hsc _ _ Hp) as (Hmx & _).
      destruct (addBanScore_returns (banScore p) now 10 0 Hmx) as (b & s & -> & _). by eexists.
    + pose proof (o_at _ _ Hob) as Hat. unfold at_ok in Hat. rewrite Eat in Hat. rewrite (getPeer_key _ _ (proj1 Hat)). by eexists.
    + pose proof (o_at _ _ Hob) as Hat. unfold at_ok in Hat. rewrite Eat in Hat. rewrite (getPeer_key _ _ (proj1 Hat)). by eexists.
  - intros q p Hin. by apply (o_points _ _ Hob) in Hin as (_ & _ & Hp); apply Hp.
  - intros n q ?. by apply Hfo.
  - intros q p Hq. by apply Hsc.
  - intros k q Hk. by apply Hre in Hk as (_ & _ & ?).
  - change (NoDup (over [] ps)) in Hnd. intros q Ha. destruct (alone_spec q ps Ha) as [_ Ht]. rewrite (times_NoDup q _ Hnd) in Ht.
    destruct (decide (q ∈ over [] ps)); split; try (split; intros); try done; lia.
Qed.

(** Blocks wait in a channel that only a running block request empties: while none runs, the
    first 1024 of them are taken, whoever sends them and whether or not they were asked for, and
    the receive routine that brings the next one blocks. *)
Fixpoint add_blocks (l : list (Block * gostring)) (bk : blockKeeper) : option blockKeeper :=
  match l with
  | [] => Some bk
  | (b, k) :: l => bk ← AddBlock b k bk; add_blocks l bk
  end.

Lemma add_blocks_spec l : forall bk, #(pendingProcessCh bk) <= maxBlocksPending ->
  add_blocks l bk =
    if #(pendingProcessCh bk) + #l <=? maxBlocksPending
    then Some (mkKeeper (pendingProcessCh bk ++ l) (txsProcessCh bk)) else None.
Proof.
  induction l as [|[b k] l IH]; intros bk Hb; cbn [add_blocks].
  - rewrite zlen_nil, Z.add_0_r, (proj2 (Z.leb_le _ _)), app_nil_r by done. by destruct bk.
  - pose proof (zlen_nonneg l). unfold AddBlock. rewrite zlen_cons. destruct (Z.ltb_spec #(pendingProcessCh bk) maxBlocksPending).
    + cbn [mbind option_bind]. rewrite IH by (cbn [pendingProcessCh]; rewrite zlen_app, zlen_cons, zlen_nil; lia).
      cbn [pendingProcessCh txsProcessCh]. rewrite zlen_app, zlen_cons, zlen_nil, <- app_assoc. cbn [app].
      rewrite <- Z.add_assoc, (Z.add_comm 1). done.
    + cbn. by rewrite (proj2 (Z.leb_gt _ _)) by lia.
Qed.

Theorem block_queue_blocks (l : list (Block * gostring)) :
  is_Some (add_blocks l newBlockKeeper) <-> #l <= 1024.
Proof.
  rewrite add_blocks_spec by done. cbn [pendingProcessCh newBlockKeeper]. rewrite zlen_nil, Z.add_0_l.
  unfold maxBlocksPending. destruct (Z.leb_spec #l 1024); split; intros Hx; [done|by eexists|by destruct Hx|lia].
Qed.
End properties.

(** *** A concrete run *)
(** Transactions are numbers; odd ones are bad, multiples of five are orphans; the chain stays. *)
#[local] Instance ex_tx_env : @TxEnv ex_chain :=
  {| Tx := Z; tx_ID := fun t => mkHash t 0 0 0;
     ValidateTx := fun c t => ((t mod 5 =? 0, if Z.odd t then Some (EMsg []) else None), c);
     known := list (gostring * Hash); MarkTransaction := fun k h kn => (k, h) :: kn;
     set_AddPeer := fun k q m => <[k := q]> m; set_RemovePeer := fun k m => delete k m |}.

Lemma ex_tx_laws : @TxLaws ex_chain ex_tx_env.
Proof.
  split; intros.
  - split; [left; apply (lookup_insert_eq (M := gmap gostring))|]. intros j Hj. by apply (lookup_insert_ne (M := gmap gostring)).
  - split; [apply (lookup_delete_eq (M := gmap gostring))|]. intros j Hj. by apply (lookup_delete_ne (M := gmap gostring)).
Qed.

(** Two peers, of which the second gets five times twenty points from the block keeper; then
    each sends bad transactions, an orphan and good ones, of which the worker takes its steps.  The second
    is banned at its first, the first at its eleventh. *)
Definition ex_sends (k : gostring) (l : list Z) : list (@tx_event ex_chain ex_tx_env) :=
  map (fun t => @Received ex_chain ex_tx_env t k) l.
Definition ex_txs : list (@tx_event ex_chain ex_tx_env) :=
  [Register [7] 0 zeroHash; Register [8] 0 zeroHash] ++ replicate 5 (BadBlock 1 1) ++
  ex_sends [7] [1; 2; 3; 5; 7; 9; 11; 13; 17] ++ ex_sends [8] [5; 9; 11] ++ ex_sends [7] [19; 21; 23; 27; 29] ++
  replicate 120 (Work 2).

Lemma tx_worker_bans_witness : exists w,
  @tx_run half_env ex_chain ex_tx_env ex_txs (@tx_start ex_chain ex_tx_env [] []) = Some w /\
  x_acts w = @ban_of ex_chain [8] ++ @ban_of ex_chain [7] /\ x_peers w !! [7] = None /\
  NoDup (over [] (points (x_log w))).
Proof.
  assert (match @tx_run half_env ex_chain ex_tx_env ex_txs (@tx_start ex_chain ex_tx_env [] []) with
          | Some w => bool_decide (x_peers w !! [7] = None) | None => false end = true) as Hs by (vm_compute; reflexivity).
  destruct (@tx_run half_env ex_chain ex_tx_env ex_txs (@tx_start ex_chain ex_tx_env [] [])) as [w|] eqn:Hr; [|discriminate Hs].
  apply bool_decide_eq_true in Hs.
  assert (x_acts w = @ban_of ex_chain [8] ++ @ban_of ex_chain [7]) as Ha
    by (transitivity (match @tx_run half_env ex_chain ex_tx_env ex_txs (@tx_start ex_chain ex_tx_env [] []) with Some w => x_acts w | None => [] end);
        [rewrite Hr; reflexivity|vm_compute; reflexivity]).
  destruct (@tx_worker_bans half_env ex_chain ex_tx_env ex_tx_laws [] [] ex_txs w Hr) as (_ & _ & _ & _ & _ & _ & _ & _ & _ & Hn & _).
  - vm_compute. reflexivity.
  - exists w. split; [reflexivity|]. split; [exact Ha|]. split; [exact Hs|exact Hn].
Defined.
