(* ===== verification/Broadcast.v ===== *)
(** * Broadcasting mined blocks

    Models [BroadcastMinedBlock] of [netsync/peer.go].  Which peers are known to have a block is
    kept by methods that the repository does not contain; they are parameters, with what they
    promise as laws.  A send is offered to each peer in turn, and may be refused. *)
From S2P Require Import Prelude Errors GoLib Encoding Hash BanScore BlockKeeper TxTypes BlockTypes MapTx Protocol.

(** The peer set's memory of blocks: [knows kn k h] is whether the peer [k] is known to have the
    block [h]. *)
Class KnownOps := {
  known : Type;
  knows : known -> gostring -> Hash -> bool;
  PeersWithoutBlock : BlockKeeper.peerSet -> known -> Hash -> list BlockKeeper.peer;
  peer_MarkBlock : gostring -> Hash -> known -> known;
}.

(** The peers without a block are the registered ones not known to have it, each once, in some
    order; marking marks, and tells nothing of other peers. *)
Class KnownLaws `{KnownOps} := {
  PeersWithoutBlock_law ps kn h :
    PeersWithoutBlock ps kn h ≡ₚ
      filter (fun p => knows kn (BlockKeeper.id p) h = false) (map snd (map_to_list ps));
  MarkBlock_law k h kn : knows (peer_MarkBlock k h kn) k h = true;
  MarkBlock_other j k h h' kn : j <> k -> knows (peer_MarkBlock k h kn) j h' = knows kn j h';
}.

Section Broadcast.
Context `{RT : Runtime, SH : Sha3, EO : EntryOps, BC : BlockCodec BcTx, MO : !MsgOps BcTx, KO : KnownOps}.

Definition errBroadcastBlock : error := EMsg (str "Failed construction block msg").

(** The loop: [ok] tells for each peer whether it takes the message, [registered] whether it is
    still in the set when the send is over.  The peers that refuse, what is known, the sends. *)
Fixpoint broadcast_loop (ok registered : gostring -> bool) (hash : Hash) (msg : BlockchainMessage)
    (peers : list BlockKeeper.peer) (kn : known)
    : list BlockKeeper.peer * known * list (gostring * BlockchainMessage) :=
  match peers with
  | [] => ([], kn, [])
  | p :: peers =>
      if negb (ok (BlockKeeper.swPeer p)) then
        let '(abnormal, kn, sent) := broadcast_loop ok registered hash msg peers kn in
        (p :: abnormal, kn, sent)
      else
        let kn := if registered (BlockKeeper.id p) then peer_MarkBlock (BlockKeeper.id p) hash kn else kn in
        let '(abnormal, kn, sent) := broadcast_loop ok registered hash msg peers kn in
        (abnormal, kn, (BlockKeeper.swPeer p, msg) :: sent)
  end.

(** [None] is a panic of the marshalling. *)
Definition BroadcastMinedBlock (ok registered : gostring -> bool) (ps : BlockKeeper.peerSet)
    (block : Block BcTx) (kn : known)
    : option (res error (list BlockKeeper.peer) * known * list (gostring * BlockchainMessage)) :=
  msg ← NewMinedBlockMessage block;
  match msg with
  | Err _ => Some (Err errBroadcastBlock, kn, [])
  | Ok msg =>
      let hash := BlockHeader_Hash (b_BlockHeader block) in
      let peers := PeersWithoutBlock ps kn hash in
      let '(abnormal, kn, sent) := broadcast_loop ok registered hash msg peers kn in
      Some (Ok abnormal, kn, sent)
  end.
End Broadcast.

Section properties.
Context `{RT : Runtime, SL : Sha3Laws, EO : EntryOps, BC : BlockCodec BcTx, !BlockCodecLaws, MO : !MsgOps BcTx, !MsgLaws, KL : KnownLaws}.

(** The set has every peer under its identifier, which is the key of its connection. *)
Definition keyed (ps : BlockKeeper.peerSet) : Prop :=
  forall k p, ps !! k = Some p -> BlockKeeper.id p = k /\ BlockKeeper.swPeer p = k.

Lemma mark_mono (r : bool) i k hash kn : knows kn k hash = true ->
  knows (if r then peer_MarkBlock i hash kn else kn) k hash = true.
Proof.
  intros Hk. destruct r; [|done]. destruct (decide (k = i)) as [->|]; [apply MarkBlock_law|].
  by rewrite MarkBlock_other.
Qed.

Lemma broadcast_loop_spec ok registered hash msg peers : forall kn,
  exists kn', broadcast_loop ok registered hash msg peers kn
    = (filter (fun p => ok (BlockKeeper.swPeer p) = false) peers, kn',
       map (fun p => (BlockKeeper.swPeer p, msg)) (filter (fun p => ok (BlockKeeper.swPeer p) = true) peers)) /\
    (forall k, knows kn k hash = true -> knows kn' k hash = true) /\
    (forall k, (forall p, p ∈ peers -> BlockKeeper.id p = k -> ok (BlockKeeper.swPeer p) = false) ->
       knows kn' k hash = knows kn k hash) /\
    (forall p, p ∈ peers -> ok (BlockKeeper.swPeer p) = true -> registered (BlockKeeper.id p) = true ->
       knows kn' (BlockKeeper.id p) hash = true).
Proof.
  induction peers as [|p peers IH]; intros kn; cbn [broadcast_loop].
  { exists kn. split_and!; [done..|]. by intros p ?%not_elem_of_nil. }
  destruct (ok (BlockKeeper.swPeer p)) eqn:Eo; cbn [negb].
  - set (kn1 := if registered _ then _ else _). destruct (IH kn1) as (kn' & -> & Hm & Hno & Hyes). exists kn'.
    rewrite filter_cons_False by congruence. rewrite filter_cons_True by done. split_and!; [done|..].
    + intros k Hk. by apply Hm, mark_mono.
    + intros k Hk. rewrite Hno by (intros q Hq; apply Hk; by right). unfold kn1. destruct (registered _); [|done].
      apply MarkBlock_other. intros ->. rewrite (Hk p) in Eo; [done|left|done].
    + intros q [->|Hq]%elem_of_cons Ho Hr; [|by apply Hyes]. apply Hm. unfold kn1. rewrite Hr. apply MarkBlock_law.
  - destruct (IH kn) as (kn' & -> & Hm & Hno & Hyes). exists kn'.
    rewrite filter_cons_True by done. rewrite (filter_cons_False (fun p => _ = true)) by congruence.
    split_and!; [done|done|..].
    + intros k Hk. apply Hno. intros q Hq. apply Hk. by right.
    + intros q [->|Hq]%elem_of_cons Ho Hr; [congruence|by apply Hyes].
Qed.

(** Who misses a block of the registered peers. *)
Definition missing (ps : BlockKeeper.peerSet) (kn : known) (h : Hash) (k : gostring) : Prop :=
  is_Some (ps !! k) /\ knows kn k h = false.

Lemma PeersWithoutBlock_keys ps kn h : keyed ps ->
  NoDup (map BlockKeeper.swPeer (PeersWithoutBlock ps kn h)) /\
  forall p, p ∈ PeersWithoutBlock ps kn h <-> ps !! BlockKeeper.swPeer p = Some p /\ knows kn (BlockKeeper.swPeer p) h = false.
Proof.
  intros Hk.
  assert (forall p, p ∈ map snd (map_to_list ps) <-> ps !! BlockKeeper.swPeer p = Some p) as Hin.
  { intros p. rewrite list_elem_of_fmap. split.
    - intros ([k q] & -> & Hq%elem_of_map_to_list). cbn. by destruct (Hk _ _ Hq) as [_ ->].
    - intros Hp. exists (BlockKeeper.swPeer p, p). split; [done|by apply elem_of_map_to_list]. }
  split.
  - apply (NoDup_fmap_2_strong BlockKeeper.swPeer).
    + intros x y. rewrite PeersWithoutBlock_law, !list_elem_of_filter, !Hin. intros [_ Hx] [_ Hy] E.
      rewrite E in Hx. congruence.
    + rewrite PeersWithoutBlock_law. apply list.NoDup_filter.
      apply (NoDup_fmap_2_strong snd); [|apply NoDup_map_to_list].
      intros [i x] [j y] Hx%elem_of_map_to_list Hy%elem_of_map_to_list E. cbn in E. subst y.
      destruct (Hk _ _ Hx) as [_ <-], (Hk _ _ Hy) as [_ <-]. done.
  - intros p. rewrite PeersWithoutBlock_law, list_elem_of_filter, Hin. split.
    + intros [Hn Hp]. destruct (Hk _ _ Hp) as [Hi _]. by rewrite <- Hi at 2.
    + intros [Hp Hn]. destruct (Hk _ _ Hp) as [Hi _]. by rewrite Hi.
Qed.

Lemma BroadcastMinedBlock_ok ok registered ps b kn : keyed ps -> storable b ->
  exists fail kn' sent, BroadcastMinedBlock ok registered ps b kn = Some (Ok fail, kn', sent) /\
    let h := BlockHeader_Hash (b_BlockHeader b) in
    NoDup sent.*1 /\ Forall (fun x => x.2 = MineBlockMessage (block_text b)) sent /\
    (forall k, k ∈ sent.*1 <-> missing ps kn h k /\ ok k = true) /\
    (forall k, k ∈ map BlockKeeper.swPeer fail <-> missing ps kn h k /\ ok k = false) /\
    (forall k, (missing ps kn h k -> ok k = false) -> knows kn' k h = knows kn k h) /\
    (forall k, missing ps kn h k -> ok k = true -> registered k = true -> knows kn' k h = true).
Proof.
  intros Hk Hb. unfold BroadcastMinedBlock, NewMinedBlockMessage. rewrite marshal_block_ok by done.
  cbn [mbind option_bind]. set (h := BlockHeader_Hash _). set (todo := PeersWithoutBlock ps kn h).
  destruct (broadcast_loop_spec ok registered h (MineBlockMessage (block_text b)) todo kn) as (kn' & -> & _ & Hno & Hyes).
  destruct (PeersWithoutBlock_keys ps kn h Hk) as [Hnd Hin]. fold todo in Hnd, Hin.
  assert (forall k, missing ps kn h k <-> exists p, p ∈ todo /\ k = BlockKeeper.swPeer p /\ k = BlockKeeper.id p) as Hmiss.
  { intros k. split.
    - intros [[p Hp] Hkn]. destruct (Hk _ _ Hp) as [Hi <-]. exists p. by rewrite Hin.
    - intros (p & [Hp Hkn]%Hin & -> & _). split; [by exists p|done]. }
  eexists _, kn', _. split; [done|]. cbv zeta. rewrite <- list_fmap_compose. split_and!.
  - apply (sublist_NoDup _ (BlockKeeper.swPeer <$> todo)); [done|].
    change (fst ∘ _) with BlockKeeper.swPeer. apply fmap_sublist, sublist_filter.
  - apply Forall_fmap, list.Forall_forall. done.
  - intros k. rewrite list_elem_of_fmap, Hmiss. setoid_rewrite list_elem_of_filter. cbn. split.
    + intros (p & -> & Ho & Hp). split; [|done]. exists p. split; [done|]. split; [done|].
      destruct (proj1 (Hin p) Hp) as [Hq _]. by destruct (Hk _ _ Hq).
    + intros [(p & Hp & -> & _) Ho]. by exists p.
  - intros k. rewrite list_elem_of_fmap, Hmiss. setoid_rewrite list_elem_of_filter. split.
    + intros (p & -> & Ho & Hp). split; [|done]. exists p. split; [done|]. split; [done|].
      destruct (proj1 (Hin p) Hp) as [Hq _]. by destruct (Hk _ _ Hq).
    + intros [(p & Hp & -> & _) Ho]. by exists p.
  - intros k Hf. apply Hno. intros p Hp Hi. destruct (proj1 (Hin p) Hp) as [Hq _]. destruct (Hk _ _ Hq) as [Hi' _].
    assert (BlockKeeper.swPeer p = k) as -> by congruence. apply Hf, Hmiss. exists p. split_and!; congruence.
  - intros k (p & Hp & -> & Hi)%Hmiss Ho Hr. rewrite Hi. apply Hyes; congruence.
Qed.

(** C22: A mined block goes to every registered peer that is not known to have it, once, and to no
    other; who does not take it is answered to the caller.  At a peer that has a fetcher the message is
    handed to it as the block ([Enqueue], which may still discard it for its height).  The program passes
    its reactor no fetcher; what comes of a mined block then is in [malformed_messages].  Another broadcast of the same block, by any route, reaches
    only the peers that did not take it the first time. *)
Theorem broadcast_mined_block (ok ok2 registered : gostring -> bool) (ps : BlockKeeper.peerSet)
    (b : Block BcTx) (kn : known) :
  keyed ps -> storable b -> fits (MineBlockMessage (block_text b)) ->
  (forall k, is_Some (ps !! k) -> registered k = true) ->
  let h := BlockHeader_Hash (b_BlockHeader b) in
  exists fail kn' sent fail2 kn2 sent2,
    BroadcastMinedBlock ok registered ps b kn = Some (Ok fail, kn', sent) /\
    NoDup sent.*1 /\
    (forall k, k ∈ sent.*1 <-> missing ps kn h k /\ ok k = true) /\
    (forall k, k ∈ map BlockKeeper.swPeer fail <-> missing ps kn h k /\ ok k = false) /\
    (forall k m c g key, (k, m) ∈ sent -> Receive c g true key (BinaryBytes m)
       = Some [MarkBlock key h; Enqueue key b; SetPeerStatus key (Height (b_BlockHeader b)) h]) /\
    BroadcastMinedBlock ok2 registered ps b kn' = Some (Ok fail2, kn2, sent2) /\
    (forall k, k ∈ sent2.*1 <-> k ∈ map BlockKeeper.swPeer fail /\ ok2 k = true).
Proof.
  intros Hk Hb Hfit Hreg h.
  destruct (BroadcastMinedBlock_ok ok registered ps b kn Hk Hb) as (fail & kn' & sent & Hs1 & Hnd & Hmsg & Hs & Hf & Hkeep & Hmark).
  destruct (BroadcastMinedBlock_ok ok2 registered ps b kn' Hk Hb) as (fail2 & kn2 & sent2 & Hss & _ & _ & Hs2 & _).
  exists fail, kn', sent, fail2, kn2, sent2. fold h in Hs, Hf, Hkeep, Hmark, Hs2. split_and!; try done.
  - intros k m c g key Hin. rewrite list.Forall_forall in Hmsg. assert (m = _) as -> by exact (Hmsg _ Hin).
    rewrite Receive_bytes by done. cbn [handle]. by rewrite GetMineBlock_text.
  - intros k. rewrite Hs2, Hf. unfold missing. split.
    + intros [[Hp Hkn] Ho]. destruct (knows kn k h) eqn:E.
      { rewrite Hkeep in Hkn; [congruence|]. intros [_ ?]. congruence. }
      split; [|done]. split; [done|]. destruct (ok k) eqn:Eo; [|done].
      rewrite Hmark in Hkn; [done|done|done|by apply Hreg].
    + intros [[[Hp Hkn] Eo] Ho]. split; [|done]. split; [done|]. rewrite Hkeep; [done|]. done.
Qed.
End properties.

(** *** A concrete run *)
(** What is known is a list of pairs. *)
#[local] Instance ex_known : KnownOps := {|
  known := list (gostring * Hash);
  knows := fun kn k h => bool_decide ((k, h) ∈ kn);
  PeersWithoutBlock := fun ps kn h =>
    filter (fun p => bool_decide ((BlockKeeper.id p, h) ∈ kn) = false) (map snd (map_to_list ps));
  peer_MarkBlock := fun k h kn => (k, h) :: kn;
|}.

Lemma ex_known_laws : @KnownLaws ex_known.
Proof.
  split.
  - done.
  - intros k h kn. apply bool_decide_true. left.
  - intros k j h h' kn Hj. apply bool_decide_ext. split; [|by right].
    intros Hx. apply elem_of_cons in Hx as [[= -> _]|Hx]; [by destruct Hj|exact Hx].
Qed.

Definition ex_peers : BlockKeeper.peerSet :=
  list_to_map (map (fun k => ([k], BlockKeeper.mkPeer [k] 1 zeroHash zeroBanScore [k])) [1; 2; 3]).

(** The first peer has the block, the second one's queue is full. *)
Lemma broadcast_mined_block_witness : exists fail kn' sent,
  @BroadcastMinedBlock ex_ops unit plain_codec ex_known
    (fun k => negb (bool_decide (k = [2]))) (fun _ => true) ex_peers sample_block
    [([1], @BlockHeader_Hash ex_ops (b_BlockHeader sample_block))] = Some (Ok fail, kn', sent) /\
  sent.*1 = [[3]] /\ [2] ∈ map BlockKeeper.swPeer fail.
Proof.
  edestruct (@broadcast_mined_block sample_runtime pad32 pad32_laws ex_ops unit plain_codec plain_codec_laws ex_msg_ops ex_msg_laws ex_known ex_known_laws
    (fun k => negb (bool_decide (k = [2]))) (fun _ => true) (fun _ => true) ex_peers sample_block
    [([1], @BlockHeader_Hash ex_ops (b_BlockHeader sample_block))])
    as (fail & kn' & sent & _ & _ & _ & Hb & _ & _ & Hf & _).
  - intros k p Hp. unfold ex_peers in Hp. cbn in Hp.
    repeat (apply (lookup_insert_Some (M := gmap gostring)) in Hp as [[<- <-]|[_ Hp]]; [by split|]). done.
  - exact sample_storable.
  - apply ex_fits. vm_compute. reflexivity.
  - done.
  - exists fail, kn', sent. split; [exact Hb|]. split.
    + vm_compute in Hb. injection Hb as _ _ <-. reflexivity.
    + apply Hf. split; [split; [by eexists|vm_compute; reflexivity]|reflexivity].
Defined.
