(* ===== verification/Dispatch.v ===== *)
(** * From connections to reactors

    Models the rest of [p2p/peer.go] and of [p2p/switch.go]: how a connection becomes a peer, how
    a peer and its multiplexed connection start, stop and report an error, how a received
    message finds its reactor, and how the switch starts and stops.  Services are those of
    [tmlibs/common/service.go], which is vendored.  The peer's part of a connection is the
    [MConnection] of Connection.v, here with its service and the calls it makes. *)
From Stdlib Require Import SpecFloat.
From S2P Require Import Prelude Errors GoLib NetAddress NodeInfo Resolve Connection ConnDelivery Switch.

(** ** tmlibs/common/service.go *)
Record service := mkService { started : bool; stopped : bool }.

Definition NewBaseService : service := mkService false false.
Definition IsRunning (s : service) : bool := started s && negb (stopped s).

(** [err] is what [OnStart] answers.  The service and whether [OnStart] is called. *)
Definition Start (err : option error) (s : service) : service * bool :=
  if started s then (s, false)
  else if stopped s then (mkService true (stopped s), false)
  else match err with
       | Some _ => (mkService false (stopped s), true)
       | None => (mkService true (stopped s), true)
       end.

(** The service and whether [OnStop] is called. *)
Definition Stop (s : service) : service * bool :=
  if stopped s then (s, false) else (mkService (started s) true, true).

(** ** base_reactor.go *)
(** The service of a reactor and its switch, which is nil until the reactor is added to one. *)
Record BaseReactor (SW : Type) := mkBaseReactor { base_svc : service; base_Switch : option SW }.
Arguments mkBaseReactor {SW} _ _.
Arguments base_svc {SW} _.
Definition NewBaseReactor {SW} : BaseReactor SW := mkBaseReactor NewBaseService None.
Definition SetSwitch {SW} (sw : SW) (br : BaseReactor SW) : BaseReactor SW := mkBaseReactor (base_svc br) (Some sw).

(** ** peer.go: how a connection becomes a peer *)
Section conns.
Context `{Resolver, SwitchEnv}.

(** [mk] is the outcome of [MakeSecretConnection]: the key that the other side has proved.  The
    fuzzing of the default configuration is off. *)
Definition newPeerConn (authEnc : bool) (addr : gostring) (outbound : bool) (mk : res error bytes)
    : res error peerConn :=
  if authEnc then
    match mk with
    | Err err => Err (pkg_Wrap err (str "Error creating peer"))
    | Ok k => Ok (mkPeerConn outbound true k addr)
    end
  else Ok (mkPeerConn outbound false [] addr).

(** [dialed] is the outcome of dialing, the remote address of the connection.  The result, and
    whether the raw connection is closed. *)
Definition newOutboundPeerConn (authEnc : bool) (dialed : res error gostring) (mk : res error bytes)
    : res error peerConn * bool :=
  match dialed with
  | Err err => (Err (pkg_Wrap err (str "Error dial peer")), false)
  | Ok addr =>
      match newPeerConn authEnc addr true mk with
      | Err err => (Err err, true)
      | Ok pc => (Ok pc, false)
      end
  end.

Definition newInboundPeerConn (authEnc : bool) (addr : gostring) (mk : res error bytes) : res error peerConn :=
  newPeerConn authEnc addr false mk.

(** [DefaultPeerConfig]: connections are encrypted; the two timeouts are configured in seconds. *)
Record PeerConfig := mkPeerConfig { cfg_AuthEnc : bool; cfg_HandshakeTimeout : Z; cfg_DialTimeout : Z; cfg_Fuzz : bool }.
Definition DefaultPeerConfig (HandshakeTimeout DialTimeout : Z) : PeerConfig :=
  mkPeerConfig true HandshakeTimeout DialTimeout false.
End conns.

(** ** A peer and its connection *)
(** What happens at the border: starting and stopping the routines, closing the network
    connection, the calls of the error callback and of the switch for it. *)
Inductive call :=
| StartRoutines
| CloseNetConn
| OnError (e : error)
| StopPeerForError (e : error).

Record peer := mkPeerState {
  p_svc : service;
  m_svc : service;
  mconn : MConnection;
  calls : list call;
}.

Definition with_running (b : bool) (c : MConnection) : MConnection :=
  mkConn (channels c) (channelsIdx c) b (errored c) (onError c) (Connection.send c) (pong c) (written c).

Definition newPeer (descs : list ChannelDescriptor) : option peer :=
  c ← NewMConnection descs;
  Some (mkPeerState NewBaseService NewBaseService (with_running false c) []).

(** [OnStart] of the connection starts its two routines, and does not fail. *)
Definition mconn_Start (p : peer) : peer :=
  let '(s, run) := Start None (m_svc p) in
  mkPeerState (p_svc p) s (with_running (IsRunning s) (mconn p))
    (calls p ++ if run : bool then [StartRoutines] else []).

(** [OnStop] of the connection closes the network connection. *)
Definition mconn_Stop (p : peer) : peer :=
  let '(s, run) := Stop (m_svc p) in
  mkPeerState (p_svc p) s (with_running (IsRunning s) (mconn p))
    (calls p ++ if run : bool then [CloseNetConn] else []).

Definition peer_Start (p : peer) : peer :=
  let '(s, run) := Start None (p_svc p) in
  let p := mkPeerState s (m_svc p) (mconn p) (calls p) in
  if run : bool then mconn_Start p else p.

Definition peer_Stop (p : peer) : peer :=
  let '(s, run) := Stop (p_svc p) in
  let p := mkPeerState s (m_svc p) (mconn p) (calls p) in
  if run : bool then mconn_Stop p else p.

(** A step of one of the connection's routines, whose outcome is [c], has taken effect: if it
    has stopped the connection that closes the network connection, and the error callback is
    the switch's [StopPeerForError], which stops the peer. *)
Definition took_effect (c : MConnection) (p : peer) : peer :=
  let errs := drop (length (onError (mconn p))) (onError c) in
  let '(s, run) := if Connection.running (mconn p) && negb (Connection.running c) then Stop (m_svc p) else (m_svc p, false) in
  let p := mkPeerState (p_svc p) s c
             (calls p ++ (if run : bool then [CloseNetConn] else []) ++ map OnError errs) in
  match errs with
  | [] => p
  | e :: _ => peer_Stop (mkPeerState (p_svc p) (m_svc p) (mconn p) (calls p ++ [StopPeerForError e]))
  end.

(** The sends of a peer: nothing once it does not run. *)
Definition peer_Send (p : peer) (chID : Z) (msg : bytes) (timeout : bool) : option (bool * peer) :=
  if negb (IsRunning (p_svc p)) then Some (false, p)
  else
    '(ok, c) ← Connection.Send (mconn p) chID msg timeout;
    Some (ok, mkPeerState (p_svc p) (m_svc p) c (calls p)).

Definition peer_TrySend (p : peer) (chID : Z) (msg : bytes) : bool * peer :=
  if negb (IsRunning (p_svc p)) then (false, p)
  else
    let '(ok, c) := Connection.TrySend (mconn p) chID msg in
    (ok, mkPeerState (p_svc p) (m_svc p) c (calls p)).

Definition peer_CanSend (p : peer) (chID : Z) : bool :=
  if negb (IsRunning (p_svc p)) then false else Connection.CanSend (mconn p) chID.

(** ** Receiving *)
Definition errNoReactor (chID : Z) : error := EMsg (str "Unknown channel").

(** The callback [onReceive]: without a reactor for the channel it panics, which the receive
    routine turns into an error of the connection. *)
Definition deliver {R} (reactorsByCh : gmap Z R) (chID : Z) (b : bytes) (p : peer) : peer * list (R * Z * bytes) :=
  match reactorsByCh !! chID with
  | Some r => (p, [(r, chID, b)])
  | None => (took_effect (stopForError (mconn p) (errNoReactor chID)) p, [])
  end.

(** What can happen to a peer: calls, and steps of the routines of a started connection. *)
Inductive event :=
| EStart
| EStop
| ESend (chID : Z) (msg : bytes) (timeout : bool)
| ETrySend (chID : Z) (msg : bytes)
| ESendStep (k : send_case)
| ERecvStep (input : bytes).

Section steps.
Context `{Wire} {R : Type} (reactorsByCh : gmap Z R).

(** [None]: it cannot happen now.  The messages given to reactors. *)
Definition step (e : event) (p : peer) : option (peer * list (R * Z * bytes)) :=
  match e with
  | EStart => Some (peer_Start p, [])
  | EStop => Some (peer_Stop p, [])
  | ESend chID msg timeout => '(_, p) ← peer_Send p chID msg timeout; Some (p, [])
  | ETrySend chID msg => Some ((peer_TrySend p chID msg).2, [])
  | ESendStep k =>
      if started (m_svc p) then '(_, c) ← sendRoutine_step (mconn p) k; Some (took_effect c p, []) else None
  | ERecvStep input =>
      if started (m_svc p) then
        '(r, c) ← recvRoutine_step (mconn p) input;
        let p := took_effect c p in
        Some (match r with
              | Received (Some (chID, b)) _ => deliver reactorsByCh chID b p
              | _ => (p, [])
              end)
      else None
  end.

Fixpoint run (l : list event) (p : peer) : option (peer * list (R * Z * bytes)) :=
  match l with
  | [] => Some (p, [])
  | e :: l =>
      '(p, out) ← step e p;
      '(p, outs) ← run l p;
      Some (p, out ++ outs)
  end.
End steps.

(** ** What a step of a connection does to its life *)
Definition alive_as (c c' : MConnection) : Prop :=
  Connection.running c' = Connection.running c /\ errored c' = errored c /\ onError c' = onError c.

Definition stopped_as (c c' : MConnection) : Prop :=
  Connection.running c' = false /\
  if errored c =? 0 then errored c' = 1 /\ exists e, onError c' = onError c ++ [e]
  else errored c' = errored c /\ onError c' = onError c.

Definition outcome (c c' : MConnection) : Prop :=
  channelsIdx c' = channelsIdx c /\ (alive_as c c' \/ stopped_as c c').

Lemma alive_outcome c c' : channelsIdx c' = channelsIdx c -> alive_as c c' -> outcome c c'.
Proof. by split; [|left]. Qed.

Lemma alive_refl c : alive_as c c.
Proof. done. Qed.

Lemma stopForError_outcome c e : outcome c (stopForError c e).
Proof.
  unfold stopForError, outcome, stopped_as. destruct (errored c =? 0) eqn:E; (split; [done|right]);
    cbn [Connection.running errored onError]; rewrite ?E; split_and!; try done. by exists e.
Qed.

(** A step that only changes what [alive_as] does not see comes before the one that counts. *)
Lemma outcome_after c c1 c2 : channelsIdx c1 = channelsIdx c -> alive_as c c1 -> outcome c1 c2 -> outcome c c2.
Proof.
  intros Hi (Hr & He & Ho) [Hi2 Hc]. split; [congruence|]. destruct Hc as [(?&?&?)|[? Hc]]; [left; split_and!; congruence|].
  right. split; [done|]. by rewrite He, Ho in Hc.
Qed.

Lemma Send_alive c chID msg t ok c' : Connection.Send c chID msg t = Some (ok, c') ->
  channelsIdx c' = channelsIdx c /\ alive_as c c'.
Proof.
  unfold Connection.Send. destruct (negb _); [by intros [= <- <-]|].
  destruct (find_channel c chID) as [[i ch]|]; [|by intros [= <- <-]].
  destruct (sendBytes ch msg t) as [[[] ch']|]; cbn; [by intros [= <- <-]..|done].
Qed.

Lemma TrySend_alive c chID msg :
  let c' := (Connection.TrySend c chID msg).2 in channelsIdx c' = channelsIdx c /\ alive_as c c'.
Proof.
  cbv zeta. unfold Connection.TrySend. destruct (negb _); [done|].
  destruct (find_channel c chID) as [[i ch]|]; [|done]. by destruct (trySendBytes ch msg) as [[] ch'].
Qed.

Section outcomes.
Context `{Wire}.

Lemma sendMsgPacket_outcome c werr : let '(eof, c') := sendMsgPacket c werr in
  outcome c c' /\ (eof = false -> channelsIdx c' = channelsIdx c /\ alive_as c c').
Proof.
  unfold sendMsgPacket. destruct (least_channel _ _ _ _) as [l [i|]]; [|by split; [apply alive_outcome|]].
  destruct (l !! i) as [ch|]; [|by split; [apply alive_outcome|]].
  destruct (writeMsgPacketTo ch werr) as [[b|e] ch']; [by split; [apply alive_outcome|]|].
  split; [|done]. eapply outcome_after; [| |apply stopForError_outcome]; done.
Qed.

Lemma send_batch_outcome n : forall c werr, let '(_, c') := send_batch n c werr in outcome c c'.
Proof.
  induction n as [|n IH]; intros c werr; cbn [send_batch]; [by apply alive_outcome|].
  pose proof (sendMsgPacket_outcome c (werr n)) as Hs. destruct (sendMsgPacket c (werr n)) as [[] c1]; [by destruct Hs|].
  destruct Hs as [_ Hs]. destruct (Hs eq_refl) as [Hi Ha]. specialize (IH c1 werr).
  destruct (send_batch n c1 werr). by eapply outcome_after.
Qed.

(** The end of an iteration: an error counts only while the connection runs. *)
Lemma after_outcome c c1 (err : option error) : channelsIdx c1 = channelsIdx c -> alive_as c c1 ->
  outcome c (if negb (Connection.running c1) then (false, c1)
             else match err with Some e => (false, stopForError c1 e) | None => (true, c1) end).2.
Proof.
  intros Hi Ha. destruct (negb _); [by apply alive_outcome|].
  destruct err; [|by apply alive_outcome]. by eapply outcome_after, stopForError_outcome.
Qed.

Lemma after_none c : (if negb (Connection.running c) then (false, c) else (true, c)).2 = c.
Proof. by destruct (negb _). Qed.

Lemma sendRoutine_step_outcome c k b c' : sendRoutine_step c k = Some (b, c') -> outcome c c'.
Proof.
  unfold sendRoutine_step. destruct k as [| |werr|werr| |werr].
  - intros [= Hc]. apply (f_equal snd) in Hc. cbn in Hc. subst c'. by apply (after_outcome c c None).
  - intros [= Hc]. apply (f_equal snd) in Hc. cbn [snd] in Hc. subst c'. by apply (after_outcome c (with_channels _ c) None).
  - intros [= Hc]. apply (f_equal snd) in Hc. cbn [snd] in Hc. subst c'. destruct werr as [e|]; cbn [write_type];
      [by apply (after_outcome c _ (Some e))|by apply (after_outcome c _ None)].
  - destruct (pong c); [|done]. intros [= Hc]. apply (f_equal snd) in Hc. cbn [snd] in Hc. subst c'.
    destruct werr as [e|]; cbn [write_type]; [by apply (after_outcome c _ (Some e))|by apply (after_outcome c _ None)].
  - destruct (Connection.running c); [done|]. intros [= _ <-]. by apply alive_outcome.
  - destruct (Connection.send c); [|done]. pose proof (send_batch_outcome numBatchMsgPackets (with_send false c) werr) as Hs.
    unfold sendSomeMsgPackets. destruct (send_batch _ _ werr) as [eof c1].
    intros [= Hc]. apply (f_equal snd) in Hc. rewrite after_none in Hc. cbn [snd] in Hc. subst c'.
    assert (outcome c c1) as Ho by (by eapply outcome_after; [| |exact Hs]).
    destruct eof; [done|]. destruct Ho as [Hi [Ha|Hst]]; (split; [done|]); [by left|by right].
Qed.

Lemma recvRoutine_step_outcome c input r c' : recvRoutine_step c input = Some (r, c') ->
  outcome c c' /\ match r with
    | Received (Some (chID, _)) _ => is_Some (channelsIdx c !! chID)
    | _ => True
    end.
Proof.
  assert (forall e, outcome c (if Connection.running c then stopForError c e else c)) as Hstop.
  { intros e. destruct (Connection.running c); [apply stopForError_outcome|by apply alive_outcome]. }
  unfold recvRoutine_step. destruct (pong c); [done|]. destruct input as [|t input]; [by intros [= <- <-]|].
  destruct (t =? packetTypePing); [by intros [= <- <-]; split; [apply alive_outcome|]|].
  destruct (t =? packetTypePong); [by intros [= <- <-]; split; [apply alive_outcome|]|].
  destruct (t =? packetTypeMsg); [|by intros [= <- <-]; split; [apply stopForError_outcome|]].
  destruct (read_packet input) as [[pkt rest]|e]; [|by intros [= <- <-]].
  destruct (find_channel c (ChannelID pkt)) as [[i ch]|] eqn:Ef; [|by intros [= <- <-]; split; [apply stopForError_outcome|]].
  destruct (recvMsgPacket ch pkt) as [[msg ch']|e]; [|by intros [= <- <-]].
  intros [= <- <-]. split; [by apply alive_outcome|]. destruct msg as [b|]; [|done]. cbn.
  unfold find_channel in Ef. destruct (channelsIdx c !! ChannelID pkt); [by eexists|done].
Qed.
End outcomes.

(** ** The life of a peer *)
Definition starts (l : list call) : Z := #(omap (fun c => match c with StartRoutines => Some tt | _ => None end) l).
Definition closes (l : list call) : Z := #(omap (fun c => match c with CloseNetConn => Some tt | _ => None end) l).
Definition reported (l : list call) : list error := omap (fun c => match c with OnError e => Some e | _ => None end) l.
Definition removed (l : list call) : list error := omap (fun c => match c with StopPeerForError e => Some e | _ => None end) l.

Lemma starts_app l k : starts (l ++ k) = starts l + starts k.
Proof. unfold starts. by rewrite omap_app, zlen_app. Qed.
Lemma closes_app l k : closes (l ++ k) = closes l + closes k.
Proof. unfold closes. by rewrite omap_app, zlen_app. Qed.
Lemma reported_app l k : reported (l ++ k) = reported l ++ reported k.
Proof. apply omap_app. Qed.
Lemma removed_app l k : removed (l ++ k) = removed l ++ removed k.
Proof. apply omap_app. Qed.

Record Life (idx : gmap Z nat) (p : peer) : Prop := {
  life_idx : channelsIdx (mconn p) = idx;
  life_run : Connection.running (mconn p) = IsRunning (m_svc p);
  life_same : IsRunning (p_svc p) = IsRunning (m_svc p);
  life_stop : stopped (p_svc p) = stopped (m_svc p);
  life_start : started (m_svc p) = true -> started (p_svc p) = true;
  life_err : (errored (mconn p) = 0 /\ onError (mconn p) = []) \/
             (errored (mconn p) = 1 /\ length (onError (mconn p)) = 1%nat /\ stopped (m_svc p) = true);
  life_starts : starts (calls p) = Z.b2z (started (m_svc p));
  life_closes : closes (calls p) = Z.b2z (stopped (m_svc p));
  life_reported : reported (calls p) = onError (mconn p);
  life_removed : removed (calls p) = onError (mconn p);
}.

Lemma Life_Start idx p : Life idx p -> Life idx (peer_Start p).
Proof.
  intros [Hi Hr Hsm Hst Hs He Hc1 Hc2 Hc3 Hc4]. unfold peer_Start, Start, IsRunning in *.
  destruct p as [[s1 t1] [s2 t2] c cs]. cbn in *. subst t2.
  destruct s1, t1, s2; cbn in *; try (split; cbn; by auto); try (by discriminate Hsm); try (by discriminate (Hs eq_refl)).
  split; cbn; try done; try (by rewrite ?starts_app, ?closes_app, ?reported_app, ?removed_app, ?Hc1, ?Hc2, ?Hc3, ?Hc4, ?app_nil_r).
Qed.

Lemma Life_Stop idx p : Life idx p -> Life idx (peer_Stop p) /\ stopped (p_svc (peer_Stop p)) = true.
Proof.
  intros [Hi Hr Hsm Hst Hs He Hc1 Hc2 Hc3 Hc4]. unfold peer_Stop, mconn_Stop, Stop, IsRunning in *.
  destruct p as [[s1 t1] [s2 t2] c cs]. cbn in *. subst t2.
  destruct t1; cbn; [split; [by split|done]|]. split; [|done].
  split; cbn; unfold IsRunning; cbn; rewrite ?andb_false_r; try done;
    try (by rewrite ?starts_app, ?closes_app, ?reported_app, ?removed_app, ?Hc1, ?Hc2, ?Hc3, ?Hc4, ?app_nil_r, ?Z.add_0_r).
  destruct He as [?|(_ & _ & ?)]; [by left|done].
Qed.

(** A routine's step keeps the life of the peer in order. *)
Lemma Life_effect idx p c : Life idx p -> outcome (mconn p) c -> Life idx (took_effect c p) /\
  (stopped (p_svc p) = true -> stopped (p_svc (took_effect c p)) = true) /\
  channelsIdx (mconn (took_effect c p)) = idx.
Proof.
  intros Hl [Hic Hc]. enough (Life idx (took_effect c p) /\ (stopped (p_svc p) = true -> stopped (p_svc (took_effect c p)) = true)) as [? ?]
    by (split_and!; [done|done|by apply life_idx]).
  destruct Hl as [Hi Hr Hsm Hst Hs He Hc1 Hc2 Hc3 Hc4]. unfold took_effect.
  destruct Hc as [(Ha1 & Ha2 & Ha3)|(Hs1 & Hs2)].
  - assert (drop (length (onError (mconn p))) (onError c) = []) as -> by (rewrite Ha3; apply drop_all).
    assert (Connection.running (mconn p) && negb (Connection.running c) = false) as -> by (rewrite Ha1; apply andb_negb_r).
    cbn [map app]. rewrite app_nil_r. split; [|done]. split; cbn [mconn p_svc m_svc calls]; try done; congruence.
  - destruct (Z.eqb_spec (errored (mconn p)) 0) as [H0|H0].
    + destruct He as [[_ Ho]|[? _]]; [|congruence]. destruct Hs2 as (Hs2 & e & Hs3). rewrite Ho in *. cbn [app] in Hs3.
      rewrite Hs3. cbn [length drop map]. unfold peer_Stop, mconn_Stop, Stop, IsRunning in *.
      destruct p as [[s1 t1] [s2 t2] c0 cs]. cbn in *. subst t2. rewrite Hr, Hs1.
      fold (reported cs) in Hc3. fold (removed cs) in Hc4.
      destruct t1, s2; cbn; rewrite ?andb_false_r; cbn; (split; [|done]);
        (split; cbn; unfold IsRunning; cbn; rewrite ?andb_false_r, ?starts_app, ?closes_app, ?reported_app, ?removed_app, ?Hs3, ?Hc1, ?Hc2, ?Hc3, ?Hc4; auto; try congruence).
    + destruct He as [[? _]|(He & Ho & Hst')]; [congruence|]. destruct Hs2 as [Hs2 Hs3].
      rewrite Hs3, drop_all. assert (Connection.running (mconn p) = false) as Hr0.
      { rewrite Hr. unfold IsRunning. rewrite Hst'. apply andb_false_r. }
      rewrite Hr0. cbn [andb map app]. rewrite app_nil_r. split; [|done].
      split; cbn [mconn p_svc m_svc calls]; rewrite ?Hs3; try done; try congruence. right. split_and!; congruence.
Qed.

Lemma Life_same_conn idx p c : Life idx p -> channelsIdx c = channelsIdx (mconn p) -> alive_as (mconn p) c ->
  Life idx (mkPeerState (p_svc p) (m_svc p) c (calls p)).
Proof.
  intros [Hi Hr Hsm Hst Hs He Hc1 Hc2 Hc3 Hc4] Hic (Ha1 & Ha2 & Ha3).
  split; cbn [mconn p_svc m_svc calls]; rewrite ?Ha1, ?Ha2, ?Ha3; try done. congruence.
Qed.

Section lives.
Context `{Wire} {R : Type} (reactorsByCh : gmap Z R) (idx : gmap Z nat).

(** What a step leaves: the life in order, a stop for good, and messages for reactors only. *)
Definition good_step (p p' : peer) (out : list (R * Z * bytes)) : Prop :=
  Life idx p' /\ (stopped (p_svc p) = true -> stopped (p_svc p') = true) /\
  Forall (fun x => reactorsByCh !! x.1.2 = Some x.1.1 /\ is_Some (idx !! x.1.2)) out.

Lemma step_good e p p' out : Life idx p -> step reactorsByCh e p = Some (p', out) -> good_step p p' out.
Proof.
  intros Hl. destruct e as [| |ch msg t|ch msg|k|input]; cbn [step].
  - intros [= <- <-]. split_and!; [by apply Life_Start| |constructor].
    unfold peer_Start, Start. destruct (started (p_svc p)), (stopped (p_svc p)) eqn:E; cbn; try done.
  - intros [= <- <-]. destruct (Life_Stop idx p Hl). split_and!; [done|done|constructor].
  - unfold peer_Send. destruct (negb _); cbn [mbind option_bind]; [intros [= <- <-]; by split_and!; [..|constructor]|].
    destruct (Connection.Send _ _ _ _) as [[ok c]|] eqn:Es; [|done]. cbn. intros [= <- <-].
    apply Send_alive in Es as [Hi Ha]. split_and!; [by apply Life_same_conn|done|constructor].
  - unfold peer_TrySend. destruct (negb _); [intros [= <- <-]; by split_and!; [..|constructor]|].
    pose proof (TrySend_alive (mconn p) ch msg) as [Hi Ha]. destruct (Connection.TrySend _ _ _) as [ok c].
    intros [= <- <-]. split_and!; [by apply Life_same_conn|done|constructor].
  - destruct (started (m_svc p)); [|done]. destruct (sendRoutine_step (mconn p) k) as [[b c]|] eqn:Es; [|done].
    cbn. intros [= <- <-]. apply sendRoutine_step_outcome in Es.
    destruct (Life_effect idx p c Hl Es) as (? & ? & _). split_and!; [done|done|constructor].
  - destruct (started (m_svc p)); [|done]. destruct (recvRoutine_step (mconn p) input) as [[r c]|] eqn:Es; [|done].
    cbn [mbind option_bind]. apply recvRoutine_step_outcome in Es as [Ho Hr].
    destruct (Life_effect idx p c Hl Ho) as (Hl1 & Hs1 & _). set (p1 := took_effect c p) in *.
    destruct r as [[[ch b]|] rest|]; try (intros [= <- <-]; by split_and!; [..|constructor]).
    unfold deliver. destruct (reactorsByCh !! ch) as [r|] eqn:Er; intros [= <- <-].
    + split_and!; [done|done|]. apply List.Forall_cons; [|constructor]. cbn. by rewrite <- (life_idx _ _ Hl).
    + destruct (Life_effect idx p1 (stopForError (mconn p1) (errNoReactor ch)) Hl1 (stopForError_outcome _ _)) as (? & Hs2 & _).
      split_and!; [done|by auto|constructor].
Qed.

Lemma run_good l : forall p p' out, Life idx p -> run reactorsByCh l p = Some (p', out) ->
  good_step p p' out /\ (EStop ∈ l -> stopped (p_svc p') = true).
Proof.
  induction l as [|e l IH]; intros p p' out Hl; cbn [run].
  { intros [= <- <-]. split; [by split_and!; [..|constructor]|]. by intros ?%not_elem_of_nil. }
  destruct (step reactorsByCh e p) as [[p1 out1]|] eqn:Es; [|done]. cbn [mbind option_bind].
  destruct (run reactorsByCh l p1) as [[p2 out2]|] eqn:Er; [|done]. intros [= <- <-].
  destruct (step_good e p p1 out1 Hl Es) as (Hl1 & Hs1 & Hf1).
  destruct (IH p1 p2 out2 Hl1 Er) as [(Hl2 & Hs2 & Hf2) Hst]. split.
  - split_and!; [done|by auto|by apply Forall_app_2].
  - intros [<-|Hin]%elem_of_cons; [|by apply Hst]. apply Hs2. cbn in Es. injection Es as <- _. by apply (Life_Stop idx).
Qed.
End lives.

Lemma b2z_le b : Z.b2z b <= 1.
Proof. by destruct b. Qed.

Lemma newPeer_Life descs p0 : newPeer descs = Some p0 -> Life (channelsIdx (mconn p0)) p0.
Proof.
  unfold newPeer, NewMConnection. destruct (new_channels descs); [|done]. cbn. intros [= <-].
  split; try done. by left.
Qed.

(** C16: Whatever calls and steps of its routines happen, in whatever order: a peer's connection is
    started at most once and closed at most once, and its errors reach the switch at most
    once, as the one call that removes the peer.  A peer that was stopped, or whose connection
    has failed, runs no more, and neither does its connection, which is closed; a peer that does not run
    sends nothing; and every message that is delivered comes on one of its channels and goes to that
    channel's reactor. *)
Theorem peer_lifecycle `{Wire} {R : Type} (reactorsByCh : gmap Z R) (descs : list ChannelDescriptor)
    (l : list event) (p0 p : peer) (out : list (R * Z * bytes)) :
  newPeer descs = Some p0 -> run reactorsByCh l p0 = Some (p, out) ->
  starts (calls p) <= 1 /\ closes (calls p) <= 1 /\
  removed (calls p) = reported (calls p) /\ #(reported (calls p)) <= 1 /\
  (EStop ∈ l \/ reported (calls p) <> [] ->
     IsRunning (p_svc p) = false /\ Connection.running (mconn p) = false /\ closes (calls p) = 1) /\
  (IsRunning (p_svc p) = false -> forall ch msg t,
     peer_Send p ch msg t = Some (false, p) /\ peer_TrySend p ch msg = (false, p) /\ peer_CanSend p ch = false) /\
  Forall (fun x => reactorsByCh !! x.1.2 = Some x.1.1 /\ is_Some (channelsIdx (mconn p0) !! x.1.2)) out.
Proof.
  intros Hn Hr. pose proof (newPeer_Life _ _ Hn) as Hl.
  destruct (run_good reactorsByCh _ l p0 p out Hl Hr) as [(Hp & _ & Hf) Hst]. destruct Hp as [Hi Hrun Hsm Hs _ He Hc1 Hc2 Hc3 Hc4].
  split_and!; try done.
  - rewrite Hc1. apply b2z_le.
  - rewrite Hc2. apply b2z_le.
  - congruence.
  - rewrite Hc3. destruct He as [[_ ->]|(_ & E & _)]; [done|]. unfold zlen. rewrite E. done.
  - intros Hor. assert (stopped (m_svc p) = true) as Hstop.
    { destruct Hor as [Hin|Hne]; [rewrite <- Hs; by apply Hst|]. rewrite Hc3 in Hne.
      by destruct He as [[_ ?]|(_ & _ & ?)]. }
    rewrite Hrun, Hc2, Hsm. unfold IsRunning. rewrite Hstop. cbn. by rewrite andb_false_r.
  - intros Hno ch msg t. unfold peer_Send, peer_TrySend, peer_CanSend. by rewrite Hno.
Qed.

(** ** The switch's reactors *)
Lemma NewMConnection_idx descs c : NewMConnection descs = Some c -> NoDup (map ID descs) ->
  forall ch, is_Some (channelsIdx c !! ch) <-> ch ∈ map ID descs.
Proof.
  unfold NewMConnection. destruct (new_channels descs) as [l|] eqn:Hl; [|done]. cbn. intros [= <-] Hnd ch.
  destruct (new_channels_spec _ _ Hl) as [Hids _]. change (map ID descs) with (ID <$> descs) in *.
  cbn [channelsIdx]. rewrite <- Hids in *. split.
  - intros [i Hi]. apply index_channels_spec in Hi as [(k & _ & Hk)|[_ Hi]]; [|by rewrite lookup_empty in Hi|done].
    apply (list_elem_of_lookup_2 _ k). by rewrite list_lookup_fmap.
  - intros [k Hk]%list_elem_of_lookup_1. exists k. apply index_channels_spec; [done|]. left. exists k.
    split; [done|]. by rewrite <- list_lookup_fmap.
Qed.

Section switch.
Context `{Resolver, SwitchEnv, Wire} {book : Type} `{!AddrBookOps book}.

(** C17: The composition of the switch, its peers and their connections: a peer's connection has the
    channels of the registered reactors and no others; every message that arrives on it is
    handed, and handed only, to a registered reactor that has declared the message's channel, so
    that the panic of a channel without a reactor never happens. *)
Theorem messages_reach_reactors (maxNumPeers : Z) (b : book) (d : gmap gostring bytes) (sw0 sw : Switch)
    (rs : list (gostring * reactor)) (l : list event) (p0 p : peer) (out : list (reactor * Z * bytes)) :
  NewSwitch maxNumPeers b d = Some sw0 -> add_reactors rs sw0 = Some sw ->
  newPeer (chDescs sw) = Some p0 -> run (reactorsByCh sw) l p0 = Some (p, out) ->
  (forall ch, is_Some (channelsIdx (mconn p) !! ch) <-> ch ∈ map ID (all_channels rs)) /\
  (forall r ch m, (r, ch, m) ∈ out -> exists name, (name, r) ∈ rs /\ ch ∈ map ID (GetChannels r)) /\
  (forall input ch m rest c, started (m_svc p) = true ->
     recvRoutine_step (mconn p) input = Some (Received (Some (ch, m)) rest, c) ->
     exists r name, (name, r) ∈ rs /\ ch ∈ map ID (GetChannels r) /\
       step (reactorsByCh sw) (ERecvStep input) p = Some (took_effect c p, [(r, ch, m)])).
Proof.
  intros Hs Ha Hn Hr. destruct (reactors_channels maxNumPeers b d sw0 rs Hs) as [Hnd Hch].
  destruct (Hch sw Ha) as [Hd Hrec]. assert (NoDup (map ID (chDescs sw))) as Hnd' by (rewrite Hd; apply Hnd; by eexists).
  pose proof (newPeer_Life _ _ Hn) as Hl. destruct (run_good _ _ l p0 p out Hl Hr) as [(Hp & _ & Hf) _].
  assert (forall ch, is_Some (channelsIdx (mconn p0) !! ch) <-> ch ∈ map ID (all_channels rs)) as Hidx.
  { unfold newPeer in Hn. destruct (NewMConnection (chDescs sw)) as [c|] eqn:Ec; [|done]. cbn in Hn. injection Hn as <-.
    cbn [mconn with_running channelsIdx]. rewrite <- Hd. by apply NewMConnection_idx. }
  assert (forall ch r, reactorsByCh sw !! ch = Some r -> exists name, (name, r) ∈ rs /\ ch ∈ map ID (GetChannels r)) as Hby.
  { intros ch r E. specialize (Hrec ch). unfold onReceive in Hrec. by rewrite E in Hrec. }
  split_and!.
  - by rewrite (life_idx _ _ Hp).
  - intros r ch m Hin. rewrite list.Forall_forall in Hf. apply Hf in Hin as [E _]. by apply Hby.
  - intros input ch m rest c Hst Hrcv. cbn [step]. rewrite Hst, Hrcv. cbn [mbind option_bind].
    apply recvRoutine_step_outcome in Hrcv as [_ Hi]. rewrite (life_idx _ _ Hp), Hidx in Hi.
    specialize (Hrec ch). unfold onReceive in Hrec. unfold deliver.
    destruct (reactorsByCh sw !! ch) as [r|] eqn:E; [|done]. destruct Hrec as (name & Hname & Hin).
    by exists r, name.
Qed.

(** *** Starting and stopping *)
Inductive sw_call :=
| ReactorStart (name : gostring)
| ListenerRoutine (i : nat)
| ListenerStop (i : nat)
| PeerStop (p : Peer)
| ReactorStop (name : gostring).

(** [OnStart]: the reactors in the order of the iteration, with the outcome of each one's [Start];
    the first error ends it.  Then a routine for each of the [n] listeners. *)
Fixpoint sw_OnStart (it : list (gostring * option error)) (n : nat) : option error * list sw_call :=
  match it with
  | [] => (None, map ListenerRoutine (seq 0 n))
  | (name, Some err) :: it => (Some err, [ReactorStart name])
  | (name, None) :: it => let '(e, l) := sw_OnStart it n in (e, ReactorStart name :: l)
  end.

(** [OnStop]: the listeners, the peers of the list that the peer set gives, the reactors.  The
    reactors are not told that the peers have gone. *)
Definition sw_OnStop (n : nat) (list_ : list Peer) (it : list gostring) (sw : @Switch _ book) : Switch * list sw_call :=
  (set_peers (foldl (fun m p => delete (Key p) m) (peers sw) list_) sw,
   map ListenerStop (seq 0 n) ++ map PeerStop list_ ++ map ReactorStop it).

(** Stopping the switch stops every peer and leaves the peer set empty. *)
Theorem OnStop_stops_all (n : nat) (list_ : list Peer) (it : list gostring) (sw : @Switch _ book) :
  (forall k p, peers sw !! k = Some p -> Key p = k) -> list_ ≡ₚ map snd (map_to_list (peers sw)) ->
  peers (sw_OnStop n list_ it sw).1 = ∅ /\
  forall k p, peers sw !! k = Some p -> PeerStop p ∈ (sw_OnStop n list_ it sw).2.
Proof.
  intros Hk Hl. assert (forall k p, peers sw !! k = Some p -> p ∈ list_) as Hin.
  { intros k p Hp. rewrite Hl. apply list_elem_of_fmap. exists (k, p). by rewrite elem_of_map_to_list. }
  split.
  - cbn. apply map_empty. intros k.
    assert (forall (l : list Peer) (m : gmap gostring Peer), (forall p, m !! k = Some p -> p ∈ l) -> (forall p, m !! k = Some p -> Key p = k) ->
      foldl (fun m p => delete (Key p) m) m l !! k = None) as Hfold.
    { induction l as [|p l IH]; intros m Hm Hkey; cbn.
      - destruct (m !! k) as [p|]; [|done]. by destruct (not_elem_of_nil p (Hm p eq_refl)).
      - destruct (decide (Key p = k)) as [<-|Hne].
        + apply IH; intros q; by rewrite lookup_delete_eq.
        + apply IH; intros q; rewrite lookup_delete_ne by done; [|by apply Hkey].
          intros Hq. apply Hm in Hq as Hq'. apply elem_of_cons in Hq' as [->|]; [|done]. by destruct Hne; apply Hkey. }
    apply Hfold; [by intros; eapply Hin|by apply Hk].
  - intros k p Hp. cbn. rewrite !elem_of_app. right. left. apply list_elem_of_fmap. exists p. split; [done|by eapply Hin].
Qed.
End switch.

(** *** A concrete peer *)
(** Two reactors with channels 0 and 64; a ping, a message in two packets, and an unknown channel. *)
Definition ex_env : SwitchEnv :=
  {| reactor := list Z; GetChannels := map (fun i => mkDesc i 1 0 0 0); KeyString := fun b => b;
     json_Marshal := fun m => Ok []; json_Unmarshal := fun b => Err (EMsg []); pkg_Wrap := fun e _ => e |}.
Definition ex_reactors : list (gostring * list Z) := [(str "PEX", [0]); (str "PROTOCOL", [64])].
Definition ex_descs : list ChannelDescriptor := map (fun i => mkDesc i 1 0 0 0) [0; 64].
Definition ex_packet (i e : Z) (b : bytes) : bytes := packetTypeMsg :: @write_packet plain_wire (mkPacket i e b).
Definition ex_events : list event :=
  [EStart; ERecvStep (ex_packet 64 0 [1; 2]); ETrySend 0 [9]; ERecvStep (ex_packet 64 1 [3]);
   ESendStep (case_send (fun _ => None)); ERecvStep (ex_packet 7 1 [3]); EStop; ESend 0 [9] false].

Lemma peer_lifecycle_witness : exists p0 p out, newPeer ex_descs = Some p0 /\
  @run plain_wire (list Z) {[ 0 := [0]; 64 := [64] ]} ex_events p0 = Some (p, out) /\
  #(reported (calls p)) <= 1 /\ closes (calls p) = 1 /\ IsRunning (p_svc p) = false /\ out = [([64], 64, [1; 2; 3])].
Proof.
  eexists _, _, _. split; [reflexivity|]. split; [vm_compute; reflexivity|].
  edestruct (@peer_lifecycle plain_wire (list Z) {[ 0 := [0]; 64 := [64] ]} ex_descs ex_events)
    as (_ & _ & _ & Hrep & Hst & _); [reflexivity|vm_compute; reflexivity|].
  destruct Hst as (Hrun & _ & Hcl); [left; apply list_elem_of_In; cbn; tauto|].
  split; [exact Hrep|]. split; [exact Hcl|]. split; [exact Hrun|reflexivity].
Defined.

Lemma messages_reach_reactors_witness : exists sw0 sw p0 p out,
  @NewSwitch ex_env unit 25 tt ∅ = Some sw0 /\ @add_reactors ex_env unit ex_reactors sw0 = Some sw /\
  newPeer (chDescs sw) = Some p0 /\
  @run plain_wire (list Z) (reactorsByCh sw) (take 4 ex_events) p0 = Some (p, out) /\
  exists name, (name, [64]) ∈ ex_reactors /\ 64 ∈ [64].
Proof.
  eexists _, _, _, _, _. split; [reflexivity|]. split; [reflexivity|]. split; [reflexivity|].
  split; [vm_compute; reflexivity|].
  epose proof (@messages_reach_reactors ex_env plain_wire unit 25 tt ∅ _ _ ex_reactors (take 4 ex_events) _ _ _
    eq_refl eq_refl eq_refl eq_refl) as (_ & Hout & _).
  destruct (Hout [64] 64 [1; 2; 3]) as (name & Hn & Hc); [left|]. exists name. split; [exact Hn|exact Hc].
Defined.
