(* ===== verification/Upnp.v ===== *)
(** * Port mapping

    Models [p2p/upnp/upnp.go]: how a gateway is found among the answers to a multicast question,
    how the address of its control service is taken from its description, and the requests
    that are sent there.  Everything that is read comes from the local network and is not
    trusted.  HTTP, XML, the socket and the table of interfaces are parameters or arguments.
    The requests have no timeout: one that is never answered never returns ([Runs]). *)
From S2P Require Import Prelude Errors GoLib NetAddress NodeInfo Resolve.

(** A call that returns, panics, or has not returned (yet). *)
Inductive outcome (A : Type) : Type :=
| Returns (a : A)
| Panics
| Runs.
Arguments Returns {A} _.
Arguments Panics {A}.
Arguments Runs {A}.

#[export] Instance outcome_bind : MBind outcome := fun A B f m =>
  match m with Returns a => f a | Panics => Panics | Runs => Runs end.

Definition or_panic {A} (m : option A) : outcome A :=
  match m with Some a => Returns a | None => Panics end.
Definition or_runs {A} (m : option A) : outcome A :=
  match m with Some a => Returns a | None => Runs end.

(** ** strings *)
Fixpoint has_prefix (sub s : gostring) : bool :=
  match sub, s with
  | [], _ => true
  | c :: sub, d :: s => (c =? d) && has_prefix sub s
  | _, [] => false
  end.

(** [strings.Index], counting from [i]; -1 is [None]. *)
Fixpoint index_from (i : nat) (s sub : gostring) : option nat :=
  if has_prefix sub s then Some i
  else match s with [] => None | _ :: s => index_from (S i) s sub end.
Definition Index (s sub : gostring) : Z :=
  match index_from 0 s sub with Some i => Z.of_nat i | None => -1 end.

(** [s[a:b]] *)
Definition slice_to (s : gostring) (a b : Z) : option gostring :=
  if (0 <=? a) && (a <=? b) && (b <=? #s) then Some (drop (Z.to_nat a) (take (Z.to_nat b) s)) else go_panic.

(** Case and space of text that is not ASCII follow Unicode's tables. *)
Class Unicode := {
  ToLower_unicode : gostring -> gostring;
  TrimSpace_unicode : gostring -> gostring;
}.

Definition isASCII (s : gostring) : bool := forallb (fun c => c <? 128) s.
Definition lower (c : Z) : Z := if (65 <=? c) && (c <=? 90) then c + 32 else c.
Definition ToLower `{Unicode} (s : gostring) : gostring :=
  if isASCII s then map lower s else ToLower_unicode s.

Definition is_space (c : Z) : bool := (c =? 32) || ((9 <=? c) && (c <=? 13)).
Fixpoint trim_left (s : gostring) : gostring :=
  match s with [] => [] | c :: s' => if is_space c then trim_left s' else s end.
Definition TrimSpace `{Unicode} (s : gostring) : gostring :=
  if isASCII s then reverse (trim_left (reverse (trim_left s))) else TrimSpace_unicode s.

(** [string(n)] of an integer is the UTF-8 form of the code point. *)
Definition string_of_rune (n : Z) : gostring :=
  let cont k := 128 + Z.shiftr n (6 * k) mod 64 in
  if n <? 128 then (if n <? 0 then [239; 191; 189] else [n])
  else if n <? 2048 then [192 + Z.shiftr n 6; cont 0]
  else if ((55296 <=? n) && (n <=? 57343)) || (1114111 <? n) then [239; 191; 189]
  else if n <? 65536 then [224 + Z.shiftr n 12; cont 1; cont 0]
  else [240 + Z.shiftr n 18; cont 2; cont 1; cont 0].

Definition crlf : gostring := [13; 10].
Definition quoted (s : gostring) : gostring := [34] ++ s ++ [34].

(** ** The description of a gateway *)
Record UPNPService := mkUPNPService { ServiceType : gostring; ControlURL : gostring }.

Unset Elimination Schemes.
Inductive Device := mkDevice (DeviceType : gostring) (DeviceList : list Device) (ServiceList : list UPNPService).
Set Elimination Schemes.
Definition DeviceType (d : Device) : gostring := let '(mkDevice t _ _) := d in t.
Definition DeviceList (d : Device) : list Device := let '(mkDevice _ l _) := d in l.
Definition ServiceList (d : Device) : list UPNPService := let '(mkDevice _ _ l) := d in l.

Fixpoint child_device (dl : list Device) (deviceType : gostring) : option Device :=
  match dl with
  | [] => None
  | d :: dl => if 0 <=? Index (DeviceType d) deviceType then Some d else child_device dl deviceType
  end.
Definition getChildDevice (d : Device) (deviceType : gostring) : option Device :=
  child_device (DeviceList d) deviceType.

Fixpoint child_service (sl : list UPNPService) (serviceType : gostring) : option UPNPService :=
  match sl with
  | [] => None
  | s :: sl => if 0 <=? Index (ServiceType s) serviceType then Some s else child_service sl serviceType
  end.
Definition getChildService (d : Device) (serviceType : gostring) : option UPNPService :=
  child_service (ServiceList d) serviceType.

(** [http.Get] with the XML decoder of the body: the status code and the document, or [None] when
    the answer or the end of the body never comes. *)
Class Http := {
  Get : gostring -> option (res error (Z * res error Device));
  NewRequest : gostring -> option error;
}.

Definition combineURL (rootURL subURL : gostring) : option gostring :=
  let protocolEnd := str "://" in
  let protoEndIndex := Index rootURL protocolEnd in
  a ← slice_to rootURL (protoEndIndex + #protocolEnd) #rootURL;
  let rootIndex := Index a (str "/") in
  r ← slice_to rootURL 0 (protoEndIndex + #protocolEnd + rootIndex);
  Some (r ++ subURL).

(** The service among the devices of the description. *)
Definition find_service (a : Device) : res error UPNPService :=
  if Index (DeviceType a) (str "InternetGatewayDevice:1") <? 0 then Err (EMsg (str "No InternetGatewayDevice"))
  else
    match getChildDevice a (str "WANDevice:1") with
    | None => Err (EMsg (str "No WANDevice"))
    | Some b =>
        match getChildDevice b (str "WANConnectionDevice:1") with
        | None => Err (EMsg (str "No WANConnectionDevice"))
        | Some c =>
            match getChildService c (str "WANIPConnection:1") with
            | Some d => Ok d
            | None =>
                match getChildService b (str "WANIPConnection:1") with
                | Some d => Ok d
                | None => Err (EMsg (str "No WANIPConnection"))
                end
            end
        end
    end.

Section upnp.
Context `{Unicode, Http, Resolver}.

Definition getServiceURL (rootURL : gostring) : outcome (res error (gostring * gostring)) :=
  r ← or_runs (Get rootURL);
  match r with
  | Err err => Returns (Err err)
  | Ok (StatusCode, root) =>
      if 400 <=? StatusCode then Returns (Err (EMsg (string_of_rune StatusCode)))
      else
        match root with
        | Err err => Returns (Err err)
        | Ok a =>
            match find_service a with
            | Err err => Returns (Err err)
            | Ok d =>
                urnDomain ← or_panic (Split 58 (ServiceType d) !! 1%nat);
                url ← or_panic (combineURL rootURL (ControlURL d));
                Returns (Ok (url, urnDomain))
            end
        end
  end.

(** What [net.Interfaces] gives: the addresses of each interface, which may be of another kind. *)
Fixpoint first_ipv4 (aa : list (option IP)) : option IP :=
  match aa with
  | [] => None
  | None :: aa => first_ipv4 aa
  | Some ip :: aa =>
      match To4 ip with
      | None => first_ipv4 aa
      | Some v4 => if bool_decide (head v4 = Some 127) then first_ipv4 aa else Some v4
      end
  end.

Fixpoint local_of (ifs : list (res error (list (option IP)))) : res error IP :=
  match ifs with
  | [] => Err (EMsg (str "cannot find local IP address"))
  | Err err :: _ => Err err
  | Ok aa :: ifs => match first_ipv4 aa with Some v4 => Ok v4 | None => local_of ifs end
  end.

Definition localIPv4 (Interfaces : res error (list (res error (list (option IP))))) : res error IP :=
  match Interfaces with Err err => Err err | Ok ifs => local_of ifs end.

(** ** Discovery *)
Record upnpNAT := mkNAT { serviceURL : gostring; ourIP : gostring; urnDomain : gostring }.

(** The URL in an answer, if it is one of a gateway. *)
Definition answer_location (answer : gostring) : option gostring :=
  if Index answer (str "InternetGatewayDevice:1") <? 0 then None
  else
    let locString := crlf ++ str "location:" in
    let answer := ToLower answer in
    let locIndex := Index answer locString in
    if locIndex <? 0 then None
    else
      let loc := drop (Z.to_nat (locIndex + #locString)) answer in
      let endIndex := Index loc crlf in
      if endIndex <? 0 then None
      else Some (TrimSpace (take (Z.to_nat endIndex) loc)).

(** The inner loop: the reads of the socket until one fails ([None]) or brings a location, with
    the reads left.  After the answers that come, a read fails if the socket has a [deadline];
    without one it waits for ever. *)
Fixpoint read_answers (deadline : bool) (reads : list (option gostring)) : outcome (option gostring * list (option gostring)) :=
  match reads with
  | [] => if deadline then Returns (None, []) else Runs
  | None :: reads => Returns (None, reads)
  | Some answer :: reads =>
      match answer_location answer with
      | Some locURL => Returns (Some locURL, reads)
      | None => read_answers deadline reads
      end
  end.

(** The first read of a round, whose answer is thrown away. *)
Definition read_once (deadline : bool) (reads : list (option gostring)) : outcome (list (option gostring)) :=
  match reads with
  | [] => if deadline then Returns [] else Runs
  | _ :: reads => Returns reads
  end.

Definition errNotFound : error := EMsg (str "UPnP port discovery failed.").

(** The outer loop, with the outcomes of its writes. *)
Fixpoint discover_loop (deadline : bool) (writes : list (option error)) (reads : list (option gostring))
    (Interfaces : res error (list (res error (list (option IP))))) : outcome (res error upnpNAT) :=
  match writes with
  | [] => Returns (Err errNotFound)
  | Some err :: _ => Returns (Err err)
  | None :: writes =>
      reads ← read_once deadline reads;
      '(loc, reads) ← read_answers deadline reads;
      match loc with
      | None => discover_loop deadline writes reads Interfaces
      | Some locURL =>
          r ← getServiceURL locURL;
          Returns ('(serviceURL, urnDomain) ← r;
                   ourIP ← localIPv4 Interfaces;
                   Ok (mkNAT serviceURL (IP_String ourIP) urnDomain))
      end
  end.

(** The errors of resolving the address, of listening and of setting the deadline, and those of
    the three writes; [reads] are the packets and errors that come to the socket. *)
Definition Discover (resolved listens set_deadline : option error) (w1 w2 w3 : option error) (reads : list (option gostring))
    (Interfaces : res error (list (res error (list (option IP))))) : outcome (res error upnpNAT) :=
  match resolved with
  | Some err => Returns (Err err)
  | None =>
      match listens with
      | Some err => Returns (Err err)
      | None =>
          match set_deadline with
          | Some err => Returns (Err err)
          | None => discover_loop true [w1; w2; w3] reads Interfaces
          end
      end
  end.

(** ** Requests *)
Record request := mkRequest { rq_url : gostring; rq_SOAPAction : gostring; rq_body : gostring }.

Definition soap_envelope (message : gostring) : gostring :=
  str "<?xml version=" ++ quoted (str "1.0") ++ str " ?><s:Envelope xmlns:s=" ++
  quoted (str "http://schemas.xmlsoap.org/soap/envelope/") ++ str " s:encodingStyle=" ++
  quoted (str "http://schemas.xmlsoap.org/soap/encoding/") ++ str ">" ++ crlf ++
  str "<s:Body>" ++ message ++ str "</s:Body></s:Envelope>".

(** The request, and its outcome; [Do] answers it with a status code and a body, or never. *)
Definition soapRequest {B} (Do : request -> option (res error (Z * B))) (url function message domain : gostring)
    : outcome (res error B) :=
  match NewRequest url with
  | Some err => Returns (Err err)
  | None =>
      let rq := mkRequest url
        (quoted (str "urn:" ++ domain ++ str ":service:WANIPConnection:1#" ++ function)) (soap_envelope message) in
      r ← or_runs (Do rq);
      Returns ('(StatusCode, body) ← r;
               if 400 <=? StatusCode
               then Err (EMsg (str "Error " ++ itoa StatusCode ++ str " for " ++ function))
               else Ok body)
  end.

Definition soap_message (n : upnpNAT) (function inner : gostring) : gostring :=
  str "<u:" ++ function ++ str " xmlns:u=" ++ quoted (str "urn:" ++ urnDomain n ++ str ":service:WANIPConnection:1") ++
  str ">" ++ crlf ++ inner ++ str "</u:" ++ function ++ str ">".

(** A body: the error of reading it, and the envelope as far as it can be decoded, whose
    [Soap], and in that [ExternalIP], may be missing. *)
Record envelope := mkEnvelope { read_err : option error; Soap : option (option gostring) }.

Definition getExternalIPAddress (Do : request -> option (res error (Z * envelope))) (n : upnpNAT) : outcome (res error gostring) :=
  r ← soapRequest Do (serviceURL n) (str "GetExternalIPAddress")
        (soap_message n (str "GetExternalIPAddress") []) (urnDomain n);
  match r with
  | Err err => Returns (Err err)
  | Ok env =>
      soap ← or_panic (Soap env);
      ip ← or_panic soap;
      Returns (match read_err env with Some err => Err err | None => Ok ip end)
  end.

(** A text that is no address gives a nil IP without an error. *)
Definition GetExternalAddress (Do : request -> option (res error (Z * envelope))) (n : upnpNAT) : outcome (res error IP) :=
  info ← getExternalIPAddress Do n;
  Returns (match info with Err err => Err err | Ok a => Ok (default [] (ParseIP a)) end).

Definition AddPortMapping {B} (Do : request -> option (res error (Z * B))) (n : upnpNAT) (protocol : gostring)
    (externalPort internalPort : Z) (description : gostring) (timeout : Z) : outcome (res error Z) :=
  let message := soap_message n (str "AddPortMapping")
    (str "<NewRemoteHost></NewRemoteHost><NewExternalPort>" ++ itoa externalPort ++
     str "</NewExternalPort><NewProtocol>" ++ protocol ++ str "</NewProtocol>" ++
     str "<NewInternalPort>" ++ itoa internalPort ++ str "</NewInternalPort>" ++
     str "<NewInternalClient>" ++ ourIP n ++ str "</NewInternalClient>" ++
     str "<NewEnabled>1</NewEnabled><NewPortMappingDescription>" ++ description ++
     str "</NewPortMappingDescription><NewLeaseDuration>" ++ itoa timeout ++ str "</NewLeaseDuration>") in
  r ← soapRequest Do (serviceURL n) (str "AddPortMapping") message (urnDomain n);
  Returns (_ ← r; Ok externalPort).

Definition DeletePortMapping {B} (Do : request -> option (res error (Z * B))) (n : upnpNAT) (protocol : gostring)
    (externalPort internalPort : Z) : outcome (option error) :=
  let message := soap_message n (str "DeletePortMapping")
    (str "<NewRemoteHost></NewRemoteHost><NewExternalPort>" ++ itoa externalPort ++
     str "</NewExternalPort><NewProtocol>" ++ protocol ++ str "</NewProtocol>") in
  r ← soapRequest Do (serviceURL n) (str "DeletePortMapping") message (urnDomain n);
  Returns (match r with Err err => Some err | Ok _ => None end).
End upnp.

(** ** Properties *)
Lemma has_prefix_spec sub : forall s, has_prefix sub s = true <-> exists post, s = sub ++ post.
Proof.
  induction sub as [|c sub IH]; intros s; cbn; [split; [by exists s|done]|].
  destruct s as [|d s]; [split; [done|by intros [? ?]]|]. rewrite andb_true_iff, Z.eqb_eq, IH. split.
  - intros [-> [post ->]]. by exists post.
  - intros [post [= -> ->]]. split; [done|by exists post].
Qed.

Lemma index_from_some s sub : forall i k, index_from i s sub = Some k ->
  exists pre post, s = pre ++ sub ++ post /\ k = (i + length pre)%nat.
Proof.
  induction s as [|c s IH]; intros i k; cbn.
  - destruct sub; cbn; [|done]. intros [= <-]. exists [], []. split; [done|cbn; lia].
  - case_on.
    + intros [= <-]. apply has_prefix_spec in Heqb as [post ->]. exists [], post. split; [done|cbn; lia].
    + intros Hk. apply IH in Hk as (pre & post & -> & ->). exists (c :: pre), post. split; [done|cbn; lia].
Qed.

(** A separator whose first byte is not in [pre] is found right after it. *)
Lemma index_from_at c sub post pre : forall i, c ∉ pre ->
  index_from i (pre ++ (c :: sub) ++ post) (c :: sub) = Some (i + length pre)%nat.
Proof.
  induction pre as [|d pre IH]; intros i Hc.
  - cbn [app index_from length]. assert (has_prefix (c :: sub) (c :: sub ++ post) = true) as ->.
    { apply has_prefix_spec. by exists post. } f_equal. lia.
  - apply not_elem_of_cons in Hc as [Hne Hc]. cbn [app index_from has_prefix].
    rewrite (proj2 (Z.eqb_neq c d)) by done. cbn [andb]. rewrite IH by done. f_equal. cbn. lia.
Qed.

Lemma index_from_none c sub s : forall i, c ∉ s -> index_from i s (c :: sub) = None.
Proof.
  induction s as [|d s IH]; intros i Hc; [done|]. apply not_elem_of_cons in Hc as [Hne Hc].
  cbn [index_from has_prefix]. rewrite (proj2 (Z.eqb_neq c d)) by done. by apply IH.
Qed.

Lemma Index_some s sub : 0 <= Index s sub -> exists pre post, s = pre ++ sub ++ post /\ Index s sub = #pre.
Proof.
  unfold Index. destruct (index_from 0 s sub) as [k|] eqn:E; [|lia]. intros _.
  apply index_from_some in E as (pre & post & -> & ->). by exists pre, post.
Qed.

Lemma Index_lower s sub : -1 <= Index s sub.
Proof. unfold Index. destruct (index_from 0 s sub); lia. Qed.

Lemma Index_le s sub : Index s sub <= #s.
Proof.
  destruct (decide (0 <= Index s sub)) as [Hi|]; [|pose proof (zlen_nonneg s); lia].
  apply Index_some in Hi as (pre & post & Hs & ->). rewrite Hs. autorewrite with zlen.
  pose proof (zlen_nonneg sub). pose proof (zlen_nonneg post). lia.
Qed.

Lemma slice_to_ok s a b : 0 <= a <= b -> b <= #s -> slice_to s a b = Some (drop (Z.to_nat a) (take (Z.to_nat b) s)).
Proof. intros Ha Hb. unfold slice_to. by rewrite !(proj2 (Z.leb_le _ _)) by lia. Qed.

Lemma combineURL_ok rootURL subURL : 0 <= Index rootURL (str "://") -> is_Some (combineURL rootURL subURL).
Proof.
  intros Hi. unfold combineURL. apply Index_some in Hi as (pre & post & Hs & Hp). rewrite Hp.
  assert (#rootURL = #pre + 3 + #post) as Hl by (rewrite Hs; autorewrite with zlen; change (zlen (str "://")) with 3; lia).
  pose proof (zlen_nonneg pre). pose proof (zlen_nonneg post). change (zlen (str "://")) with 3.
  rewrite slice_to_ok by lia. cbn [mbind option_bind]. set (a := drop _ _).
  assert (#a = #post) as Ha by (unfold a; rewrite take_zlen; autorewrite with zlen; lia).
  pose proof (Index_lower a (str "/")). pose proof (Index_le a (str "/")).
  rewrite slice_to_ok by lia. by eexists.
Qed.

Lemma Split_second c s : c ∈ s -> is_Some (Split c s !! 1%nat).
Proof.
  induction s as [|d s IH]; intros Hc; [by apply not_elem_of_nil in Hc|]. cbn [Split].
  assert (forall t, exists w r, Split c t = w :: r) as Hne.
  { induction t as [|x t (w & r & E)]; cbn; [by eexists _, _|]. rewrite E. destruct (x =? c); by eexists _, _. }
  destruct (Hne s) as (w & r & E). destruct (Z.eqb_spec d c) as [->|Hd].
  - rewrite E. cbn. by eexists.
  - apply elem_of_cons in Hc as [->|Hc]; [done|]. destruct (IH Hc) as [x Hx]. rewrite E in Hx |- *. cbn in *. by exists x.
Qed.

Lemma child_service_spec sl t d : child_service sl t = Some d -> d ∈ sl /\ 0 <= Index (ServiceType d) t.
Proof.
  induction sl as [|s sl IH]; cbn; [done|]. destruct (Z.leb_spec 0 (Index (ServiceType s) t)).
  - intros [= ->]. split; [left|done].
  - intros Hd. apply IH in Hd as [? ?]. split; [by right|done].
Qed.

(** The service found is one for WAN connections, so that its type has a domain. *)
Lemma find_service_type a d : find_service a = Ok d -> 0 <= Index (ServiceType d) (str "WANIPConnection:1").
Proof.
  unfold find_service, getChildService. repeat case_on; try done; intros [= <-];
    match goal with Hc : child_service _ _ = Some _ |- _ => by apply child_service_spec in Hc as [_ Hc] end.
Qed.

(** A URL that can be fetched has a scheme. *)
Class HttpLaws `{Http} := Get_scheme url r : Get url = Some (Ok r) -> 0 <= Index url (str "://").

(** What a gateway that was found is: the service for WAN connections in the description at the
    location of one of the answers, under that location's host. *)
Definition described_by `{Unicode, Http} (reads : list (option gostring))
    (Interfaces : res error (list (res error (list (option IP))))) (n : upnpNAT) : Prop :=
  exists answer url code a d ip,
    Some answer ∈ reads /\ answer_location answer = Some url /\ Get url = Some (Ok (code, Ok a)) /\ code < 400 /\
    find_service a = Ok d /\ combineURL url (ControlURL d) = Some (serviceURL n) /\
    Split 58 (ServiceType d) !! 1%nat = Some (urnDomain n) /\
    localIPv4 Interfaces = Ok ip /\ ourIP n = IP_String ip.

Section safe.
Context `{Unicode, HttpLaws, Resolver}.

(** A description is read without a panic, unless it never comes. *)
Lemma getServiceURL_ok url :
  match getServiceURL url with
  | Panics => False
  | Runs => Get url = None
  | Returns r => forall u dom, r = Ok (u, dom) -> exists code a d, Get url = Some (Ok (code, Ok a)) /\ code < 400 /\
      find_service a = Ok d /\ combineURL url (ControlURL d) = Some u /\ Split 58 (ServiceType d) !! 1%nat = Some dom
  end.
Proof.
  unfold getServiceURL. destruct (Get url) as [[[code root]|e]|] eqn:Eg; cbn; [|done|done].
  destruct (Z.leb_spec 400 code); [done|]. destruct root as [a|e]; [|done].
  destruct (find_service a) as [d|e] eqn:Ef; [|done].
  destruct (Split_second 58 (ServiceType d)) as [dom Hdom].
  { apply find_service_type in Ef. apply Index_some in Ef as (pre & post & -> & _).
    rewrite !elem_of_app. right. left. apply list_elem_of_In. cbn. tauto. }
  destruct (combineURL_ok url (ControlURL d)) as [u Hu]; [by eapply Get_scheme|].
  rewrite Hdom. cbn [or_panic mbind outcome_bind]. rewrite Hu. cbn. intros u' dom' [= <- <-]. by exists code, a, d.
Qed.

(** With a deadline the reads of a round come to an end, and what is left are later reads. *)
Lemma read_answers_ends reads : exists loc rest, read_answers true reads = Returns (loc, rest) /\ rest ⊆ reads /\
  forall url, loc = Some url -> exists answer, Some answer ∈ reads /\ answer_location answer = Some url.
Proof.
  induction reads as [|[answer|] reads (loc & rest & E & Hs & Hl)]; cbn.
  - by eexists _, _.
  - destruct (answer_location answer) as [u|] eqn:Ea.
    + eexists _, _. split; [done|]. split; [by intros x Hx; right|]. intros url [= <-]. exists answer. split; [left|done].
    + exists loc, rest. split; [done|]. split; [intros x Hx; right; by apply Hs|]. intros url Hu.
      destruct (Hl url Hu) as (b & Hb & ?). exists b. split; [by right|done].
  - eexists _, _. split; [done|]. split; [by intros x Hx; right|done].
Qed.

Lemma read_once_ends reads : exists rest, read_once true reads = Returns rest /\ rest ⊆ reads.
Proof. destruct reads; cbn; eexists; (split; [done|]); [done|]. by intros x Hx; right. Qed.

(** C37: Whatever comes from the network, looking for a gateway does not panic, and it comes to an end
    as soon as a description that it asked for has come or failed: the answers to the question are
    read for three seconds at most, and only the request for the description, which has no
    timeout, can wait for ever, at the location of one of the answers.  A gateway that is found is
    the service for WAN connections in the description at the location of one of the
    answers, with the service's control URL at that location's host and the domain in the service's type. *)
Theorem discover_safe (resolved listens set_deadline w1 w2 w3 : option error) (reads : list (option gostring))
    (Interfaces : res error (list (res error (list (option IP))))) :
  match Discover resolved listens set_deadline w1 w2 w3 reads Interfaces with
  | Panics => False
  | Runs => exists answer url, Some answer ∈ reads /\ answer_location answer = Some url /\ Get url = None
  | Returns r => forall n, r = Ok n -> described_by reads Interfaces n
  end.
Proof.
  unfold Discover. destruct resolved; [done|]. destruct listens; [done|]. destruct set_deadline; [done|].
  assert (reads ⊆ reads) as Hrs by done. revert Hrs. generalize reads at 1 3. generalize [w1; w2; w3].
  induction l as [|[err|] writes IH]; intros rs Hrs; cbn [discover_loop]; [done|done|].
  destruct (read_once_ends rs) as (rs1 & -> & Hrs1). cbn [mbind outcome_bind].
  destruct (read_answers_ends rs1) as (loc & rest & -> & Hrest & Hloc). cbn [mbind outcome_bind].
  destruct loc as [url|]; [|apply IH; set_solver]. destruct (Hloc url eq_refl) as (answer & Hin & Hl).
  assert (Some answer ∈ reads) as Hreads by set_solver.
  pose proof (getServiceURL_ok url) as Hr.
  destruct (getServiceURL url) as [[[u dom]|e]| |]; cbn; [|done|done|by exists answer, url].
  intros n. destruct (localIPv4 Interfaces) as [ip|e] eqn:El; [|done]. cbn. intros [= <-].
  destruct (Hr u dom eq_refl) as (code & a & d & ? & ? & ? & ? & ?). by exists answer, url, code, a, d, ip.
Qed.
End safe.

(** The control URL is put after the host of a URL with a path; if there is no path the host
    is lost. *)
Theorem combineURL_spec (scheme host path sub : gostring) :
  58 ∉ scheme -> 47 ∉ host ->
  combineURL (scheme ++ str "://" ++ host ++ str "/" ++ path) sub = Some (scheme ++ str "://" ++ host ++ sub) /\
  combineURL (scheme ++ str "://" ++ host) sub = Some (scheme ++ str ":/" ++ sub).
Proof.
  intros Hs Hh. pose proof (zlen_nonneg scheme). pose proof (zlen_nonneg host).
  assert (forall tail, combineURL (scheme ++ str "://" ++ tail) sub
    = Some (take (Z.to_nat (#scheme + 3 + Index tail (str "/"))) (scheme ++ str "://" ++ tail) ++ sub)) as Hcomb.
  { intros tail. pose proof (Index_lower tail (str "/")). pose proof (Index_le tail (str "/")). unfold combineURL.
    assert (Index (scheme ++ str "://" ++ tail) (str "://") = #scheme) as ->.
    { unfold Index. change (str "://") with (58 :: [47; 47]). by rewrite index_from_at. }
    assert (#(scheme ++ str "://" ++ tail) = #scheme + 3 + #tail) as Hl.
    { autorewrite with zlen. change (zlen (str "://")) with 3. lia. }
    change (zlen (str "://")) with 3. pose proof (zlen_nonneg tail). rewrite slice_to_ok by lia. rewrite take_zlen. cbn [mbind option_bind].
    assert (drop (Z.to_nat (#scheme + 3)) (scheme ++ str "://" ++ tail) = tail) as ->.
    { rewrite app_assoc. change 3 with (zlen (str "://")). rewrite <- zlen_app. apply drop_zlen_app. }
    rewrite slice_to_ok by lia. done. }
  split; rewrite Hcomb.
  - assert (Index (host ++ str "/" ++ path) (str "/") = #host) as ->.
    { unfold Index. change (str "/") with (47 :: []). by rewrite index_from_at. }
    change 3 with (zlen (str "://")). rewrite <- !zlen_app.
    rewrite (app_assoc (str "://")), (app_assoc scheme), <- (app_assoc scheme (str "://") host).
    rewrite take_zlen_app. by rewrite <- !app_assoc.
  - assert (Index host (str "/") = -1) as ->.
    { unfold Index. change (str "/") with (47 :: []). by rewrite index_from_none. }
    change (str "://") with (str ":/" ++ str "/"). rewrite <- (app_assoc (str ":/")), (app_assoc scheme (str ":/")).
    replace (#scheme + 3 + -1) with (#(scheme ++ str ":/")) by (rewrite zlen_app; change (zlen (str ":/")) with 2; lia).
    rewrite take_zlen_app. by rewrite <- app_assoc.
Qed.

(** The location is taken from the answer in lower case: paths that distinguish case are lost. *)
Theorem location_lower `{Unicode} (answer url : gostring) :
  isASCII answer = true -> answer_location answer = Some url -> Forall (fun c => ~ (65 <= c <= 90)) url.
Proof.
  intros Ha. unfold answer_location, ToLower. rewrite Ha. repeat case_on; try done. intros [= <-].
  assert (Forall (fun c => ~ (65 <= c <= 90) /\ c < 128) (map lower answer)) as Hl.
  { apply Forall_map, List.Forall_forall. intros c Hc. unfold isASCII in Ha. rewrite forallb_forall in Ha.
    specialize (Ha c Hc). unfold lower. case_on; zbool; [lia|]. zcases; lia. }
  set (loc := take _ _). assert (Forall (fun c => ~ (65 <= c <= 90) /\ c < 128) loc) as Hloc by (by apply Forall_take, Forall_drop).
  assert (isASCII loc = true) as Hasc.
  { unfold isASCII. apply forallb_forall. intros c Hc. rewrite List.Forall_forall in Hloc. apply Z.ltb_lt. by apply Hloc. }
  unfold TrimSpace. rewrite Hasc.
  assert (forall s, Forall (fun c => ~ (65 <= c <= 90) /\ c < 128) s -> Forall (fun c => ~ (65 <= c <= 90) /\ c < 128) (trim_left s)) as Htrim.
  { induction s as [|c s IH]; [done|]. intros Hf. cbn.
    destruct (is_space c); [apply IH; by inversion Hf|exact Hf]. }
  eapply List.Forall_impl; [|by apply Forall_reverse, Htrim, Forall_reverse, Htrim]. intros c [Hc _]. exact Hc.
Qed.

(** A response without the element that is asked for stops the program, whatever the status of
    reading it; a text that is no address becomes a nil IP and no error. *)
Theorem external_address `{Unicode, Http, Resolver} (Do : request -> option (res error (Z * envelope))) (n : upnpNAT) (env : envelope) :
  soapRequest Do (serviceURL n) (str "GetExternalIPAddress")
    (soap_message n (str "GetExternalIPAddress") []) (urnDomain n) = Returns (Ok env) ->
  (GetExternalAddress Do n = Panics <-> mjoin (Soap env) = None) /\
  forall a, Soap env = Some (Some a) -> read_err env = None ->
    GetExternalAddress Do n = Returns (Ok (default [] (ParseIP a))).
Proof.
  intros Hs. unfold GetExternalAddress, getExternalIPAddress. rewrite Hs. split.
  - cbn [mbind outcome_bind]. destruct (Soap env) as [[a|]|]; cbn; [|by split..]. split; [by destruct (read_err env)|done].
  - intros a Ha Hr. cbn [mbind outcome_bind]. by rewrite Ha, Hr.
Qed.

(** *** A concrete network *)
#[local] Instance ex_unicode : Unicode := {| ToLower_unicode := fun s => s; TrimSpace_unicode := fun s => s |}.
Definition ex_description : Device :=
  mkDevice (str "urn:schemas-upnp-org:device:InternetGatewayDevice:1")
    [mkDevice (str "urn:schemas-upnp-org:device:WANDevice:1")
       [mkDevice (str "urn:schemas-upnp-org:device:WANConnectionDevice:1") []
          [mkUPNPService (str "urn:schemas-upnp-org:service:WANIPConnection:1") (str "/ctl")]] []] [].
#[local] Instance ex_http : Http :=
  {| Get := fun url => if bool_decide (url = str "http://10.0.0.9:1/") then None
       else Some (if 0 <=? Index url (str "://") then Ok (200, Ok ex_description) else Err (EMsg []));
     NewRequest := fun _ => None |}.
Lemma ex_http_laws : @HttpLaws ex_http.
Proof.
  intros url r. unfold Get, ex_http. case_bool_decide; [discriminate|].
  destruct (Z.leb_spec 0 (Index url (str "://"))) as [Hx|Hx]; [done|discriminate].
Qed.

Definition ex_answer : gostring :=
  str "HTTP/1.1 200 OK" ++ crlf ++ str "ST: urn:schemas-upnp-org:device:InternetGatewayDevice:1" ++ crlf ++
  str "LOCATION: http://10.0.0.1:5000/Root.xml" ++ crlf ++ crlf.

(** A second gateway, which never answers a request. *)
Definition ex_silent : gostring :=
  str "HTTP/1.1 200 OK" ++ crlf ++ str "ST: urn:schemas-upnp-org:device:InternetGatewayDevice:1" ++ crlf ++
  str "LOCATION: http://10.0.0.9:1/" ++ crlf ++ crlf.
Definition ex_interfaces : res error (list (res error (list (option IP)))) :=
  Ok [Ok [Some [127; 0; 0; 1]; None; Some [10; 0; 0; 7]]].

(** The first answer of a round is lost; a printer's is passed over.  A gateway that is silent
    keeps the discovery waiting. *)
Lemma discover_safe_witness :
  (exists n, @Discover ex_unicode ex_http None None None None None None [Some ex_answer; Some (str "printer"); Some ex_answer] ex_interfaces
      = Returns (Ok n) /\
    serviceURL n = str "http://10.0.0.1:5000/ctl" /\
    @described_by ex_unicode ex_http [Some ex_answer; Some (str "printer"); Some ex_answer] ex_interfaces n) /\
  @Discover ex_unicode ex_http None None None None None None [None; Some ex_silent] ex_interfaces = Runs /\
  exists answer url, Some answer ∈ [None; Some ex_silent] /\ @answer_location ex_unicode answer = Some url /\ @Get ex_http url = None.
Proof.
  split; [|split; [vm_compute; reflexivity|]].
  - pose proof (@discover_safe ex_unicode ex_http ex_http_laws None None None None None None
      [Some ex_answer; Some (str "printer"); Some ex_answer] ex_interfaces) as Hd.
    assert (exists n, @Discover ex_unicode ex_http None None None None None None [Some ex_answer; Some (str "printer"); Some ex_answer] ex_interfaces
      = Returns (Ok n) /\ serviceURL n = str "http://10.0.0.1:5000/ctl") as (n & En & Hu)
      by (eexists; split; vm_compute; reflexivity).
    rewrite En in Hd. exists n. split; [exact En|]. split; [exact Hu|]. exact (Hd n eq_refl).
  - pose proof (@discover_safe ex_unicode ex_http ex_http_laws None None None None None None [None; Some ex_silent] ex_interfaces) as Hd.
    assert (@Discover ex_unicode ex_http None None None None None None [None; Some ex_silent] ex_interfaces = Runs) as E
      by (vm_compute; reflexivity).
    rewrite E in Hd. exact Hd.
Defined.
