(* ===== verification/Listener.v ===== *)
(** * The listener

    Models [p2p/listener.go]: how a listener finds its internal and its external address, and
    the routine that accepts connections and hands them to the switch over a bounded channel.
    The socket, the table of interfaces, the port mapping of Upnp.v and the external address
    service [GetIP], which the repository calls but does not contain, are arguments.  The
    listener's service is the one of Dispatch.v. *)
From S2P Require Import Prelude Errors GoLib NetAddress NodeInfo Resolve Connection Switch Dispatch Upnp.

Definition numBufferedConnections : Z := 10.
Definition defaultExternalPort : Z := 8770.
Definition tryListenSeconds : nat := 5.

Definition splitHostPort (addr : gostring) : option (gostring * Z) :=
  match SplitHostPort addr with
  | Err _ => go_panic
  | Ok (host, portStr) =>
      match Atoi portStr with Err _ => go_panic | Ok port => Some (host, port) end
  end.

(** ** External addresses *)
(** The loop over the addresses of the interfaces, which may be of another kind ([None]). *)
Fixpoint naive_scan (addrs : list (option IP)) (port : Z) (settleForLocal : bool) : option NetAddress :=
  match addrs with
  | [] => None
  | None :: addrs => naive_scan addrs port settleForLocal
  | Some ip :: addrs =>
      match To4 ip with
      | None => naive_scan addrs port settleForLocal
      | Some v4 =>
          if negb settleForLocal && bool_decide (head v4 = Some 127) then naive_scan addrs port settleForLocal
          else Some (NewNetAddressIPPort ip (u16 port))
      end
  end.

(** [k] counts the calls of [net.InterfaceAddrs]. *)
Fixpoint getNaiveExternalAddress (fuel : nat) (InterfaceAddrs : nat -> res error (list (option IP)))
    (k : nat) (port : Z) (settleForLocal : bool) : outcome NetAddress :=
  match fuel with
  | O => Runs
  | S fuel =>
      match InterfaceAddrs k with
      | Err _ => Panics
      | Ok addrs =>
          match naive_scan addrs port settleForLocal with
          | Some na => Returns na
          | None => getNaiveExternalAddress fuel InterfaceAddrs (S k) port true
          end
      end
  end.

(** What the network answers to the discovery of a gateway and to the two requests. *)
Record gateway := mkGateway {
  g_resolved : option error; g_listens : option error; g_deadline : option error; g_w1 : option error; g_w2 : option error; g_w3 : option error;
  g_reads : list (option gostring);
  g_Interfaces : res error (list (res error (list (option IP))));
  g_External : request -> option (res error (Z * envelope));
  g_Mapping : request -> option (res error (Z * unit));
}.

(** What the listener is given by the system and the network. *)
Record lenv := mkLenv {
  Listen : gostring -> gostring -> nat -> res error gostring;
  GetIP : bool * gostring;
  InterfaceAddrs : nat -> res error (list (option IP));
  DialTimeout : gostring -> option error;
  net_gateway : gateway;
}.

Record DefaultListener := mkListener { intAddr : NetAddress; extAddr : NetAddress; l_svc : service }.

(** The first attempt that succeeds, or the error of the last; [n] more attempts are left. *)
Fixpoint listen_tries (n : nat) (listen : nat -> res error gostring) (i : nat) : res error gostring :=
  match listen i with
  | Ok a => Ok a
  | Err err => match n with O => Err err | S n => listen_tries n listen (S i) end
  end.

Section listener.
Context {UN : Unicode} {HT : Http} {RS : Resolver}.

Definition getUPNPExternalAddress (g : gateway) (externalPort internalPort : Z) : outcome (option NetAddress) :=
  nat ← Discover (g_resolved g) (g_listens g) (g_deadline g) (g_w1 g) (g_w2 g) (g_w3 g) (g_reads g) (g_Interfaces g);
  match nat with
  | Err _ => Returns None
  | Ok nat =>
      ext ← GetExternalAddress (g_External g) nat;
      match ext with
      | Err _ => Returns None
      | Ok ext =>
          let externalPort := if externalPort =? 0 then defaultExternalPort else externalPort in
          r ← AddPortMapping (g_Mapping g) nat (str "tcp") externalPort internalPort (str "bytomd") 0;
          Returns (match r with
                   | Err _ => None
                   | Ok externalPort => Some (NewNetAddressIPPort ext (u16 externalPort))
                   end)
      end
  end.

(** The choice of the external address: with it, whether the address is known to be external
    ([getExtIP]) and whether a port is mapped to it ([listenerStatus]). *)
Definition external_address_of (fuel : nat) (env : lenv) (lAddrIP : gostring) (lAddrPort listenerPort : Z) (skipUPNP : bool)
    : outcome (NetAddress * bool * bool) :=
  up ← (if negb skipUPNP && (bool_decide (lAddrIP = []) || bool_decide (lAddrIP = str "0.0.0.0"))
        then getUPNPExternalAddress (net_gateway env) lAddrPort listenerPort else Returns None);
  match up with
  | Some na => Returns (na, true, true)
  | None =>
      let '(Success, Ip) := GetIP env in
      if Success : bool
      then Returns (NewNetAddressIPPort (default [] (ParseIP Ip)) (u16 lAddrPort), true, false)
      else
        na ← getNaiveExternalAddress fuel (InterfaceAddrs env) 0 listenerPort false;
        Returns (na, false, false)
  end.

Definition NewDefaultListener (fuel : nat) (env : lenv) (protocol lAddr : gostring) (skipUPNP : bool)
    : outcome (DefaultListener * bool) :=
  '(lAddrIP, lAddrPort) ← or_panic (splitHostPort lAddr);
  match listen_tries (tryListenSeconds - 1) (Listen env protocol lAddr) 0 with
  | Err _ => Panics
  | Ok bound =>
      '(_, listenerPort) ← or_panic (splitHostPort bound);
      int ← or_panic (NewNetAddressString lAddr);
      match int with
      | Err _ => Panics
      | Ok int =>
          '(ext, getExtIP, listenerStatus) ← external_address_of fuel env lAddrIP lAddrPort listenerPort skipUPNP;
          let dl := mkListener int ext (Start None NewBaseService).1 in
          let listenerStatus :=
            if negb listenerStatus && getExtIP
            then match DialTimeout env (NetAddress_String ext) with None => true | Some _ => false end
            else listenerStatus in
          Returns (dl, listenerStatus)
      end
  end.

Definition InternalAddress (l : DefaultListener) : NetAddress := intAddr l.
Definition ExternalAddress (l : DefaultListener) : NetAddress := extAddr l.
Definition Listener_String (l : DefaultListener) : gostring :=
  str "Listener(@" ++ NetAddress_String (extAddr l) ++ str ")".
End listener.

(** ** Accepting connections *)
(** Where the routine is: in [Accept], before the test of what [Accept] has returned, at the
    channel with a connection, over, or panicked.  Over, it still has the connection that
    [Accept] returned last, if it did, which nobody closes. *)
Inductive routine (C : Type) :=
| Accepting
| Testing (r : res error C)
| Sending (c : C)
| Exited (last : option C)
| Crashed.
Arguments Accepting {C}.
Arguments Testing {C} _.
Arguments Sending {C} _.
Arguments Exited {C} _.
Arguments Crashed {C}.

Record listening (C : Type) := mkListening {
  svc : service;
  sock_open : bool;
  connections : list C;
  connections_closed : bool;
  at_ : routine C;
}.
Arguments mkListening {C} _ _ _ _ _.
Arguments svc {C} _.
Arguments sock_open {C} _.
Arguments connections {C} _.
Arguments connections_closed {C} _.
Arguments at_ {C} _.

(** [LAccept]: a call of [Accept] returns.  [LTest]: the routine asks whether the listener runs
    and goes on by the answer.  [LSend]: the channel takes the connection.  [LStop]: the service
    is marked as stopped, before [LClose], by [OnStop], closes the socket.  [LRecv]: the switch
    takes a connection off the channel. *)
Inductive levent (C : Type) :=
| LAccept (r : res error C)
| LTest
| LSend
| LStop
| LClose
| LRecv.
Arguments LAccept {C} _.
Arguments LTest {C}.
Arguments LSend {C}.
Arguments LStop {C}.
Arguments LClose {C}.
Arguments LRecv {C}.

Definition ok_of {C} (r : res error C) : option C := match r with Ok c => Some c | Err _ => None end.

Section routine.
Context {C : Type}.
Implicit Types (l : listening C).

(** [OnStart] starts the routine. *)
Definition OnStart : listening C :=
  mkListening (Start None NewBaseService).1 true [] false Accepting.

Definition at_next (a : routine C) l : listening C :=
  mkListening (svc l) (sock_open l) (connections l) (connections_closed l) a.

(** A closed socket accepts nothing.  After the loop the channel is closed. *)
Definition lstep (e : levent C) l : option (listening C * list C) :=
  match e with
  | LAccept r =>
      match at_ l, sock_open l, r with
      | Accepting, false, Ok _ => None
      | Accepting, _, _ => Some (at_next (Testing r) l, [])
      | _, _, _ => None
      end
  | LTest =>
      match at_ l with
      | Testing r =>
          Some (if negb (IsRunning (svc l)) then mkListening (svc l) (sock_open l) (connections l) true (Exited (ok_of r))
                else match r with
                     | Err _ => at_next Crashed l
                     | Ok c => at_next (Sending c) l
                     end, [])
      | _ => None
      end
  | LSend =>
      match at_ l with
      | Sending c =>
          if #(connections l) <? numBufferedConnections
          then Some (mkListening (svc l) (sock_open l) (connections l ++ [c]) (connections_closed l) Accepting, [])
          else None
      | _ => None
      end
  | LStop => Some (mkListening (Stop (svc l)).1 (sock_open l) (connections l) (connections_closed l) (at_ l), [])
  | LClose =>
      if stopped (svc l) then Some (mkListening (svc l) false (connections l) (connections_closed l) (at_ l), []) else None
  | LRecv =>
      match connections l with
      | [] => None
      | c :: cs => Some (mkListening (svc l) (sock_open l) cs (connections_closed l) (at_ l), [c])
      end
  end.

(** The state and the connections that the switch has taken. *)
Fixpoint lrun (es : list (levent C)) l : option (listening C * list C) :=
  match es with
  | [] => Some (l, [])
  | e :: es =>
      '(l, out) ← lstep e l;
      '(l, outs) ← lrun es l;
      Some (l, out ++ outs)
  end.

(** The connections that [Accept] returns, and the errors of it that are tested while the
    listener runs. *)
Definition accepted_by (e : levent C) l : list C :=
  match e with LAccept (Ok c) => [c] | _ => [] end.
Definition failed_by (e : levent C) l : list error :=
  match e, at_ l with LTest, Testing (Err e) => if IsRunning (svc l) then [e] else [] | _, _ => [] end.

Fixpoint along {A} (f : levent C -> listening C -> list A) (es : list (levent C)) l : list A :=
  match es with
  | [] => []
  | e :: es => f e l ++ match lstep e l with Some (l, _) => along f es l | None => [] end
  end.

(** The connection that the routine still works on, and the one that it has given up. *)
Definition in_hand l : list C := match at_ l with Testing (Ok c) | Sending c => [c] | _ => [] end.
Definition given_up l : list C := match at_ l with Exited (Some c) => [c] | _ => [] end.
Definition exited l : Prop := exists last, at_ l = Exited last.

Record Listens l : Prop := {
  ls_started : started (svc l) = true;
  ls_cap : #(connections l) <= numBufferedConnections;
  ls_sock : sock_open l = false -> stopped (svc l) = true;
  ls_closed : connections_closed l = true <-> exited l;
  ls_exit : exited l -> stopped (svc l) = true;
}.

Lemma OnStart_listens : Listens OnStart.
Proof. split; try done; [split; [done|by intros [? ?]]|by intros [? ?]]. Qed.

Lemma Stop_stopped (s : service) : stopped (Stop s).1 = true /\ started (Stop s).1 = started s.
Proof. unfold Stop. by destruct (stopped s) eqn:E. Qed.

Lemma running_stopped l : Listens l -> IsRunning (svc l) = negb (stopped (svc l)).
Proof. intros [Hst _ _ _ _]. unfold IsRunning. by rewrite Hst. Qed.

(** A step of a routine that is not over. *)
Lemma Listens_next l a : Listens l -> ~ exited l -> (forall last, a <> Exited last) -> Listens (at_next a l).
Proof.
  intros [Hst Hcap Hso Hcl Hex] Hne Ha. split; cbn; try done.
  - split; [intros Hx; by apply Hcl in Hx|intros [last Hx]; by apply Ha in Hx].
  - intros [last Hx]. by apply Ha in Hx.
Qed.

Lemma LAccept_keeps r l l' out : Listens l -> lstep (LAccept r) l = Some (l', out) ->
  Listens l' /\ at_ l = Accepting /\ l' = at_next (Testing r) l /\ out = [].
Proof.
  intros Hl. cbn [lstep]. destruct (at_ l) eqn:Ea; try done. intros Hs.
  assert (l' = at_next (Testing r) l /\ out = []) as [-> ->] by (by destruct (sock_open l), r; simplify_eq).
  split; [|done]. apply Listens_next; [done| |done]. intros [? Hx]. congruence.
Qed.

Lemma LTest_keeps l l' out : Listens l -> lstep LTest l = Some (l', out) ->
  Listens l' /\ out = [] /\ exists r, at_ l = Testing r /\ connections l' = connections l /\ sock_open l' = sock_open l /\
    svc l' = svc l /\ at_ l' = if stopped (svc l) then Exited (ok_of r) else match r with Ok c => Sending c | Err _ => Crashed end.
Proof.
  intros Hl. pose proof (running_stopped l Hl) as Hrun. cbn [lstep]. destruct (at_ l) as [|r| | |] eqn:Ea; try done.
  assert (~ exited l) as Hne by (intros [? ?]; congruence). rewrite Hrun, negb_involutive. intros [= <- <-].
  destruct (stopped (svc l)) eqn:Es.
  - destruct Hl as [Hst Hcap Hso Hcl Hex]. split; [|split; [done|by exists r]].
    split; cbn; try done. split; [intros _; by eexists|done].
  - destruct r; (split; [by apply Listens_next|split; [done|by eexists]]).
Qed.

Lemma lstep_keeps e l l' out : Listens l -> lstep e l = Some (l', out) ->
  Listens l' /\
  out ++ connections l' ++ in_hand l' ++ given_up l' = connections l ++ in_hand l ++ given_up l ++ accepted_by e l /\
  (at_ l' = Crashed <-> at_ l = Crashed \/ failed_by e l <> []).
Proof.
  intros Hl Hs. destruct e as [r| | | | |].
  - destruct (LAccept_keeps _ _ _ _ Hl Hs) as (Hl' & Ea & -> & ->). split; [done|]. unfold in_hand, given_up. cbn. rewrite Ea.
    split; [by destruct r|by intuition congruence].
  - destruct (LTest_keeps _ _ _ Hl Hs) as (Hl' & -> & r & Ea & Ec & _ & _ & Ea'). split; [done|].
    unfold in_hand, given_up, failed_by. rewrite Ea', Ec, Ea, (running_stopped l Hl).
    destruct (stopped (svc l)), r; cbn; rewrite ?app_nil_r; split; intuition congruence.
  - cbn [lstep] in Hs. destruct (at_ l) as [| |c| |] eqn:Ea; try done. case_in Hs; [|done]. zbool. injection Hs as <- <-.
    pose proof Hl as [Hst Hcap Hso Hcl Hex]. unfold in_hand, given_up. cbn. rewrite Ea.
    assert (~ exited l) as Hne by (intros [? ?]; congruence).
    split_and!; [split; cbn; try done|by rewrite !app_nil_r|intuition congruence].
    + rewrite zlen_app. change (zlen [c]) with 1. lia.
    + split; [intros Hx; by apply Hcl in Hx|by intros [? ?]].
    + by intros [? ?].
  - cbn [lstep] in Hs. injection Hs as <- <-. destruct Hl as [Hst Hcap Hso Hcl Hex].
    destruct (Stop_stopped (svc l)) as [Hs1 Hs2]. unfold in_hand, given_up. cbn.
    split_and!; [split; cbn; try done; by rewrite Hs2|by rewrite app_nil_r|intuition congruence].
  - cbn [lstep] in Hs. destruct (stopped (svc l)) eqn:Es; [|done]. injection Hs as <- <-.
    destruct Hl as [Hst Hcap Hso Hcl Hex]. unfold in_hand, given_up. cbn.
    split_and!; [by split|by rewrite app_nil_r|intuition congruence].
  - cbn [lstep] in Hs. destruct Hl as [Hst Hcap Hso Hcl Hex]. destruct (connections l) as [|c cs] eqn:Ec; [done|].
    injection Hs as <- <-. unfold in_hand, given_up. cbn.
    split_and!; [split; cbn; try done|by rewrite app_nil_r|intuition congruence].
    rewrite zlen_cons in Hcap. lia.
Qed.

Lemma lrun_keeps es : forall l l' outs, Listens l -> lrun es l = Some (l', outs) ->
  Listens l' /\
  outs ++ connections l' ++ in_hand l' ++ given_up l' = connections l ++ in_hand l ++ given_up l ++ along accepted_by es l /\
  (at_ l' = Crashed <-> at_ l = Crashed \/ along failed_by es l <> []).
Proof.
  induction es as [|e es IH]; intros l l' outs Hl; cbn [lrun along].
  - intros [= <- <-]. rewrite !app_nil_r. split_and!; [done|done|intuition congruence].
  - destruct (lstep e l) as [[l1 out]|] eqn:E1; [|done]. cbn.
    destruct (lrun es l1) as [[l2 outs2]|] eqn:E2; [|done]. cbn. intros [= <- <-].
    destruct (lstep_keeps _ _ _ _ Hl E1) as (Hl1 & Hd & Hc). destruct (IH _ _ _ Hl1 E2) as (Hl2 & Hd2 & Hc2).
    split; [done|]. split.
    + rewrite <- app_assoc, Hd2, !app_assoc. f_equal. by rewrite <- !app_assoc, Hd.
    + rewrite Hc2, Hc. destruct (failed_by e l); cbn; intuition congruence.
Qed.

(** The steps that the routine and the switch still have before them, once the listener is stopped. *)
Definition left_to_do l : Z :=
  #(connections l) + match at_ l with Accepting => 2 | Testing _ => 1 | Sending _ => 4 | _ => 0 end.

Definition routine_event (e : levent C) : Prop := match e with LAccept _ | LTest | LSend | LRecv => True | _ => False end.

Lemma lstep_nearer e l l' out : Listens l -> stopped (svc l) = true -> routine_event e -> lstep e l = Some (l', out) ->
  left_to_do l' < left_to_do l /\ stopped (svc l') = true.
Proof.
  intros Hl Hs He E. unfold left_to_do. destruct e as [r| | | | |]; try done.
  - destruct (LAccept_keeps _ _ _ _ Hl E) as (_ & Ea & -> & _). cbn. rewrite Ea. split; [lia|done].
  - destruct (LTest_keeps _ _ _ Hl E) as (_ & _ & r & Ea & Ec & _ & Ev & Ea'). rewrite Ea', Ec, Ev, Ea, Hs. split; [lia|done].
  - cbn [lstep] in E. destruct (at_ l); try done. case_in E; [|done]. injection E as <- <-. cbn. rewrite zlen_app. change (zlen [c]) with 1.
    split; [lia|done].
  - cbn [lstep] in E. destruct (connections l) as [|c cs]; [done|]. injection E as <- <-. cbn. rewrite zlen_cons. split; [lia|done].
Qed.

Lemma lrun_nearer es : forall l l' outs, Listens l -> stopped (svc l) = true -> Forall routine_event es ->
  lrun es l = Some (l', outs) -> Listens l' /\ left_to_do l' + #es <= left_to_do l /\ stopped (svc l') = true.
Proof.
  induction es as [|e es IH]; intros l l' outs Hl Hs Hes; cbn [lrun].
  - intros [= <- <-]. change (zlen (@nil (levent C))) with 0. split_and!; try done; lia.
  - destruct (lstep e l) as [[l1 out]|] eqn:E1; [|done]. cbn.
    destruct (lrun es l1) as [[l2 outs2]|] eqn:E2; [|done]. cbn. intros [= <- <-].
    apply Forall_cons_1 in Hes as [He Hes]. destruct (lstep_keeps _ _ _ _ Hl E1) as (Hl1 & _).
    destruct (lstep_nearer _ _ _ _ Hl Hs He E1) as (Hm & Hs1). destruct (IH _ _ _ Hl1 Hs1 Hes E2) as (Hl2 & Hm2 & Hs2).
    rewrite zlen_cons. split_and!; try done; lia.
Qed.

Lemma nothing_left l : left_to_do l = 0 -> connections l = [] /\ (exited l \/ at_ l = Crashed).
Proof.
  unfold left_to_do. pose proof (zlen_nonneg (connections l)). destruct (at_ l) eqn:Ea; intros Hz; try lia;
    (split; [apply length_zero_iff_nil; unfold zlen in *; lia|]); [left; by eexists|by right].
Qed.

(** Something can be done while something is left; a closed socket answers with an error. *)
Lemma lstep_enabled (err : error) l : Listens l -> 0 < left_to_do l ->
  exists e l' out, routine_event e /\ lstep e l = Some (l', out).
Proof.
  intros [_ Hcap _ _ _] Hm. destruct (connections l) as [|c cs] eqn:Ec.
  - unfold left_to_do in Hm. rewrite Ec in Hm. change (zlen (@nil C)) with 0 in Hm. destruct (at_ l) as [|r|c| |] eqn:Ea; [| | |lia|lia].
    + exists (LAccept (Err err)). cbn. rewrite Ea. destruct (sock_open l); by eexists _, _.
    + exists LTest. cbn [lstep]. rewrite Ea. by eexists _, _.
    + exists LSend. cbn. rewrite Ea, Ec. by eexists _, _.
  - exists LRecv. cbn. rewrite Ec. by eexists _, _.
Qed.

(** C38: However accepting, the routine's test, handing over, taking connections off the channel and
    stopping are interleaved, the switch gets the connections that [Accept] returned, once and in
    order, but for one at most: the last one, if the stop came before its test; it is then
    neither handed over nor closed.  At most ten wait; the channel is closed only after the
    listener was stopped and with all the others on it or taken.  The routine panics exactly if a failure of
    [Accept] is tested while the listener runs, which the closing of the socket never brings about. *)
Theorem listener_delivers es l outs : lrun es OnStart = Some (l, outs) ->
  outs ++ connections l ++ in_hand l ++ given_up l = along accepted_by es OnStart /\
  #(given_up l) <= 1 /\ (given_up l <> [] -> stopped (svc l) = true) /\
  #(connections l) <= numBufferedConnections /\
  (connections_closed l = true -> stopped (svc l) = true /\ outs ++ connections l ++ given_up l = along accepted_by es OnStart) /\
  (at_ l = Crashed <-> along failed_by es OnStart <> []) /\
  (sock_open l = false -> stopped (svc l) = true).
Proof.
  intros Hr. destruct (lrun_keeps _ _ _ _ OnStart_listens Hr) as ([_ Hcap Hso Hcl Hex] & Hd & Hc). cbn [connections OnStart app in_hand given_up at_] in Hd.
  split_and!; [done| | |done| | |done].
  - unfold given_up. by destruct (at_ l) as [| | |[]|].
  - intros Hg. apply Hex. unfold given_up in Hg. destruct (at_ l) as [| | |[]|] eqn:Ea; try done. by eexists.
  - intros Hx. apply Hcl in Hx as [last Hx]. split; [apply Hex; by eexists|]. unfold in_hand in Hd. rewrite Hx in Hd. done.
  - rewrite Hc. cbn. intuition congruence.
Qed.

(** A listener that is stopped comes to rest: the routine and the switch have at most fourteen
    steps before them, can always take one of them, and after the last the routine is over and
    everything is off the channel. *)
Theorem listener_rests (err : error) es l outs es' l' outs' :
  lrun es OnStart = Some (l, outs) -> stopped (svc l) = true ->
  Forall routine_event es' -> lrun es' l = Some (l', outs') ->
  #es' <= 14 /\
  ((forall e, routine_event e -> lstep e l' = None) ->
   connections l' = [] /\ (exited l' \/ at_ l' = Crashed) /\
   outs' ++ given_up l' = connections l ++ in_hand l ++ given_up l ++ along accepted_by es' l).
Proof.
  intros Hr Hs Hes Hr'. destruct (lrun_keeps _ _ _ _ OnStart_listens Hr) as (Hl & _).
  destruct (lrun_nearer _ _ _ _ Hl Hs Hes Hr') as (Hl' & Hm & Hs'). split.
  - destruct Hl as [_ Hcap _ _ _]. unfold left_to_do, numBufferedConnections in *. pose proof (zlen_nonneg (connections l')).
    destruct (at_ l), (at_ l'); lia.
  - intros Hn. assert (left_to_do l' = 0) as Hz.
    { pose proof (zlen_nonneg (connections l')).
      destruct (decide (0 < left_to_do l')) as [Hp|]; [|unfold left_to_do in *; destruct (at_ l'); lia].
      destruct (lstep_enabled err _ Hl' Hp) as (e & ? & ? & He & Hc). by rewrite Hn in Hc. }
    destruct (nothing_left _ Hz) as [Hc Ha]. split_and!; [done|done|].
    destruct (lrun_keeps _ _ _ _ Hl Hr') as (_ & Hd & _). rewrite Hc in Hd.
    assert (in_hand l' = []) as Hi by (unfold in_hand; destruct Ha as [[? ->] | ->]; done). by rewrite Hi in Hd.
Qed.
End routine.

(** ** The external address *)
Lemma naive_scan_some addrs port settle na : naive_scan addrs port settle = Some na ->
  exists ip v4, Some ip ∈ addrs /\ To4 ip = Some v4 /\ (settle = false -> head v4 <> Some 127) /\
    na = NewNetAddressIPPort ip (u16 port).
Proof.
  induction addrs as [|[ip|] addrs IH]; cbn [naive_scan]; [done| |].
  - destruct (To4 ip) as [v4|] eqn:E4.
    + destruct settle; cbn [negb andb].
      * intros [= <-]. exists ip, v4. split_and!; [left|done|done|done].
      * case_bool_decide as Hv.
        -- intros Hs. apply IH in Hs as (i & v & Hi & Hr). exists i, v. split; [by right|done].
        -- intros [= <-]. exists ip, v4. split_and!; [left|done|done|done].
    + intros Hs. apply IH in Hs as (i & v & Hi & Hr). exists i, v. split; [by right|done].
  - intros Hs. apply IH in Hs as (i & v & Hi & Hr). exists i, v. split; [by right|done].
Qed.

Lemma naive_scan_none addrs port settle ip v4 : naive_scan addrs port settle = None ->
  Some ip ∈ addrs -> To4 ip = Some v4 -> settle = false /\ head v4 = Some 127.
Proof.
  induction addrs as [|[i|] addrs IH]; cbn [naive_scan]; intros Hs Hin H4; [by apply not_elem_of_nil in Hin| |].
  - apply elem_of_cons in Hin as [[= <-]|Hin].
    + rewrite H4 in Hs. case_in Hs; [|done]. apply andb_prop in Heqb as [Hn Hb].
      split; [by destruct settle|by apply bool_decide_eq_true in Hb].
    + apply IH; [|done|done]. destruct (To4 i); [by case_in Hs|done].
  - apply elem_of_cons in Hin as [?|Hin]; [done|by apply IH].
Qed.

(** The address of an interface: one that is not the loopback if there is one, else a loopback
    one, found in at most two rounds.  If no interface has an IPv4 address the function calls
    itself for ever: it has no result for any fuel. *)
Theorem naive_external_address (addrs : list (option IP)) (port : Z) (fuel : nat) :
  match getNaiveExternalAddress (S (S fuel)) (fun _ => Ok addrs) 0 port false with
  | Returns na => exists ip v4, Some ip ∈ addrs /\ To4 ip = Some v4 /\ na = NewNetAddressIPPort ip (u16 port) /\
      (head v4 = Some 127 -> forall ip' v4', Some ip' ∈ addrs -> To4 ip' = Some v4' -> head v4' = Some 127)
  | Panics => False
  | Runs => forall ip, Some ip ∈ addrs -> To4 ip = None
  end.
Proof.
  cbn [getNaiveExternalAddress]. destruct (naive_scan addrs port false) as [na|] eqn:E1.
  - apply naive_scan_some in E1 as (ip & v4 & Hi & H4 & Hl & ->). exists ip, v4. split_and!; try done.
    intros Hh. by destruct (Hl eq_refl).
  - destruct (naive_scan addrs port true) as [na|] eqn:E2.
    + apply naive_scan_some in E2 as (ip & v4 & Hi & H4 & _ & ->). exists ip, v4. split_and!; try done.
      intros _ ip' v4' Hi' H4'. by destruct (naive_scan_none _ _ _ _ _ E1 Hi' H4').
    + assert (getNaiveExternalAddress fuel (fun _ => Ok addrs) 2 port true = Runs) as ->.
      { generalize 2%nat. induction fuel as [|fuel IH]; intros k; cbn [getNaiveExternalAddress]; [done|]. by rewrite E2. }
      intros ip Hi. destruct (To4 ip) as [v4|] eqn:E4; [|done]. by destruct (naive_scan_none _ _ _ _ _ E2 Hi E4).
Qed.

Section status.
Context {UN : Unicode} {HT : Http} {RS : Resolver}.

(** A listener that is returned has been started. *)
Lemma listener_runs fuel env protocol lAddr skipUPNP dl status :
  NewDefaultListener fuel env protocol lAddr skipUPNP = Returns (dl, status) -> IsRunning (l_svc dl) = true.
Proof.
  unfold NewDefaultListener. destruct (splitHostPort lAddr) as [[lip lport]|]; [|done]. cbn [or_panic mbind outcome_bind].
  destruct (listen_tries _ _ _) as [bound|]; [|done]. destruct (splitHostPort bound) as [[bip bport]|]; [|done]. cbn [or_panic mbind outcome_bind].
  destruct (NewNetAddressString lAddr) as [[int|]|]; cbn [or_panic mbind outcome_bind]; try done.
  destruct (external_address_of _ _ _ _ _ _) as [[[ext ge] st]| |]; cbn [mbind outcome_bind]; [|done|done].
  by intros [= <- _].
Qed.

(** A port that was mapped: the gateway's external address, found by discovery. *)
Definition mapped_by (g : gateway) (lport bport : Z) (na : NetAddress) : Prop :=
  getUPNPExternalAddress g lport bport = Returns (Some na).

(** A listener that is returned runs and has the configured internal address.  It is reported
    as reachable only if a gateway mapped a port to its external address, which is tried only
    for a listener on every address, or a connection to the external address was made. *)
Theorem listener_status fuel env protocol lAddr skipUPNP dl status :
  NewDefaultListener fuel env protocol lAddr skipUPNP = Returns (dl, status) ->
  IsRunning (l_svc dl) = true /\ NewNetAddressString lAddr = Some (Ok (InternalAddress dl)) /\
  (status = true ->
   DialTimeout env (NetAddress_String (ExternalAddress dl)) = None \/
   exists lip lport bport, skipUPNP = false /\ splitHostPort lAddr = Some (lip, lport) /\ lip ∈ [[]; str "0.0.0.0"] /\
     mapped_by (net_gateway env) lport bport (ExternalAddress dl)).
Proof.
  unfold NewDefaultListener. destruct (splitHostPort lAddr) as [[lip lport]|]; [|done]. cbn [or_panic mbind outcome_bind].
  destruct (listen_tries _ _ _) as [bound|]; [|done]. destruct (splitHostPort bound) as [[bip bport]|]; [|done]. cbn [or_panic mbind outcome_bind].
  destruct (NewNetAddressString lAddr) as [[int|]|]; cbn [or_panic mbind outcome_bind]; try done.
  unfold external_address_of. intros Hn.
  destruct (negb skipUPNP && _) eqn:Eg.
  - destruct (getUPNPExternalAddress (net_gateway env) lport bport) as [[na|]| |] eqn:Eu; cbn [or_panic mbind outcome_bind negb andb] in Hn; [| |done|done].
    + injection Hn as <- <-. split_and!; try done. intros _. right. exists lip, lport, bport.
      apply andb_prop in Eg as [Hs Hor]. split_and!; [by destruct skipUPNP|done| |done].
      apply orb_prop in Hor as [Hor|Hor]; apply bool_decide_eq_true in Hor as ->; set_solver.
    + destruct (GetIP env) as [[] Ip]; cbn [mbind outcome_bind negb andb] in Hn.
      * injection Hn as <- <-. split_and!; try done. cbn. case_on; [done|by left].
      * destruct (getNaiveExternalAddress _ _ _ _ _); cbn in Hn; by simplify_eq.
  - cbn [mbind outcome_bind] in Hn. destruct (GetIP env) as [[] Ip]; cbn [mbind outcome_bind negb andb] in Hn.
    + injection Hn as <- <-. split_and!; try done. cbn. case_on; [done|by left].
    + destruct (getNaiveExternalAddress _ _ _ _ _); cbn in Hn; by simplify_eq.
Qed.

Lemma listen_tries_ok listen n : forall i j a, (i <= j <= i + n)%nat -> listen j = Ok a ->
  exists a' k, listen_tries n listen i = Ok a' /\ listen k = Ok a'.
Proof.
  induction n as [|n IH]; intros i j a Hj Ha; cbn [listen_tries].
  - assert (j = i) as -> by lia. rewrite Ha. by eexists _, _.
  - destruct (listen i) as [b|err] eqn:Ei; [by eexists _, _|]. apply (IH (S i) j a); [|done].
    destruct (decide (j = i)) as [->|]; [congruence|lia].
Qed.

(** A listener is returned if one of the five attempts to listen succeeds, the texts of the
    addresses are well-formed, an interface has an IPv4 address and, when UPnP is tried, the
    gateway answers every request, with the element that is asked for. *)
Theorem listener_returns fuel env protocol lAddr skipUPNP lip lport int j bound addrs ip :
  splitHostPort lAddr = Some (lip, lport) -> NewNetAddressString lAddr = Some (Ok int) ->
  (j < tryListenSeconds)%nat -> Listen env protocol lAddr j = Ok bound ->
  (forall k b, Listen env protocol lAddr k = Ok b -> is_Some (splitHostPort b)) ->
  (forall k, InterfaceAddrs env k = Ok addrs) -> Some ip ∈ addrs -> is_Some (To4 ip) ->
  (skipUPNP = true \/ forall bport, exists up, getUPNPExternalAddress (net_gateway env) lport bport = Returns up) ->
  exists dl status, NewDefaultListener (S (S fuel)) env protocol lAddr skipUPNP = Returns (dl, status).
Proof.
  intros Hl Hint Hj Hb Hok Hif Hip [v4 H4] Hup. unfold NewDefaultListener. rewrite Hl, Hint. cbn [or_panic mbind outcome_bind].
  destruct (listen_tries_ok (Listen env protocol lAddr) (tryListenSeconds - 1) 0 j bound) as (b & k & -> & Hk);
    [unfold tryListenSeconds in *; lia|done|].
  destruct (Hok _ _ Hk) as [[bip bport] ->]. cbn [or_panic mbind outcome_bind].
  assert (exists na, getNaiveExternalAddress (S (S fuel)) (InterfaceAddrs env) 0 bport false = Returns na) as [na Hna].
  { pose proof (naive_external_address addrs bport fuel) as Hn.
    assert (forall f k s, (getNaiveExternalAddress f (InterfaceAddrs env) k bport s)
      = (getNaiveExternalAddress f (fun _ => Ok addrs) k bport s)) as Heq.
    { induction f as [|f IH]; intros k' s; cbn [getNaiveExternalAddress]; [done|]. rewrite Hif. by rewrite IH. }
    rewrite Heq. destruct (getNaiveExternalAddress _ _ _ _ _) as [na| |]; [by eexists|done|].
    rewrite (Hn ip Hip) in H4. done. }
  unfold external_address_of. rewrite Hna.
  assert (exists up, (if negb skipUPNP && (bool_decide (lip = []) || bool_decide (lip = str "0.0.0.0"))
        then getUPNPExternalAddress (net_gateway env) lport bport else Returns None) = Returns up) as [up ->].
  { destruct (negb skipUPNP && _) eqn:Eg; [|by eexists]. destruct Hup as [->|Hup]; [done|].
    destruct (Hup bport) as [up ->]. by exists up. }
  cbn [or_panic mbind outcome_bind]. destruct up as [u|]; [by eexists _, _|]. destruct (GetIP env) as [[] Ip]; by eexists _, _.
Qed.
End status.

(** *** A concrete run *)
(** Three connections are accepted and the listener is stopped before the third is tested: the
    switch takes two, and the third is given up. *)
Definition ex_events : list (levent Z) :=
  [LAccept (Ok 7); LTest; LSend; LAccept (Ok 8); LTest; LSend; LAccept (Ok 9); LStop; LClose].
Definition ex_rest : list (levent Z) := [LRecv; LTest; LRecv].

Lemma listener_delivers_witness : exists l,
  lrun (ex_events ++ ex_rest) OnStart = Some (l, [7; 8]) /\ connections_closed l = true /\ [7; 8] ++ connections l ++ given_up l = [7; 8; 9].
Proof.
  assert (exists l, lrun (ex_events ++ ex_rest) OnStart = Some (l, [7; 8]) /\ connections_closed l = true) as (l & Hl & Hc)
    by (eexists; split; vm_compute; reflexivity).
  exists l. split; [exact Hl|]. split; [exact Hc|].
  destruct (listener_delivers (ex_events ++ ex_rest) l [7; 8] Hl) as (_ & _ & _ & _ & Hd & _). exact (proj2 (Hd Hc)).
Defined.

Lemma listener_rests_witness : exists l l' outs,
  lrun ex_events OnStart = Some (l, []) /\ lrun ex_rest l = Some (l', outs) /\ #ex_rest <= 14 /\ outs = [7; 8].
Proof.
  assert (exists l l' outs, lrun ex_events OnStart = Some (l, []) /\ stopped (svc l) = true /\ lrun ex_rest l = Some (l', outs) /\
    outs = [7; 8]) as (l & l' & outs & Hl & Hs & Hr & Ho)
    by (eexists _, _, _; split_and!; vm_compute; reflexivity).
  exists l, l', outs. split_and!; [exact Hl|exact Hr| |exact Ho].
  apply (listener_rests (EMsg []) ex_events l [] ex_rest l' outs); [exact Hl|exact Hs|repeat constructor|exact Hr].
Defined.

#[local] Existing Instance one_resolver.
Definition ex_gateway : gateway :=
  mkGateway (Some (EMsg [])) None None None None None [] (Ok []) (fun _ => None) (fun _ => None).
Definition ex_lenv : lenv :=
  mkLenv (fun _ _ k => match k with O => Err (EMsg []) | _ => Ok (str "[::]:46656") end) (true, str "10.0.0.1")
    (fun _ => Ok [Some [127; 0; 0; 1]]) (fun _ => None) ex_gateway.

Lemma listener_status_witness : exists dl,
  @NewDefaultListener ex_unicode ex_http one_resolver 2 ex_lenv (str "tcp") (str "10.0.0.1:46656") false = Returns (dl, true) /\ IsRunning (l_svc dl) = true.
Proof.
  assert (exists dl, @NewDefaultListener ex_unicode ex_http one_resolver 2 ex_lenv (str "tcp") (str "10.0.0.1:46656") false = Returns (dl, true))
    as [dl Hdl] by (eexists; vm_compute; reflexivity).
  exists dl. split; [exact Hdl|].
  apply (@listener_status ex_unicode ex_http one_resolver 2 ex_lenv (str "tcp") (str "10.0.0.1:46656") false dl true Hdl).
Defined.
