(* ===== verification/Genesis.v ===== *)
(** * The genesis block

    Models [config/genesis.go]: the block on which the chain starts and by whose hash nodes
    recognise that they are on the same chain.  Hashing is the parameter of Hash.v, and the
    identifiers of entries those of MapTx.v. *)
From S2P Require Import Prelude Errors GoLib Encoding Hash Merkle Entry TxTypes BlockTypes Consensus MapTx.

Definition genesis_arbitrary : bytes :=
  str "Information is power. -- Jan/11/2013. Computing is power. -- Apr/24/2018.".

(** [None] is the panic of a program that is not hexadecimal. *)
Definition genesis_contract : option bytes :=
  match hex_decode (str "00148c9d063ff74ee6d9ffa88d83aeb038068366c4c4") with
  | (contract, None) => Some contract
  | (_, Some _) => go_panic
  end.

(** The transaction's literal leaves its serialized size at zero. *)
Definition genesis_TxData : option TxData :=
  contract ← genesis_contract;
  Some (mkTxData 1 0 0 [NewCoinbaseInput genesis_arbitrary] [NewTxOutput BTMAssetID InitialBlockSubsidy contract]).

Section genesis.
Context {RT : Runtime} {SH : Sha3} {BcTx : Type} (MapTx : TxData -> option BcTx) (tx_ID : BcTx -> Hash).

Definition genesisTx : option (Tx BcTx) :=
  txData ← genesis_TxData;
  NewTx MapTx txData.

Definition GenesisBlock : option (Block BcTx) :=
  tx ← genesisTx;
  '(_, txStatus) ← SetStatus NewTransactionStatus 0 false;
  let txStatusHash := TxStatusMerkleRoot (VerifyStatus txStatus) in
  let merkleRoot := TxMerkleRoot tx_ID [tx_Tx tx] in
  Some (mkBlock
    (mkBlockHeader 1 0 zeroHash 1524549600 9253507043297 2161727821137910632
       (mkBlockCommitment merkleRoot txStatusHash))
    [tx]).
End genesis.

(** ** Properties *)
(** The literal, and what a reader makes of its encoding: the size filled in. *)
Definition genesis_data : TxData := default (mkTxData 0 0 0 [] []) genesis_TxData.
Definition genesis_sized : TxData :=
  mkTxData (tx_Version genesis_data) 151 (TimeRange genesis_data) (Inputs genesis_data) (Outputs genesis_data).

Lemma genesis_TxData_eq : genesis_TxData = Some genesis_data.
Proof. vm_compute. reflexivity. Qed.

Lemma genesis_sized_enc {RT : Runtime} {SH : Sha3} : enc_tx genesis_sized = enc_tx genesis_data.
Proof. done. Qed.

Definition genesis_program : bytes := default [] genesis_contract.
Lemma genesis_program_ok : genesis_contract = Some genesis_program /\ bytes_ok genesis_program /\ #genesis_program = 22.
Proof. split; [vm_compute; reflexivity|]. split; [apply bytes_okb_ok|]; vm_compute; reflexivity. Qed.

Lemma genesis_data_ok {RT : Runtime} {SH : Sha3} : TxData_ok genesis_data /\ #(enc_tx genesis_data) = 151.
Proof.
  split; [|vm_compute; reflexivity].
  assert (forall x, 0 <= x <= 2 ^ 62 -> u63_ok x) as Hu by (intros x Hx; unfold u63_ok, MaxInt63; lia).
  destruct genesis_program_ok as (Hc & Hcb & Hcl).
  assert (genesis_data = mkTxData 1 0 0 [NewCoinbaseInput genesis_arbitrary] [NewTxOutput BTMAssetID InitialBlockSubsidy genesis_program]) as ->.
  { unfold genesis_data, genesis_TxData. by rewrite Hc. }
  split; [by apply Hu|]. split; [by apply Hu|]. split; [done|]. split; [|split; [done|]]; (constructor; [|constructor]).
  - split; [by apply Hu|]. split; [|split; [constructor|split; [constructor|split; vm_compute; discriminate]]].
    eexists. split; [reflexivity|]. split; [|done]. split; [apply bytes_okb_ok; vm_compute; reflexivity|vm_compute; discriminate].
  - split; [by apply Hu|]. split; [|split; [constructor|]].
    + split; [|split; [done|split; [done|vm_compute; discriminate]]].
      split; [|by apply Hu]. eexists. split; [reflexivity|]. vm_compute. repeat split; discriminate.
    + vm_compute. discriminate.
Qed.

(** What a transaction's outputs pay of an asset. *)
Definition paid (asset : AssetID) (data : TxData) : Z :=
  foldr Z.add 0 ((fun out => Amount (oc_AssetAmount (to_OutputCommitment out)))
    <$> filter (fun out => AssetId (oc_AssetAmount (to_OutputCommitment out)) = Some asset) (Outputs data)).

Section genesis_properties.
Context {RT : Runtime} `{SL : Sha3Laws}.

Lemma GenesisBlock_made {BcTx} (MapTx : TxData -> option BcTx) (tx_ID : BcTx -> Hash) t : MapTx genesis_data = Some t ->
  GenesisBlock MapTx tx_ID = Some (mkBlock
    (mkBlockHeader 1 0 zeroHash 1524549600 9253507043297 2161727821137910632
       (mkBlockCommitment (readDigest (leafPrefix ++ Byte32 (tx_ID t))) (readDigest (leafPrefix ++ str "{}"))))
    [mkTx genesis_data t]).
Proof.
  intros Ht. unfold GenesisBlock, genesisTx. rewrite genesis_TxData_eq. cbn [mbind option_bind]. unfold NewTx.
  rewrite Ht. reflexivity.
Qed.

Lemma genesis_header_ok root status : BlockHeader_ok
  (mkBlockHeader 1 0 zeroHash 1524549600 9253507043297 2161727821137910632
     (mkBlockCommitment (readDigest root) (readDigest status))).
Proof.
  assert (forall x, 0 <= x <= 2 ^ 62 -> u63_ok x) as Hu by (intros x Hx; unfold u63_ok, MaxInt63; lia).
  unfold BlockHeader_ok, BlockCommitment_ok. cbn [bh_Version Height PreviousBlockHash Timestamp bh_Nonce Bits
    bh_BlockCommitment TransactionsMerkleRoot TransactionStatusHash].
  split_and!; try (apply Hu; lia); try apply readDigest_ok; done.
Qed.

(** C39: The genesis block is made without a panic, whatever order Go ranges over its maps in, if the
    identifiers of its transaction's entries are distinct.  It has height zero and no
    predecessor and commits to its one transaction and its status, whose entries are those of
    the reference translation.  The transaction pays the whole subsidy of height zero in BTM,
    and its coinbase text is within the limit. *)
Theorem genesis_block `{EntryLaws} (range_entries : gmap Hash nat -> list (Hash * nat)) (range_spent : gset Hash -> list Hash) :
  (forall m, range_entries m ≡ₚ map_to_list m) -> (forall s, range_spent s ≡ₚ elements s) -> ids_distinct genesis_data ->
  exists b t, GenesisBlock (MapTx range_entries range_spent) (fun x => bct_ID x.1) = Some b /\
    Transactions b = [mkTx genesis_data (t, ref_entries genesis_data)] /\
    Height (b_BlockHeader b) = 0 /\ PreviousBlockHash (b_BlockHeader b) = zeroHash /\ BlockHeader_ok (b_BlockHeader b) /\
    bh_BlockCommitment (b_BlockHeader b) = mkBlockCommitment
      (readDigest (leafPrefix ++ Byte32 (EntryID (ETxHeader (ref_header genesis_data)))))
      (TxStatusMerkleRoot [mkTvr false]) /\
    InputIDs t = [EntryID (ECoinbase (NewCoinbase genesis_arbitrary))] /\ SpentOutputIDs t = [] /\
    paid BTMAssetID genesis_data = BlockSubsidy 0 /\ #genesis_arbitrary <= CoinbaseArbitrarySizeLimit.
Proof.
  intros Hre Hrs Hd. destruct (MapTx_refers range_entries range_spent genesis_data Hre Hrs Hd) as (t & Hm & Hid & _ & _ & Hin & Hsp & _).
  - split; [|done]. intros [|i] input Hi _; [done|by destruct i].
  - intros [|i] input inp Hi Et; [|by destruct i]. injection Hi as <-. discriminate.
  - vm_compute. reflexivity.
  - eexists _, t. split; [by apply GenesisBlock_made|]. cbn [b_BlockHeader Transactions Height PreviousBlockHash bh_BlockCommitment fst].
    split_and!; try done.
    + apply genesis_header_ok.
    + by rewrite Hid.
    + rewrite Hin. unfold ref_input_ids, input_id. cbn. by rewrite NewCoinbase_law.
    + by apply Permutation_nil_r.
Qed.

#[local] Transparent enc_varint enc_varstr.
Lemma enc_header_ok enc_commit flags bh : byte_ok flags -> BlockHeader_ok bh -> bytes_ok (enc_commit (bh_BlockCommitment bh)) ->
  bytes_ok (enc_header enc_commit flags bh).
Proof.
  intros Hf (H1 & H2 & _ & H3 & H4 & H5 & _) Hc. unfold enc_header, enc_varstr. rewrite !bytes_ok_app.
  assert (forall x, u63_ok x -> bytes_ok (enc_varint x)) as Hv by (intros x [Hx _]; by apply uvarint_bytes_ok).
  split_and!; auto using Byte32_ok; [by constructor|]. apply uvarint_bytes_ok, zlen_nonneg.
Qed.

(** The block that is stored is not the one that is made: reading its text gives the same header
    and a transaction of the same inputs and outputs, but of serialized size 151 and not 0. *)
Theorem genesis_stored `{BC : BlockCodec BcTx, !BlockCodecLaws} (tx_ID : BcTx -> Hash) (t t' : BcTx) :
  codec_MapTx genesis_data = Some t -> codec_MapTx genesis_sized = Some t' ->
  bytes_ok (enc_commit (mkBlockCommitment (readDigest (leafPrefix ++ Byte32 (tx_ID t))) (readDigest (leafPrefix ++ str "{}")))) ->
  exists b text, GenesisBlock codec_MapTx tx_ID = Some b /\ block_MarshalText b = Some (text, None) /\
    block_UnmarshalText zeroBlock text = Some (None, mkBlock (b_BlockHeader b) [mkTx genesis_sized t']) /\
    map (fun tx => SerializedSize (tx_TxData tx)) (Transactions b) = [0] /\ SerializedSize genesis_sized = 151.
Proof.
  intros Ht Ht' Hc. set (b := mkBlock
    (mkBlockHeader 1 0 zeroHash 1524549600 9253507043297 2161727821137910632
       (mkBlockCommitment (readDigest (leafPrefix ++ Byte32 (tx_ID t))) (readDigest (leafPrefix ++ str "{}"))))
    [mkTx genesis_sized t']).
  assert (storable b) as Hb.
  { destruct genesis_data_ok as [Hok Hlen]. split; [split; [apply genesis_header_ok|split; [done|constructor; [|constructor]]]|].
    - split; [exact Hok|]. split; [by rewrite genesis_sized_enc; cbn [tx_TxData]; rewrite Hlen|]. unfold NewTx. cbn [tx_TxData]. by rewrite Ht'.
    - unfold enc_block, b, enc_header. cbn [b_BlockHeader Transactions].
      apply bytes_ok_app. split; [apply enc_header_ok; [done|apply genesis_header_ok|done]|]. apply bytes_ok_app. split; apply bytes_okb_ok; vm_compute; reflexivity. }
  exists (mkBlock (b_BlockHeader b) [mkTx genesis_data t]), (block_text b). split; [by apply GenesisBlock_made|].
  split.
  - unfold block_MarshalText. rewrite (Block_MarshalText_enc _ _ codec_MapTx _ _ block_codec_laws); [done|apply genesis_header_ok|done|].
    constructor; [apply genesis_data_ok|constructor].
  - split; [|done]. rewrite block_UnmarshalText_ok by done. done.
Qed.
End genesis_properties.

(** *** Concrete functions *)
Lemma genesis_block_witness : exists b t,
  @GenesisBlock pad32 _ (@MapTx.MapTx pad32 ex_ops map_to_list elements) (fun x => bct_ID x.1) = Some b /\
  Transactions b = [mkTx genesis_data t] /\ paid BTMAssetID genesis_data = BlockSubsidy 0.
Proof.
  destruct (@genesis_block pad32 pad32_laws ex_ops ex_laws map_to_list elements) as (b & t & Hb & Ht & _ & _ & _ & _ & _ & _ & Hp & _).
  - done.
  - done.
  - apply ex_distinct. vm_compute. reflexivity.
  - exists b, (t, @ref_entries pad32 ex_ops genesis_data). split_and!; [exact Hb|exact Ht|exact Hp].
Defined.

Lemma genesis_stored_witness : exists b text,
  @GenesisBlock pad32 unit sample_MapTx (fun _ => zeroHash) = Some b /\
  @block_UnmarshalText sample_runtime pad32 unit plain_codec zeroBlock text
    = Some (None, mkBlock (b_BlockHeader b) [mkTx genesis_sized tt]).
Proof.
  destruct (@genesis_stored sample_runtime pad32 pad32_laws unit plain_codec plain_codec_laws (fun _ => zeroHash) tt tt)
    as (b & text & Hb & _ & Hr & _).
  - reflexivity.
  - reflexivity.
  - apply bytes_okb_ok. vm_compute. reflexivity.
  - exists b, text. split; [exact Hb|exact Hr].
Defined.
