(* ===== verification/Fuzz.v ===== *)
(** * Fuzzed connections

    Models [p2p/fuzz.go]: a connection that randomly drops or delays what is read and written,
    for tests.  The connection it wraps is a parameter, the random draws are arguments. *)
From Stdlib Require Import SpecFloat.
From S2P Require Import Prelude Errors GoLib BanScore.

Definition FuzzModeDrop : Z := 0.
Definition FuzzModeDelay : Z := 1.

(** Durations are nanoseconds. *)
Record FuzzConnConfig := mkFuzzConfig {
  Mode : Z;
  MaxDelay : Z;
  ProbDropRW : spec_float;
  ProbDropConn : spec_float;
  ProbSleep : spec_float;
}.

(** 0.2 as a float64. *)
Definition double_0_2 : spec_float := S754_finite false 7205759403792794 (-55).
Definition DefaultFuzzConnConfig : FuzzConnConfig :=
  mkFuzzConfig FuzzModeDrop (3 * 10 ^ 9) double_0_2 (S754_zero false) (S754_zero false).

(** What is used of the wrapped connection. *)
Class Conn (U : Type) := {
  conn_Read : Z -> U -> (bytes * option error) * U;
  conn_Write : bytes -> U -> (Z * option error) * U;
  conn_Close : U -> option error * U;
}.

Section fuzz.
Context {U : Type} {CN : Conn U}.

(** [start] tells whether the timer has something to receive. *)
Record FuzzedConnection := mkFuzzed { conn : U; start : bool; active : bool; config : FuzzConnConfig }.

(** The channel of a connection that is fuzzed from the start never has anything. *)
Definition FuzzConnFromConfig (c : U) (cfg : FuzzConnConfig) : FuzzedConnection := mkFuzzed c false true cfg.
Definition FuzzConn (c : U) : FuzzedConnection := FuzzConnFromConfig c DefaultFuzzConnConfig.
Definition FuzzConnAfterFromConfig (c : U) (cfg : FuzzConnConfig) : FuzzedConnection := mkFuzzed c false false cfg.
Definition FuzzConnAfter (c : U) : FuzzedConnection := FuzzConnAfterFromConfig c DefaultFuzzConnConfig.

(** The duration of [FuzzConnAfter] elapses. *)
Definition elapse (fc : FuzzedConnection) : FuzzedConnection := mkFuzzed (conn fc) true (active fc) (config fc).

Definition with_conn (c : U) (fc : FuzzedConnection) : FuzzedConnection := mkFuzzed c (start fc) (active fc) (config fc).

Definition fc_Close (fc : FuzzedConnection) : option error * FuzzedConnection :=
  let '(err, c) := conn_Close (conn fc) in (err, with_conn c fc).

(** [k] is the draw of [rand.Int]; [None] is the panic of a division by zero. *)
Definition randomDuration (k : Z) (cfg : FuzzConnConfig) : option Z :=
  let maxDelayMillis := Z.quot (MaxDelay cfg) 1000 in
  if maxDelayMillis =? 0 then go_panic else Some (i64 (10 ^ 6 * Z.rem k maxDelayMillis)).

Definition shouldFuzz (fc : FuzzedConnection) : bool * FuzzedConnection :=
  if active fc then (true, fc)
  else if start fc then (true, mkFuzzed (conn fc) false true (config fc))
  else (false, fc).

(** [r] is the draw of [rand.Float64].  The answer, the connection, and the sleeps. *)
Definition fuzz (r : spec_float) (k : Z) (fc : FuzzedConnection) : option (bool * FuzzedConnection * list Z) :=
  let '(go, fc) := shouldFuzz fc in
  if negb go then Some (false, fc, [])
  else
    let cfg := config fc in
    if Mode cfg =? FuzzModeDrop then
      if SFleb r (ProbDropRW cfg) then Some (true, fc, [])
      else if SFltb r (double_add (ProbDropRW cfg) (ProbDropConn cfg)) then Some (true, (fc_Close fc).2, [])
      else if SFltb r (double_add (double_add (ProbDropRW cfg) (ProbDropConn cfg)) (ProbSleep cfg)) then
        d ← randomDuration k cfg; Some (false, fc, [d])
      else Some (false, fc, [])
    else if Mode cfg =? FuzzModeDelay then d ← randomDuration k cfg; Some (false, fc, [d])
    else Some (false, fc, []).

Definition fc_Read (r : spec_float) (k : Z) (n : Z) (fc : FuzzedConnection)
    : option ((bytes * option error) * FuzzedConnection * list Z) :=
  '(drop, fc, slept) ← fuzz r k fc;
  if drop : bool then Some (([], None), fc, slept)
  else let '(res, c) := conn_Read n (conn fc) in Some (res, with_conn c fc, slept).

Definition fc_Write (r : spec_float) (k : Z) (data : bytes) (fc : FuzzedConnection)
    : option ((Z * option error) * FuzzedConnection * list Z) :=
  '(drop, fc, slept) ← fuzz r k fc;
  if drop : bool then Some ((0, None), fc, slept)
  else let '(res, c) := conn_Write data (conn fc) in Some (res, with_conn c fc, slept).

(** ** Properties *)
(** Until the duration elapses a connection behaves as the one it wraps. *)
Lemma fuzz_transparent r k n data c cfg :
  let fc := FuzzConnAfterFromConfig c cfg in
  fc_Read r k n fc = Some ((conn_Read n c).1, with_conn (conn_Read n c).2 fc, []) /\
  fc_Write r k data fc = Some ((conn_Write data c).1, with_conn (conn_Write data c).2 fc, []).
Proof. cbv zeta. unfold fc_Read, fc_Write. cbn. by destruct (conn_Read n c), (conn_Write data c). Qed.

Lemma randomDuration_spec k cfg : 0 <= k -> 0 <= MaxDelay cfg < 2 ^ 53 ->
  match randomDuration k cfg with
  | None => MaxDelay cfg < 1000
  | Some d => 1000 <= MaxDelay cfg /\ 0 <= d < 1000 * MaxDelay cfg /\ d = 10 ^ 6 * (k mod (MaxDelay cfg / 1000))
  end.
Proof.
  intros Hk Hm. unfold randomDuration. rewrite Z.quot_div_nonneg by lia.
  pose proof (Z.div_mod (MaxDelay cfg) 1000 ltac:(lia)). pose proof (Z.mod_pos_bound (MaxDelay cfg) 1000 ltac:(lia)).
  destruct (Z.eqb_spec (MaxDelay cfg / 1000) 0) as [E|E]; [lia|]. assert (0 < MaxDelay cfg / 1000) by lia.
  rewrite Z.rem_mod_nonneg by lia. pose proof (Z.mod_pos_bound k (MaxDelay cfg / 1000) ltac:(lia)) as Hb.
  rewrite swrap_small by lia. split; [lia|]. split; [lia|done].
Qed.

(** Calls on the fuzzed connection, with their draws, and on the one it wraps. *)
Inductive fcall :=
| FRead (r : spec_float) (k : Z) (n : Z)
| FWrite (r : spec_float) (k : Z) (data : bytes).
Inductive ucall :=
| URead (n : Z)
| UWrite (data : bytes)
| UClose.

Definition meant (c : fcall) : ucall := match c with FRead _ _ n => URead n | FWrite _ _ data => UWrite data end.
Definition is_close (u : ucall) : Prop := u = UClose.
#[global] Instance is_close_dec u : Decision (is_close u).
Proof. destruct u; [right|right|left]; done. Defined.

(** The bytes read, and the connection. *)
Fixpoint urun (l : list ucall) (c : U) : bytes * U :=
  match l with
  | [] => ([], c)
  | URead n :: l => let '((b, _), c) := conn_Read n c in let '(bs, c) := urun l c in (b ++ bs, c)
  | UWrite data :: l => urun l (conn_Write data c).2
  | UClose :: l => urun l (conn_Close c).2
  end.

Fixpoint frun (l : list fcall) (fc : FuzzedConnection) : option (bytes * FuzzedConnection) :=
  match l with
  | [] => Some ([], fc)
  | FRead r k n :: l =>
      '((b, _), fc, _) ← fc_Read r k n fc;
      '(bs, fc) ← frun l fc;
      Some (b ++ bs, fc)
  | FWrite r k data :: l =>
      '(_, fc, _) ← fc_Write r k data fc;
      frun l fc
  end.

(** What the fuzzing before a call does to the wrapped connection: nothing, or it closes it. *)
Lemma fuzz_conn r k fc b fc' slept : fuzz r k fc = Some (b, fc', slept) ->
  conn fc' = conn fc \/ (b = true /\ conn fc' = (conn_Close (conn fc)).2).
Proof.
  unfold fuzz. assert (conn (shouldFuzz fc).2 = conn fc) as Hs by (unfold shouldFuzz; by repeat case_on).
  destruct (shouldFuzz fc) as [go fc1]. cbn [snd] in Hs. rewrite <- Hs. unfold fc_Close.
  destruct (negb go); [intros [= <- <- <-]; by left|]. repeat case_on; try (intros [= <- <- <-]; by left).
  - intros [= <- <- <-]. right. cbn. by destruct (conn_Close (conn fc1)).
  - destruct (randomDuration k (config fc1)); [|done]. intros [= <- <- <-]. by left.
  - destruct (randomDuration k (config fc1)); [|done]. intros [= <- <- <-]. by left.
Qed.

(** Dropping loses no byte that was sent to this side: whatever the draws, what is read through a
    fuzzed connection is what the wrapped one gives for the calls that reach it, which are
    those that were made, in order, but for some, and with closes among them.  A write that
    is dropped does not reach it. *)
Theorem fuzz_reads (calls : list fcall) (fc fc' : FuzzedConnection) (b : bytes) :
  frun calls fc = Some (b, fc') ->
  exists inner, urun inner (conn fc) = (b, conn fc') /\ filter (fun u => ~ is_close u) inner `sublist_of` map meant calls.
Proof.
  revert fc b. induction calls as [|c calls IH]; intros fc b; cbn [frun map].
  { intros [= <- ->]. by exists []. }
  destruct c as [r k n|r k data].
  - unfold fc_Read. destruct (fuzz r k fc) as [[[dr fc1] slept]|] eqn:Ef; [|done]. cbn [mbind option_bind].
    apply fuzz_conn in Ef as Hf. destruct dr; cbn [mbind option_bind].
    + destruct (frun calls fc1) as [[bs fc2]|] eqn:Er; [|done]. cbn. intros [= <- <-].
      destruct (IH _ _ Er) as (inner & Hu & Hs). destruct Hf as [Hc|[_ Hc]]; rewrite Hc in Hu.
      * exists inner. split; [done|by apply sublist_cons].
      * exists (UClose :: inner). split; [done|]. rewrite filter_cons_False by (intros Hx; by apply Hx). by apply sublist_cons.
    + destruct Hf as [Hc|[? _]]; [|done]. rewrite Hc. destruct (conn_Read n (conn fc)) as [[bd e] c1] eqn:Ec. cbn [mbind option_bind].
      destruct (frun calls (with_conn c1 fc1)) as [[bs fc2]|] eqn:Er; [|done]. cbn. intros [= <- <-].
      destruct (IH _ _ Er) as (inner & Hu & Hs). exists (URead n :: inner). split.
      * cbn [urun]. rewrite Ec. cbn in Hu. by rewrite Hu.
      * rewrite filter_cons_True by done. by apply sublist_skip.
  - unfold fc_Write. destruct (fuzz r k fc) as [[[dr fc1] slept]|] eqn:Ef; [|done]. cbn [mbind option_bind].
    apply fuzz_conn in Ef as Hf. destruct dr; cbn [mbind option_bind].
    + intros Er. destruct (IH _ _ Er) as (inner & Hu & Hs). destruct Hf as [Hc|[_ Hc]]; rewrite Hc in Hu.
      * exists inner. split; [done|by apply sublist_cons].
      * exists (UClose :: inner). split; [done|]. rewrite filter_cons_False by (intros Hx; by apply Hx). by apply sublist_cons.
    + destruct Hf as [Hc|[? _]]; [|done]. rewrite Hc. destruct (conn_Write data (conn fc)) as [res c1] eqn:Ec. cbn [mbind option_bind].
      intros Er. destruct (IH _ _ Er) as (inner & Hu & Hs). exists (UWrite data :: inner). split.
      * cbn [urun]. rewrite Ec. exact Hu.
      * rewrite filter_cons_True by done. by apply sublist_skip.
Qed.

(** The delays are within a thousand times the configured maximum and not within it, since
    microseconds are taken for milliseconds; below a microsecond there is a division by zero. *)
Theorem fuzz_delay (r : spec_float) (k : Z) (c : U) (cfg : FuzzConnConfig) :
  0 <= k -> Mode cfg = FuzzModeDelay -> 0 <= MaxDelay cfg < 2 ^ 53 ->
  match fuzz r k (FuzzConnFromConfig c cfg) with
  | None => MaxDelay cfg < 1000
  | Some (drop, _, slept) => drop = false /\ 1000 <= MaxDelay cfg /\
      exists d, slept = [d] /\ 0 <= d < 1000 * MaxDelay cfg /\ d = 10 ^ 6 * (k mod (MaxDelay cfg / 1000))
  end.
Proof.
  intros Hk Hm Hd. unfold fuzz. cbn [shouldFuzz FuzzConnFromConfig active negb config]. rewrite Hm.
  change (FuzzModeDelay =? FuzzModeDrop) with false. rewrite Z.eqb_refl. pose proof (randomDuration_spec k cfg Hk Hd) as Hs.
  destruct (randomDuration k cfg) as [d|]; cbn; [|done]. destruct Hs as (H1 & H2 & H3). split_and!; [done|done|by exists d].
Qed.
End fuzz.
Arguments FuzzedConnection U : clear implicits.

(** *** A concrete connection *)
(** What is to be read, and what was written. *)
Definition ex_conn : Conn (bytes * bytes) := {|
  conn_Read := fun n u => ((take (Z.to_nat n) u.1, None), (drop (Z.to_nat n) u.1, u.2));
  conn_Write := fun data u => ((#data, None), (u.1, u.2 ++ data));
  conn_Close := fun u => (None, u);
|}.
Definition ex_low : spec_float := S754_finite false 4503599627370496 (-55).
Definition ex_high : spec_float := S754_finite false 4503599627370496 (-53).

(** The dropped read loses nothing; the dropped write is lost, and no error told. *)
Lemma fuzz_reads_witness : exists fc',
  @frun _ ex_conn [FRead ex_low 0 2; FRead ex_high 0 2; FWrite ex_low 0 [9]; FWrite ex_high 0 [8]; FRead ex_high 0 2]
    (FuzzConn ([1; 2; 3], [])) = Some ([1; 2; 3], fc') /\ (conn fc').2 = [8] /\
  exists inner, (@urun _ ex_conn inner ([1; 2; 3], [])).1 = [1; 2; 3].
Proof.
  assert (exists fc', @frun _ ex_conn [FRead ex_low 0 2; FRead ex_high 0 2; FWrite ex_low 0 [9]; FWrite ex_high 0 [8]; FRead ex_high 0 2]
    (FuzzConn ([1; 2; 3], [])) = Some ([1; 2; 3], fc') /\ (conn fc').2 = [8]) as (fc' & Hr & Hc)
    by (eexists; split; vm_compute; reflexivity).
  exists fc'. split; [exact Hr|]. split; [exact Hc|].
  destruct (@fuzz_reads _ ex_conn _ _ _ _ Hr) as (inner & Hu & _). exists inner. cbn in Hu. by rewrite Hu.
Defined.

(** A maximum of three seconds can delay by fifty minutes. *)
Lemma fuzz_delay_witness : exists fc slept,
  @fuzz _ ex_conn ex_low 2999999 (FuzzConnFromConfig ([], []) (mkFuzzConfig FuzzModeDelay (3 * 10 ^ 9) ex_low ex_low ex_low))
    = Some (false, fc, slept) /\ slept = [2999999 * 10 ^ 6].
Proof.
  pose proof (@fuzz_delay _ ex_conn ex_low 2999999 ([], []) (mkFuzzConfig FuzzModeDelay (3 * 10 ^ 9) ex_low ex_low ex_low)
    ltac:(lia) eq_refl ltac:(cbn; lia)) as Hd.
  destruct (fuzz _ _ _) as [[[dr fc] slept]|] eqn:E; [|vm_compute in E; discriminate E].
  destruct Hd as (-> & _ & d & Hs & _ & Hd). exists fc, slept. split; [reflexivity|]. rewrite Hs, Hd. vm_compute. reflexivity.
Defined.
