(* ===== verification/Config.v ===== *)
(** * Configuration

    Models [config/config.go]: the configuration with its defaults, and the paths that are made
    from it.  [filepath.Join] and [filepath.IsAbs] are Go's on Unix.  The files that the
    configuration is read from, and the command line, are not modelled. *)
From S2P Require Import Prelude Errors GoLib NetAddress NodeInfo.

(** ** path/filepath *)
Definition slash : gostring := [47].
Definition dot : gostring := [46].
Definition dotdot : gostring := [46; 46].

Definition IsAbs (path : gostring) : bool := bool_decide (head path = Some 47).

(** The elements of a path in turn, with those that are kept so far, the last one first. *)
Fixpoint clean_elems (rooted : bool) (elems out : list gostring) : list gostring :=
  match elems with
  | [] => out
  | e :: elems =>
      if bool_decide (e = []) || bool_decide (e = dot) then clean_elems rooted elems out
      else if bool_decide (e = dotdot) then
        match out with
        | d :: out' =>
            if bool_decide (d = dotdot) then clean_elems rooted elems (dotdot :: out)
            else clean_elems rooted elems out'
        | [] => clean_elems rooted elems (if rooted then [] else [dotdot])
        end
      else clean_elems rooted elems (e :: out)
  end.

Definition Clean (path : gostring) : gostring :=
  let rooted := IsAbs path in
  let elems := reverse (clean_elems rooted (Split 47 path) []) in
  if rooted then slash ++ joinWith slash elems
  else match elems with [] => dot | _ => joinWith slash elems end.

(** The elements from the first one that is not empty, joined and cleaned. *)
Fixpoint Join (elem : list gostring) : gostring :=
  match elem with
  | [] => []
  | e :: elem' => if bool_decide (e = []) then Join elem' else Clean (joinWith slash elem)
  end.

(** ** config.go *)
Record BaseConfig := mkBaseConfig {
  RootDir : gostring; ChainID : gostring; PrivateKey : gostring; Moniker : gostring;
  ProfListenAddress : gostring; FastSync : bool; Mining : bool; FilterPeers : bool;
  TxIndex : gostring; DBBackend : gostring; DBPath : gostring; KeysPath : gostring;
  HsmUrl : gostring; ApiAddress : gostring; VaultMode : bool; Time : Z; LogFile : gostring;
}.

Record P2PConfig := mkP2PConfig {
  p2p_RootDir : gostring; ListenAddress : gostring; Seeds : gostring; SkipUPNP : bool;
  AddrBook : gostring; AddrBookStrict : bool; PexReactor : bool; MaxNumPeers : Z;
  HandshakeTimeout : Z; DialTimeout : Z;
}.

Record WalletConfig := mkWalletConfig { wallet_Disable : bool; Rescan : bool }.
Record RPCAuthConfig := mkRPCAuthConfig { auth_Disable : bool }.
Record WebConfig := mkWebConfig { Closed : bool }.

(** Nil pointers are [None]. *)
Record Config := mkConfig {
  Base : BaseConfig; P2P : option P2PConfig; Wallet : option WalletConfig;
  Auth : option RPCAuthConfig; Web : option WebConfig;
}.

(** [Time] is the zero time. *)
Definition DefaultBaseConfig : BaseConfig :=
  mkBaseConfig [] [] [] (str "anonymous") [] true false false (str "kv") (str "leveldb") (str "data") (str "keystore")
    [] [] false 0 [].
Definition DefaultP2PConfig : P2PConfig :=
  mkP2PConfig [] (str "tcp://0.0.0.0:46656") [] false (str "addrbook.json") true true 50 30 3.
Definition DefaultRPCAuthConfig : RPCAuthConfig := mkRPCAuthConfig false.
Definition DefaultWebConfig : WebConfig := mkWebConfig false.
Definition DefaultWalletConfig : WalletConfig := mkWalletConfig false false.
Definition DefaultConfig : Config :=
  mkConfig DefaultBaseConfig (Some DefaultP2PConfig) (Some DefaultWalletConfig) (Some DefaultRPCAuthConfig) (Some DefaultWebConfig).

Definition set_RootDir (root : gostring) (b : BaseConfig) : BaseConfig :=
  mkBaseConfig root (ChainID b) (PrivateKey b) (Moniker b) (ProfListenAddress b) (FastSync b) (Mining b)
    (FilterPeers b) (TxIndex b) (DBBackend b) (DBPath b) (KeysPath b) (HsmUrl b) (ApiAddress b) (VaultMode b) (Time b) (LogFile b).
Definition set_p2p_RootDir (root : gostring) (p : P2PConfig) : P2PConfig :=
  mkP2PConfig root (ListenAddress p) (Seeds p) (SkipUPNP p) (AddrBook p) (AddrBookStrict p) (PexReactor p)
    (MaxNumPeers p) (HandshakeTimeout p) (DialTimeout p).

(** [None] is the panic of a nil P2P configuration. *)
Definition SetRoot (root : gostring) (cfg : Config) : option Config :=
  p ← P2P cfg;
  Some (mkConfig (set_RootDir root (Base cfg)) (Some (set_p2p_RootDir root p)) (Wallet cfg) (Auth cfg) (Web cfg)).

Definition rootify (path root : gostring) : gostring := if IsAbs path then path else Join [root; path].

Definition DBDir (b : BaseConfig) : gostring := rootify (DBPath b) (RootDir b).
Definition KeysDir (b : BaseConfig) : gostring := rootify (KeysPath b) (RootDir b).
Definition AddrBookFile (p : P2PConfig) : gostring := rootify (AddrBook p) (p2p_RootDir p).

(** [HOME], and the home directory of the current user. *)
Definition homeDir (home : gostring) (current : res error gostring) : gostring :=
  if bool_decide (home <> []) then home
  else match current with Ok dir => dir | Err _ => [] end.

(** The names of paths are those of Unix, also for the other systems. *)
Definition DefaultDataDir (GOOS home : gostring) (current : res error gostring) : gostring :=
  let home := homeDir home current in
  if bool_decide (home = []) then str "./.bytom"
  else if bool_decide (GOOS = str "darwin") then Join [home; str "Library"; str "Bytom"]
  else if bool_decide (GOOS = str "windows") then Join [home; str "AppData"; str "Roaming"; str "Bytom"]
  else Join [home; str ".bytom"].

(** ** Properties *)
(** The elements of a path that are not empty. *)
Definition elements_of (path : gostring) : list gostring := filter (fun e => e <> []) (Split 47 path).
Definition plain_elem (e : gostring) : Prop := e <> [] /\ e <> dot /\ e <> dotdot /\ 47 ∉ e.

Lemma clean_elems_app rooted l l' out : clean_elems rooted (l ++ l') out = clean_elems rooted l' (clean_elems rooted l out).
Proof.
  revert out. induction l as [|e l IH]; intros out; [done|]. cbn [app clean_elems]. repeat case_on; apply IH.
Qed.

(** Elements without [..] are kept, but for the empty ones and [.]. *)
Lemma clean_elems_down rooted l : forall out, dotdot ∉ l ->
  clean_elems rooted l out = reverse (filter (fun e => e <> [] /\ e <> dot) l) ++ out.
Proof.
  induction l as [|e l IH]; intros out Hl; [done|]. apply not_elem_of_cons in Hl as [He Hl]. cbn [clean_elems].
  rewrite (bool_decide_false (e = dotdot)) by done.
  destruct (decide (e = [])) as [->|]; [rewrite bool_decide_true by done; rewrite filter_cons_False by tauto; by apply IH|].
  destruct (decide (e = dot)) as [->|]; [rewrite (bool_decide_true (dot = dot)), orb_true_r by done; rewrite filter_cons_False by tauto; by apply IH|].
  rewrite !bool_decide_false, filter_cons_True by done. cbn [orb]. rewrite IH by done. by rewrite reverse_cons, <- app_assoc.
Qed.

(** What is kept of a rooted path are plain elements. *)
Lemma clean_elems_plain l : forall out, Forall (fun e => 47 ∉ e) l -> Forall plain_elem out ->
  Forall plain_elem (clean_elems true l out).
Proof.
  induction l as [|e l IH]; intros out Hl Ho; [done|]. apply Forall_cons_1 in Hl as [He Hl]. cbn [clean_elems].
  destruct (bool_decide (e = []) || bool_decide (e = dot)) eqn:E1; [by apply IH|].
  destruct (bool_decide (e = dotdot)) eqn:E2.
  - destruct out as [|d out]; [by apply IH|]. apply Forall_cons_1 in Ho as [Hd Ho].
    rewrite bool_decide_false by apply Hd. by apply IH.
  - apply orb_false_elim in E1 as [E1 E3]. apply bool_decide_eq_false in E1, E2, E3. apply IH; [done|]. by constructor.
Qed.

Lemma Split_join sep l : l <> [] -> Forall (fun w => sep ∉ w) l -> Split sep (joinWith [sep] l) = l.
Proof.
  induction l as [|w l IH]; [done|]. intros _ Hl. apply Forall_cons_1 in Hl as [Hw Hl].
  destruct l as [|v l]; [cbn; rewrite app_nil_r; by apply Split_one|].
  assert (joinWith [sep] (w :: v :: l) = w ++ sep :: joinWith [sep] (v :: l)) as -> by done.
  rewrite Split_app by done. by rewrite IH.
Qed.

Lemma filter_all {A} (P : A -> Prop) `{forall x, Decision (P x)} l : Forall P l -> filter P l = l.
Proof. induction 1 as [|x l Hx Hl IH]; [done|]. rewrite filter_cons_True by done. by rewrite IH. Qed.

Lemma elements_rooted cs : Forall plain_elem cs -> elements_of (slash ++ joinWith slash cs) = cs.
Proof.
  intros Hc. unfold elements_of. change (slash ++ joinWith slash cs) with ([] ++ 47 :: joinWith [47] cs).
  rewrite Split_app by apply not_elem_of_nil. rewrite filter_cons_False by tauto.
  destruct cs as [|c cs]; [done|]. rewrite Split_join; [|done|].
  - apply filter_all. eapply list.Forall_impl; [exact Hc|]. by intros x (? & _).
  - eapply list.Forall_impl; [exact Hc|]. by intros x (_ & _ & _ & ?).
Qed.

Lemma Clean_rooted path : IsAbs path = true ->
  exists cs, cs = reverse (clean_elems true (Split 47 path) []) /\ Clean path = slash ++ joinWith slash cs /\
    Forall plain_elem cs /\ elements_of (Clean path) = cs.
Proof.
  intros Ha. eexists. split; [reflexivity|]. unfold Clean. rewrite Ha.
  assert (Forall plain_elem (reverse (clean_elems true (Split 47 path) []))) as Hp.
  { apply Forall_reverse, clean_elems_plain; [apply Split_pieces|constructor]. }
  split_and!; [done|done|by apply elements_rooted].
Qed.

Lemma IsAbs_app p q : IsAbs p = true -> IsAbs (p ++ q) = true.
Proof. unfold IsAbs. rewrite !bool_decide_eq_true. by destruct p. Qed.

Lemma Split_sep_app sep p q : Split sep (p ++ [sep] ++ q) = Split sep p ++ Split sep q.
Proof.
  induction p as [|c p IH]; [cbn; by rewrite Z.eqb_refl|]. cbn [app Split]. cbn [app] in IH. rewrite IH.
  pose proof (Split_not_nil sep p). destruct (Split sep p) as [|w r]; [done|]. cbn [app]. by case_on.
Qed.

(** A path in the configuration that is absolute is used as it is.  Any other is put below the
    root: if it has no [..] the elements are those of the cleaned root and its own, and whatever
    it is the result is an absolute path if the root is one, without an empty element, a [.]
    or a [..], that cleaning does not change. *)
Theorem rootify_path (path root : gostring) :
  (IsAbs path = true -> rootify path root = path) /\
  (IsAbs path = false -> IsAbs root = true ->
    IsAbs (rootify path root) = true /\ Forall plain_elem (elements_of (rootify path root)) /\
    Clean (rootify path root) = rootify path root /\
    (dotdot ∉ Split 47 path ->
      elements_of (rootify path root) = elements_of (Clean root) ++ filter (fun e => e <> [] /\ e <> dot) (Split 47 path))).
Proof.
  unfold rootify. split; [by intros ->|]. intros -> Hr.
  assert (Join [root; path] = Clean (root ++ slash ++ path)) as ->.
  { unfold Join. rewrite bool_decide_false by (by intros ->). cbn. by rewrite app_nil_r. }
  pose proof (IsAbs_app root (slash ++ path) Hr) as Ha. destruct (Clean_rooted _ Ha) as (cs & Hcs & Hc & Hp & He).
  assert (IsAbs (slash ++ joinWith slash cs) = true) as Hab by done.
  split_and!.
  - by rewrite Hc.
  - by rewrite He.
  - rewrite Hc. unfold Clean at 1. rewrite Hab. f_equal. f_equal.
    change (slash ++ joinWith slash cs) with ([] ++ 47 :: joinWith [47] cs). rewrite Split_app by apply not_elem_of_nil.
    assert (forall e, plain_elem e -> e <> [] /\ e <> dot) as Hpe by (by intros e (? & ? & _)).
    destruct (decide (cs = [])) as [->|Hne]; [done|].
    rewrite Split_join; [|done|eapply list.Forall_impl; [exact Hp|by intros x (_ & _ & _ & ?)]].
    cbn [clean_elems]. rewrite bool_decide_true by done. cbn [orb]. rewrite clean_elems_down.
    + rewrite app_nil_r, reverse_involutive. apply filter_all. eapply list.Forall_impl; [exact Hp|done].
    + intros Hin. rewrite list.Forall_forall in Hp. by apply Hp in Hin as (_ & _ & ? & _).
  - intros Hd. rewrite He, Hcs. destruct (Clean_rooted _ Hr) as (rs & Hrs & _ & _ & ->). rewrite Hrs.
    change (root ++ slash ++ path) with (root ++ [47] ++ path). rewrite Split_sep_app, clean_elems_app, clean_elems_down by done.
    by rewrite reverse_app, reverse_involutive.
Qed.

Lemma rootify_path_witness :
  IsAbs (rootify (str "data") (str "/home/a/../b/./.bytom")) = true /\
  elements_of (rootify (str "data") (str "/home/a/../b/./.bytom")) = [str "home"; str "b"; str ".bytom"; str "data"].
Proof.
  destruct (proj2 (rootify_path (str "data") (str "/home/a/../b/./.bytom")) eq_refl eq_refl) as (Ha & _ & _ & He).
  split; [exact Ha|]. rewrite He; [vm_compute; reflexivity|]. apply (bool_decide_eq_true_1 (dotdot ∉ Split 47 (str "data"))). vm_compute. reflexivity.
Defined.
