(* ===== verification/SyncManager.v ===== *)
(** * The node put together

    Models [netsync/handle.go], the wiring of [netsync/protocol_reactor.go], the loop [syncer]
    of [netsync/sync.go] and what [p2p/switch.go] keeps of listeners and of the node's key: how
    the switch gets its two reactors, its listener and its node information.  The reactors' own
    behaviour is in Pex.v, Protocol.v and Handshake.v; here a reactor is what the switch sees
    of it.  Keys, JSON and the errors of packages are the class [NodeLib]. *)
From S2P Require Import Prelude Errors GoLib Hash BlockTypes MapTx NetAddress NodeInfo Resolve Config Connection Switch Handshake Pex Dispatch Upnp Listener.

(** The function of Upnp.v, not the one of [path/filepath]. *)
Abbreviation Index := Upnp.Index.

Class NodeLib := {
  nl_KeyString : bytes -> gostring;
  nl_Marshal : gmap gostring Z -> res error bytes;
  nl_Unmarshal : bytes -> res error (gmap gostring Z);
  nl_Wrap : error -> gostring -> error;
  (** the public key of a private key *)
  PubKeyOf : bytes -> bytes;
}.

(** ** The reactors *)
(** The reactor keeps the hash of the genesis block; [pr_fetcher] tells whether its fetcher is not nil. *)
Record ProtocolReactor := mkProtocolReactor { pr_genesisHash : Hash; pr_fetcher : bool; pr_svc : service }.

(** A chain without a genesis block gives a nil block, whose hash is a panic. *)
Definition NewProtocolReactor `{EntryOps} {BcTx : Type} (genesisBlock : option (Block BcTx)) (fetcher : bool) : option ProtocolReactor :=
  block ← genesisBlock;
  Some (mkProtocolReactor (BlockHeader_Hash (b_BlockHeader block)) fetcher NewBaseService).

Definition Protocol_GetChannels : list ChannelDescriptor := [mkDesc BlockchainChannel 5 100 0 0].

(** [syncTransactions] hands the pool's transactions over unless there are none; [None] is the nil peer. *)
Definition syncTransactions {P T} (p : option P) (pending : list T) : option (P * list T) :=
  match p with
  | None => None
  | Some p => match pending with [] => None | _ => Some (p, pending) end
  end.

Inductive node_reactor := RPEX | RProtocol (pr : ProtocolReactor).
Definition reactor_channels (r : node_reactor) : list ChannelDescriptor :=
  match r with RPEX => Pex_GetChannels | RProtocol _ => Protocol_GetChannels end.

#[export] Instance node_env `{NodeLib} : SwitchEnv := {|
  reactor := node_reactor;
  GetChannels := reactor_channels;
  KeyString := nl_KeyString;
  json_Marshal := nl_Marshal;
  json_Unmarshal := nl_Unmarshal;
  pkg_Wrap := nl_Wrap;
|}.

(** ** version/version.go, p2p/version.go *)
(** [None] is the panic of a commit of less than eight bytes. *)
Definition version_Version (GitCommit : gostring) : option gostring :=
  if bool_decide (GitCommit <> []) then
    if #GitCommit <? 8 then go_panic else Some (str "1.0.2" ++ str "-" ++ take 8 GitCommit)
  else Some (str "1.0.2").
Definition p2p_Version : gostring := str "0.5.0".
Definition wire_Version : gostring := str "0.7.1".

(** ** handle.go *)
(** [strings.SplitN] at the first occurrence of the separator. *)
Definition protocolAndAddress (listenAddr : gostring) : gostring * gostring :=
  let i := Index listenAddr (str "://") in
  if i <? 0 then (str "tcp", listenAddr)
  else (take (Z.to_nat i) listenAddr, drop (Z.to_nat (i + 3)) listenAddr).

Section handle.
Context {NL : NodeLib} {UN : Unicode} {HT : Http} {RS : Resolver} {book : Type}.

(** *** What the switch keeps of listeners and the key *)
Record SyncManager := mkManager {
  sw : Switch (book := book);
  listeners : list DefaultListener;
  nodePrivKey : bytes;
  privKey : bytes;
  manager_fetcher : bool;
}.

Definition set_sw (s : Switch (book := book)) (sm : SyncManager) : SyncManager :=
  mkManager s (listeners sm) (nodePrivKey sm) (privKey sm) (manager_fetcher sm).
Definition AddListener (l : DefaultListener) (sm : SyncManager) : SyncManager :=
  mkManager (sw sm) (listeners sm ++ [l]) (nodePrivKey sm) (privKey sm) (manager_fetcher sm).
Definition Listeners (sm : SyncManager) : list DefaultListener := listeners sm.
Definition IsListening (sm : SyncManager) : bool := 0 <? #(listeners sm).

(** The key of the node information follows the private key. *)
Definition SetNodePrivKey (k : bytes) (sm : SyncManager) : SyncManager :=
  let i := nodeInfo (sw sm) in
  mkManager (set_nodeInfo (mkNodeInfo (PubKeyOf k) (NodeInfo.Moniker i) (Network i) (RemoteAddr i) (ListenAddr i)
      (Version i) (Other i)) (sw sm))
    (listeners sm) k (privKey sm) (manager_fetcher sm).

(** [cmn.Fmt("%v:%v", IP, Port)] *)
Definition ip_port (na : NetAddress) : gostring := IP_String (na_IP na) ++ str ":" ++ itoa (Port na).

Definition makeNodeInfo (cfg : BaseConfig) (GitCommit : gostring) (listenerStatus : bool) (sm : SyncManager) : option NodeInfo :=
  version ← version_Version GitCommit;
  let info addr := mkNodeInfo (PubKeyOf (privKey sm)) (Config.Moniker cfg) (ChainID cfg) [] addr version
    [str "wire_version=" ++ wire_Version; str "p2p_version=" ++ p2p_Version] in
  if negb (IsListening sm) then Some (info [])
  else
    p2pListener ← Listeners sm !! 0%nat;
    Some (info (if listenerStatus then ip_port (ExternalAddress p2pListener) else ip_port (InternalAddress p2pListener))).

(** [key] is the generated key; the fetcher is never made. *)
Definition NewSyncManager `{EntryOps} {BcTx : Type} (fuel : nat) (env : lenv) (cfg : Config) (GitCommit : gostring) (key : bytes) (b : book)
    (trustHistoryDB : gmap gostring bytes) (genesisBlock : option (Block BcTx)) : Upnp.outcome SyncManager :=
  p2p ← or_panic (P2P cfg);
  s ← or_panic (NewSwitch (Config.MaxNumPeers p2p) b trustHistoryDB);
  s ← or_panic (AddReactor (str "PEX") (RPEX : @reactor node_env) s);
  pr ← or_panic (NewProtocolReactor genesisBlock false);
  s ← or_panic (AddReactor (str "PROTOCOL") (RProtocol pr : @reactor node_env) s);
  let manager := mkManager s [] [] key false in
  '(manager, listenerStatus) ←
    (if VaultMode (Base cfg) then Returns (manager, false)
     else
       let '(p, address) := protocolAndAddress (ListenAddress p2p) in
       '(l, listenerStatus) ← NewDefaultListener fuel env p address (SkipUPNP p2p);
       Returns (AddListener l manager, listenerStatus));
  info ← or_panic (makeNodeInfo (Base cfg) GitCommit listenerStatus manager);
  Returns (SetNodePrivKey (privKey manager) (set_sw (SetNodeInfo info (sw manager)) manager)).
End handle.
Arguments SyncManager {NL} book.

(** ** sync.go *)
Definition minDesiredPeerCount : Z := 5.

(** What the select of [syncer] receives. *)
Inductive sync_event := NewPeer | ForceSync | QuitSync.

(** [None]: the loop returns; else whether a goroutine of [synchronise] is started. *)
Definition syncer_step (e : sync_event) (size : Z) : option bool :=
  match e with
  | NewPeer => Some (negb (size <? minDesiredPeerCount))
  | ForceSync => Some true
  | QuitSync => None
  end.

(** The goroutines of [synchronise] that are past the flag. *)
Record gate := mkGate { synchronising : bool; inside : list nat }.
Inductive gate_event := Enter (i : nat) | Leave (i : nat).
Definition gate_step (e : gate_event) (g : gate) : gate :=
  match e with
  | Enter i => if synchronising g then g else mkGate true (i :: inside g)
  | Leave i => if decide (i ∈ inside g) then mkGate false (filter (fun j => j <> i) (inside g)) else g
  end.

(** ** The protocol and the address *)
Lemma Index_split s sub : 0 <= Index s sub ->
  s = take (Z.to_nat (Index s sub)) s ++ sub ++ drop (Z.to_nat (Index s sub + #sub)) s.
Proof.
  intros Hi. apply Index_some in Hi as (pre & post & Hs & ->). clear -Hs. subst s.
  rewrite take_zlen_app. f_equal. f_equal. by rewrite app_assoc, <- zlen_app, drop_zlen_app.
Qed.

(** The address and the protocol are the two sides of the first separator; without one the
    protocol is tcp. *)
Lemma protocolAndAddress_spec s : let '(p, a) := protocolAndAddress s in
  (s = p ++ str "://" ++ a /\ Index s (str "://") = #p) \/ (p = str "tcp" /\ a = s /\ Index s (str "://") = -1).
Proof.
  unfold protocolAndAddress. destruct (Z.ltb_spec (Index s (str "://")) 0) as [Hi|Hi].
  - right. pose proof (Index_lower s (str "://")). split_and!; try done. lia.
  - left. split; [by apply (Index_split s (str "://"))|]. rewrite zlen_take. pose proof (Index_le s (str "://")). lia.
Qed.

(** ** The flag of the synchronisation *)
Definition gate_ok (g : gate) : Prop :=
  (inside g = [] /\ synchronising g = false) \/ exists i, inside g = [i] /\ synchronising g = true.

Lemma gate_step_ok e g : gate_ok g -> gate_ok (gate_step e g).
Proof.
  intros Hg. destruct e as [i|i]; cbn [gate_step].
  - destruct Hg as [[Hi Hs]|(j & Hi & Hs)]; rewrite Hs; [right; exists i; by rewrite Hi|right; by exists j].
  - case_decide as Hin; [|exact Hg]. destruct Hg as [[Hi Hs]|(j & Hi & Hs)]; rewrite Hi in Hin; [by apply not_elem_of_nil in Hin|].
    apply list_elem_of_singleton in Hin as ->. left. cbn. rewrite Hi. by rewrite filter_cons_False by tauto.
Qed.

(** At most one goroutine is past the flag, however they come and go. *)
Lemma synchronise_once (es : list gate_event) : gate_ok (foldl (fun g e => gate_step e g) (mkGate false []) es).
Proof.
  assert (gate_ok (mkGate false [])) as Hg by by left. revert Hg. generalize (mkGate false []).
  induction es as [|e es IH]; intros g Hg; [exact Hg|]. by apply IH, gate_step_ok.
Qed.

(** ** The wiring *)
Section properties.
Context {NL : NodeLib} {UN : Unicode} {HT : Http} {RS : Resolver} {book : Type}.

Lemma version_Version_dots GitCommit v : version_Version GitCommit = Some v -> 46 ∉ GitCommit ->
  exists r, v = dots (str "1") (str "0") r /\ 46 ∉ r.
Proof.
  unfold version_Version. intros Hv Hg. case_bool_decide; [case_in Hv; [done|]|]; injection Hv as <-.
  - exists (str "2-" ++ take 8 GitCommit). split; [done|]. intros Hin. apply elem_of_app in Hin as [Hin|Hin].
    + revert Hin. apply (bool_decide_eq_true_1 (46 ∉ str "2-")). vm_compute. reflexivity.
    + apply Hg. by eapply elem_of_take in Hin as (? & ? & _); eapply list_elem_of_lookup_2.
  - exists (str "2"). split; [done|]. apply (bool_decide_eq_true_1 (46 ∉ str "2")). vm_compute. reflexivity.
Qed.

(** What [NewSyncManager] returns, step by step. *)
Lemma NewSyncManager_made `{EntryOps} {BcTx : Type} fuel env cfg GitCommit key b db (genesis : option (Block BcTx)) sm :
  NewSyncManager fuel env cfg GitCommit key b db genesis = Returns (sm : SyncManager book) ->
  exists p2p s0 block s1 s2 ls status info version,
    P2P cfg = Some p2p /\ NewSwitch (Config.MaxNumPeers p2p) b db = Some s0 /\ genesis = Some block /\
    let pr := mkProtocolReactor (BlockHeader_Hash (b_BlockHeader block)) false NewBaseService in
    AddReactor (str "PEX") (RPEX : @reactor node_env) s0 = Some s1 /\
    AddReactor (str "PROTOCOL") (RProtocol pr : @reactor node_env) s1 = Some s2 /\
    version_Version GitCommit = Some version /\
    (if VaultMode (Base cfg) then ls = [] /\ status = false
     else exists l, ls = [l] /\ NewDefaultListener fuel env (protocolAndAddress (ListenAddress p2p)).1
       (protocolAndAddress (ListenAddress p2p)).2 (SkipUPNP p2p) = Returns (l, status)) /\
    info = mkNodeInfo (PubKeyOf key) (Config.Moniker (Base cfg)) (ChainID (Base cfg)) []
      (from_option (fun l => ip_port (if status : bool then ExternalAddress l else InternalAddress l)) [] (head ls)) version
      [str "wire_version=" ++ wire_Version; str "p2p_version=" ++ p2p_Version] /\
    sm = mkManager (set_nodeInfo info s2) ls key key false.
Proof.
  unfold NewSyncManager. destruct (P2P cfg) as [p2p|]; [|done]. cbn [or_panic mbind outcome_bind].
  destruct (NewSwitch _ b db) as [s0|] eqn:E0; [|done]. cbn [or_panic mbind outcome_bind].
  destruct (AddReactor (str "PEX") _ s0) as [s1|] eqn:E1; [|done]. cbn [or_panic mbind outcome_bind].
  destruct genesis as [block|]; [|done]. cbn [NewProtocolReactor or_panic mbind option_bind outcome_bind].
  destruct (AddReactor (str "PROTOCOL") _ s1) as [s2|] eqn:E2; [|done]. cbn [or_panic mbind outcome_bind].
  unfold makeNodeInfo. destruct (VaultMode (Base cfg)).
  - cbn [mbind outcome_bind]. destruct (version_Version GitCommit) as [v|]; [|done]. cbn. intros [= <-].
    exists p2p, s0, block, s1, s2, [], false. eexists _, v. split_and!; try done.
  - destruct (protocolAndAddress (ListenAddress p2p)) as [p a] eqn:Ep.
    destruct (NewDefaultListener fuel env p a (SkipUPNP p2p)) as [[l status]| |] eqn:El; try done. cbn [mbind outcome_bind].
    destruct (version_Version GitCommit) as [v|]; [|done]. cbn. intros [= <-].
    exists p2p, s0, block, s1, s2, [l], status. eexists _, v. split_and!; try done; [rewrite Ep; by exists l|]. by destruct status.
Qed.

(** The text of an IPv4 address is digits and dots. *)
Lemma dotted_chars ip c : bytes_ok ip -> c ∈ dotted ip -> 48 <= c <= 57 \/ c = 46.
Proof.
  intros Hip. unfold dotted. destruct ip as [|b ip]; cbn [map joinWith]; [by intros ?%not_elem_of_nil|].
  apply Forall_cons_1 in Hip as [Hb Hip]. unfold byte_ok in Hb. intros [Hc|Hc]%elem_of_app.
  - left. pose proof (itoa_digits b ltac:(lia)) as Hd. rewrite list.Forall_forall in Hd. by apply Hd.
  - apply list_elem_of_join in Hc as (w & Hc & Hw). apply list_elem_of_In, in_map_iff in Hw as (v & <- & Hv).
    apply in_map_iff in Hv as (x & <- & Hx). rewrite List.Forall_forall in Hip. specialize (Hip x Hx). unfold byte_ok in Hip.
    apply elem_of_app in Hc as [Hc|Hc]; [right; change (str ".") with [46] in Hc; by apply list_elem_of_singleton in Hc|].
    left. pose proof (itoa_digits x ltac:(lia)) as Hd. rewrite list.Forall_forall in Hd. by apply Hd.
Qed.

(** A reactor of one channel that is free. *)
Lemma AddReactor_one name (r : @reactor node_env) d (sw : Switch (book := book)) : GetChannels r = [d] -> reactorsByCh sw !! ID d = None ->
  AddReactor name r sw = Some (set_reactors (<[name := r]> (reactors sw)) (chDescs sw ++ [d]) (<[ID d := r]> (reactorsByCh sw)) sw).
Proof. intros Hg Hf. unfold AddReactor. rewrite Hg. cbn [add_channels]. by rewrite Hf. Qed.

(** The manager that is returned: the switch, which does not run yet and has no peers, hands the
    messages of channel 0 to the peer exchange and those of channel 64 to the protocol reactor,
    which holds the hash of the chain's genesis block and no fetcher; the node tells its
    own key and the network of its configuration, and, unless it is in vault mode, it has one
    listener and tells its external address if that is reachable, else its internal one. *)
Theorem node_wiring `{EntryOps} {BcTx : Type} fuel env cfg GitCommit key b db (genesis : option (Block BcTx)) sm :
  NewSyncManager fuel env cfg GitCommit key b db genesis = Returns (sm : SyncManager book) ->
  exists block, genesis = Some block /\
    let pr := RProtocol (mkProtocolReactor (BlockHeader_Hash (b_BlockHeader block)) false NewBaseService) in
    (forall ch, onReceive ch (sw sm) = if ch =? 0 then Some (RPEX : @reactor node_env) else if ch =? 64 then Some pr else None) /\
    map ID (chDescs (sw sm)) = [0; 64] /\ Reactor_ (str "PEX") (sw sm) = Some RPEX /\ Reactor_ (str "PROTOCOL") (sw sm) = Some pr /\
    Switch.running (sw sm) = false /\ Switch.peers (sw sm) = ∅ /\ manager_fetcher sm = false /\
    PubKey (nodeInfo (sw sm)) = PubKeyOf key /\ Network (nodeInfo (sw sm)) = ChainID (Base cfg) /\
    (if VaultMode (Base cfg) then IsListening sm = false /\ ListenAddr (nodeInfo (sw sm)) = []
     else exists l, Listeners sm = [l] /\ IsRunning (l_svc l) = true /\
       (ListenAddr (nodeInfo (sw sm)) = ip_port (ExternalAddress l) \/ ListenAddr (nodeInfo (sw sm)) = ip_port (InternalAddress l))).
Proof.
  intros Hs. destruct (NewSyncManager_made _ _ _ _ _ _ _ _ _ Hs) as
    (p2p & s0 & block & s1 & s2 & ls & status & info & v & _ & H0 & -> & H1 & H2 & Hv & Hl & -> & ->).
  exists block. split; [done|]. assert (exists bans, s0 = mkSwitch (Config.MaxNumPeers p2p) false ∅ [] ∅ ∅ ∅
    (mkNodeInfo [] [] [] [] [] [] []) b bans db) as [bans ->].
  { revert H0. unfold NewSwitch. repeat case_on; try done; intros [= <-]; by eexists. }
  rewrite (AddReactor_one _ _ (mkDesc 0 1 10 0 0)) in H1 by done. injection H1 as <-.
  rewrite (AddReactor_one _ _ (mkDesc 64 5 100 0 0)) in H2 by done. injection H2 as <-.
  cbn [sw set_nodeInfo set_reactors chDescs reactors reactorsByCh Switch.running Switch.peers nodeInfo PubKey Network ListenAddr ID
    listeners manager_fetcher app map].
  split_and!; try done.
  - intros ch. unfold onReceive. cbn [sw set_nodeInfo set_reactors reactorsByCh].
    destruct (Z.eqb_spec ch 0) as [->|H0']; [by rewrite lookup_insert_ne, lookup_insert_eq by done|].
    destruct (Z.eqb_spec ch 64) as [->|H64]; [by rewrite lookup_insert_eq|]. by rewrite !lookup_insert_ne, lookup_empty by done.
  - destruct (VaultMode (Base cfg)); [by destruct Hl as [-> _]|]. destruct Hl as (l & -> & Hl). exists l. split; [done|].
    split; [by eapply listener_runs|]. cbn. destruct status; [by left|by right].
Qed.

(** Two nodes that run this version take each other for compatible exactly if they are configured for
    the same network, whatever the commits they were built from. *)
Theorem nodes_compatible `{EntryOps} {BcTx : Type} fuel fuel' env env' cfg cfg' GitCommit GitCommit' key key' b b' db db'
    (genesis genesis' : option (Block BcTx)) (sm sm' : SyncManager book) :
  NewSyncManager fuel env cfg GitCommit key b db genesis = Returns sm ->
  NewSyncManager fuel' env' cfg' GitCommit' key' b' db' genesis' = Returns sm' ->
  46 ∉ GitCommit -> 46 ∉ GitCommit' ->
  (CompatibleWith (nodeInfo (sw sm)) (nodeInfo (sw sm')) = None <-> ChainID (Base cfg) = ChainID (Base cfg')).
Proof.
  intros Hs Hs' Hg Hg'.
  destruct (NewSyncManager_made _ _ _ _ _ _ _ _ _ Hs) as (? & ? & ? & ? & ? & ? & ? & ? & v & _ & _ & _ & _ & _ & Hv & _ & -> & ->).
  destruct (NewSyncManager_made _ _ _ _ _ _ _ _ _ Hs') as (? & ? & ? & ? & ? & ? & ? & ? & v' & _ & _ & _ & _ & _ & Hv' & _ & -> & ->).
  destruct (version_Version_dots _ _ Hv Hg) as (r & -> & Hr). destruct (version_Version_dots _ _ Hv' Hg') as (r' & -> & Hr').
  cbn [sw set_nodeInfo nodeInfo]. unfold CompatibleWith. cbn [Version Network].
  assert (forall q, 46 ∉ q -> splitVersion (dots (str "1") (str "0") q) = Ok (str "1", str "0", q)) as Hsp.
  { intros q Hq. apply splitVersion_ok. split_and!; try done;
      [apply (bool_decide_eq_true_1 (46 ∉ str "1"))|apply (bool_decide_eq_true_1 (46 ∉ str "0"))]; vm_compute; reflexivity. }
  rewrite !Hsp by done. rewrite !(bool_decide_true (_ = _)) by done. cbn [negb].
  case_bool_decide; cbn [negb]; by split.
Qed.

(** The address that a node tells is one that its peers can read if it is an IPv4 address.  An IPv6
    address is written without brackets: its peers, and the node itself when it looks for its
    own address, find no host and no port in it. *)
Theorem told_address (na : NetAddress) (i : NodeInfo) : bytes_ok (na_IP na) -> 0 <= Port na < 2 ^ 16 ->
  ListenAddr i = ip_port na ->
  (is_Some (To4 (na_IP na)) -> ListenHost i = IP_String (na_IP na) /\ ListenPort i = Port na) /\
  (58 ∈ IP_String (na_IP na) -> ListenHost i = [] /\ ListenPort i = -1).
Proof.
  intros Hip Hp Ha. pose proof (itoa_digits (Port na) ltac:(lia)) as Hd. destruct (plain_not_in _ (plain_IP_String _ Hip)) as [H1 H3].
  unfold ListenHost, ListenPort. rewrite Ha. unfold ip_port. split.
  - intros [v4 H4]. assert (IP_String (na_IP na) ++ str ":" ++ itoa (Port na) = JoinHostPort (IP_String (na_IP na)) (itoa (Port na))) as ->.
    { unfold JoinHostPort. case_on; [|done]. exfalso. apply existsb_exists in Heqb as (c & Hc & Hb). revert Hc.
      rewrite <- list_elem_of_In. unfold IP_String. rewrite H4. intros Hc. apply (dotted_chars v4) in Hc; [zbool; zlia|].
      by apply (To4_ok (na_IP na)). }
    rewrite JoinHostPort_split by done. by rewrite Atoi_itoa by lia.
  - intros Hc. assert (exists e, SplitHostPort (IP_String (na_IP na) ++ str ":" ++ itoa (Port na)) = Err e) as [e ->]; [|done].
    unfold SplitHostPort. change (str ":" ++ itoa (Port na)) with (58 :: itoa (Port na)).
    rewrite last_index_of_app by (apply (digits_not_in 58 _ Hd); lia).
    rewrite bool_decide_false; cycle 1.
    { destruct (IP_String (na_IP na)) as [|x host] eqn:E; [by apply not_elem_of_nil in Hc|]. cbn. intros [= ->]. apply H1. left. }
    rewrite take_app_length. unfold contains at 1. rewrite bool_decide_true by done. by eexists.
Qed.
End properties.

(** *** A concrete node *)
Definition ex_lib : NodeLib := {|
  nl_KeyString := fun k => k;
  nl_Marshal := fun _ => Ok [];
  nl_Unmarshal := fun _ => Ok ∅;
  nl_Wrap := fun e _ => e;
  PubKeyOf := fun k => map (fun b => b + 1) k;
|}.
Definition ex_cfg (chain : gostring) : Config :=
  mkConfig
    (mkBaseConfig [] chain [] (str "anonymous") [] true false false [] [] [] [] [] [] false 0 [])
    (Some (mkP2PConfig [] (str "tcp://10.0.0.1:46656") [] true [] true true 50 30 3)) None None None.

Lemma node_wiring_witness : exists sm,
  @NewSyncManager ex_lib ex_unicode ex_http one_resolver unit MapTx.ex_ops unit 2 ex_lenv (ex_cfg (str "mainnet")) [] [4] tt ∅ (Some sample_block)
    = Returns sm /\
  ListenAddr (nodeInfo (sw sm)) = str "10.0.0.1:46656" /\ map ID (chDescs (sw sm)) = [0; 64].
Proof.
  assert (exists sm, @NewSyncManager ex_lib ex_unicode ex_http one_resolver unit MapTx.ex_ops unit 2 ex_lenv (ex_cfg (str "mainnet"))
      [] [4] tt ∅ (Some sample_block) = Returns sm /\ ListenAddr (nodeInfo (sw sm)) = str "10.0.0.1:46656") as (sm & Hs & Ha)
    by (eexists; split; vm_compute; reflexivity).
  exists sm. split; [exact Hs|]. split; [exact Ha|].
  destruct (@node_wiring ex_lib ex_unicode ex_http one_resolver unit MapTx.ex_ops unit _ _ _ _ _ _ _ _ _ Hs) as (_ & _ & _ & Hc & _). exact Hc.
Defined.

(** Nodes of one network, the second with the commit of its build, and a node of another. *)
Lemma nodes_compatible_witness : exists sm1 sm2 sm3,
  CompatibleWith (nodeInfo (@sw ex_lib unit sm1)) (nodeInfo (@sw ex_lib unit sm2)) = None /\
  CompatibleWith (nodeInfo (@sw ex_lib unit sm1)) (nodeInfo (@sw ex_lib unit sm3)) <> None.
Proof.
  assert (forall c g, c = str "mainnet" \/ c = str "testnet" -> g = [] \/ g = str "0123456789" ->
    exists sm, @NewSyncManager ex_lib ex_unicode ex_http one_resolver unit MapTx.ex_ops unit 2 ex_lenv (ex_cfg c) g [4] tt ∅ (Some sample_block)
      = Returns sm) as Hm.
  { intros c g [->| ->] [->| ->]; eexists; vm_compute; reflexivity. }
  assert ((46 ∉ []) /\ (46 ∉ str "0123456789")) as [Hn Hg].
  { split; [apply not_elem_of_nil|]. apply (bool_decide_eq_true_1 (46 ∉ str "0123456789")). vm_compute. reflexivity. }
  destruct (Hm (str "mainnet") [] ltac:(by left) ltac:(by left)) as [sm1 H1].
  destruct (Hm (str "mainnet") (str "0123456789") ltac:(by left) ltac:(by right)) as [sm2 H2].
  destruct (Hm (str "testnet") [] ltac:(by right) ltac:(by left)) as [sm3 H3].
  exists sm1, sm2, sm3. split.
  - apply (@nodes_compatible ex_lib ex_unicode ex_http one_resolver unit MapTx.ex_ops unit _ _ _ _ _ _ _ _ _ _ _ _ _ _ _ _ _ _ H1 H2 Hn Hg). reflexivity.
  - intros Hc. apply (@nodes_compatible ex_lib ex_unicode ex_http one_resolver unit MapTx.ex_ops unit _ _ _ _ _ _ _ _ _ _ _ _ _ _ _ _ _ _ H1 H3 Hn Hn) in Hc.
    vm_compute in Hc. discriminate Hc.
Defined.

Lemma told_address_witness :
  let i := mkNodeInfo [] [] [] [] (ip_port (mkNetAddress (v6 [8193; 3512; 0; 0; 0; 0; 0; 1]) 46656)) [] [] in
  ListenAddr i = str "2001:db8::1:46656" /\ ListenHost i = [] /\ ListenPort i = -1.
Proof.
  cbv zeta. split; [vm_compute; reflexivity|].
  apply (told_address (mkNetAddress (v6 [8193; 3512; 0; 0; 0; 0; 0; 1]) 46656)).
  - apply bytes_okb_ok. vm_compute. reflexivity.
  - cbn. lia.
  - reflexivity.
  - apply (bool_decide_eq_true_1 (58 ∈ _)). vm_compute. reflexivity.
Defined.
