(* ===== verification/Events.v ===== *)
(** * Events

    Models [types/events.go]: the names of events, their data and the typed wrappers, over the
    event switch and the event cache of the vendored [tmlibs/events].  A nil map is [None]:
    reading it finds nothing, writing it is a panic.  The switch of this program's version is
    not used by the other parts. *)
From S2P Require Import Prelude Errors GoLib Connection Switch Dispatch.

(** ** types/events.go: names and data *)
Definition EventStringBond : gostring := str "Bond".
Definition EventStringUnbond : gostring := str "Unbond".
Definition EventStringRebond : gostring := str "Rebond".
Definition EventStringDupeout : gostring := str "Dupeout".
Definition EventStringFork : gostring := str "Fork".
Definition EventStringNewBlock : gostring := str "NewBlock".
Definition EventStringNewBlockHeader : gostring := str "NewBlockHeader".
Definition EventStringNewRound : gostring := str "NewRound".
Definition EventStringNewRoundStep : gostring := str "NewRoundStep".
Definition EventStringTimeoutPropose : gostring := str "TimeoutPropose".
Definition EventStringCompleteProposal : gostring := str "CompleteProposal".
Definition EventStringPolka : gostring := str "Polka".
Definition EventStringUnlock : gostring := str "Unlock".
Definition EventStringLock : gostring := str "Lock".
Definition EventStringRelock : gostring := str "Relock".
Definition EventStringTimeoutWait : gostring := str "TimeoutWait".
Definition EventStringVote : gostring := str "Vote".

Definition EventDataNameNewBlock : gostring := str "new_block".
Definition EventDataNameNewBlockHeader : gostring := str "new_block_header".
Definition EventDataNameTx : gostring := str "tx".
Definition EventDataNameRoundState : gostring := str "round_state".
Definition EventDataNameVote : gostring := str "vote".

Definition EventDataTypeNewBlock : Z := 1.
Definition EventDataTypeFork : Z := 2.
Definition EventDataTypeTx : Z := 3.
Definition EventDataTypeNewBlockHeader : Z := 4.
Definition EventDataTypeRoundState : Z := 17.
Definition EventDataTypeVote : Z := 18.

Record EventDataTx := mkEventDataTx { tx_Height : Z; tx_Data : bytes; tx_Log : gostring; tx_Code : Z; tx_Error : gostring }.
Record EventDataRoundState := mkEventDataRoundState { rs_Height : Z; rs_Round : Z; rs_Step : gostring }.

(** The values that the interface of event data holds in this program; [DWrapped] is a
    [TMEventData] around another, nil being [None]. *)
#[local] Unset Elimination Schemes.
Inductive EventData :=
| DNewBlock
| DNewBlockHeader
| DTx (e : EventDataTx)
| DRoundState (e : EventDataRoundState)
| DVote
| DWrapped (inner : option EventData)
| DOther (n : Z).
#[local] Set Elimination Schemes.

Definition TMEventData : Type := option EventData.

(** The loop through wrappers in wrappers. *)
Fixpoint unwrap_data (d : EventData) : option EventData :=
  match d with
  | DWrapped None => None
  | DWrapped (Some d) => unwrap_data d
  | _ => Some d
  end.
Definition Unwrap (tmr : TMEventData) : option EventData := d ← tmr; unwrap_data d.
Definition Empty (tmr : TMEventData) : bool := bool_decide (tmr = None :> option EventData).

(** ** tmlibs/events *)
Section switch.
(** The callbacks. *)
Context {CB : Type}.

(** The cells of the events, and of each listener the events it was added for. *)
Record eventSwitch := mkEventSwitch {
  es_svc : service;
  eventCells : option (gmap gostring (gmap gostring CB));
  es_listeners : option (gmap gostring (list gostring));
}.

Definition NewEventSwitch : eventSwitch := mkEventSwitch NewBaseService None None.

Definition es_Start (s : eventSwitch) : eventSwitch :=
  let '(svc, go) := Start None (es_svc s) in
  if go : bool then mkEventSwitch svc (Some ∅) (Some ∅) else mkEventSwitch svc (eventCells s) (es_listeners s).
Definition es_Stop (s : eventSwitch) : eventSwitch :=
  let '(svc, go) := Stop (es_svc s) in
  if go : bool then mkEventSwitch svc None None else mkEventSwitch svc (eventCells s) (es_listeners s).

(** A read of a map that may be nil. *)
Definition read {A} (m : option (gmap gostring A)) (k : gostring) : option A := m ≫= (fun m => m !! k).

(** A cell or a listener that is missing is entered, into a nil map with a panic. *)
Definition AddListenerForEvent (listenerID event : gostring) (cb : CB) (s : eventSwitch) : option eventSwitch :=
  cells ← eventCells s;
  let cell := default ∅ (cells !! event) in
  ls ← es_listeners s;
  let events := default [] (ls !! listenerID) in
  Some (mkEventSwitch (es_svc s) (Some (<[event := <[listenerID := cb]> cell]> cells))
          (Some (<[listenerID := events ++ [event]]> ls))).

Definition RemoveListenerForEvent (event listenerID : gostring) (s : eventSwitch) : eventSwitch :=
  match eventCells s, read (eventCells s) event with
  | Some cells, Some cell =>
      let cell := delete listenerID cell in
      mkEventSwitch (es_svc s)
        (Some (if bool_decide (size cell = 0%nat) then delete event cells else <[event := cell]> cells)) (es_listeners s)
  | _, _ => s
  end.

Definition RemoveListener (listenerID : gostring) (s : eventSwitch) : eventSwitch :=
  match read (es_listeners s) listenerID with
  | None => s
  | Some events =>
      foldl (fun s event => RemoveListenerForEvent event listenerID s)
        (mkEventSwitch (es_svc s) (eventCells s) (delete listenerID <$> es_listeners s)) events
  end.

(** The callbacks that are called, with the data, in the order of the iteration over the cell. *)
Definition FireEvent (range : gmap gostring CB -> list (gostring * CB)) (event : gostring) (data : EventData) (s : eventSwitch)
    : list (CB * EventData) :=
  match read (eventCells s) event with
  | None => []
  | Some cell => (fun x => (x.2, data)) <$> range cell
  end.

(** *** The cache *)
Definition EventCache : Type := list (gostring * EventData).
Definition NewEventCache : EventCache := [].
Definition cache_FireEvent (event : gostring) (data : EventData) (c : EventCache) : EventCache := c ++ [(event, data)].
Definition Flush (range : gmap gostring CB -> list (gostring * CB)) (c : EventCache) (s : eventSwitch)
    : list (CB * EventData) * EventCache :=
  (mjoin ((fun x => FireEvent range x.1 x.2 s) <$> c), []).

(** ** types/events.go: firing *)
(** What an event can be fired at; nil is [None]. *)
Inductive fireable := FSwitch | FCache.

Record world := mkWorld { w_switch : eventSwitch; w_cache : EventCache; w_called : list (CB * EventData) }.

Definition fireEvent (range : gmap gostring CB -> list (gostring * CB)) (f : option fireable) (event : gostring)
    (data : TMEventData) (w : world) : world :=
  match f with
  | None => w
  | Some FSwitch => mkWorld (w_switch w) (w_cache w) (w_called w ++ FireEvent range event (DWrapped data) (w_switch w))
  | Some FCache => mkWorld (w_switch w) (cache_FireEvent event (DWrapped data) (w_cache w)) (w_called w)
  end.

Context (range : gmap gostring CB -> list (gostring * CB)).
Definition FireEventNewBlock f := fireEvent range f EventStringNewBlock (Some DNewBlock).
Definition FireEventNewBlockHeader f := fireEvent range f EventStringNewBlockHeader (Some DNewBlockHeader).
Definition FireEventVote f := fireEvent range f EventStringVote (Some DVote).
Definition FireEventNewRoundStep f rs := fireEvent range f EventStringNewRoundStep (Some (DRoundState rs)).
Definition FireEventTimeoutPropose f rs := fireEvent range f EventStringTimeoutPropose (Some (DRoundState rs)).
Definition FireEventTimeoutWait f rs := fireEvent range f EventStringTimeoutWait (Some (DRoundState rs)).
Definition FireEventNewRound f rs := fireEvent range f EventStringNewRound (Some (DRoundState rs)).
Definition FireEventCompleteProposal f rs := fireEvent range f EventStringCompleteProposal (Some (DRoundState rs)).
Definition FireEventPolka f rs := fireEvent range f EventStringPolka (Some (DRoundState rs)).
Definition FireEventUnlock f rs := fireEvent range f EventStringUnlock (Some (DRoundState rs)).
Definition FireEventRelock f rs := fireEvent range f EventStringRelock (Some (DRoundState rs)).
Definition FireEventLock f rs := fireEvent range f EventStringLock (Some (DRoundState rs)).
End switch.
Arguments eventSwitch CB : clear implicits.

(** The typed wrapper of a callback: a type assertion, whose failure is a panic. *)
Definition typed {R} (cb : TMEventData -> R) (data : EventData) : option R :=
  match data with DWrapped inner => Some (cb inner) | _ => None end.
Definition AddListenerForEvent_typed {R} (id event : gostring) (cb : TMEventData -> R) (evsw : eventSwitch (EventData -> option R))
    : option (eventSwitch (EventData -> option R)) :=
  AddListenerForEvent id event (typed cb) evsw.

(** ** Names and data *)
Definition event_names : list gostring :=
  [EventStringBond; EventStringUnbond; EventStringRebond; EventStringDupeout; EventStringFork; EventStringNewBlock;
   EventStringNewBlockHeader; EventStringNewRound; EventStringNewRoundStep; EventStringTimeoutPropose;
   EventStringCompleteProposal; EventStringPolka; EventStringUnlock; EventStringLock; EventStringRelock;
   EventStringTimeoutWait; EventStringVote].

Lemma event_names_distinct : NoDup event_names.
Proof. apply (bool_decide_eq_true_1 (NoDup event_names)). vm_compute. reflexivity. Qed.

Definition is_wrapped (d : EventData) : bool := match d with DWrapped _ => true | _ => false end.

(** However deep the wrappers are nested, what [Unwrap] returns is none. *)
Lemma Unwrap_inner tmr d : Unwrap tmr = Some d -> is_wrapped d = false.
Proof.
  unfold Unwrap. destruct tmr as [e|]; cbn; [|discriminate]. revert e. fix IH 1.
  intros [| | x| x| |[x|]| n]; cbn; [clear IH..|apply IH|clear IH|clear IH]; congruence || (intros [= <-]; reflexivity).
Qed.

(** [Empty] looks at the first wrapper only: a wrapper around nothing is not empty. *)
Example Empty_shallow : Empty (Some (DWrapped None)) = false /\ Unwrap (Some (DWrapped None)) = None.
Proof. split; reflexivity. Qed.

(** ** The switch as a registry *)
Section registry.
Context {CB : Type}.
Local Abbreviation eventSwitch := (eventSwitch CB).

Inductive eop :=
| OAdd (listener event : gostring) (cb : CB)
| ORemoveFor (event listener : gostring)
| ORemove (listener : gostring).

Definition do_eop (o : eop) (s : eventSwitch) : option eventSwitch :=
  match o with
  | OAdd l e cb => AddListenerForEvent l e cb s
  | ORemoveFor e l => Some (RemoveListenerForEvent e l s)
  | ORemove l => Some (RemoveListener l s)
  end.
Definition do_eops (os : list eop) (s : eventSwitch) : option eventSwitch :=
  foldl (fun s o => s ← s; do_eop o s) (Some s) os.

(** The specification: of each event, its listeners with their callbacks. *)
Definition registry : Type := gostring -> gmap gostring CB.
Definition reg_op (o : eop) (r : registry) : registry := fun e' =>
  match o with
  | OAdd l e cb => if decide (e' = e) then <[l := cb]> (r e') else r e'
  | ORemoveFor e l => if decide (e' = e) then delete l (r e') else r e'
  | ORemove l => delete l (r e')
  end.
Definition reg_ops (os : list eop) (r : registry) : registry := foldl (fun r o => reg_op o r) r os.

(** The registry of a switch. *)
Definition registered (s : eventSwitch) : registry := fun e => default ∅ (read (eventCells s) e).

(** What holds of a switch that was started: the maps are there, no cell is empty, and the list
    of a listener has all the events it is in a cell of. *)
Definition es_wf (s : eventSwitch) : Prop :=
  exists cells ls, eventCells s = Some cells /\ es_listeners s = Some ls /\
    (forall e cell, cells !! e = Some cell -> cell <> ∅) /\
    (forall e cell l, cells !! e = Some cell -> is_Some (cell !! l) -> exists es, ls !! l = Some es /\ e ∈ es).
End registry.
Arguments eop CB : clear implicits.

Section registry_facts.
Context {CB : Type}.
Local Abbreviation eventSwitch := (eventSwitch CB).
Implicit Types (s : eventSwitch) (r : @registry CB).

Lemma registered_cells s cells e : eventCells s = Some cells -> registered s e = default ∅ (cells !! e).
Proof. unfold registered, read. intros ->. reflexivity. Qed.

Lemma es_wf_start : es_wf (es_Start (NewEventSwitch (CB := CB))).
Proof. exists ∅, ∅. repeat split; intros *; rewrite lookup_empty; discriminate. Qed.

Lemma AddListenerForEvent_ok s l e cb : es_wf s ->
  exists s', AddListenerForEvent l e cb s = Some s' /\ es_wf s' /\
    forall e', registered s' e' = if decide (e' = e) then <[l := cb]> (registered s e') else registered s e'.
Proof.
  intros (cells & ls & Hc & Hl & Hne & Hin). unfold AddListenerForEvent. rewrite Hc, Hl. cbn.
  eexists. split; [reflexivity|]. split.
  - eexists _, _. split; [reflexivity|]. split; [reflexivity|]. split; intros e' cell.
    + destruct (decide (e' = e)) as [->|]; [rewrite lookup_insert_eq; intros [= <-]; apply insert_non_empty|].
      rewrite lookup_insert_ne by congruence. apply Hne.
    + intros l'. destruct (decide (l' = l)) as [->|Hne'].
      * intros Hcell Hs. rewrite lookup_insert_eq. eexists. split; [reflexivity|]. rewrite elem_of_app, list_elem_of_singleton.
        destruct (decide (e' = e)) as [->|]; [auto|]. rewrite lookup_insert_ne in Hcell by congruence.
        destruct (Hin _ _ _ Hcell Hs) as (es & -> & ?). auto.
      * rewrite (lookup_insert_ne ls) by congruence. intros Hcell Hs.
        destruct (decide (e' = e)) as [->|]; [|rewrite lookup_insert_ne in Hcell by congruence; eauto].
        rewrite lookup_insert_eq in Hcell. injection Hcell as <-. rewrite lookup_insert_ne in Hs by congruence.
        destruct (cells !! e) as [cell|] eqn:E; [|destruct Hs; discriminate]. eauto.
  - intros e'. rewrite !(registered_cells _ _ _ Hc). unfold registered, read. cbn.
    destruct (decide (e' = e)) as [->|]; [rewrite lookup_insert_eq|rewrite lookup_insert_ne by congruence]; reflexivity.
Qed.

Lemma RemoveListenerForEvent_ok s l e cells ls : eventCells s = Some cells -> es_listeners s = Some ls ->
  (forall e cell, cells !! e = Some cell -> cell <> ∅) ->
  exists cells', eventCells (RemoveListenerForEvent e l s) = Some cells' /\ es_listeners (RemoveListenerForEvent e l s) = Some ls /\
    (forall e cell, cells' !! e = Some cell -> cell <> ∅) /\
    forall e', default ∅ (cells' !! e') = if decide (e' = e) then delete l (default ∅ (cells !! e')) else default ∅ (cells !! e').
Proof.
  intros Hc Hl Hne. unfold RemoveListenerForEvent, read. rewrite Hc. cbn. destruct (cells !! e) as [cell|] eqn:E; cbn.
  2: { exists cells. split_and!; try assumption. intros e'. destruct (decide _) as [->|]; [rewrite E; symmetry; apply delete_empty|reflexivity]. }
  eexists. split; [reflexivity|]. split; [assumption|]. case_bool_decide as Hs; split; intros e'.
  - intros c. rewrite lookup_delete_Some. intros [_ ?]. eauto.
  - destruct (decide (e' = e)) as [->|]; [rewrite lookup_delete_eq, E; symmetry; apply map_size_empty_iff; assumption|].
    rewrite lookup_delete_ne by congruence. reflexivity.
  - intros c. rewrite lookup_insert_Some. intros [[<- <-]|[_ ?]]; [|eauto]. intros H. apply Hs. rewrite H. reflexivity.
  - destruct (decide (e' = e)) as [->|]; [rewrite lookup_insert_eq, E; reflexivity|]. rewrite lookup_insert_ne by congruence. reflexivity.
Qed.

(** A smaller registry keeps the lists sufficient. *)
Lemma es_wf_shrink s s' cells ls cells' : es_wf s -> eventCells s = Some cells -> es_listeners s = Some ls ->
  eventCells s' = Some cells' -> es_listeners s' = Some ls -> (forall e cell, cells' !! e = Some cell -> cell <> ∅) ->
  (forall e l, is_Some (default ∅ (cells' !! e) !! l) -> is_Some (default ∅ (cells !! e) !! l)) -> es_wf s'.
Proof.
  intros (cells0 & ls0 & Hc & Hl & _ & Hin) Hc' Hl' Hc2 Hl2 Hne Hsub.
  rewrite Hc in Hc'. injection Hc' as ->. rewrite Hl in Hl'. injection Hl' as ->. exists cells', ls. split_and!; try assumption.
  intros e cell l Hcell Hs. specialize (Hsub e l). rewrite Hcell in Hsub. cbn in Hsub. specialize (Hsub Hs).
  destruct (cells !! e) as [c|] eqn:E; cbn in Hsub; [eauto|]. rewrite lookup_empty in Hsub. destruct Hsub; discriminate.
Qed.

Lemma RemoveListenerForEvent_wf s l e : es_wf s ->
  es_wf (RemoveListenerForEvent e l s) /\
  forall e', registered (RemoveListenerForEvent e l s) e' = reg_op (ORemoveFor e l) (registered s) e'.
Proof.
  intros H. pose proof H as (cells & ls & Hc & Hl & Hne & _).
  destruct (RemoveListenerForEvent_ok s l e cells ls Hc Hl Hne) as (cells' & Hc' & Hl' & Hne' & Hr). split.
  - eapply es_wf_shrink; [exact H|eassumption..|]. intros e' l'. rewrite Hr. destruct (decide (e' = e)); [|tauto].
    intros [x Hx]. apply lookup_delete_Some in Hx as [_ ?]. eauto.
  - intros e'. rewrite (registered_cells _ _ _ Hc'), Hr. cbn. rewrite (registered_cells _ _ _ Hc). reflexivity.
Qed.

(** Removing a listener from the cells of all the events of its list. *)
Lemma remove_from_all l cells ls es s : eventCells s = Some cells -> es_listeners s = Some ls ->
  (forall e cell, cells !! e = Some cell -> cell <> ∅) ->
  let s' := foldl (fun s event => RemoveListenerForEvent event l s) s es in
  exists cells', eventCells s' = Some cells' /\ es_listeners s' = Some ls /\
    (forall e cell, cells' !! e = Some cell -> cell <> ∅) /\
    forall e', default ∅ (cells' !! e') = if decide (e' ∈ es) then delete l (default ∅ (cells !! e')) else default ∅ (cells !! e').
Proof.
  revert s cells. induction es as [|e es IH]; intros s cells Hc Hl Hne; cbn.
  { exists cells. split_and!; try assumption. intros e'. rewrite decide_False by apply not_elem_of_nil. reflexivity. }
  destruct (RemoveListenerForEvent_ok s l e cells ls Hc Hl Hne) as (c1 & Hc1 & Hl1 & Hn1 & Hr1).
  destruct (IH _ c1 Hc1 Hl1 Hn1) as (c2 & Hc2 & Hl2 & Hn2 & Hr2). exists c2. split_and!; try assumption.
  intros e'. rewrite Hr2, Hr1. pose proof (elem_of_cons es e' e) as Hel.
  destruct (decide (e' = e)), (decide (e' ∈ es)), (decide (e' ∈ e :: es));
    try reflexivity; try apply delete_delete_eq; tauto.
Qed.

Lemma RemoveListener_wf s l : es_wf s ->
  es_wf (RemoveListener l s) /\ forall e', registered (RemoveListener l s) e' = reg_op (ORemove l) (registered s) e'.
Proof.
  intros H. pose proof H as (cells & ls & Hc & Hl & Hne & Hin). unfold RemoveListener, read at 1 2. rewrite Hl. cbn.
  destruct (ls !! l) as [es|] eqn:El.
  - assert (Hs0 : eventCells (mkEventSwitch (es_svc s) (eventCells s) (Some (delete l ls))) = Some cells) by exact Hc.
    destruct (remove_from_all l cells _ es _ Hs0 eq_refl Hne) as (c' & Hc' & Hl' & Hne' & Hr). cbn in Hc', Hl'.
    assert (Hall : forall e', default ∅ (c' !! e') = delete l (default ∅ (cells !! e'))).
    { intros e'. rewrite Hr. destruct (decide (e' ∈ es)) as [|Hno]; [reflexivity|]. symmetry. apply delete_id, eq_None_not_Some.
      intros Hx. destruct (cells !! e') as [cell|] eqn:E; cbn in Hx; [|rewrite lookup_empty in Hx; destruct Hx; discriminate].
      destruct (Hin _ _ _ E Hx) as (es' & ? & ?). simplify_eq. contradiction. }
    split; [|intros e'; rewrite (registered_cells _ _ _ Hc'), (registered_cells _ _ _ Hc); apply Hall].
    exists c', (delete l ls). split_and!; try assumption. intros e' cell' l' E Hx. specialize (Hall e'). rewrite E in Hall. cbn in Hall.
    subst cell'. destruct Hx as [x Hx]. apply lookup_delete_Some in Hx as [Hll Hx].
    destruct (cells !! e') as [cell|] eqn:E'; cbn in Hx; [|rewrite lookup_empty in Hx; discriminate].
    rewrite lookup_delete_ne by congruence. apply (Hin _ _ _ E'). eauto.
  - split; [exact H|]. intros e'. rewrite (registered_cells _ _ _ Hc). symmetry. apply delete_id, eq_None_not_Some.
    intros Hx. destruct (cells !! e') as [cell|] eqn:E; cbn in Hx; [|rewrite lookup_empty in Hx; destruct Hx; discriminate].
    destruct (Hin _ _ _ E Hx) as (es' & ? & ?). congruence.
Qed.

Lemma do_eop_ok s o : es_wf s -> exists s', do_eop o s = Some s' /\ es_wf s' /\ forall e, registered s' e = reg_op o (registered s) e.
Proof.
  intros H. destruct o; cbn [do_eop].
  - apply AddListenerForEvent_ok, H.
  - eexists. split; [reflexivity|]. apply RemoveListenerForEvent_wf, H.
  - eexists. split; [reflexivity|]. apply RemoveListener_wf, H.
Qed.

Lemma reg_ops_ext os r r' : (forall e, r e = r' e) -> forall e, reg_ops os r e = reg_ops os r' e.
Proof.
  revert r r'. induction os as [|o os IH]; intros r r' H; cbn; [exact H|]. apply IH. intros e. destruct o; cbn; rewrite H; reflexivity.
Qed.

Lemma do_eops_ok os s : es_wf s ->
  exists s', do_eops os s = Some s' /\ es_wf s' /\ forall e, registered s' e = reg_ops os (registered s) e.
Proof.
  unfold do_eops. revert s. induction os as [|o os IH]; intros s H; cbn [foldl]; [eauto|]. cbn.
  destruct (do_eop_ok s o H) as (s1 & -> & H1 & Hr1). destruct (IH s1 H1) as (s2 & E & H2 & Hr2).
  exists s2. split; [exact E|]. split; [exact H2|]. intros e. rewrite Hr2. apply reg_ops_ext, Hr1.
Qed.

(** What is called are the callbacks registered for the event. *)
Lemma FireEvent_calls range e data s : (forall m, range m ≡ₚ map_to_list m) ->
  FireEvent range e data s ≡ₚ (fun x => (x.2, data)) <$> map_to_list (registered s e).
Proof.
  intros Hr. unfold FireEvent, registered. destruct (read _ e) as [cell|]; cbn; [rewrite Hr; reflexivity|].
  rewrite map_to_list_empty. reflexivity.
Qed.
End registry_facts.

(** The event switch refines the registry: from the start on, additions and removals in any
    order never panic, and an event calls each callback that the registry then has for it, once
    and with the data of the event. *)
Theorem switch_registry {CB} range os e (data : EventData) : (forall m : gmap gostring CB, range m ≡ₚ map_to_list m) ->
  exists s, do_eops os (es_Start NewEventSwitch) = Some s /\
    FireEvent range e data s ≡ₚ (fun x => (x.2, data)) <$> map_to_list (reg_ops os (fun _ => ∅) e).
Proof.
  intros Hr. destruct (do_eops_ok os _ es_wf_start) as (s & E & _ & Hs). exists s. split; [exact E|].
  rewrite (FireEvent_calls _ _ _ _ Hr), Hs. rewrite (reg_ops_ext os _ (fun _ => ∅)); [reflexivity|].
  intros e'. apply (registered_cells (es_Start NewEventSwitch) ∅ e' eq_refl).
Qed.

Lemma switch_registry_witness : exists s,
  do_eops [OAdd [1] [7] 10; OAdd [2] [7] 20; OAdd [1] [8] 30; ORemove [2]; ORemoveFor [9] [1]] (es_Start NewEventSwitch) = Some s /\
  FireEvent map_to_list [7] DVote s ≡ₚ [(10, DVote)].
Proof.
  destruct (switch_registry map_to_list
    [OAdd [1] [7] 10; OAdd [2] [7] 20; OAdd [1] [8] 30; ORemove [2]; ORemoveFor [9] [1]] [7] DVote ltac:(reflexivity)) as (s & E & H).
  exists s. split; [exact E|]. rewrite H. vm_compute. reflexivity.
Defined.

(** ** Errors, the cache and the typed wrappers *)
Section more.
Context {CB : Type} (range : gmap gostring CB -> list (gostring * CB)).

(** Before the start and after the end the maps are nil: an addition is a panic, a removal does
    nothing and an event calls nobody. *)
Lemma switch_not_started (s : eventSwitch CB) l e cb data : eventCells s = None -> es_listeners s = None ->
  AddListenerForEvent l e cb s = None /\ RemoveListener l s = s /\ RemoveListenerForEvent e l s = s /\ FireEvent range e data s = [].
Proof.
  intros Hc Hl. unfold AddListenerForEvent, RemoveListener, RemoveListenerForEvent, FireEvent, read. rewrite Hc, Hl. repeat split.
Qed.
Lemma switch_stopped (s : eventSwitch CB) : stopped (es_svc s) = false ->
  eventCells (es_Stop s) = None /\ es_listeners (es_Stop s) = None /\ forall l e cb, AddListenerForEvent l e cb (es_Stop s) = None.
Proof. unfold es_Stop, Stop. intros ->. repeat split. Qed.

(** What is cached is fired at a flush, in the order in which it came, and then forgotten. *)
Lemma Flush_spec (es : list (gostring * EventData)) s :
  Flush range (foldl (fun c x => cache_FireEvent x.1 x.2 c) NewEventCache es) s = (mjoin ((fun x => FireEvent range x.1 x.2 s) <$> es), []).
Proof.
  unfold Flush. f_equal. do 2 f_equal. change es with ([] ++ es) at 2. unfold NewEventCache. generalize (@nil (gostring * EventData)).
  induction es as [|[e d] es IH]; intros c; cbn; [rewrite app_nil_r; reflexivity|]. rewrite IH. unfold cache_FireEvent. rewrite <- app_assoc. reflexivity.
Qed.
End more.

(** The wrapped callbacks never fail on what the functions of this file fire; on the data of
    another caller of the switch they panic. *)
Lemma typed_fired {R} range e d (f : option fireable) (w : @world (EventData -> option R)) :
  w_cache w = [] -> w_called w = [] ->
  let w' := fireEvent range f e d w in
  Forall (fun c => c.2 = DWrapped d /\ forall cb, c.1 = typed cb -> c.1 c.2 = Some (cb d))
    (w_called w' ++ (Flush range (w_cache w') (w_switch w')).1).
Proof.
  intros Hc Hn. assert (H : Forall (fun c : (EventData -> option R) * EventData =>
    c.2 = DWrapped d /\ forall cb, c.1 = typed cb -> c.1 c.2 = Some (cb d)) (FireEvent range e (DWrapped d) (w_switch w))).
  { unfold FireEvent. destruct (read _ _) as [cell|]; [|constructor]. apply list.Forall_forall. intros c Hin.
    apply list_elem_of_fmap in Hin as (x & -> & _). cbn. split; [reflexivity|]. intros cb ->. reflexivity. }
  destruct f as [[]|]; cbn; rewrite ?Hc, ?Hn; cbn; rewrite ?app_nil_r; [exact H|exact H|constructor].
Qed.
Lemma typed_other {R} (cb : TMEventData -> R) d : is_wrapped d = false -> typed cb d = None.
Proof. destruct d; [reflexivity..|discriminate|reflexivity]. Qed.
