(* ===== verification/EventsJson.v ===== *)
(** * The JSON form of event data

    Models [MarshalJSON] and [UnmarshalJSON] of [types/events.go] and the mapper of the vendored
    [go-wire/data] that they use: the tables of the registered types, the envelope with the name
    of the type, and the registration of the types with go-wire.  [encoding/json] itself is a
    class of four functions, one for each use; the laws say what it documents of them. *)
From S2P Require Import Prelude Errors GoLib Connection Events.

(** ** Dynamic types *)
Inductive rtype := RNewBlock | RNewBlockHeader | RTx | RRoundState | RVote | RTMEventData | ROther (n : Z).
#[export] Instance rtype_eq_dec : EqDecision rtype.
Proof. solve_decision. Defined.
#[export] Instance rtype_countable : Countable rtype.
Proof.
  apply (inj_countable'
    (fun t => match t with RNewBlock => inl 0 | RNewBlockHeader => inl 1 | RTx => inl 2 | RRoundState => inl 3 | RVote => inl 4
              | RTMEventData => inl 5 | ROther n => inr n end)
    (fun x : Z + Z => match x with inl 0 => RNewBlock | inl 1 => RNewBlockHeader | inl 2 => RTx | inl 3 => RRoundState
              | inl 4 => RVote | inl _ => RTMEventData | inr n => ROther n end)).
  intros []; reflexivity.
Defined.

Definition TypeOf (d : EventData) : rtype :=
  match d with
  | DNewBlock => RNewBlock | DNewBlockHeader => RNewBlockHeader | DTx _ => RTx | DRoundState _ => RRoundState
  | DVote => RVote | DWrapped _ => RTMEventData | DOther n => ROther n
  end.

(** ** The mapper *)
Record jsonMapper := mkJsonMapper { kindToType : gmap gostring rtype; typeToKind : gmap rtype gostring }.
Definition newJsonMapper : jsonMapper := mkJsonMapper ∅ ∅.
Definition json_register (typ : rtype) (kind : gostring) (m : jsonMapper) : jsonMapper :=
  mkJsonMapper (<[kind := typ]> (kindToType m)) (<[typ := kind]> (typeToKind m)).

(** What go-wire keeps of an interface.  A byte that is zero or taken is a panic. *)
Record TypeInfo := mkTypeInfo { ByteToType : gmap Z rtype; TypeToByte : gmap rtype Z }.
Fixpoint register_types (ctypes : list (rtype * Z)) (info : TypeInfo) : option TypeInfo :=
  match ctypes with
  | [] => Some info
  | (crt, typeByte) :: ctypes =>
      if typeByte =? 0 then None else
      if bool_decide (is_Some (ByteToType info !! typeByte)) then None else
      register_types ctypes (mkTypeInfo (<[typeByte := crt]> (ByteToType info)) (<[crt := typeByte]> (TypeToByte info)))
  end.
Definition RegisterInterface (ctypes : list (rtype * Z)) : option TypeInfo := register_types ctypes (mkTypeInfo ∅ ∅).

(** The types so far, and what the last registration left in go-wire's table. *)
Record binaryMapper := mkBinaryMapper { impls : list (rtype * Z); registered_as : option TypeInfo }.
Definition newBinaryMapper : binaryMapper := mkBinaryMapper [] None.
Definition binary_register (typ : rtype) (b : Z) (m : binaryMapper) : option binaryMapper :=
  let impls := impls m ++ [(typ, b)] in
  info ← RegisterInterface impls; Some (mkBinaryMapper impls (Some info)).

Record Mapper := mkMapper { json_mapper : jsonMapper; binary_mapper : binaryMapper }.
Definition NewMapper : Mapper := mkMapper newJsonMapper newBinaryMapper.
Definition RegisterImplementation (typ : rtype) (kind : gostring) (b : Z) (m : Mapper) : option Mapper :=
  bm ← binary_register typ b (binary_mapper m); Some (mkMapper (json_register typ kind (json_mapper m)) bm).

Definition tmEventDataMapper : option Mapper :=
  m ← RegisterImplementation RNewBlock EventDataNameNewBlock EventDataTypeNewBlock NewMapper;
  m ← RegisterImplementation RNewBlockHeader EventDataNameNewBlockHeader EventDataTypeNewBlockHeader m;
  m ← RegisterImplementation RTx EventDataNameTx EventDataTypeTx m;
  m ← RegisterImplementation RRoundState EventDataNameRoundState EventDataTypeRoundState m;
  RegisterImplementation RVote EventDataNameVote EventDataTypeVote m.

(** ** Encoding *)

(** The uses of [encoding/json]: the text of a value and of an envelope, an envelope from its
    text, with [None] when its data was null, and a value of a type from its text, with what the
    interface holds after the call, [None] when a null has reset it.  [GoString] is the form
    [%#v] of a value. *)
Class EncodingJSON := {
  Marshal_value : EventData -> res error bytes;
  Marshal_envelope : gostring -> bytes -> res error bytes;
  Unmarshal_envelope : bytes -> res error (gostring * option bytes);
  Unmarshal_value : rtype -> bytes -> option EventData * option error;
  GoString : EventData -> gostring;
}.
Definition null : bytes := str "null".

Section json.
Context `{EncodingJSON} (m : jsonMapper).

Definition getTarget (kind : gostring) : res error rtype :=
  match kindToType m !! kind with
  | None => Err (EMsg (str "Unmarshaling into unknown type: " ++ kind))
  | Some typ => Ok typ
  end.

Definition getKind (obj : EventData) : res error gostring :=
  match typeToKind m !! TypeOf obj with
  | None => Err (EMsg (str "Marshalling from unknown type: " ++ GoString obj))
  | Some kind => Ok kind
  end.

(** [errors.WithStack] keeps the text of an error. *)
Definition ToJSON (data : option EventData) : res error bytes :=
  match data with
  | None => Ok null
  | Some data =>
      match Marshal_value data with
      | Err e => Err e
      | Ok raw =>
          match getKind data with
          | Err e => Err e
          | Ok kind => Marshal_envelope kind raw
          end
      end
  end.

(** A data that is null fails the type assertion, and a value that a null has reset the
    dereference: both are panics, [None]. *)
Definition FromJSON (data : bytes) : option (option EventData * option error) :=
  if decide (data = null) then Some (None, None) else
  match Unmarshal_envelope data with
  | Err e => Some (None, Some e)
  | Ok (kind, raw) =>
      raw ← raw;
      match getTarget kind with
      | Err e => Some (None, Some e)
      | Ok typ => let '(v, err) := Unmarshal_value typ raw in v ← v; Some (Some v, err)
      end
  end.

Definition MarshalJSON (tmr : TMEventData) : res error bytes := ToJSON tmr.

Definition UnmarshalJSON (data : bytes) (tmr : TMEventData) : option (TMEventData * option error) :=
  '(parsed, err) ← FromJSON data;
  Some (match err, parsed with None, Some p => Some p | _, _ => tmr end, err).
End json.

(** ** The registered types *)

(** The two tables are inverse to each other. *)
Definition json_wf (m : jsonMapper) : Prop := forall k t, kindToType m !! k = Some t <-> typeToKind m !! t = Some k.

Lemma json_register_wf typ kind m : json_wf m -> kindToType m !! kind = None -> typeToKind m !! typ = None ->
  json_wf (json_register typ kind m).
Proof.
  intros Hm Hk Ht k t. cbn. rewrite !lookup_insert_Some, (Hm k t). split; intros [[-> ->]|[Hne E]]; auto; right;
    (split; [|exact E]); intros <-; [rewrite E in Ht|apply Hm in E; rewrite E in Hk]; discriminate.
Qed.

(** go-wire's tables after a registration that does not panic. *)
Definition info_wf (i : TypeInfo) : Prop := forall t b, TypeToByte i !! t = Some b -> ByteToType i !! b = Some t.

Lemma register_types_ok ctypes i : info_wf i -> NoDup ctypes.*2 -> Forall (fun c => c.2 <> 0) ctypes ->
  (forall b, b ∈ ctypes.*2 -> ByteToType i !! b = None) ->
  exists i', register_types ctypes i = Some i' /\ info_wf i' /\ (forall b t, (t, b) ∈ ctypes -> ByteToType i' !! b = Some t) /\
    forall b t, ByteToType i !! b = Some t -> ByteToType i' !! b = Some t.
Proof.
  revert i. induction ctypes as [|[t b] cs IH]; intros i Hi Hd Hz Hf; cbn.
  { exists i. split_and!; try done. intros b t Hin. by apply elem_of_nil in Hin. }
  cbn in Hd. apply list.NoDup_cons in Hd as [Hb Hd]. apply list.Forall_cons in Hz as [Hz Hzs]. cbn in Hz.
  rewrite (proj2 (Z.eqb_neq _ _) Hz). pose proof (Hf b ltac:(left)) as Hfb.
  rewrite Hfb, bool_decide_eq_false_2 by (intros [? [=]]).
  destruct (IH (mkTypeInfo (<[b := t]> (ByteToType i)) (<[t := b]> (TypeToByte i)))) as (i' & -> & Hi' & Hin & Hsub); cbn.
  - intros t' b'. cbn. intros [[-> ->]|[Hne E]]%lookup_insert_Some; [apply lookup_insert_eq|].
    rewrite lookup_insert_ne; [by apply Hi|]. intros <-. apply Hi in E. congruence.
  - done.
  - done.
  - intros b' Hb'. rewrite lookup_insert_ne by (intros <-; done). apply Hf. by right.
  - cbn in Hsub. exists i'. split_and!; [done..| |].
    + intros b' t' [[= -> ->]|Hc]%elem_of_cons; [|by apply Hin]. apply Hsub, lookup_insert_eq.
    + intros b' t' E. apply Hsub. rewrite lookup_insert_ne; [done|]. intros <-. congruence.
Qed.

(** The registrations of the program succeed, and give each of the five types one name and one
    byte, those of the constants. *)
Definition event_types : list (rtype * gostring * Z) :=
  [(RNewBlock, EventDataNameNewBlock, EventDataTypeNewBlock); (RNewBlockHeader, EventDataNameNewBlockHeader, EventDataTypeNewBlockHeader);
   (RTx, EventDataNameTx, EventDataTypeTx); (RRoundState, EventDataNameRoundState, EventDataTypeRoundState);
   (RVote, EventDataNameVote, EventDataTypeVote)].

Fixpoint register_all (l : list (rtype * gostring * Z)) (m : Mapper) : option Mapper :=
  match l with
  | [] => Some m
  | (typ, kind, b) :: l => m ← RegisterImplementation typ kind b m; register_all l m
  end.

(** Registrations under different names of different types keep the tables inverse. *)
Lemma register_all_json l m m' : register_all l m = Some m' -> json_wf (json_mapper m) ->
  NoDup (fst <$> l.*1) -> NoDup (snd <$> l.*1) ->
  (forall t, t ∈ fst <$> l.*1 -> typeToKind (json_mapper m) !! t = None) ->
  (forall k, k ∈ snd <$> l.*1 -> kindToType (json_mapper m) !! k = None) -> json_wf (json_mapper m').
Proof.
  revert m. induction l as [|[[t k] b] l IH]; intros m; cbn; [intros [= <-]; done|].
  intros E Hm [Ht Hts]%list.NoDup_cons [Hk Hks]%list.NoDup_cons Hft Hfk.
  unfold RegisterImplementation in E. destruct (binary_register _ _ _) as [bm|]; cbn in E; [|discriminate].
  refine (IH _ E _ Hts Hks _ _); cbn.
  - apply json_register_wf; [done|apply Hfk; left|apply Hft; left].
  - intros t' Ht'. rewrite lookup_insert_ne by (intros <-; done). apply Hft. by right.
  - intros k' Hk'. rewrite lookup_insert_ne by (intros <-; done). apply Hfk. by right.
Qed.

Lemma newJsonMapper_wf : json_wf newJsonMapper.
Proof. intros k t. cbn. rewrite !lookup_empty. split; discriminate. Qed.

Lemma event_mapper : exists m i, tmEventDataMapper = Some m /\ registered_as (binary_mapper m) = Some i /\
  json_wf (json_mapper m) /\ info_wf i /\
  Forall (fun e => typeToKind (json_mapper m) !! e.1.1 = Some e.1.2 /\ kindToType (json_mapper m) !! e.1.2 = Some e.1.1 /\
    ByteToType i !! e.2 = Some e.1.1 /\ TypeToByte i !! e.1.1 = Some e.2) event_types.
Proof.
  destruct (register_types_ok ((fun e => (e.1.1, e.2)) <$> event_types) (mkTypeInfo ∅ ∅)) as (i & Ei & Hi & _).
  { intros t b. cbn. rewrite lookup_empty. discriminate. }
  { apply (bool_decide_eq_true_1 (NoDup _)). vm_compute. reflexivity. }
  { repeat constructor; discriminate. }
  { intros b _. apply lookup_empty. }
  destruct tmEventDataMapper as [m|] eqn:E; [|vm_compute in E; discriminate].
  assert (registered_as (binary_mapper m) = Some i) as Er.
  { change (RegisterInterface ((fun e => (e.1.1, e.2)) <$> event_types) = Some i) in Ei. rewrite <- Ei.
    vm_compute in E. injection E as <-. vm_compute. reflexivity. }
  exists m, i. split_and!; [done..| |done|].
  - refine (register_all_json event_types NewMapper m _ newJsonMapper_wf _ _ _ _).
    + rewrite <- E. vm_compute. reflexivity.
    + apply (bool_decide_eq_true_1 (NoDup _)). vm_compute. reflexivity.
    + apply (bool_decide_eq_true_1 (NoDup _)). vm_compute. reflexivity.
    + intros t _. apply lookup_empty.
    + intros k _. apply lookup_empty.
  - vm_compute in E. injection E as <-. vm_compute in Ei. injection Ei as <-. repeat constructor; vm_compute; reflexivity.
Qed.

(** ** Round trip *)

(** The values whose JSON form keeps everything: ASCII texts and numbers of their widths. *)
Definition ascii (s : gostring) : Prop := Forall (fun b => 0 <= b < 128) s.
Definition data_ok (d : EventData) : Prop :=
  match d with
  | DTx e => - 2 ^ 63 <= tx_Height e < 2 ^ 63 /\ bytes_ok (tx_Data e) /\ ascii (tx_Log e) /\ - 2 ^ 31 <= tx_Code e < 2 ^ 31 /\ ascii (tx_Error e)
  | DRoundState e => - 2 ^ 63 <= rs_Height e < 2 ^ 63 /\ - 2 ^ 63 <= rs_Round e < 2 ^ 63 /\ ascii (rs_Step e)
  | DNewBlock | DNewBlockHeader | DVote => True
  | DWrapped _ | DOther _ => False
  end.

(** What [encoding/json] documents: a structure becomes an object, which its type reads back, and
    an envelope keeps the texts put into it. *)
Class EncodingJSONLaws `{EncodingJSON} := {
  value_roundtrip d : data_ok d -> exists raw, Marshal_value d = Ok raw /\ Unmarshal_value (TypeOf d) raw = (Some d, None);
  envelope_roundtrip d raw kind : data_ok d -> Marshal_value d = Ok raw -> ascii kind -> exists bz,
    Marshal_envelope kind raw = Ok bz /\ bz <> null /\ Unmarshal_envelope bz = Ok (kind, Some raw);
}.

Section roundtrip.
Context `{EncodingJSONLaws} (m : jsonMapper).

(** A registered value is read back from its text, whatever the wrapper held. *)
Lemma FromJSON_ToJSON d kind : json_wf m -> data_ok d -> typeToKind m !! TypeOf d = Some kind -> ascii kind ->
  exists bz, ToJSON m (Some d) = Ok bz /\ FromJSON m bz = Some (Some d, None).
Proof.
  intros Hm Hd Hk Ha. destruct (value_roundtrip d Hd) as (raw & Er & Eu).
  destruct (envelope_roundtrip d raw kind Hd Er Ha) as (bz & Eb & Hn & Ee).
  exists bz. unfold ToJSON, FromJSON, getKind, getTarget. rewrite Er, Hk, Eb, decide_False, Ee by done. cbn.
  rewrite (proj2 (Hm _ _) Hk), Eu. done.
Qed.

(** An empty wrapper is written as null; reading null keeps what the wrapper held. *)
Lemma null_keeps tmr : MarshalJSON m None = Ok null /\ UnmarshalJSON m null tmr = Some (tmr, None).
Proof. unfold UnmarshalJSON, FromJSON. rewrite decide_True by done. done. Qed.

(** A reading that fails leaves the wrapper as it was. *)
Lemma UnmarshalJSON_error data tmr tmr' e : UnmarshalJSON m data tmr = Some (tmr', Some e) -> tmr' = tmr.
Proof. unfold UnmarshalJSON. destruct (FromJSON m data) as [[p [e'|]]|]; cbn; [|destruct p|]; intros [=]; done. Qed.

(** A panic is a null in the place of the data or of the value. *)
Lemma UnmarshalJSON_panics data tmr : UnmarshalJSON m data tmr = None <->
  data <> null /\ exists kind raw, Unmarshal_envelope data = Ok (kind, raw) /\
    (raw = None \/ exists r typ, raw = Some r /\ getTarget m kind = Ok typ /\ (Unmarshal_value typ r).1 = None).
Proof.
  unfold UnmarshalJSON, FromJSON. case_decide as Hn; [split; [done|intros []; done]|].
  destruct (Unmarshal_envelope data) as [[kind [r|]]|e] eqn:E; cbn.
  - destruct (getTarget m kind) as [typ|e] eqn:Et; cbn.
    + destruct (Unmarshal_value typ r) as [[v|] err] eqn:Eu; cbn; (split; [|]); try done.
      * intros (_ & ? & ? & [= <- <-] & [?|(? & ? & [= <-] & Et' & Hv)]); [done|]. rewrite Et in Et'. injection Et' as <-.
        rewrite Eu in Hv. done.
      * intros _. split; [done|]. exists kind, (Some r). split; [done|]. right. exists r, typ. rewrite Eu. done.
    + split; [done|]. intros (_ & ? & ? & [= <- <-] & [?|(? & ? & [= <-] & Et' & _)]); [done|]. congruence.
  - split; [|done]. intros _. split; [done|]. exists kind, None. auto.
  - split; [done|]. intros (_ & ? & ? & ? & _). done.
Qed.

(** What is not registered is not written: a wrapper in a wrapper, for one. *)
Lemma ToJSON_unregistered d raw : Marshal_value d = Ok raw -> typeToKind m !! TypeOf d = None ->
  ToJSON m (Some d) = Err (EMsg (str "Marshalling from unknown type: " ++ GoString d)).
Proof. intros E Ht. unfold ToJSON, getKind. rewrite E, Ht. done. Qed.
End roundtrip.

(** The data of the events of this program is read back as it was written. *)
Theorem event_data_roundtrip `{EncodingJSONLaws} d tmr : data_ok d -> exists m bz,
  tmEventDataMapper = Some m /\ MarshalJSON (json_mapper m) (Some d) = Ok bz /\
  UnmarshalJSON (json_mapper m) bz tmr = Some (Some d, None).
Proof.
  intros Hd. destruct event_mapper as (m & i & Em & _ & Hm & _ & Hall).
  assert (exists kind, typeToKind (json_mapper m) !! TypeOf d = Some kind /\ ascii kind) as (kind & Hk & Ha).
  { repeat (apply Forall_cons_1 in Hall as [(? & _) Hall]). cbn in *.
    destruct d; try done; eexists; (split; [eassumption|]);
      apply (bool_decide_eq_true_1 (Forall _ _)); vm_compute; reflexivity. }
  destruct (FromJSON_ToJSON _ d kind Hm Hd Hk Ha) as (bz & Ew & Er). exists m, bz. split; [done|]. split; [exact Ew|].
  unfold UnmarshalJSON. rewrite Er. done.
Qed.

(** Functions with the laws: numbers that stand for the values and the envelopes. *)
Definition ex_value (d : EventData) : res error bytes :=
  match d with
  | DTx e => Ok [Zpos (encode (tx_Height e, tx_Data e, tx_Log e, tx_Code e, tx_Error e))]
  | DRoundState e => Ok [Zpos (encode (rs_Height e, rs_Round e, rs_Step e))]
  | DNewBlock | DNewBlockHeader | DVote => Ok []
  | DWrapped _ | DOther _ => Err (EMsg [])
  end.
Definition ex_read (typ : rtype) (raw : bytes) : option EventData * option error :=
  match typ, raw with
  | RTx, [Zpos p] =>
      match decode p : option (Z * bytes * bytes * Z * bytes) with
      | Some (h, d, l, c, e) => (Some (DTx (mkEventDataTx h d l c e)), None)
      | None => (Some DNewBlock, Some (EMsg []))
      end
  | RRoundState, [Zpos p] =>
      match decode p : option (Z * Z * bytes) with
      | Some (h, r, s) => (Some (DRoundState (mkEventDataRoundState h r s)), None)
      | None => (Some DNewBlock, Some (EMsg []))
      end
  | RNewBlock, [] => (Some DNewBlock, None)
  | RNewBlockHeader, [] => (Some DNewBlockHeader, None)
  | RVote, [] => (Some DVote, None)
  | _, _ => (None, Some (EMsg []))
  end.
#[local] Instance ex_json : EncodingJSON := {
  Marshal_value := ex_value;
  Marshal_envelope kind raw := Ok [Zpos (encode (kind, raw))];
  Unmarshal_envelope bz :=
    match bz with
    | [Zpos p] => match decode p : option (bytes * bytes) with Some (k, r) => Ok (k, Some r) | None => Err (EMsg []) end
    | _ => Err (EMsg [])
    end;
  Unmarshal_value := ex_read;
  GoString _ := [];
}.
#[local] Instance ex_json_laws : EncodingJSONLaws.
Proof.
  split.
  - intros [| |[]|[]| | |]; try done; intros _; (eexists; split; [reflexivity|]); try reflexivity;
      unfold Unmarshal_value, ex_json, ex_read, TypeOf, ex_value; rewrite decode_encode; reflexivity.
  - intros d raw kind _ _ _. eexists. split; [reflexivity|]. split; [discriminate|].
    unfold Unmarshal_envelope, ex_json. rewrite decode_encode. reflexivity.
Qed.

Lemma event_data_roundtrip_witness : exists m bz, tmEventDataMapper = Some m /\
  MarshalJSON (json_mapper m) (Some (DRoundState (mkEventDataRoundState 7 1 (str "Propose")))) = Ok bz /\
  UnmarshalJSON (json_mapper m) bz None = Some (Some (DRoundState (mkEventDataRoundState 7 1 (str "Propose"))), None).
Proof.
  apply (event_data_roundtrip (DRoundState (mkEventDataRoundState 7 1 (str "Propose"))) None).
  cbn. repeat split; try lia. apply (bool_decide_eq_true_1 (Forall _ _)). vm_compute. reflexivity.
Defined.

(** The null data of an envelope makes the reading panic. *)
Lemma null_data_panics `{EncodingJSON} m kind data tmr : data <> null -> Unmarshal_envelope data = Ok (kind, None) ->
  UnmarshalJSON m data tmr = None.
Proof. intros Hn E. apply UnmarshalJSON_panics. split; [exact Hn|]. exists kind, None. auto. Qed.
