(* ===== verification/Crypto.v ===== *)
(** * Hash functions

    Models [crypto/crypto.go] over the SHA3-256 of Hash.v: a hasher is the bytes written to it
    so far.  [Ripemd160], of another package, is a parameter. *)
From S2P Require Import Prelude Errors GoLib Hash AddrBook Common.

(** ** A hasher *)
Definition hasher : Type := bytes.
Definition New256 : hasher := [].
Definition hasher_Write (b : bytes) (d : hasher) : hasher := d ++ b.
Definition hasher_Reset (d : hasher) : hasher := [].
(** [Sum] appends the hash to its argument and leaves the hasher as it is. *)
Definition hasher_Sum `{Sha3} (b : bytes) (d : hasher) : bytes := b ++ Sum256 d.

Section crypto.
Context {SH : Sha3} (ripemd160 : bytes -> bytes).

Definition DoubleSha256 (b : bytes) : bytes :=
  let d := hasher_Write b New256 in
  let sum := hasher_Sum [] d in
  hasher_Sum [] (hasher_Write sum (hasher_Reset d)).

Definition Sha256 (data : list bytes) : bytes := hasher_Sum [] (foldl (fun d b => hasher_Write b d) New256 data).

(** [d.Sum(h[:0])] appends in place as long as the hash fits in the array of [h]; what does not
    fit is in a new array, which is dropped. *)
Definition Sha256Hash (data : list bytes) : bytes :=
  let h := replicate (Z.to_nat HashLength) 0 in
  let sum := Sum256 (foldl (fun d b => hasher_Write b d) New256 data) in
  if #sum <=? HashLength then sum ++ drop (length sum) h else h.

Definition Sha3_ (data : list bytes) : bytes := Sha256 data.
Definition Sha3Hash (data : list bytes) : bytes := Sha256Hash data.
Definition Ripemd160 (data : bytes) : bytes := ripemd160 ([] ++ data).
End crypto.

(** ** Properties *)
Section crypto_properties.
Context `{SL : Sha3Laws}.

Lemma written data : forall d : hasher, foldl (fun d b => hasher_Write b d) d data = d ++ mjoin data.
Proof.
  induction data as [|b data IH]; intros d; cbn; [by rewrite app_nil_r|]. rewrite IH. unfold hasher_Write. by rewrite <- app_assoc.
Qed.

(** What is hashed is the concatenation: two lists of the same bytes, cut in different places,
    have the same hash. *)
Lemma Sha256_concat data data' : mjoin data = mjoin data' -> Sha256 data = Sha256 data'.
Proof. unfold Sha256. rewrite !written. by intros ->. Qed.

(** The array is filled with the whole hash. *)
Lemma Sha256Hash_Sha256 data : Sha256Hash data = Sha256 data /\ #(Sha256Hash data) = HashLength.
Proof.
  unfold Sha256Hash, Sha256, hasher_Sum. rewrite !written. cbn [app]. set (x := New256 ++ mjoin data).
  assert (#(Sum256 x) = 32) as Hl by (unfold zlen; by rewrite Sum256_length). rewrite Hl. change (32 <=? HashLength) with true. cbn iota.
  rewrite drop_ge by (rewrite length_replicate; unfold zlen in Hl; change (Z.to_nat HashLength) with 32%nat; lia).
  rewrite app_nil_r. done.
Qed.

(** The second hash is of the first hash alone: this is the function by which the address book
    chooses its buckets. *)
Lemma DoubleSha256_twice b : DoubleSha256 b = Sha256 [Sha256 [b]] /\ DoubleSha256 b = AddrBook.DoubleSha256 b.
Proof. done. Qed.
End crypto_properties.
