(* ===== verification/Node.v ===== *)
(** * The node

    Models [node/node.go] and [cmd/run_node.go]: the node over its chain and its sync manager,
    from the database and the configuration to the start of the network.  What is in an empty
    store after the first start is the genesis block of Genesis.v as it is read back; both the
    first start and every later one build the protocol reactor over it.  [cmn.Exit] is the
    value [Err] of a start, and the log file, the lock of the data directory and the flags of
    the command are modelled up to the calls of the operating system. *)
From S2P Require Import Prelude Errors GoLib Encoding Hash Merkle TxTypes BlockTypes Consensus ChainState MapTx Chain NetAddress NodeInfo Resolve Config Connection Switch Handshake Dispatch Upnp Listener Genesis SyncManager.

(** ** consensus/general.go: the active network *)
(** [initActiveNetParams]; [None] is the exit of the program.  Nothing calls it. *)
Definition initActiveNetParams (cfg : Config) : option Params := NetParams (ChainID (Base cfg)).

(** [strings.ToLower] is Unicode's outside of ASCII. *)
Definition IsBech32SegwitPrefix `{Unicode} (prefix : gostring) (params : Params) : bool :=
  let prefix := ToLower prefix in
  bool_decide (prefix = Bech32HRPSegwit params ++ str "1").

(** ** node.go *)
Definition webAddress : gostring := str "http://127.0.0.1:9888".
Definition maxNewBlockChSize : Z := 1024.

Definition errDataDir : error := EMsg (str "datadir already used by another process").
(** [flock_New] is what locking the file at the path answers. *)
Definition lockDataDirectory (flock_New : gostring -> option error) (cfg : Config) : option error :=
  match flock_New (Join [RootDir (Base cfg); str "LOCK"]) with
  | Some _ => Some errDataDir
  | None => None
  end.

(** Where the log goes: to standard error, unless a file is named and can be opened. *)
Inductive log_output := LogStderr | LogFileAt (name : gostring).
Definition initLogFile (open_file : gostring -> option error) (cfg : Config) (out : log_output) : log_output :=
  if bool_decide (LogFile (Base cfg) = []) then out
  else match open_file (LogFile (Base cfg)) with
       | None => LogFileAt (LogFile (Base cfg))
       | Some _ => out
       end.

(** What the packages of the repository call and it does not contain: the order of the stored
    headers, the application of a block to an empty view, the node of the main chain at a
    height and the store's reading of a block through its cache. *)
Class NodeOps (BcTx : Type) := {
  iterate : gmap bytes bytes -> list bytes;
  apply_block : Block BcTx -> TransactionStatus -> res error (list (bytes * bytes));
  NodeByHeight : BlockIndex -> Z -> option nat;
  cache_lookup : gmap bytes bytes -> Hash -> res error (option (Block BcTx));
  tx_ID : BcTx -> Hash;
}.

Section node.
Context `{RT : Runtime, SH : Sha3, EO : EntryOps, BC : BlockCodec BcTx, SO : !StoreOps, NO : !NodeOps BcTx}.
Context {NL : NodeLib} {UN : Unicode} {HT : Http} {RS : Resolver} {book : Type}.

Record Node := mkNode { n_config : Config; syncManager : SyncManager book }.

(** [config.GenesisBlock] is made where the store is empty. *)
Definition genesis_init (db : gmap bytes bytes) : option (option error * gmap bytes bytes) :=
  genesisBlock ← GenesisBlock codec_MapTx tx_ID;
  initChainStatus genesisBlock apply_block db.

(** The genesis block that the reactor reads: its error is dropped, so that the block is nil. *)
Definition chain_genesis (c : chain0) (db : gmap bytes bytes) : option (option (Block BcTx)) :=
  r ← GetBlockByHeight (NodeByHeight (c_index c)) (cache_lookup db) 0 (node_heap (c_nodes c));
  Some (match r with Ok b => b | Err _ => None end).

(** The error of [NewSyncManager], which is always nil, is dropped. *)
Definition NewNode (fuel : nat) (env : lenv) (cfg : Config) (GitCommit : gostring) (key : bytes) (b : book)
    (trustHistoryDB : gmap gostring bytes) (coreDB : gmap bytes bytes)
    : Upnp.outcome (res error (Node * chain0 * gmap bytes bytes)) :=
  r ← or_panic (NewChain genesis_init iterate coreDB);
  match r with
  | Err err => Returns (Err err)
  | Ok (chain, coreDB) =>
      genesisBlock ← or_panic (chain_genesis chain coreDB);
      syncManager ← NewSyncManager fuel env cfg GitCommit key b trustHistoryDB genesisBlock;
      Returns (Ok (mkNode cfg syncManager, chain, coreDB))
  end.

(** [SyncManager.netStart]: the service of the switch, started unless it runs.  [it] is the
    iteration over the reactors with the outcome of each one's start, [n] counts the listeners. *)
Definition netStart (it : list (gostring * option error)) (n : nat) (svc : service) : service * option error * list sw_call :=
  let '(err, calls) := sw_OnStart it n in
  let '(svc, go) := Start err svc in
  if go : bool then (svc, err, calls) else (svc, None, []).

(** [OnStart] of the node and [SyncManager.Start]: a goroutine starts the switch, and its error is lost. *)
Definition node_OnStart (it : list (gostring * option error)) (n : nat) (svc : service) (nd : Node) : service * list sw_call :=
  if VaultMode (Base (n_config nd)) then (svc, [])
  else let '(svc, _, calls) := netStart it n svc in (svc, calls).
End node.
Arguments Node {NL} book.

(** ** Starting over a chain *)
(** What the code relies on: [NodeByHeight] reads the slice of the main chain, and a block of the
    store is found through the cache. *)
Class NodeLaws `{RT : Runtime, SH : Sha3, BC : BlockCodec BcTx, NO : !NodeOps BcTx} := {
  NodeByHeight_law bi h n : 0 <= h < mc_len bi -> mainChain bi !! Z.to_nat h = Some (Some n) -> NodeByHeight bi h = Some n;
  cache_law db hash b : GetBlock db hash = Some (Some b) -> cache_lookup db hash = Ok (Some b);
  iterate_law db : exists it, iterate db = snd <$> it /\ it ≡ₚ map_to_list (filter under_headers db);
}.

Section start.
Context `{RT : Runtime, SL : Sha3Laws, EO : EntryOps, BC : BlockCodec BcTx, !BlockCodecLaws, SO : !StoreOps, !StoreLaws}.
Context `{NO : !NodeOps BcTx, !NodeLaws}.
Context {NL : NodeLib} {UN : Unicode} {HT : Http} {RS : Resolver} {book : Type}.

(** The node is that of its sync manager over a genesis block. *)
Definition node_over (fuel : nat) (env : lenv) (cfg : Config) (GitCommit : gostring) (key : bytes) (b : book)
    (trustHistoryDB : gmap gostring bytes) (genesis : Block BcTx) (c : chain0) (db : gmap bytes bytes)
    : Upnp.outcome (res error (Node book * chain0 * gmap bytes bytes)) :=
  sm ← NewSyncManager fuel env cfg GitCommit key b trustHistoryDB (Some genesis);
  Returns (Ok (mkNode cfg sm, c, db)).

Lemma chain_genesis_ok c db root nd (block : Block BcTx) :
  mainChain (c_index c) !! 0%nat = Some (Some root) -> 0 < mc_len (c_index c) ->
  c_nodes c !! root = Some nd -> GetBlock db (n_Hash nd) = Some (Some block) -> chain_genesis c db = Some (Some block).
Proof.
  intros Hm Hl Hn Hb. unfold chain_genesis, GetBlockByHeight. rewrite (NodeByHeight_law _ 0 root) by (done || lia).
  rewrite node_heap_lookup, Hn. cbn [mbind option_bind]. by rewrite (cache_law _ _ _ Hb).
Qed.

Lemma NewNode_over fuel env cfg GitCommit key b tdb db0 c db block :
  NewChain genesis_init iterate db0 = Some (Ok (c, db)) -> chain_genesis c db = Some (Some block) ->
  NewNode fuel env cfg GitCommit key (b : book) tdb db0 = node_over fuel env cfg GitCommit key b tdb block c db.
Proof. intros Hc Hg. unfold NewNode. rewrite Hc. cbn [or_panic mbind outcome_bind]. by rewrite Hg. Qed.

(** A later start, over a chain that has grown and forked. *)
Theorem node_restart fuel env cfg GitCommit key (b : book) tdb db hs i tip height g block :
  loadBlockStoreStateJSON db = Some (mkStoreState height (Some (BlockHeader_Hash tip))) ->
  Forall2 (fun v bh => BlockHeader_UnmarshalText v = Ok bh) (iterate db) hs ->
  rooted hs -> NoDup (BlockHeader_Hash <$> hs) -> hs !! i = Some tip ->
  hs !! 0%nat = Some g -> GetBlock db (BlockHeader_Hash g) = Some (Some block) ->
  exists c, c_bestNode c = i /\
    NewNode fuel env cfg GitCommit key b tdb db = node_over fuel env cfg GitCommit key b tdb block c db.
Proof.
  intros Hst Hv Hr Hd Htip Hg Hblock.
  destruct (restart_rebuilds genesis_init iterate db hs i tip height Hst Hv Hr Hd Htip) as (c & Hc & Hi & Ht & Hlen & Hs & Hn).
  exists c. split; [done|]. apply NewNode_over; [done|].
  destruct (shows_root _ _ _ Ht Hs) as (n & nd & Hm & Hnd & Hpar & Hl). rewrite node_heap_lookup in Hnd.
  assert (is_Some (hs !! n)) as [bh Hbh] by (apply lookup_lt_is_Some_2; rewrite <- Hlen; by eapply lookup_lt_Some).
  destruct (Hn n bh Hbh) as (_ & nd' & Hnd' & Hof). assert (nd' = nd) as -> by congruence.
  destruct n as [|n]; [|destruct Hof as (_ & _ & j & ? & _ & Hj & _); congruence].
  assert (bh = g) as -> by congruence. destruct Hof as (Hh & _). by eapply chain_genesis_ok; [..|by rewrite Hh].
Qed.

(** C36: Where the genesis block can be applied to an empty view, the first start on an empty store makes
    it and a second start, under any configuration, finds the same chain; both go on to build the
    sync manager over the same genesis block, the one that is read back, whose header, and with it the
    hash, is that of the block that was made.  Neither exits with an error, and where the sync manager is built both
    nodes are; that can still panic, as without a P2P configuration or with a listen address
    that cannot be used, or wait for a gateway. *)
Theorem node_start (t t' : BcTx) utxo :
  codec_MapTx genesis_data = Some t -> codec_MapTx genesis_sized = Some t' ->
  bytes_ok (enc_commit (mkBlockCommitment (readDigest (leafPrefix ++ Byte32 (tx_ID t))) (readDigest (leafPrefix ++ str "{}")))) ->
  loadBlockStoreStateJSON ∅ = None ->
  (forall h, BlockHeader_ok h -> exists bz, Chain.json_Marshal (mkStoreState 0 (Some (BlockHeader_Hash h))) = Ok bz /\
    forall db, loadBlockStoreStateJSON (<[blockStoreKey := bz]> db) = Some (mkStoreState 0 (Some (BlockHeader_Hash h)))) ->
  (forall made ts, GenesisBlock codec_MapTx tx_ID = Some made ->
    init_status (length (Transactions made)) 0 NewTransactionStatus = Some ts -> apply_block made ts = Ok utxo) ->
  Forall (fun w => ~ under_headers w /\ w.1 <> blockStoreKey /\ ~ blockPrefix `prefix_of` w.1) utxo ->
  exists made block c db,
    GenesisBlock codec_MapTx tx_ID = Some made /\ b_BlockHeader block = b_BlockHeader made /\
    map tx_TxData (Transactions block) = [genesis_sized] /\
    forall fuel env cfg GitCommit key (b : book) tdb,
      NewNode fuel env cfg GitCommit key b tdb ∅ = node_over fuel env cfg GitCommit key b tdb block c db /\
      NewNode fuel env cfg GitCommit key b tdb db = node_over fuel env cfg GitCommit key b tdb block c db /\
      (forall err, node_over fuel env cfg GitCommit key b tdb block c db <> Returns (Err err)) /\
      (forall sm, NewSyncManager fuel env cfg GitCommit key b tdb (Some block) = Returns sm ->
        node_over fuel env cfg GitCommit key b tdb block c db = Returns (Ok (mkNode cfg sm, c, db))).
Proof.
  intros Ht Ht' Hc Hnone Hload Happly Hu.
  destruct (genesis_stored tx_ID t t' Ht Ht' Hc) as (made & text & Hmade & Htext & Hread & _).
  pose proof (GenesisBlock_made codec_MapTx tx_ID t Ht) as Hm. rewrite Hmade in Hm. injection Hm as Em.
  set (block := mkBlock (b_BlockHeader made) [mkTx genesis_sized t']) in *.
  destruct (NewChain_fresh_text made block text apply_block iterate utxo Htext Hread) as (c & db & Hn & _ & Htree & Hs & Hlen & (nd & Hnd & Hh) & Hb);
    [rewrite Em; apply genesis_header_ok|by rewrite Em|done|apply Hload; rewrite Em; apply genesis_header_ok|apply iterate_law|by intros ts; apply Happly|done|].
  assert (NewChain genesis_init iterate ∅ = Some (Ok (c, db))) as Hfresh.
  { rewrite <- Hn. unfold NewChain, genesis_init. rewrite Hnone, Hmade. done. }
  exists made, block, c, db. split; [done|]. split; [done|]. split; [done|]. intros fuel env cfg GitCommit key b tdb.
  assert (chain_genesis c db = Some (Some block)) as Hg.
  { destruct (shows_root _ _ _ Htree Hs) as (n & nd' & Hm & Hnd' & _ & Hpos). rewrite node_heap_lookup in Hnd'.
    assert (n = 0%nat) as -> by (apply lookup_lt_Some in Hnd'; lia). assert (nd' = nd) as -> by congruence.
    eapply chain_genesis_ok; [done..|]. by rewrite Hh. }
  split_and!; [by apply NewNode_over|apply NewNode_over; [by eapply NewChain_again|done]| |].
  - intros err. unfold node_over. by destruct (NewSyncManager _ _ _ _ _ _ _ _).
  - intros sm Hsm. unfold node_over. by rewrite Hsm.
Qed.
End start.

(** ** The start of the network *)
Lemma sw_OnStart_ok it n : Forall (fun x => x.2 = None) it ->
  sw_OnStart it n = (None, map ReactorStart (it.*1) ++ map ListenerRoutine (seq 0 n)).
Proof.
  induction it as [|[name e] it IH]; intros Hf; [done|]. apply list.Forall_cons in Hf as [He Hf]. cbn in He. subst e.
  cbn [sw_OnStart]. by rewrite (IH Hf).
Qed.

Lemma sw_OnStart_fails it n : Exists (fun x => x.2 <> None) it ->
  exists e pre, sw_OnStart it n = (Some e, map ReactorStart pre) /\ pre `prefix_of` it.*1.
Proof.
  induction it as [|[name [e|]] it IH]; intros He; [by inversion He|exists e, [name]|].
  - split; [done|]. cbn. apply prefix_cons, prefix_nil.
  - apply List.Exists_cons in He as [He|He]; [done|]. destruct (IH He) as (e & pre & Hs & Hp). cbn [sw_OnStart]. rewrite Hs.
    exists e, (name :: pre). split; [done|]. cbn. by apply prefix_cons.
Qed.

(** A node that is not in vault mode starts all its reactors and then its listeners; when a
    reactor fails, the listeners and the reactors after it are not started, those before it are
    left running, and the node's own start has succeeded all the same.  In vault mode nothing
    is started. *)
Theorem node_starts `{NL : NodeLib} {book : Type} it n (nd : Node book) :
  let '(svc, calls) := node_OnStart it n NewBaseService nd in
  (VaultMode (Base (n_config nd)) = true -> calls = []) /\
  (VaultMode (Base (n_config nd)) = false ->
    (Forall (fun x => x.2 = None) it ->
      calls = map ReactorStart (it.*1) ++ map ListenerRoutine (seq 0 n) /\ IsRunning svc = true) /\
    (Exists (fun x => x.2 <> None) it ->
      (exists pre, pre `prefix_of` it.*1 /\ calls = map ReactorStart pre) /\ IsRunning svc = false)).
Proof.
  unfold node_OnStart. destruct (VaultMode _); [done|]. unfold netStart.
  destruct (sw_OnStart it n) as [err calls] eqn:E. destruct err; cbn; split; try done; intros _; split; intros H.
  - rewrite sw_OnStart_ok in E by done. done.
  - split; [|done]. destruct (sw_OnStart_fails it n H) as (e' & pre & Hs & Hp). rewrite E in Hs. injection Hs as _ ->. by exists pre.
  - rewrite sw_OnStart_ok in E by done. by injection E as <-.
  - destruct (sw_OnStart_fails it n H) as (e' & pre & Hs & Hp). rewrite E in Hs. done.
Qed.

(** *** The network's parameters *)
(** The parameters that the configuration would choose; the active ones are those of the main
    network whatever it says, since nothing calls this function. *)
Lemma initActiveNetParams_spec cfg : initActiveNetParams cfg = NetParams (ChainID (Base cfg)) /\
  (initActiveNetParams cfg = Some ActiveNetParams <-> ChainID (Base cfg) = str "mainnet").
Proof.
  split; [done|]. unfold initActiveNetParams, NetParams. repeat case_bool_decide; split; try done; congruence.
Qed.

(** A prefix in either case is one of the network's addresses if it is the human-readable part
    and the separator. *)
Lemma IsBech32SegwitPrefix_spec `{Unicode} prefix params : isASCII prefix = true ->
  IsBech32SegwitPrefix prefix params = true <-> map lower prefix = Bech32HRPSegwit params ++ str "1".
Proof. intros Ha. unfold IsBech32SegwitPrefix, ToLower. rewrite Ha. apply bool_decide_eq_true. Qed.

(** ** Concrete functions *)
Definition ex_node : NodeOps unit := {|
  iterate := fun db => snd <$> map_to_list (filter under_headers db);
  apply_block := fun b _ => if bh_Height (b_BlockHeader b) =? 0 then Ok [] else Err errNoBlock;
  NodeByHeight := fun bi h => if (0 <=? h) && (h <? mc_len bi) then mjoin (mainChain bi !! Z.to_nat h) else None;
  cache_lookup := fun db hash =>
    match @Chain.GetBlock sample_runtime pad32 unit plain_codec db hash with
    | Some (Some b) => Ok (Some b)
    | _ => Err errNoBlock
    end;
  tx_ID := fun _ => zeroHash;
|}.

Lemma ex_node_laws : @NodeLaws sample_runtime pad32 unit plain_codec ex_node.
Proof.
  split.
  - intros bi h n Hh Hm. cbn. assert ((0 <=? h) && (h <? mc_len bi) = true) as -> by (apply andb_true_iff; split; zbool; lia). by rewrite Hm.
  - intros db hash b Hb. cbn. by rewrite Hb.
  - intros db. eexists. split; reflexivity.
Qed.

Lemma ex_store_status h : BlockHeader_ok h -> let st := mkStoreState 0 (Some (@BlockHeader_Hash MapTx.ex_ops h)) in
  exists bz, @Chain.json_Marshal ex_store st = Ok bz /\ forall db, @loadBlockStoreStateJSON ex_store (<[blockStoreKey := bz]> db) = Some st.
Proof.
  intros Hh st. eexists. split; [reflexivity|]. intros db. cbn. rewrite lookup_insert_eq. cbn. rewrite drop_0.
  unfold st. do 3 f_equal. apply NewHash_Byte32. destruct Hh as (? & ? & ? & ? & ? & ?). unfold u63_ok, MaxInt63 in *. repeat split; cbn; lia.
Qed.

(** The node on an empty store, and then one of another network and key over what the first has
    left: their reactors hold the same genesis hash. *)
Lemma node_start_witness : exists n1 n2 c db,
  @NewNode sample_runtime pad32 MapTx.ex_ops unit plain_codec ex_store ex_node ex_lib ex_unicode ex_http one_resolver unit
    2 ex_lenv (ex_cfg (str "mainnet")) [] [4] tt ∅ ∅ = Returns (Ok (n1, c, db)) /\
  @NewNode sample_runtime pad32 MapTx.ex_ops unit plain_codec ex_store ex_node ex_lib ex_unicode ex_http one_resolver unit
    2 ex_lenv (ex_cfg (str "testnet")) [] [5] tt ∅ db = Returns (Ok (n2, c, db)) /\
  Reactor_ (str "PROTOCOL") (sw (syncManager n1)) = Reactor_ (str "PROTOCOL") (sw (syncManager n2)).
Proof.
  destruct (@node_start sample_runtime pad32 pad32_laws MapTx.ex_ops unit plain_codec plain_codec_laws ex_store ex_store_laws
    ex_node ex_node_laws ex_lib ex_unicode ex_http one_resolver unit tt tt []) as (made & block & c & db & _ & _ & _ & Hn).
  - reflexivity.
  - reflexivity.
  - apply bytes_okb_ok. vm_compute. reflexivity.
  - reflexivity.
  - exact ex_store_status.
  - intros made ts Hm _. vm_compute in Hm. injection Hm as <-. reflexivity.
  - constructor.
  - destruct (Hn 2%nat ex_lenv (ex_cfg (str "mainnet")) [] [4] tt ∅) as [H1 _].
    destruct (Hn 2%nat ex_lenv (ex_cfg (str "testnet")) [] [5] tt ∅) as (_ & H2 & _).
    eexists _, _, c, db. split; [rewrite H1; reflexivity|]. split; [rewrite H2; reflexivity|]. reflexivity.
Defined.
